(* ===== verification/_CoqProject ===== *)
-Q . S2P
Prelude.v
Geometry.v
Matrix.v
Picture.v
SkLayer.v
Animation.v
Canvas.v
Layer.v
Animate.v
Frames.v
Context.v
Lifecycle.v
Ownership.v
Text.v
Dump.v
Paint.v
PaintCalls.v
World.v
Sharing.v
Wellformed.v
