(* ===== verification/Prelude.v ===== *)
(** * Verification of the Android compositing layer tree (LayerAndroid)

    The program is [src/WebCore/platform/graphics/android/LayerAndroid.cpp]:
    one node class, [LayerAndroid], of a retained-mode scene tree.  Each node
    carries geometry, an opacity, a clip flag, a reference-counted recording
    ([SkPicture]) of its own drawing, a map of named animations and an ordered
    list of owned children.  Per frame the owner evaluates the animations and
    then paints the tree onto a canvas; trees are copied for the drawing
    thread, destroyed, and dumped as text for debugging.

    ** Files, in dependency order

    - [Prelude] (this file): the state monad in which the stateful methods
      are written and its notation (scope [sk_scope]), the model of C++
      [float] values and of the [(int)] cast, the development's tactics, the
      hint databases [sk] and [sk_rw], and the lemmas on lists and rationals the
      components share.
    - [Geometry]: [SkPoint], [SkSize], [SkRect], [SkLength], with equality up
      to [Qeq] and its [Proper] instances.
    - [Matrix]: the affine part of [SkMatrix] and the pre/post operations the
      painter calls; matrix equivalence, the monoid laws of concatenation.
    - [Picture]: the store of reference-counted recordings ([SkPicture],
      [SkRefCnt]): allocation, [SkSafeRef], [safeUnref].
    - [SkLayer]: the properties and setters a layer inherits from its base
      class.
    - [Animation]: the interface of an animation handle
      ([AndroidAnimation]: name, copy, evaluate) as a type class, the
      [KeyframesMap] operations of WTF's [HashMap] with the parameter
      [AddPolicy] for what [add] does with a key that is taken, and two
      concrete handles.
    - [Canvas]: the canvas the painter draws on: its save stack, the calls it
      receives and the display list it produces; [OpacityDrawFilter]
      (lines 28-44 of the source).
    - [Layer]: the node record, the tree with its induction principle, the
      constructor, the setters, [addAnimation], [removeAnimation],
      [hasAnimations], [setDrawsContent], [setMaskLayer], [setMasksToBounds],
      [setBackgroundColor].
    - [Animate]: both overloads of [evaluateAnimations] (lines 87-92 and
      103-120) on the debug counters, and [animated], the traversal as a
      function of the tree and the time.
    - [Frames]: the loop of the caller that evaluates while an animation
      runs, with fuel, and the class [AnimationEnds] of handles with a
      deadline.
    - [Context]: [prepareContext] and [recordContext] on a node and the
      picture store.
    - [Lifecycle]: the copy constructor (lines 57-75), the destructor
      (lines 77-83) and [removeChildren] on the store and the instance
      counter; [cloned], the copy as a function; [tree_refs], the
      references a tree holds.
    - [Ownership]: [prepareTree], what a paint does to the tree and the
      store, the canvas left out.
    - [Text]: the text of [fprintf]'s conversions [%d], [%.Nf], [%*s], the
      characters of a class kept in order, and the nesting of braces and
      brackets with its decision procedure.
    - [Dump]: the write helpers (lines 354-401) and [dumpLayers] (lines
      403-439) on the characters written, and [dumpLines], the lines of a
      dump as a function of the tree.
    - [Paint]: [setClip], [calcPosition], [paintMe], [paintChildren], [draw]
      on the painter's state (picture store, canvas, debug counters), and
      [render], the display list of a tree as a function of the tree.
    - [PaintCalls]: the saves and restores in the log of the canvas.
    - [World]: the transition system of the calls the embedder makes on
      its trees, each on a node named by a path; the accounts of a world
      and the methods that keep them.
    - [Sharing]: the preorder [keeps] on picture stores (no picture of the
      first has other content in the second) and the steps of the world in
      it.
    - [Wellformed]: the interface [NodeInvariant] of the properties of a
      node's root flag, recording and animations that every write keeps,
      and its two instances.

    ** How the model corresponds to the code

    - A C++ [float] is an exact rational ([Q]); rounding of binary32 is not
      modelled.  A conversion [(int) f] is [Qtrunc], truncation toward zero.
      Comparisons are the boolean tests [Qgtb], [Qle_bool], [Qeq_bool].
    - A pointer to a reference-counted [SkPicture] is an [option] of a key of
      the picture store, a [gmap] from keys to pictures with their counts;
      the null pointer is [None].  Keys are never reused, so two pictures
      are the same object exactly when their keys are equal.
    - [KeyframesMap] (a [HashMap<String, RefPtr<AndroidAnimation>>]) is a
      [gmap string A]; iteration order is the order of [map_to_list], which,
      like a hash table's, is fixed but carries no meaning.  [HashMap::add]
      on a free key inserts; on a key that is taken it replaces the entry
      or keeps it, as the parameter [AddPolicy] says: the source file does
      not decide it (the specification describes the first, WTF's [add]
      does the second), and the theorems hold for both.  The examples run
      under WTF's policy.
    - An animation handle is a value; [evaluate] reads and writes the
      [SkLayer] part of the target layer, the animatable properties of the
      specification (4.2), and nothing else of the node, although the code
      hands it a pointer to the whole layer.
    - [OpacityDrawFilter]'s [m_previousOpacity], which the constructor
      leaves unset, starts at 0; the canvas calls [restore] only after
      [filter] has set it.  The filter allocated at line 245 is owned by
      the canvas; its lifetime is not modelled.
    - The reference count of a layer ([addChild(...)->unref()] at line 68,
      the [unref] of [removeChildren]) is not modelled: a child has one
      owner, its parent, and [removeChildren] and the destructor destroy
      the children.  [m_animations.clear()] at line 81 has no counterpart,
      the node being gone.
    - A method that mutates the node, the store or the canvas is a
      computation in [State]; a [const] query is a plain function.  A method
      that mutates [this] returns the node as it left it.
    - The tree is a value: a parent owns its children, so a child reached
      through two parents cannot be expressed, as in the code's ownership
      discipline.  Sharing exists only for pictures and is modelled in the
      store.
    - The canvas is a stack of states (matrix, clip, draw filter) with the
      calls it received and a display list: each drawing command that
      reached it, with the matrix, clip and alpha in force.  A clip is the
      list of the rectangles requested, each with the matrix of its request.
    - Sine and cosine (used by [SkMatrix::preRotate]) are a parameter, the
      class [Trig]; theorems that do not depend on their values hold for
      every instance.
    - A [FILE*] is the string of the characters written so far; [fwrite]
      and [fprintf] append.  A float is printed from its exact rational
      value, rounded to the nearest unit of the last place, a tie to the
      even one.  The numeric code of the type of an [SkLength] is a
      parameter of the dumper.
    - The process is a [World]: the picture store, the counters, and the
      list of the trees the embedder holds.  A call of the embedder is an
      [Event]; [step] runs it and returns [None] when the tree or node it
      names does not exist.

    ** What the theorems show

    - [Layer]: [setDrawsContent] reaches every node and writes nothing else;
      [hasAnimations] is existence of a non-empty map in the subtree;
      [addAnimation] on a free name and, by the policy of the map, on a
      name that is taken; [setBackgroundColor] and [setMaskLayer] on every
      branch.
    - [Context]: the contract of [prepareContext] (result, frame), the
      ownership invariant of the picture store (well-formed counts, the
      node's recording live, other owners' counts unchanged), when a
      picture is kept and when a fresh one is allocated, and for
      [recordContext] when it returns the null pointer and what it has
      done then.
    - [Paint]: painting is balanced on every tree (the stack of the canvas
      and [gDebugChildLevel] are restored, the records only grow); which
      nodes draw; the alpha and its range, and that what a node draws has
      the alpha of the product of the opacities from the root to the node,
      cut off to an integer; the matrix of a node in each of
      its four cases (fixed, plain, scaled, rotated); the refinement
      [draw_renders]: on a tree whose pictures are up to date [draw] adds
      to the display list exactly [render] of the tree; and that a paint
      keeps the accounts of the picture store.  [PaintCalls]: a paint
      makes one save per node and one more per node that draws, and as
      many restores.
    - [Animate]: [evaluateAnimations] computes [animated] and counts every
      animation once; its verdict is the existence of a running animation;
      it agrees with [hasAnimations] on whether there is any.  [Frames]: with animations
      that have deadlines and a clock that advances, the loop of the
      frames ends within the frames that fit before the last deadline.
    - [Lifecycle]: the copy constructor returns the deep copy and adds one
      reference per node, the destructor gives them back, the instance
      counter moves by the number of nodes, and a copy that is destroyed
      leaves everything as it was.
    - [Dump]: [dumpLayers] appends exactly the lines of [dumpLines];
      braces and brackets are properly nested; the levels of indentation;
      one block per node, in the order of the traversal, each one level
      below its parent's; which lines are left out.
    - [World]: by induction on the steps, every reachable world has a
      well-formed store in which the count of each picture is the number
      of nodes that hold it, and an instance counter equal to the number
      of nodes alive; a picture is live exactly when a node holds it;
      everything can be given back.
    - [Sharing]: no operation edits a picture in place, so a tree and its
      copies, which share recordings, never see each other's changes, and
      a picture holds what the layout engine recorded into it for as long
      as it exists.  The layout engine is taken to record into the picture
      [recordContext] has just returned, as [World.opRecord] does.
    - [Wellformed]: every property of the interface [NodeInvariant] holds
      of every node of every reachable world; so a root never holds a
      recording, every animation is stored under its name, and a copy
      loses no animation.
    - [Canvas], [Matrix], [Picture], [Animation], [Geometry]: the laws of the
      library operations the above rest on ([restoreToCount] after [save],
      the monoid of matrices, reference counts, [HashMap::add] and
      [remove]).

    Theorems that carry hypotheses come with a closed witness that applies
    them to a concrete tree.

    ** Bounds and fuel

    Every recursion of the layer code is structural, on the tree (through
    the list of children), on a list of commands or on a path: these
    operations use no fuel and are total.  The one loop that need not end
    is the caller's loop of the frames ([Frames.frameLoop]); it takes
    fuel, returns [None] when the fuel is used up, and is shown to return
    a result whenever the fuel exceeds [framesLeft], the number of steps
    of the clock that fit before the last deadline.  Integers are
    unbounded; the theorems on the alpha state the range 0..255 it stays
    in, and the level of indentation of a dump may be any integer, as the
    [int] of the source may be negative.

    ** Not modelled

    Every function of the source file has a definition.  Left out are the
    [LAYER_DEBUG] lines 286-298, which are compiled out (line 18), and
    what lies outside the file: the layout engine that fills recordings,
    the rasteriser behind the canvas, the classes the file only calls
    ([SkLayer], [SkPicture], [SkCanvas], [SkMatrix], [AndroidAnimation],
    WTF's [HashMap], the C library), which are modelled from their
    description as far as the layer code uses them, floating-point
    rounding and the non-finite floats, and signed overflow of the debug
    counters and of the level of indentation. *)

From Stdlib Require Export QArith Qround Qminmax Lqa Lia ZArith.
From stdpp Require Export base tactics option list gmap strings fin_maps.

Close Scope Q_scope.

Declare Scope sk_scope.
Delimit Scope sk_scope with sk.

Create HintDb sk discriminated.
Create Rewrite HintDb sk_rw.

(** ** C++ scalars *)

(** A [float] of the source; arithmetic on it is exact. *)
Abbreviation SkScalar := Q.

(** The conversion [(int) f]: truncation toward zero. *)
Definition Qtrunc (q : Q) : Z := Z.quot (Qnum q) (Zpos (Qden q)).

(** The test [a > b] on floats. *)
Definition Qgtb (a b : Q) : bool := negb (Qle_bool a b).

(** ** The state monad of the stateful methods *)

Definition State (S A : Type) : Type := S -> A * S.

Definition ret {S A : Type} (a : A) : State S A := fun s => (a, s).

Definition bind {S A B : Type} (m : State S A) (k : A -> State S B) : State S B :=
  fun s => let '(a, s') := m s in k a s'.

Definition get {S : Type} : State S S := fun s => (s, s).

Definition put {S : Type} (s : S) : State S unit := fun _ => (tt, s).

Definition modify {S : Type} (f : S -> S) : State S unit := fun s => (tt, f s).

Definition gets {S A : Type} (f : S -> A) : State S A := fun s => (f s, s).

Definition when {S : Type} (b : bool) (m : State S unit) : State S unit :=
  if b then m else ret tt.

(** Running a computation on a component of a larger state. *)
Definition zoom {S T A : Type} (proj : T -> S) (upd : S -> T -> T)
    (m : State S A) : State T A :=
  fun t => let '(a, s') := m (proj t) in (a, upd s' t).

Notation "x <- m ;; k" := (bind m (fun x => k))
  (at level 100, m at next level, k at level 200, right associativity) : sk_scope.
Notation "m ;; k" := (bind m (fun _ => k))
  (at level 100, k at level 200, right associativity) : sk_scope.

Open Scope sk_scope.

(** A loop over a list that threads the state and rebuilds the list: the shape
    of every [for (i = 0; i < countChildren(); i++)] of the source. *)
Section MapS.
Context {S X Y : Type} (f : X -> State S Y).

Fixpoint mapS (l : list X) : State S (list Y) :=
  match l with
  | [] => ret []
  | x :: l' => y <- f x ;; ys <- mapS l' ;; ret (y :: ys)
  end.

End MapS.

(** A loop over a list that threads the state and an accumulator: the shape
    of every iteration over [m_animations]. *)
Section FoldS.
Context {S B X : Type} (f : B -> X -> State S B).

Fixpoint foldS (l : list X) (b : B) : State S B :=
  match l with
  | [] => ret b
  | x :: l' => b' <- f b x ;; foldS l' b'
  end.

End FoldS.

(** A counted loop over a list, run for its effect: the body sees the index
    the C loop counts in [i]. *)
Section ForS.
Context {St X : Type} (body : nat -> X -> State St unit).

Fixpoint forS (i : nat) (l : list X) : State St unit :=
  match l with
  | [] => ret tt
  | x :: l' => body i x ;; forS (S i) l'
  end.

End ForS.

(** ** Tactics *)

(** Name the result of the computation scrutinised by a [let '(a, s) := ...]. *)
Ltac case_run :=
  match goal with
  | |- context [let '(_, _) := ?m ?s in _] =>
      let a := fresh "a" in let s' := fresh "s" in let E := fresh "E" in
      destruct (m s) as [a s'] eqn:E
  | H : context [let '(_, _) := ?m ?s in _] |- _ =>
      let a := fresh "a" in let s' := fresh "s" in let E := fresh "E" in
      destruct (m s) as [a s'] eqn:E
  end.

(** Unfold the monad's combinators. *)
Ltac unfold_state :=
  unfold bind, ret, get, put, modify, gets, when, zoom in *.

(** Turn the boolean tests on rationals into propositions. *)
Ltac Qbool :=
  repeat match goal with
  | H : Qle_bool _ _ = true |- _ => apply Qle_bool_iff in H
  | H : Qle_bool _ _ = false |- _ => apply not_true_iff_false in H; rewrite Qle_bool_iff in H
  | H : Qeq_bool _ _ = true |- _ => apply Qeq_bool_iff in H
  | H : Qeq_bool _ _ = false |- _ => apply Qeq_bool_neq in H
  | H : Qgtb _ _ = _ |- _ => unfold Qgtb in H
  | H : negb _ = true |- _ => apply negb_true_iff in H
  | H : negb _ = false |- _ => apply negb_false_iff in H
  end.

(** ** Lemmas on the state monad *)

Section StateLemmas.
Context {S : Type}.

Lemma bind_ret_l {A B} (a : A) (k : A -> State S B) s : bind (ret a) k s = k a s.
Proof. reflexivity. Qed.

Lemma bind_ret_r {A} (m : State S A) s : bind m ret s = m s.
Proof. unfold bind, ret. by destruct (m s). Qed.

Lemma bind_assoc {A B C} (m : State S A) (k : A -> State S B) (h : B -> State S C) s :
  bind (bind m k) h s = bind m (fun a => bind (k a) h) s.
Proof. unfold bind. by destruct (m s). Qed.

Lemma bind_run {A B} (m : State S A) (k : A -> State S B) s a s' :
  m s = (a, s') -> bind m k s = k a s'.
Proof. unfold bind. by intros ->. Qed.

Lemma bind_fst_snd {A B} (m : State S A) (k : A -> State S B) s :
  bind m k s = k (m s).1 (m s).2.
Proof. unfold bind. by destruct (m s). Qed.

Lemma when_true (m : State S unit) s : when true m s = m s.
Proof. reflexivity. Qed.

Lemma when_false (m : State S unit) s : when false m s = (tt, s).
Proof. reflexivity. Qed.

Lemma zoom_run {T A} (proj : T -> S) (upd : S -> T -> T) (m : State S A) t a s' :
  m (proj t) = (a, s') -> zoom proj upd m t = (a, upd s' t).
Proof. unfold zoom. by intros ->. Qed.

End StateLemmas.

(** ** Lemmas on [mapS] *)

Section MapSLemmas.
Context {S X Y : Type}.
Implicit Types (f : X -> State S Y) (l : list X) (s : S).

Lemma mapS_nil f s : mapS f [] s = ([], s).
Proof. reflexivity. Qed.

Lemma mapS_cons f x l s :
  mapS f (x :: l) s =
  let '(y, s1) := f x s in let '(ys, s2) := mapS f l s1 in (y :: ys, s2).
Proof. simpl. unfold bind, ret. destruct (f x s) as [y s1]. by destruct (mapS f l s1). Qed.

Lemma mapS_length f l s : length (mapS f l s).1 = length l.
Proof.
  revert s. induction l as [|x l IH]; intros s; [done|].
  rewrite mapS_cons. destruct (f x s) as [y s1]. specialize (IH s1).
  destruct (mapS f l s1) as [ys s2]. simpl in *. by rewrite IH.
Qed.

Lemma mapS_app f l1 l2 s :
  mapS f (l1 ++ l2) s =
  let '(ys1, s1) := mapS f l1 s in
  let '(ys2, s2) := mapS f l2 s1 in (ys1 ++ ys2, s2).
Proof.
  revert s. induction l1 as [|x l1 IH]; intros s.
  - simpl. unfold ret. by destruct (mapS f l2 s).
  - rewrite <- app_comm_cons, !mapS_cons. destruct (f x s) as [y s1].
    rewrite IH. destruct (mapS f l1 s1) as [ys1 s2].
    by destruct (mapS f l2 s2).
Qed.

Lemma mapS_ext f g l s :
  (forall x s0, x ∈ l -> f x s0 = g x s0) -> mapS f l s = mapS g l s.
Proof.
  revert s. induction l as [|x l IH]; intros s Hfg; [done|].
  rewrite !mapS_cons, Hfg by left. destruct (g x s) as [y s1].
  rewrite IH; [done|]. intros; apply Hfg. by right.
Qed.

(** A state invariant kept by the body is kept by the loop, and a property
    the body establishes of each result holds of every result. *)
Lemma mapS_invariant (I : S -> Prop) (P : X -> Y -> Prop) f l s :
  (forall x s0, x ∈ l -> I s0 -> I (f x s0).2 /\ P x (f x s0).1) ->
  I s -> I (mapS f l s).2 /\ Forall2 P l (mapS f l s).1.
Proof.
  revert s. induction l as [|x l IH]; intros s Hf Hs; [by split; [|constructor]|].
  rewrite mapS_cons. destruct (Hf x s) as [HI HP]; [by left|done|].
  destruct (f x s) as [y s1]. simpl in *.
  destruct (IH s1) as [HI' HP']; [intros; apply Hf; [by right|done]|done|].
  destruct (mapS f l s1) as [ys s2]. simpl in *. split; [done|by constructor].
Qed.

(** A property of the elements that the body carries over to its results
    holds of every result. *)
Lemma mapS_Forall (Q : X -> Prop) (Q' : Y -> Prop) f l s :
  (forall x s0, x ∈ l -> Q x -> Q' (f x s0).1) ->
  Forall Q l -> Forall Q' (mapS f l s).1.
Proof.
  intros Hf Hl.
  destruct (mapS_invariant (fun _ => True) (fun x y => Q x -> Q' y) f l s) as [_ F];
    [by eauto|done|].
  clear Hf. induction F as [|x y xs ys Hxy _ IH]; [constructor|].
  apply Forall_cons in Hl as [??]. constructor; auto.
Qed.

(** A body that leaves the state alone makes the loop a [map]. *)
Lemma mapS_pure (g : X -> Y) f l s :
  (forall x s0, x ∈ l -> f x s0 = (g x, s0)) -> mapS f l s = (map g l, s).
Proof.
  revert s. induction l as [|x l IH]; intros s Hf; [done|].
  rewrite mapS_cons, Hf by left. rewrite IH; [done|].
  intros; apply Hf. by right.
Qed.

(** A body whose result does not depend on the state, and whose effect on
    the state does not depend on the result, splits the loop in two. *)
Lemma mapS_split (g : X -> Y) (h : X -> S -> S) f l s :
  (forall x s0, x ∈ l -> f x s0 = (g x, h x s0)) ->
  mapS f l s = (g <$> l, foldl (fun s0 x => h x s0) s l).
Proof.
  revert s. induction l as [|x l IH]; intros s Hf; [done|].
  rewrite mapS_cons, Hf by left. rewrite IH; [done|].
  intros; apply Hf. by right.
Qed.

(** A loop in which every turn trades what its element held of a family of
    counters for what its result holds. *)
Lemma mapS_exchange {K} (W : S -> Prop) (mu : S -> K -> nat)
    (n : X -> K -> nat) (n' : Y -> K -> nat) f l :
  Forall (fun x => forall s, W s -> (forall k, n x k <= mu s k) ->
            W (f x s).2 /\
            forall k, mu (f x s).2 k + n x k = mu s k + n' (f x s).1 k) l ->
  forall s, W s -> (forall k, sum_list ((fun x => n x k) <$> l) <= mu s k) ->
    W (mapS f l s).2 /\
    forall k, mu (mapS f l s).2 k + sum_list ((fun x => n x k) <$> l)
              = mu s k + sum_list ((fun y => n' y k) <$> (mapS f l s).1).
Proof.
  induction 1 as [|x l Hx _ IH]; intros s Hs Hn; [cbn; split; [done|intros; lia]|].
  rewrite mapS_cons. destruct (Hx s Hs) as [Hs1 E1].
  { intros k. specialize (Hn k). cbn in Hn. lia. }
  destruct (f x s) as [y s1]. cbn [fst snd] in *.
  destruct (IH s1 Hs1) as [Hs2 E2].
  { intros k. specialize (Hn k). specialize (E1 k). cbn in Hn. lia. }
  destruct (mapS f l s1) as [ys s2]. cbn [fst snd] in *.
  split; [done|]. intros k. specialize (E1 k). specialize (E2 k). cbn. lia.
Qed.

(** A measure of the state that every turn raises by the share of its
    element is raised by the loop by the sum of the shares. *)
Lemma mapS_additive (mu : S -> nat) (n : X -> nat) f l s :
  (forall x s0, x ∈ l -> mu (f x s0).2 = mu s0 + n x) ->
  mu (mapS f l s).2 = mu s + sum_list (n <$> l).
Proof.
  revert s. induction l as [|x l IH]; intros s Hf; [cbn; lia|].
  rewrite mapS_cons. pose proof (Hf x s (list_elem_of_here _ _)) as Hx.
  destruct (f x s) as [y s1]. specialize (IH s1).
  destruct (mapS f l s1) as [ys s2]. cbn [fst snd] in *.
  rewrite IH, Hx; [cbn; lia|]. intros; apply Hf. by right.
Qed.

End MapSLemmas.

(** Two loops over the same list, on states related by [R], whose bodies
    keep the states related and return the same result, do the same. *)
Lemma mapS_sim {S T X Y} (R : S -> T -> Prop) (f : X -> State S Y) (g : X -> State T Y) l :
  Forall (fun x => forall s t, R s t -> (f x s).1 = (g x t).1 /\ R (f x s).2 (g x t).2) l ->
  forall s t, R s t ->
    (mapS f l s).1 = (mapS g l t).1 /\ R (mapS f l s).2 (mapS g l t).2.
Proof.
  induction 1 as [|x l Hx _ IH]; intros s t Hst; [done|].
  rewrite !mapS_cons. destruct (Hx s t Hst) as [E1 R1].
  destruct (f x s) as [y s1], (g x t) as [y' t1]. cbn [fst snd] in *. subst y'.
  destruct (IH s1 t1 R1) as [E2 R2].
  destruct (mapS f l s1) as [ys s2], (mapS g l t1) as [ys' t2]. cbn [fst snd] in *.
  by subst.
Qed.

Lemma foldS_split {S B X} (g : B -> X -> B) (h : S -> S) (f : B -> X -> State S B) l b s :
  (forall b0 x s0, f b0 x s0 = (g b0 x, h s0)) ->
  foldS f l b s = (foldl g b l, Nat.iter (length l) h s).
Proof.
  intros Hf. revert b s. induction l as [|x l IH]; intros b s; [done|].
  cbn [foldS]. unfold bind. rewrite Hf, IH. cbn [foldl length].
  by rewrite Nat.iter_succ_r.
Qed.

(** ** Lemmas on scalars *)

Lemma Qtrunc_floor q : (0 <= q)%Q -> Qtrunc q = Qfloor q.
Proof.
  destruct q as [n d]; unfold Qtrunc, Qfloor, Qle; simpl; intros H.
  apply Z.quot_div_nonneg; lia.
Qed.

Lemma Qtrunc_opp q : Qtrunc (- q) = (- Qtrunc q)%Z.
Proof. destruct q as [n d]; unfold Qtrunc; simpl. apply Z.quot_opp_l. lia. Qed.

Lemma Qtrunc_comp_nonneg x y : (0 <= x)%Q -> (x == y)%Q -> Qtrunc x = Qtrunc y.
Proof.
  intros Hx Hxy. rewrite !Qtrunc_floor; [|lra..]. by apply Qfloor_comp.
Qed.

#[export] Instance Qtrunc_proper : Proper (Qeq ==> eq) Qtrunc.
Proof.
  intros x y Hxy. destruct (Qlt_le_dec x 0) as [Hneg|Hpos].
  - assert (E : Qtrunc (- x) = Qtrunc (- y)) by (apply Qtrunc_comp_nonneg; lra).
    rewrite !Qtrunc_opp in E. lia.
  - by apply Qtrunc_comp_nonneg.
Qed.

Lemma Qtrunc_inject_Z z : Qtrunc (inject_Z z) = z.
Proof. unfold Qtrunc; simpl. apply Z.quot_1_r. Qed.

Lemma Qtrunc_nonneg q : (0 <= q)%Q -> (0 <= Qtrunc q)%Z.
Proof.
  intros H. rewrite Qtrunc_floor by done.
  change 0%Z with (Qfloor 0). by apply Qfloor_resp_le.
Qed.

Lemma Qtrunc_le_mono x y : (0 <= x)%Q -> (x <= y)%Q -> (Qtrunc x <= Qtrunc y)%Z.
Proof.
  intros Hx Hxy. rewrite !Qtrunc_floor; [|lra..]. by apply Qfloor_resp_le.
Qed.

(** The cast never rounds up: on a non-negative float it is the integer part. *)
Lemma Qtrunc_bounds q :
  (0 <= q)%Q -> (inject_Z (Qtrunc q) <= q)%Q /\ (q < inject_Z (Qtrunc q + 1))%Q.
Proof.
  intros H. rewrite Qtrunc_floor by done. split; [apply Qfloor_le|apply Qlt_floor].
Qed.

Lemma Qtrunc_range q n :
  (0 <= q)%Q -> (q <= inject_Z n)%Q -> (0 <= Qtrunc q <= n)%Z.
Proof.
  intros H0 Hn. split; [by apply Qtrunc_nonneg|].
  rewrite <- (Qtrunc_inject_Z n). by apply Qtrunc_le_mono.
Qed.

(** [Qtrunc q = n] exactly when [q] lies in the unit interval above [n]. *)
Lemma Qtrunc_eq_iff q n :
  (0 <= q)%Q -> Qtrunc q = n <-> (inject_Z n <= q)%Q /\ (q < inject_Z (n + 1))%Q.
Proof.
  intros H. split.
  - intros <-. by apply Qtrunc_bounds.
  - intros [Hl Hu]. destruct (Qtrunc_bounds q H) as [Hl' Hu'].
    rewrite inject_Z_plus in Hu, Hu'.
    assert (H1 : (inject_Z n < inject_Z (Qtrunc q + 1))%Q)
      by (rewrite inject_Z_plus; lra).
    assert (H2 : (inject_Z (Qtrunc q) < inject_Z (n + 1))%Q)
      by (rewrite inject_Z_plus; lra).
    rewrite <- Zlt_Qlt in H1, H2. lia.
Qed.

Lemma Qgtb_true a b : Qgtb a b = true <-> (b < a)%Q.
Proof.
  unfold Qgtb. rewrite negb_true_iff, <- not_true_iff_false, Qle_bool_iff. lra.
Qed.

Lemma Qgtb_false a b : Qgtb a b = false <-> (a <= b)%Q.
Proof. unfold Qgtb. by rewrite negb_false_iff, Qle_bool_iff. Qed.

#[export] Instance Qgtb_proper : Proper (Qeq ==> Qeq ==> eq) Qgtb.
Proof. intros a a' Ha b b' Hb. unfold Qgtb. by rewrite Ha, Hb. Qed.

(** The product of two fractions of one is a fraction of one. *)
Lemma Qmult_unit_interval x y :
  (0 <= x <= 1)%Q -> (0 <= y <= 1)%Q -> (0 <= x * y <= 1)%Q.
Proof. intros. nra. Qed.

#[export] Hint Resolve Qtrunc_nonneg Qtrunc_le_mono Qmult_unit_interval : sk.
#[export] Hint Rewrite Qtrunc_inject_Z Qtrunc_opp : sk_rw.
#[export] Hint Rewrite @bind_ret_l @when_true @when_false @mapS_nil : sk_rw.

(** ** Lemmas on lists and options *)

Lemma Forall2_same_length_map {X Y} (P : X -> Y -> Prop) (g : X -> Y) (l : list X) :
  (forall x, x ∈ l -> P x (g x)) -> Forall2 P l (map g l).
Proof.
  induction l as [|x l IH]; intros H; constructor.
  - apply H. by left.
  - apply IH. intros; apply H. by right.
Qed.

Lemma list_fmap_join {X Y} (f : X -> Y) (ls : list (list X)) :
  f <$> mjoin ls = mjoin (fmap f <$> ls).
Proof. induction ls as [|l ls IH]; [done|]. simpl. by rewrite fmap_app, IH. Qed.

Lemma Forall_join_iff {X} (P : X -> Prop) (ls : list (list X)) :
  Forall P (mjoin ls) <-> Forall (Forall P) ls.
Proof.
  induction ls as [|l ls IH]; simpl.
  - split; constructor.
  - by rewrite Forall_app, Forall_cons, IH.
Qed.

Lemma sum_list_fmap_ext {X} (f g : X -> nat) (l : list X) :
  Forall (fun x => f x = g x) l -> sum_list (f <$> l) = sum_list (g <$> l).
Proof. by intros ->%Forall_fmap_ext. Qed.

Lemma foldl_pair {X S1 S2} (F : X -> S1 -> S1) (G : X -> S2 -> S2) (l : list X) a b :
  foldl (fun r x => (F x r.1, G x r.2)) (a, b) l =
  (foldl (fun s x => F x s) a l, foldl (fun s x => G x s) b l).
Proof. revert a b. induction l as [|x l IH]; intros a b; [done|]. cbn. apply IH. Qed.

(** A loop whose every turn adds its share to a family of counters, each
    turn needing no more than what the counters held when the loop
    started. *)
Lemma foldl_produce {X S K} (F : X -> S -> S) (W : S -> Prop)
    (mu : S -> K -> nat) (n : X -> K -> nat) (ls : list X) :
  Forall (fun x => forall s, W s -> (forall k, n x k <= mu s k) ->
            W (F x s) /\ forall k, mu (F x s) k = mu s k + n x k) ls ->
  forall s, W s -> (forall k, Forall (fun x => n x k <= mu s k) ls) ->
    W (foldl (fun s0 x => F x s0) s ls) /\
    forall k, mu (foldl (fun s0 x => F x s0) s ls) k
              = mu s k + sum_list ((fun x => n x k) <$> ls).
Proof.
  induction 1 as [|x ls Hx _ IH]; intros s Hs Hn; [cbn; split; [done|intros; lia]|].
  destruct (Hx s Hs) as [Hs1 E1].
  { intros k. specialize (Hn k). by apply Forall_cons in Hn as [? _]. }
  destruct (IH (F x s) Hs1) as [Hs2 E2].
  { intros k. specialize (Hn k). apply Forall_cons in Hn as [_ Hn].
    eapply Forall_impl; [exact Hn|]. cbn. intros. rewrite E1. lia. }
  cbn. split; [done|]. intros k. rewrite E2, E1. lia.
Qed.

(** A loop whose every turn takes its share from a family of counters that
    hold at least the shares of all turns. *)
Lemma foldl_consume {X S K} (F : X -> S -> S) (W : S -> Prop)
    (mu : S -> K -> nat) (n : X -> K -> nat) (ls : list X) :
  Forall (fun x => forall s, W s -> (forall k, n x k <= mu s k) ->
            W (F x s) /\ forall k, mu (F x s) k + n x k = mu s k) ls ->
  forall s, W s -> (forall k, sum_list ((fun x => n x k) <$> ls) <= mu s k) ->
    W (foldl (fun s0 x => F x s0) s ls) /\
    forall k, mu (foldl (fun s0 x => F x s0) s ls) k
              + sum_list ((fun x => n x k) <$> ls) = mu s k.
Proof.
  induction 1 as [|x ls Hx _ IH]; intros s Hs Hn; [cbn; split; [done|intros; lia]|].
  destruct (Hx s Hs) as [Hs1 E1].
  { intros k. specialize (Hn k). cbn in Hn. lia. }
  destruct (IH (F x s) Hs1) as [Hs2 E2].
  { intros k. specialize (Hn k). specialize (E1 k). cbn in Hn. lia. }
  cbn. split; [done|]. intros k. specialize (E1 k). specialize (E2 k). lia.
Qed.

Lemma sum_list_fmap_join {X} (f : X -> nat) (ls : list (list X)) :
  sum_list (f <$> mjoin ls) = sum_list ((fun l => sum_list (f <$> l)) <$> ls).
Proof.
  induction ls as [|l ls IH]; [done|].
  change (mjoin (l :: ls)) with (l ++ mjoin ls).
  by rewrite fmap_app, sum_list_with_app, IH.
Qed.

Lemma sum_list_fmap_le {X} (f g : X -> nat) (l : list X) :
  Forall (fun x => f x <= g x) l -> sum_list (f <$> l) <= sum_list (g <$> l).
Proof. induction 1; cbn; lia. Qed.

Lemma sum_list_fmap_Forall2 {X Y} (f : X -> nat) (g : Y -> nat) (l : list X) (k : list Y) :
  Forall2 (fun x y => f x = g y) l k -> sum_list (f <$> l) = sum_list (g <$> k).
Proof. induction 1; cbn; lia. Qed.

(** Sums over a list one of whose elements is replaced or removed. *)
Lemma sum_list_fmap_insert {X} (f : X -> nat) (l : list X) i x y :
  l !! i = Some x ->
  sum_list (f <$> <[i := y]> l) + f x = sum_list (f <$> l) + f y.
Proof.
  revert i. induction l as [|z l IH]; intros [|i] Hi; simplify_eq/=; [lia|].
  specialize (IH i Hi). lia.
Qed.

Lemma sum_list_fmap_delete {X} (f : X -> nat) (l : list X) i x :
  l !! i = Some x -> sum_list (f <$> delete i l) + f x = sum_list (f <$> l).
Proof.
  revert i. induction l as [|z l IH]; intros [|i] Hi; simplify_eq/=; [lia|].
  specialize (IH i Hi). lia.
Qed.

Lemma sum_list_fmap_lookup_le {X} (f : X -> nat) (l : list X) i x :
  l !! i = Some x -> f x <= sum_list (f <$> l).
Proof. intros Hi. rewrite <- (sum_list_fmap_delete f l i x Hi). lia. Qed.

Lemma sum_list_fmap_snoc {X} (f : X -> nat) (l : list X) x :
  sum_list (f <$> l ++ [x]) = sum_list (f <$> l) + f x.
Proof. rewrite fmap_app, sum_list_with_app. cbn. lia. Qed.

Lemma existsb_elem_of {X} (p : X -> bool) (l : list X) :
  existsb p l = true <-> exists x, x ∈ l /\ p x = true.
Proof.
  rewrite existsb_exists. split; intros (x & Hx & Hp); exists x; split; try done.
  - by apply list_elem_of_In.
  - by apply list_elem_of_In.
Qed.

Lemma forallb_elem_of {X} (p : X -> bool) (l : list X) :
  forallb p l = true <-> forall x, x ∈ l -> p x = true.
Proof.
  rewrite forallb_forall. split; intros H x Hx; apply H; by apply list_elem_of_In.
Qed.

Lemma is_Some_bool {X} (o : option X) : is_Some o <-> bool_decide (is_Some o) = true.
Proof. by rewrite bool_decide_eq_true. Qed.

Lemma sum_list_fmap_pos {X} (f : X -> nat) (l : list X) :
  0 < sum_list (f <$> l) <-> exists x, x ∈ l /\ 0 < f x.
Proof.
  induction l as [|x l IH]; cbn.
  - split; [lia|]. by intros (x & ?%elem_of_nil & _).
  - setoid_rewrite elem_of_cons. split.
    + intros Hs. destruct (decide (0 < f x)); [by eauto|].
      destruct IH as [(y & ? & ?) _]; [lia|eauto].
    + intros (y & [->|Hy] & Hf); [lia|]. destruct IH as [_ IH]. specialize (IH (ex_intro _ y (conj Hy Hf))). lia.
Qed.
