(* ===== verification/Geometry.v ===== *)
(** * Geometry: the value types of the graphics library

    [SkPoint], [SkSize], [SkRect] and [SkLength] as the layer code uses them:
    the fields it reads ([fX], [fLeft], ...), the accessors it calls
    ([width()], [height()], [defined()], [calcFloatValue()]).  Their
    declarations are not part of the layer's source file; they follow the
    description of the data model.  Each type carries the equivalence that
    compares its rational fields with [Qeq]. *)

From S2P Require Import Prelude.

Local Open Scope Q_scope.

(** A 32-bit ARGB colour. *)
Definition SkColor := Z.

(** ** Points *)

Module SkPoint.

Record t : Type := mk { fX : Q; fY : Q }.

Definition set (x y : Q) : t := mk x y.

Definition add (p q : t) : t := mk (fX p + fX q) (fY p + fY q).

#[global] Instance equiv : Equiv t := fun p q => fX p == fX q /\ fY p == fY q.

#[global] Instance equiv_equivalence : Equivalence (≡@{t}).
Proof.
  split.
  - by intros [x y]; split.
  - by intros p q [H1 H2]; split.
  - intros p q r [H1 H2] [H3 H4]; split; simpl in *; [by rewrite H1|by rewrite H2].
Qed.

#[global] Instance mk_proper : Proper (Qeq ==> Qeq ==> (≡)) mk.
Proof. by intros x x' Hx y y' Hy; split. Qed.

#[global] Instance fX_proper : Proper ((≡) ==> Qeq) fX.
Proof. by intros p q [H _]. Qed.

#[global] Instance fY_proper : Proper ((≡) ==> Qeq) fY.
Proof. by intros p q [_ H]. Qed.

#[global] Instance add_proper : Proper ((≡) ==> (≡) ==> (≡)) add.
Proof.
  intros p p' [H1 H2] q q' [H3 H4]; split; simpl; [by rewrite H1, H3|by rewrite H2, H4].
Qed.

End SkPoint.

(** ** Sizes *)

Module SkSize.

Record t : Type := mk { fWidth : Q; fHeight : Q }.

Definition set (w h : Q) : t := mk w h.

Definition width (s : t) : Q := fWidth s.

Definition height (s : t) : Q := fHeight s.

#[global] Instance equiv : Equiv t :=
  fun a b => fWidth a == fWidth b /\ fHeight a == fHeight b.

#[global] Instance equiv_equivalence : Equivalence (≡@{t}).
Proof.
  split.
  - by intros [x y]; split.
  - by intros p q [H1 H2]; split.
  - intros p q r [H1 H2] [H3 H4]; split; simpl in *; [by rewrite H1|by rewrite H2].
Qed.

#[global] Instance width_proper : Proper ((≡) ==> Qeq) width.
Proof. by intros p q [H _]. Qed.

#[global] Instance height_proper : Proper ((≡) ==> Qeq) height.
Proof. by intros p q [_ H]. Qed.

End SkSize.

(** ** Rectangles *)

Module SkRect.

Record t : Type := mk { fLeft : Q; fTop : Q; fRight : Q; fBottom : Q }.

Definition width (r : t) : Q := fRight r - fLeft r.

Definition height (r : t) : Q := fBottom r - fTop r.

(** The rectangle at [(x, y)] of size [(w, h)]. *)
Definition of_xywh (x y w h : Q) : t := mk x y (x + w) (y + h).

(** Intersection, as [SkCanvas::clipRect] narrows the clip. *)
Definition intersect (a b : t) : t :=
  mk (Qmax (fLeft a) (fLeft b)) (Qmax (fTop a) (fTop b))
     (Qmin (fRight a) (fRight b)) (Qmin (fBottom a) (fBottom b)).

(** Moving a rectangle by an offset. *)
Definition offset (r : t) (dx dy : Q) : t :=
  mk (fLeft r + dx) (fTop r + dy) (fRight r + dx) (fBottom r + dy).

(** [inside a b]: rectangle [a] lies within [b]. *)
Definition inside (a b : t) : Prop :=
  fLeft b <= fLeft a /\ fTop b <= fTop a /\ fRight a <= fRight b /\ fBottom a <= fBottom b.

#[global] Instance equiv : Equiv t := fun a b =>
  fLeft a == fLeft b /\ fTop a == fTop b /\ fRight a == fRight b /\ fBottom a == fBottom b.

#[global] Instance equiv_equivalence : Equivalence (≡@{t}).
Proof.
  split.
  - by intros [????]; repeat split.
  - by intros p q (?&?&?&?); repeat split.
  - intros p q r (H1&H2&H3&H4) (H5&H6&H7&H8); repeat split; simpl in *;
      [by rewrite H1|by rewrite H2|by rewrite H3|by rewrite H4].
Qed.

Lemma width_of_xywh x y w h : width (of_xywh x y w h) == w.
Proof. unfold width; simpl. ring. Qed.

Lemma height_of_xywh x y w h : height (of_xywh x y w h) == h.
Proof. unfold height; simpl. ring. Qed.

Lemma rect_intersect_inside_l a b : inside (intersect a b) a.
Proof.
  unfold inside, intersect; simpl.
  repeat split; auto using Q.le_max_l, Q.le_min_l.
Qed.

Lemma rect_intersect_inside_r a b : inside (intersect a b) b.
Proof.
  unfold inside, intersect; simpl.
  repeat split; auto using Q.le_max_r, Q.le_min_r.
Qed.

Lemma rect_inside_refl a : inside a a.
Proof. unfold inside. repeat split; apply Qle_refl. Qed.

Lemma rect_inside_trans a b c : inside a b -> inside b c -> inside a c.
Proof.
  unfold inside. intros (?&?&?&?) (?&?&?&?). repeat split; lra.
Qed.

End SkRect.

(** ** Lengths

    A length is undefined, a number of pixels, or a fraction of a reference
    dimension. *)

Module SkLength.

Inductive SkLengthType : Type := Undefined | Fixed | Percent.

Record t : Type := mk { type : SkLengthType; value : Q }.

Definition undefined : t := mk Undefined 0.

Definition fixed (x : Q) : t := mk Fixed x.

Definition percent (p : Q) : t := mk Percent p.

#[global] Instance type_eq_dec : EqDecision SkLengthType.
Proof. solve_decision. Defined.

Definition defined (l : t) : bool :=
  match type l with
  | Undefined => false
  | _ => true
  end.

Definition calcFloatValue (l : t) (max : Q) : Q :=
  match type l with
  | Percent => value l * max
  | _ => value l
  end.

Lemma calcFloatValue_fixed x max : calcFloatValue (fixed x) max = x.
Proof. reflexivity. Qed.

Lemma calcFloatValue_percent p max : calcFloatValue (percent p) max = p * max.
Proof. reflexivity. Qed.

Lemma defined_undefined : defined undefined = false.
Proof. reflexivity. Qed.

Lemma defined_iff l : defined l = true <-> type l <> Undefined.
Proof. unfold defined. by destruct (type l). Qed.

End SkLength.

#[export] Hint Resolve SkRect.rect_inside_refl SkRect.rect_intersect_inside_l
  SkRect.rect_intersect_inside_r : sk.
