(* ===== verification/Matrix.v ===== *)
(** * Matrix: the affine transforms of the graphics library

    The affine part of [SkMatrix], the six entries

      [ scaleX skewX transX ]
      [ skewY scaleY transY ]
      [   0      0      1   ]

    with the operations the painter calls: [reset], [setTranslate],
    [preTranslate], [preRotate], [preScale], [postTranslate] and the
    concatenation behind [SkCanvas::concat].  A [pre] operation composes on
    the right (it acts on the point first), a [post] operation on the left.
    Sine and cosine of an angle in degrees are the parameter [Trig].
    Matrices are compared entry by entry with [Qeq]. *)

From S2P Require Import Prelude Geometry.

Local Open Scope Q_scope.

(** Sine and cosine of an angle given in degrees, as [SkScalarSinCos] of
    [SkDegreesToRadians] provides them. *)
Class Trig : Type := { sin_deg : Q -> Q; cos_deg : Q -> Q }.

(** Bhaskara's rational approximation of sine on [[0, 180]], extended by
    symmetry; exact at every multiple of 30 degrees that has a rational sine. *)
Definition bhaskara_half (x : Q) : Q :=
  4 * x * (180 - x) / (40500 - x * (180 - x)).

Definition wrap360 (x : Q) : Q := x - 360 * inject_Z (Qfloor (x / 360)).

Definition bhaskara_sin (x : Q) : Q :=
  let y := wrap360 x in
  if Qle_bool y 180 then bhaskara_half y else - bhaskara_half (y - 180).

#[global] Instance bhaskara_trig : Trig :=
  {| sin_deg := bhaskara_sin; cos_deg := fun x => bhaskara_sin (x + 90) |}.

Module SkMatrix.

Record t : Type := mk {
  scaleX : Q; skewX : Q; transX : Q;
  skewY : Q; scaleY : Q; transY : Q }.

(** [reset()]: the identity. *)
Definition reset : t := mk 1 0 0 0 1 0.

(** [setTranslate(dx, dy)]. *)
Definition setTranslate (dx dy : Q) : t := mk 1 0 dx 0 1 dy.

(** [setScale(sx, sy)]. *)
Definition setScale (sx sy : Q) : t := mk sx 0 0 0 sy 0.

(** [setRotate(degrees)]. *)
Definition setRotate `{Trig} (deg : Q) : t :=
  mk (cos_deg deg) (- sin_deg deg) 0 (sin_deg deg) (cos_deg deg) 0.

(** [setConcat(a, b)]: the product [a * b]; [b] acts on the point first. *)
Definition concat (a b : t) : t :=
  mk (scaleX a * scaleX b + skewX a * skewY b)
     (scaleX a * skewX b + skewX a * scaleY b)
     (scaleX a * transX b + skewX a * transY b + transX a)
     (skewY a * scaleX b + scaleY a * skewY b)
     (skewY a * skewX b + scaleY a * scaleY b)
     (skewY a * transX b + scaleY a * transY b + transY a).

Definition preTranslate (m : t) (dx dy : Q) : t := concat m (setTranslate dx dy).

Definition preScale (m : t) (sx sy : Q) : t := concat m (setScale sx sy).

Definition preRotate `{Trig} (m : t) (deg : Q) : t := concat m (setRotate deg).

Definition postTranslate (m : t) (dx dy : Q) : t := concat (setTranslate dx dy) m.

(** [mapXY]: the image of a point. *)
Definition mapXY (m : t) (p : SkPoint.t) : SkPoint.t :=
  SkPoint.mk (scaleX m * SkPoint.fX p + skewX m * SkPoint.fY p + transX m)
             (skewY m * SkPoint.fX p + scaleY m * SkPoint.fY p + transY m).

(** A matrix that only translates. *)
Definition isTranslate (m : t) : Prop :=
  scaleX m == 1 /\ skewX m == 0 /\ skewY m == 0 /\ scaleY m == 1.

#[global] Instance equiv : Equiv t := fun a b =>
  scaleX a == scaleX b /\ skewX a == skewX b /\ transX a == transX b /\
  skewY a == skewY b /\ scaleY a == scaleY b /\ transY a == transY b.

(** Entry-wise goals: open the records, split, and leave ring equations. *)
Ltac mat_crush :=
  intros;
  unfold base.equiv, equiv, SkPoint.equiv, isTranslate, preTranslate, preScale,
    postTranslate, concat, setTranslate, setScale, reset, mapXY, SkPoint.add in *;
  repeat match goal with
  | m : t |- _ => destruct m
  | p : SkPoint.t |- _ => destruct p
  | H : _ /\ _ |- _ => destruct H
  end;
  simpl in *; repeat split.

#[global] Instance equiv_equivalence : Equivalence (≡@{t}).
Proof.
  split; repeat intro; mat_crush; try reflexivity; try (by symmetry);
    etransitivity; eauto.
Qed.

#[global] Instance concat_proper : Proper ((≡) ==> (≡) ==> (≡)) concat.
Proof.
  intros a a' Ha b b' Hb. mat_crush;
    repeat match goal with H : _ == _ |- _ => rewrite H; clear H end; reflexivity.
Qed.

#[global] Instance setTranslate_proper : Proper (Qeq ==> Qeq ==> (≡)) setTranslate.
Proof. intros x x' Hx y y' Hy. mat_crush; try reflexivity; done. Qed.

#[global] Instance setScale_proper : Proper (Qeq ==> Qeq ==> (≡)) setScale.
Proof. intros x x' Hx y y' Hy. mat_crush; try reflexivity; done. Qed.

#[global] Instance preTranslate_proper :
  Proper ((≡) ==> Qeq ==> Qeq ==> (≡)) preTranslate.
Proof. intros m m' Hm x x' Hx y y' Hy. unfold preTranslate. by rewrite Hm, Hx, Hy. Qed.

#[global] Instance postTranslate_proper :
  Proper ((≡) ==> Qeq ==> Qeq ==> (≡)) postTranslate.
Proof. intros m m' Hm x x' Hx y y' Hy. unfold postTranslate. by rewrite Hm, Hx, Hy. Qed.

#[global] Instance preScale_proper : Proper ((≡) ==> Qeq ==> Qeq ==> (≡)) preScale.
Proof. intros m m' Hm x x' Hx y y' Hy. unfold preScale. by rewrite Hm, Hx, Hy. Qed.

#[global] Instance mapXY_proper : Proper ((≡) ==> (≡) ==> (≡)) mapXY.
Proof.
  intros a a' Ha [x y] [x' y'] [Hx Hy]. mat_crush;
    repeat match goal with H : _ == _ |- _ => rewrite H; clear H end; reflexivity.
Qed.

(** ** The monoid of concatenation *)

Lemma concat_reset_l m : concat reset m ≡ m.
Proof. mat_crush; ring. Qed.

Lemma concat_reset_r m : concat m reset ≡ m.
Proof. mat_crush; ring. Qed.

Lemma concat_assoc a b c : concat (concat a b) c ≡ concat a (concat b c).
Proof. mat_crush; ring. Qed.

(** Concatenation is composition of the point maps. *)
Lemma mapXY_concat a b p : mapXY (concat a b) p ≡ mapXY a (mapXY b p).
Proof. mat_crush; ring. Qed.

Lemma mapXY_reset p : mapXY reset p ≡ p.
Proof. mat_crush; ring. Qed.

Lemma mapXY_setTranslate dx dy p :
  mapXY (setTranslate dx dy) p ≡ SkPoint.mk (SkPoint.fX p + dx) (SkPoint.fY p + dy).
Proof. mat_crush; ring. Qed.

Lemma mapXY_setScale sx sy p :
  mapXY (setScale sx sy) p ≡ SkPoint.mk (sx * SkPoint.fX p) (sy * SkPoint.fY p).
Proof. mat_crush; ring. Qed.

(** ** Translations *)

Lemma setTranslate_zero : setTranslate 0 0 ≡ reset.
Proof. mat_crush; reflexivity. Qed.

Lemma concat_setTranslate a b c d :
  concat (setTranslate a b) (setTranslate c d) ≡ setTranslate (a + c) (b + d).
Proof. mat_crush; ring. Qed.

Lemma preTranslate_zero m : preTranslate m 0 0 ≡ m.
Proof. mat_crush; ring. Qed.

Lemma postTranslate_reset dx dy : postTranslate reset dx dy ≡ setTranslate dx dy.
Proof. mat_crush; ring. Qed.

Lemma preTranslate_reset dx dy : preTranslate reset dx dy ≡ setTranslate dx dy.
Proof. mat_crush; ring. Qed.

Lemma preTranslate_preTranslate m a b c d :
  preTranslate (preTranslate m a b) c d ≡ preTranslate m (a + c) (b + d).
Proof. mat_crush; ring. Qed.

Lemma isTranslate_setTranslate dx dy : isTranslate (setTranslate dx dy).
Proof. mat_crush; reflexivity. Qed.

Lemma isTranslate_concat a b : isTranslate a -> isTranslate b -> isTranslate (concat a b).
Proof.
  mat_crush; repeat match goal with H : _ == _ |- _ => rewrite H; clear H end; ring.
Qed.

Lemma isTranslate_spec m :
  isTranslate m <-> m ≡ setTranslate (transX m) (transY m).
Proof. split; mat_crush; try done; reflexivity. Qed.

(** A post-translation moves every image point by the offset. *)
Lemma mapXY_postTranslate m dx dy p :
  mapXY (postTranslate m dx dy) p
  ≡ SkPoint.add (mapXY m p) (SkPoint.mk dx dy).
Proof. mat_crush; ring. Qed.

(** A post-translation leaves the linear part alone. *)
Lemma postTranslate_linear m dx dy :
  scaleX (postTranslate m dx dy) == scaleX m /\ skewX (postTranslate m dx dy) == skewX m /\
  skewY (postTranslate m dx dy) == skewY m /\ scaleY (postTranslate m dx dy) == scaleY m.
Proof. mat_crush; ring. Qed.

(** ** Rotation and scaling about a pivot *)

Section Pivot.
Context `{Trig}.

(** The linear map of a rotation fixes the origin, whatever the sine and
    cosine are; hence rotating about a pivot fixes the pivot. *)
Lemma rotate_about_fixes_pivot ax ay deg :
  mapXY (preTranslate (preRotate (preTranslate reset ax ay) deg) (- ax) (- ay))
        (SkPoint.mk ax ay)
  ≡ SkPoint.mk ax ay.
Proof. unfold preRotate, setRotate. mat_crush; ring. Qed.

Lemma rotate_about_linear ax ay deg :
  let m := preTranslate (preRotate (preTranslate reset ax ay) deg) (- ax) (- ay) in
  scaleX m == cos_deg deg /\ skewX m == - sin_deg deg /\
  skewY m == sin_deg deg /\ scaleY m == cos_deg deg.
Proof. unfold preRotate, setRotate. mat_crush; ring. Qed.

End Pivot.

(** Scaling after the translation by [-(s-1)*w/2] keeps the centre of a
    [w] by [h] box where it was. *)
Lemma scale_recentred_fixes_centre sx sy w h :
  mapXY (preScale (preTranslate reset (- (sx * w - w) / 2) (- (sy * h - h) / 2)) sx sy)
        (SkPoint.mk (w / 2) (h / 2))
  ≡ SkPoint.mk (w / 2) (h / 2).
Proof. mat_crush; field. Qed.

End SkMatrix.

(** ** The approximation is exact on the axes *)

Lemma bhaskara_sin_0 : bhaskara_sin 0 == 0.
Proof. reflexivity. Qed.

Lemma bhaskara_sin_90 : bhaskara_sin 90 == 1.
Proof. reflexivity. Qed.

Lemma bhaskara_sin_180 : bhaskara_sin 180 == 0.
Proof. reflexivity. Qed.

Lemma bhaskara_sin_270 : bhaskara_sin 270 == -1.
Proof. reflexivity. Qed.

Lemma bhaskara_sin_30 : bhaskara_sin 30 == 1 / 2.
Proof. reflexivity. Qed.

#[export] Hint Rewrite SkMatrix.concat_reset_l SkMatrix.concat_reset_r
  SkMatrix.preTranslate_zero SkMatrix.postTranslate_reset
  SkMatrix.preTranslate_reset SkMatrix.concat_setTranslate : sk_rw.
#[export] Hint Resolve SkMatrix.isTranslate_setTranslate SkMatrix.isTranslate_concat : sk.
