(* ===== verification/Picture.v ===== *)
(** * Picture: the store of reference-counted recordings

    A layer's content is an [SkPicture]: a list of drawing commands recorded
    at a nominal width and height, shared between layer copies through a
    reference count ([SkRefCnt]).  The layer code holds pictures by pointer
    and calls [new SkPicture()], [SkSafeRef], [safeUnref], [width()],
    [height()] and [draw(canvas)] on them.

    Here a pointer is a key of the store (the null pointer is [None]) and the
    store maps each live key to its picture and count.  Keys are object
    identities: allocation never reuses one, so two pictures allocated at
    different times are told apart even when the first has been freed.
    The picture class itself is not part of the layer's source file; this
    file follows the recording interface the layer consumes. *)

From S2P Require Import Prelude Geometry.

(** ** Paints and drawing commands *)

(** The part of [SkPaint] the layer code touches: colour and alpha. *)
Record SkPaint : Type := mkPaint { paint_color : SkColor; paint_alpha : Z }.

Definition getAlpha (p : SkPaint) : Z := paint_alpha p.

Definition setAlpha (p : SkPaint) (a : Z) : SkPaint := mkPaint (paint_color p) a.

(** One recorded drawing call. *)
Inductive DrawCmd : Type :=
| DrawRect (r : SkRect.t) (p : SkPaint)
| DrawLine (x0 y0 x1 y1 : Q) (p : SkPaint).

Definition cmd_paint (c : DrawCmd) : SkPaint :=
  match c with
  | DrawRect _ p => p
  | DrawLine _ _ _ _ p => p
  end.

Definition cmd_with_paint (c : DrawCmd) (p : SkPaint) : DrawCmd :=
  match c with
  | DrawRect r _ => DrawRect r p
  | DrawLine x0 y0 x1 y1 _ => DrawLine x0 y0 x1 y1 p
  end.

(** ** Pictures *)

Module SkPicture.

Record t : Type := mk {
  fWidth : Z;
  fHeight : Z;
  fPlayback : list DrawCmd;
  fRefCnt : nat }.

(** [new SkPicture()]: no commands, zero by zero, one owner. *)
Definition empty : t := mk 0 0 [] 1.

Definition width (p : t) : Z := fWidth p.

Definition height (p : t) : Z := fHeight p.

Definition with_refcnt (p : t) (n : nat) : t :=
  mk (fWidth p) (fHeight p) (fPlayback p) n.

End SkPicture.

(** ** The store *)

(** A pointer to a picture. *)
Abbreviation PicRef := positive.

Record PictureStore : Type := mkStore {
  heap : gmap positive SkPicture.t;
  next : positive }.

Definition empty_store : PictureStore := mkStore ∅ 1%positive.

(** [new SkPicture()]. *)
Definition newPicture : State PictureStore PicRef :=
  fun st => (next st, mkStore (<[next st := SkPicture.empty]> (heap st)) (Pos.succ (next st))).

(** [p->ref()]. *)
Definition ref (p : PicRef) : State PictureStore unit :=
  modify (fun st =>
    mkStore (alter (fun pic => SkPicture.with_refcnt pic (S (SkPicture.fRefCnt pic))) p (heap st))
            (next st)).

(** [p->unref()]: the last owner frees the picture. *)
Definition unref (p : PicRef) : State PictureStore unit :=
  modify (fun st =>
    match heap st !! p with
    | Some pic =>
        match SkPicture.fRefCnt pic with
        | S (S n) => mkStore (<[p := SkPicture.with_refcnt pic (S n)]> (heap st)) (next st)
        | _ => mkStore (delete p (heap st)) (next st)
        end
    | None => st
    end).

(** [SkSafeRef(p)]: [ref] unless [p] is null. *)
Definition SkSafeRef (p : option PicRef) : State PictureStore unit :=
  match p with
  | Some r => ref r
  | None => ret tt
  end.

(** [p->safeUnref()]: [unref] unless [p] is null. *)
Definition safeUnref (p : option PicRef) : State PictureStore unit :=
  match p with
  | Some r => unref r
  | None => ret tt
  end.

(** [p->width()] and [p->height()] through the store. *)
Definition pic_width (st : PictureStore) (p : PicRef) : Z :=
  from_option SkPicture.width 0%Z (heap st !! p).

Definition pic_height (st : PictureStore) (p : PicRef) : Z :=
  from_option SkPicture.height 0%Z (heap st !! p).

Definition pic_commands (st : PictureStore) (p : PicRef) : list DrawCmd :=
  from_option SkPicture.fPlayback [] (heap st !! p).

(** The number of owners of [p]; zero when it is not live. *)
Definition refcnt (st : PictureStore) (p : PicRef) : nat :=
  from_option SkPicture.fRefCnt 0 (heap st !! p).

(** What the layout engine does with the picture [recordContext] hands out:
    [beginRecording(w, h)], the drawing calls, [endRecording()]. *)
Definition record (p : PicRef) (w h : Z) (cmds : list DrawCmd) : State PictureStore unit :=
  modify (fun st =>
    mkStore (alter (fun pic => SkPicture.mk w h cmds (SkPicture.fRefCnt pic)) p (heap st))
            (next st)).

(** ** Well-formed stores *)

(** Every live picture has an owner and was handed out by the allocator. *)
Definition store_wf (st : PictureStore) : Prop :=
  forall p pic, heap st !! p = Some pic ->
    (1 <= SkPicture.fRefCnt pic)%nat /\ (p < next st)%positive.

Definition live (st : PictureStore) (p : PicRef) : Prop := is_Some (heap st !! p).

#[global] Instance live_dec st p : Decision (live st p).
Proof. unfold live. apply _. Defined.

(** ** Lemmas *)

Section StoreLemmas.
Implicit Types (st : PictureStore) (p q : PicRef).

Lemma cmd_paint_with_paint c (pt : SkPaint) : cmd_paint (cmd_with_paint c pt) = pt.
Proof. by destruct c. Qed.

Lemma cmd_with_paint_id c : cmd_with_paint c (cmd_paint c) = c.
Proof. by destruct c. Qed.

Lemma store_wf_empty : store_wf empty_store.
Proof. intros p pic. unfold empty_store; simpl. by rewrite lookup_empty. Qed.

Lemma refcnt_live st p : store_wf st -> live st p <-> (1 <= refcnt st p)%nat.
Proof.
  intros Hwf. unfold live, refcnt. split.
  - intros [pic Hp]. rewrite Hp. simpl. by apply (Hwf p).
  - destruct (heap st !! p); simpl; [eauto|lia].
Qed.

Lemma refcnt_not_live st p : ~ live st p -> refcnt st p = 0%nat.
Proof.
  unfold live, refcnt. destruct (heap st !! p); simpl; [|done].
  intros []. eauto.
Qed.

Lemma next_not_live st : store_wf st -> ~ live st (next st).
Proof. intros Hwf [pic Hp]. apply Hwf in Hp as [_ Hlt]. lia. Qed.

(** *** Allocation *)

Lemma newPicture_fst st : (newPicture st).1 = next st.
Proof. reflexivity. Qed.

Lemma newPicture_fresh st : store_wf st -> ~ live st (newPicture st).1.
Proof. apply next_not_live. Qed.

Lemma newPicture_live st : live (newPicture st).2 (next st).
Proof. unfold live; simpl. rewrite lookup_insert_eq. eauto. Qed.

Lemma newPicture_lookup st :
  heap (newPicture st).2 !! next st = Some SkPicture.empty.
Proof. simpl. by rewrite lookup_insert_eq. Qed.

Lemma newPicture_lookup_ne st p :
  p <> next st -> heap (newPicture st).2 !! p = heap st !! p.
Proof. intros. simpl. by rewrite lookup_insert_ne. Qed.

Lemma newPicture_width st : pic_width (newPicture st).2 (next st) = 0%Z.
Proof. unfold pic_width. by rewrite newPicture_lookup. Qed.

Lemma newPicture_height st : pic_height (newPicture st).2 (next st) = 0%Z.
Proof. unfold pic_height. by rewrite newPicture_lookup. Qed.

Lemma newPicture_commands st : pic_commands (newPicture st).2 (next st) = [].
Proof. unfold pic_commands. by rewrite newPicture_lookup. Qed.

Lemma newPicture_refcnt st p :
  store_wf st ->
  refcnt (newPicture st).2 p = if decide (p = next st) then 1%nat else refcnt st p.
Proof.
  intros Hwf. unfold refcnt. case_decide as Hp.
  - subst. by rewrite newPicture_lookup.
  - by rewrite newPicture_lookup_ne.
Qed.

Lemma newPicture_wf st : store_wf st -> store_wf (newPicture st).2.
Proof.
  intros Hwf p pic. simpl. rewrite lookup_insert. case_decide as Hp.
  - intros [= <-]. subst. simpl. split; lia.
  - intros Hl. apply Hwf in Hl as [? ?]. split; [done|lia].
Qed.

Lemma newPicture_next st : next (newPicture st).2 = Pos.succ (next st).
Proof. reflexivity. Qed.

(** *** Counting *)

Lemma ref_refcnt st p q :
  live st p ->
  refcnt (ref p st).2 q = if decide (p = q) then S (refcnt st q) else refcnt st q.
Proof.
  intros [pic E]. unfold refcnt, ref, modify; simpl. rewrite lookup_alter.
  case_decide as Hpq; [subst|done]. by rewrite E.
Qed.

Lemma ref_wf st p : store_wf st -> store_wf (ref p st).2.
Proof.
  intros Hwf q pic. unfold ref, modify; simpl. rewrite lookup_alter.
  case_decide as Hpq; [subst|apply Hwf].
  destruct (heap st !! q) as [pic'|] eqn:E; simpl; [|done].
  intros [= <-]. apply Hwf in E as [? ?]. simpl. split; [lia|done].
Qed.

Lemma ref_next st p : next (ref p st).2 = next st.
Proof. reflexivity. Qed.

Lemma unref_refcnt st p q :
  store_wf st ->
  refcnt (unref p st).2 q = if decide (p = q) then pred (refcnt st q) else refcnt st q.
Proof.
  intros Hwf. unfold refcnt, unref, modify; simpl.
  destruct (heap st !! p) as [pic|] eqn:E; simpl.
  - destruct (Hwf _ _ E) as [Hc _].
    destruct (SkPicture.fRefCnt pic) as [|[|n]] eqn:En; simpl; [lia|..].
    + rewrite lookup_delete. case_decide; subst; [by rewrite E; simpl; rewrite En|done].
    + rewrite lookup_insert. case_decide; subst; [by rewrite E; simpl; rewrite En|done].
  - case_decide; subst; [by rewrite E|done].
Qed.

Lemma unref_wf st p : store_wf st -> store_wf (unref p st).2.
Proof.
  intros Hwf q pic. unfold unref, modify; simpl.
  destruct (heap st !! p) as [pic'|] eqn:E; simpl; [|apply Hwf].
  destruct (Hwf _ _ E) as [Hc Hlt].
  destruct (SkPicture.fRefCnt pic') as [|[|n]] eqn:En; simpl.
  - lia.
  - rewrite lookup_delete. case_decide; [done|apply Hwf].
  - rewrite lookup_insert. case_decide; [|apply Hwf].
    intros [= <-]. subst. simpl. split; [lia|done].
Qed.

Lemma unref_next st p : next (unref p st).2 = next st.
Proof.
  unfold unref, modify; simpl. destruct (heap st !! p) as [pic|]; [|done].
  by destruct (SkPicture.fRefCnt pic) as [|[|n]].
Qed.

(** [unref] leaves every other picture as it was. *)
Lemma unref_lookup_ne st p q : p <> q -> heap (unref p st).2 !! q = heap st !! q.
Proof.
  intros Hpq. unfold unref, modify; simpl.
  destruct (heap st !! p) as [pic|]; [|done].
  destruct (SkPicture.fRefCnt pic) as [|[|n]]; simpl;
    by rewrite ?lookup_delete_ne, ?lookup_insert_ne.
Qed.

(** A shared picture survives [unref] with its content. *)
Lemma unref_shared st p pic :
  heap st !! p = Some pic -> (2 <= SkPicture.fRefCnt pic)%nat ->
  heap (unref p st).2 !! p =
    Some (SkPicture.with_refcnt pic (pred (SkPicture.fRefCnt pic))).
Proof.
  intros E Hc. unfold unref, modify; simpl. rewrite E.
  destruct (SkPicture.fRefCnt pic) as [|[|n]]; [lia..|]. simpl.
  by rewrite lookup_insert_eq.
Qed.

(** The last owner's [unref] frees the picture. *)
Lemma unref_last st p pic :
  heap st !! p = Some pic -> SkPicture.fRefCnt pic = 1%nat ->
  heap (unref p st).2 !! p = None.
Proof.
  intros E Hc. unfold unref, modify; simpl. rewrite E, Hc. simpl.
  by rewrite lookup_delete_eq.
Qed.

Lemma safeUnref_null st : safeUnref None st = (tt, st).
Proof. reflexivity. Qed.

Lemma safeUnref_wf st o : store_wf st -> store_wf (safeUnref o st).2.
Proof. destruct o; [apply unref_wf|done]. Qed.

Lemma safeUnref_next st o : next (safeUnref o st).2 = next st.
Proof. destruct o; [apply unref_next|done]. Qed.

Lemma safeUnref_refcnt st o q :
  store_wf st ->
  refcnt (safeUnref o st).2 q =
    if decide (o = Some q) then pred (refcnt st q) else refcnt st q.
Proof.
  intros Hwf. destruct o as [p|]; unfold safeUnref.
  - rewrite unref_refcnt by done. by repeat case_decide; simplify_eq.
  - by rewrite decide_False.
Qed.

(** Two pictures with the same size and commands: the same recording,
    whatever the number of owners. *)
Definition same_content (a b : SkPicture.t) : Prop :=
  SkPicture.fWidth a = SkPicture.fWidth b /\
  SkPicture.fHeight a = SkPicture.fHeight b /\
  SkPicture.fPlayback a = SkPicture.fPlayback b.

(** [unref] changes at most the count of a picture that stays live. *)
Lemma unref_same_content st p q pic pic' :
  heap st !! q = Some pic -> heap (unref p st).2 !! q = Some pic' ->
  same_content pic' pic.
Proof.
  intros Hq. destruct (decide (p = q)) as [->|Hne];
    [|by rewrite unref_lookup_ne, Hq by done; intros [= <-]].
  unfold unref, modify; simpl. rewrite Hq.
  destruct (SkPicture.fRefCnt pic) as [|[|n]]; simpl;
    rewrite ?lookup_delete_eq, ?lookup_insert_eq; [done..|]. by intros [= <-].
Qed.

Lemma safeUnref_same_content st o q pic pic' :
  heap st !! q = Some pic -> heap (safeUnref o st).2 !! q = Some pic' ->
  same_content pic' pic.
Proof.
  destruct o as [p|]; [apply unref_same_content|].
  simpl. intros -> [= <-]. done.
Qed.

(** Releasing a pointer gives back exactly the share its holder had. *)
Lemma safeUnref_release st o q :
  store_wf st -> (o = Some q -> live st q) ->
  (refcnt (safeUnref o st).2 q + (if decide (o = Some q) then 1 else 0))%nat = refcnt st q.
Proof.
  intros Hwf Hlive. rewrite safeUnref_refcnt by done. case_decide as Ho; [|lia].
  apply Hlive, refcnt_live in Ho; [lia|done].
Qed.

Lemma SkSafeRef_refcnt st o q :
  (o = Some q -> live st q) ->
  refcnt (SkSafeRef o st).2 q =
  (refcnt st q + (if decide (o = Some q) then 1 else 0))%nat.
Proof.
  intros Hlive. destruct o as [p|]; [|cbn; case_decide; [done|lia]].
  destruct (decide (p = q)) as [->|Hne].
  - cbn [SkSafeRef]. rewrite ref_refcnt by auto. rewrite !decide_True by done. lia.
  - unfold refcnt, SkSafeRef, ref, modify. cbn. rewrite lookup_alter_ne by done.
    rewrite decide_False by congruence. lia.
Qed.

Lemma SkSafeRef_live st o q : live st q -> live (SkSafeRef o st).2 q.
Proof.
  destruct o as [p|]; [|done]. unfold live, SkSafeRef, ref, modify. cbn.
  rewrite lookup_alter. case_decide; [subst|done]. by intros [pic ->].
Qed.

Lemma SkSafeRef_next st o : next (SkSafeRef o st).2 = next st.
Proof. by destruct o. Qed.

Lemma SkSafeRef_wf st o : store_wf st -> store_wf (SkSafeRef o st).2.
Proof. destruct o; [apply ref_wf|done]. Qed.

(** *** Recording *)

Lemma record_wf st p w h cmds : store_wf st -> store_wf (record p w h cmds st).2.
Proof.
  intros Hwf q pic. unfold record, modify; simpl. rewrite lookup_alter.
  case_decide as Hpq; [subst|apply Hwf].
  destruct (heap st !! q) as [pic'|] eqn:E; simpl; [|done].
  intros [= <-]. by apply Hwf in E.
Qed.

Lemma record_refcnt st p w h cmds q : refcnt (record p w h cmds st).2 q = refcnt st q.
Proof.
  unfold refcnt, record, modify; simpl. rewrite lookup_alter.
  case_decide; [subst|done]. by destruct (heap st !! q).
Qed.

Lemma record_width st p w h cmds :
  live st p -> pic_width (record p w h cmds st).2 p = w.
Proof.
  intros [pic E]. unfold pic_width, record, modify; simpl.
  by rewrite lookup_alter_eq, E.
Qed.

Lemma record_height st p w h cmds :
  live st p -> pic_height (record p w h cmds st).2 p = h.
Proof.
  intros [pic E]. unfold pic_height, record, modify; simpl.
  by rewrite lookup_alter_eq, E.
Qed.

Lemma record_commands st p w h cmds :
  live st p -> pic_commands (record p w h cmds st).2 p = cmds.
Proof.
  intros [pic E]. unfold pic_commands, record, modify; simpl.
  by rewrite lookup_alter_eq, E.
Qed.

Lemma record_live st p w h cmds q : live (record p w h cmds st).2 q <-> live st q.
Proof.
  unfold live, record, modify; simpl. rewrite lookup_alter.
  case_decide; [subst|done]. destruct (heap st !! q); simpl; [|done].
  split; eauto.
Qed.

End StoreLemmas.

Arguments newPicture : simpl never.
Arguments ref : simpl never.
Arguments unref : simpl never.
Arguments record : simpl never.

#[export] Hint Resolve store_wf_empty newPicture_wf ref_wf unref_wf safeUnref_wf
  SkSafeRef_wf record_wf newPicture_live : sk.
#[export] Hint Rewrite newPicture_fst newPicture_width newPicture_height
  newPicture_commands newPicture_lookup newPicture_next unref_next safeUnref_next
  ref_next record_refcnt : sk_rw.
