(* ===== verification/SkLayer.v ===== *)
(** * SkLayer: the properties a layer inherits from its base class

    [LayerAndroid] derives from [SkLayer], which holds the geometric
    properties the painter reads ([m_opacity], [m_size], [m_position],
    [m_translation], [m_anchorPoint], [m_scale], [m_angleTransform],
    [m_doRotation]), the fixed-position lengths, the background colour, and
    their setters.  The base class is not part of the layer's source file;
    the record and the setters follow the public contract of the layer node.
    The child array, which the base class also holds, is part of the tree
    type of [Layer]. *)

From S2P Require Import Prelude Geometry.

Local Open Scope Q_scope.

Module SkLayer.

Record t : Type := mk {
  m_doRotation : bool;
  m_isFixed : bool;
  m_backgroundColorSet : bool;
  m_angleTransform : Q;
  m_opacity : Q;
  m_size : SkSize.t;
  m_position : SkPoint.t;
  m_translation : SkPoint.t;
  m_anchorPoint : SkPoint.t;
  m_scale : SkPoint.t;
  m_fixedLeft : SkLength.t;
  m_fixedTop : SkLength.t;
  m_fixedRight : SkLength.t;
  m_fixedBottom : SkLength.t;
  m_backgroundColor : SkColor }.

(** [SkLayer()]: opacity one, scale one, everything else zero or unset. *)
Definition init : t :=
  {| m_doRotation := false; m_isFixed := false; m_backgroundColorSet := false;
     m_angleTransform := 0; m_opacity := 1;
     m_size := SkSize.mk 0 0; m_position := SkPoint.mk 0 0;
     m_translation := SkPoint.mk 0 0; m_anchorPoint := SkPoint.mk (1 # 2) (1 # 2);
     m_scale := SkPoint.mk 1 1;
     m_fixedLeft := SkLength.undefined; m_fixedTop := SkLength.undefined;
     m_fixedRight := SkLength.undefined; m_fixedBottom := SkLength.undefined;
     m_backgroundColor := 0%Z |}.

Definition setSize (w h : Q) (l : t) : t :=
  mk (m_doRotation l) (m_isFixed l) (m_backgroundColorSet l) (m_angleTransform l)
     (m_opacity l) (SkSize.mk w h) (m_position l) (m_translation l)
     (m_anchorPoint l) (m_scale l) (m_fixedLeft l) (m_fixedTop l) (m_fixedRight l)
     (m_fixedBottom l) (m_backgroundColor l).

Definition setOpacity (a : Q) (l : t) : t :=
  mk (m_doRotation l) (m_isFixed l) (m_backgroundColorSet l) (m_angleTransform l)
     a (m_size l) (m_position l) (m_translation l)
     (m_anchorPoint l) (m_scale l) (m_fixedLeft l) (m_fixedTop l) (m_fixedRight l)
     (m_fixedBottom l) (m_backgroundColor l).

Definition setPosition (x y : Q) (l : t) : t :=
  mk (m_doRotation l) (m_isFixed l) (m_backgroundColorSet l) (m_angleTransform l)
     (m_opacity l) (m_size l) (SkPoint.mk x y) (m_translation l)
     (m_anchorPoint l) (m_scale l) (m_fixedLeft l) (m_fixedTop l) (m_fixedRight l)
     (m_fixedBottom l) (m_backgroundColor l).

Definition setTranslation (x y : Q) (l : t) : t :=
  mk (m_doRotation l) (m_isFixed l) (m_backgroundColorSet l) (m_angleTransform l)
     (m_opacity l) (m_size l) (m_position l) (SkPoint.mk x y)
     (m_anchorPoint l) (m_scale l) (m_fixedLeft l) (m_fixedTop l) (m_fixedRight l)
     (m_fixedBottom l) (m_backgroundColor l).

Definition setAnchorPoint (x y : Q) (l : t) : t :=
  mk (m_doRotation l) (m_isFixed l) (m_backgroundColorSet l) (m_angleTransform l)
     (m_opacity l) (m_size l) (m_position l) (m_translation l)
     (SkPoint.mk x y) (m_scale l) (m_fixedLeft l) (m_fixedTop l) (m_fixedRight l)
     (m_fixedBottom l) (m_backgroundColor l).

Definition setScale (x y : Q) (l : t) : t :=
  mk (m_doRotation l) (m_isFixed l) (m_backgroundColorSet l) (m_angleTransform l)
     (m_opacity l) (m_size l) (m_position l) (m_translation l)
     (m_anchorPoint l) (SkPoint.mk x y) (m_fixedLeft l) (m_fixedTop l) (m_fixedRight l)
     (m_fixedBottom l) (m_backgroundColor l).

(** [setRotation(angle)] also switches rotation on. *)
Definition setRotation (a : Q) (l : t) : t :=
  mk true (m_isFixed l) (m_backgroundColorSet l) a
     (m_opacity l) (m_size l) (m_position l) (m_translation l)
     (m_anchorPoint l) (m_scale l) (m_fixedLeft l) (m_fixedTop l) (m_fixedRight l)
     (m_fixedBottom l) (m_backgroundColor l).

(** [setFixedPosition(left, top, right, bottom)] also marks the layer fixed. *)
Definition setFixedPosition (left top right bottom : SkLength.t) (l : t) : t :=
  mk (m_doRotation l) true (m_backgroundColorSet l) (m_angleTransform l)
     (m_opacity l) (m_size l) (m_position l) (m_translation l)
     (m_anchorPoint l) (m_scale l) left top right bottom (m_backgroundColor l).

(** The two assignments that open [LayerAndroid::setBackgroundColor]. *)
Definition assignBackgroundColor (c : SkColor) (l : t) : t :=
  mk (m_doRotation l) (m_isFixed l) true (m_angleTransform l)
     (m_opacity l) (m_size l) (m_position l) (m_translation l)
     (m_anchorPoint l) (m_scale l) (m_fixedLeft l) (m_fixedTop l) (m_fixedRight l)
     (m_fixedBottom l) c.

(** The offset of a layer in its parent: [m_position + m_translation]. *)
Definition offsetX (l : t) : Q := SkPoint.fX (m_position l) + SkPoint.fX (m_translation l).

Definition offsetY (l : t) : Q := SkPoint.fY (m_position l) + SkPoint.fY (m_translation l).

(** The opacity is a fraction of one. *)
Definition opacity_ok (l : t) : Prop := 0 <= m_opacity l <= 1.

#[global] Instance opacity_ok_dec l : Decision (opacity_ok l).
Proof.
  unfold opacity_ok.
  destruct (Qlt_le_dec (m_opacity l) 0); [right; lra|].
  destruct (Qlt_le_dec 1 (m_opacity l)); [right; lra|left; lra].
Defined.

Lemma opacity_ok_init : opacity_ok init.
Proof. unfold opacity_ok; simpl. lra. Qed.

Lemma opacity_ok_setOpacity a l : 0 <= a <= 1 -> opacity_ok (setOpacity a l).
Proof. done. Qed.

End SkLayer.

#[export] Hint Resolve SkLayer.opacity_ok_init SkLayer.opacity_ok_setOpacity : sk.
