(* ===== verification/Animation.v ===== *)
(** * Animation: animation handles and the map that holds them

    A layer keeps its animations in [m_animations], a WTF [HashMap] from the
    animation's name to a reference-counted [AndroidAnimation].  The layer
    code calls three methods of a handle, [name()], [copy()] and
    [evaluate(layer, time)], and three of the map, [add], [remove] and
    [size], and it iterates over the map.

    The handle is an interface, the class [AndroidAnimation]; [evaluate]
    acts on the properties of the target layer ([SkLayer.t]) and reports
    whether the animation is still running.  The map is a [gmap].  Neither
    class is part of the layer's source file.  What [add] does with a key
    that is taken is decided in WTF: the specification says that adding an
    animation replaces the one stored under its name, WTF's [HashMap::add]
    is known to leave the entry alone.  The model takes no side: the
    behaviour is the parameter [AddPolicy], and what is proved of the layer
    holds for both. *)

From S2P Require Import Prelude Geometry SkLayer.

(** ** The handle interface *)

Class AndroidAnimation (A : Type) : Type := {
  name : A -> string;
  copy : A -> A;
  evaluate : A -> SkLayer.t -> Q -> SkLayer.t * bool }.

(** What a copy promises: the same name and the same behaviour. *)
Class AndroidAnimationLaws (A : Type) `{AndroidAnimation A} : Prop := {
  copy_name : forall a : A, name (copy a) = name a;
  copy_evaluate : forall (a : A) l t, evaluate (copy a) l t = evaluate a l t }.

(** ** The map *)

Abbreviation KeyframesMap A := (gmap string A).

(** What [HashMap::add] does with a key that is taken: it replaces the
    entry, or it leaves the map as it is. *)
Class AddPolicy : Type := add_replaces : bool.

(** The two policies: WTF's [add], and the replacement the specification
    describes. *)
Definition add_keeps_policy : AddPolicy := false.
Definition add_replaces_policy : AddPolicy := true.

(** [HashMap::add(key, value)]: adds the entry when the key is free. *)
Definition HashMap_add {policy : AddPolicy} {A} (k : string) (v : A) (m : gmap string A)
    : gmap string A :=
  match m !! k with
  | Some _ => if add_replaces then <[k := v]> m else m
  | None => <[k := v]> m
  end.

(** [HashMap::remove(key)]. *)
Definition HashMap_remove {A} (k : string) (m : gmap string A) : gmap string A :=
  delete k m.

(** [HashMap::size()]. *)
Definition HashMap_size {A} (m : gmap string A) : nat := size m.

(** The entries in iteration order, [begin()] to [end()]. *)
Definition HashMap_entries {A} (m : gmap string A) : list (string * A) := map_to_list m.

Section HashMapLemmas.
Context {policy : AddPolicy} {A : Type}.
Implicit Types (m : gmap string A) (k : string) (v : A).

Lemma HashMap_add_fresh k v m : m !! k = None -> HashMap_add k v m = <[k := v]> m.
Proof. unfold HashMap_add. by intros ->. Qed.

(** On a key that is taken the policy decides. *)
Lemma HashMap_add_taken k v m :
  is_Some (m !! k) -> HashMap_add k v m = if add_replaces then <[k := v]> m else m.
Proof. unfold HashMap_add. by intros [w ->]. Qed.

(** The entry under the key afterwards: the new value when the key was
    free or the policy replaces, the old one otherwise. *)
Lemma HashMap_add_lookup k v m :
  HashMap_add k v m !! k = Some (if add_replaces then v else default v (m !! k)).
Proof.
  unfold HashMap_add. destruct (m !! k) eqn:E, add_replaces; cbn;
    by rewrite ?lookup_insert_eq.
Qed.

(** Whatever the policy, the key holds an entry afterwards, and it is the
    value added or the value that was there. *)
Lemma HashMap_add_lookup_cases k v m :
  HashMap_add k v m !! k = Some v \/ HashMap_add k v m !! k = m !! k /\ is_Some (m !! k).
Proof.
  rewrite HashMap_add_lookup. destruct add_replaces; [by left|].
  destruct (m !! k) eqn:E; cbn; eauto.
Qed.

Lemma HashMap_add_lookup_ne k k' v m : k <> k' -> HashMap_add k v m !! k' = m !! k'.
Proof.
  intros. unfold HashMap_add. destruct (m !! k), add_replaces; by rewrite ?lookup_insert_ne.
Qed.

Lemma HashMap_add_size k v m :
  HashMap_size (HashMap_add k v m) =
    if decide (is_Some (m !! k)) then HashMap_size m else S (HashMap_size m).
Proof.
  unfold HashMap_add, HashMap_size. destruct (m !! k) eqn:E.
  - rewrite decide_True by eauto. destruct add_replaces; [|done].
    rewrite <- (insert_delete_eq m), map_size_insert_None by apply lookup_delete_eq.
    by rewrite <- (insert_id m k a) at 2 by done;
      rewrite <- insert_delete_eq, map_size_insert_None by apply lookup_delete_eq.
  - rewrite decide_False by (by intros []). by apply map_size_insert_None.
Qed.

Lemma HashMap_remove_lookup k m : HashMap_remove k m !! k = None.
Proof. apply lookup_delete_eq. Qed.

Lemma HashMap_remove_lookup_ne k k' m : k <> k' -> HashMap_remove k m !! k' = m !! k'.
Proof. intros. by apply lookup_delete_ne. Qed.

Lemma HashMap_remove_absent k m : m !! k = None -> HashMap_remove k m = m.
Proof. apply delete_id. Qed.

Lemma HashMap_add_remove k v m : HashMap_add k v (HashMap_remove k m) = <[k := v]> m.
Proof.
  rewrite HashMap_add_fresh by apply lookup_delete_eq. apply insert_delete_eq.
Qed.

Lemma HashMap_size_zero m : HashMap_size m = 0%nat <-> m = ∅.
Proof. apply map_size_empty_iff. Qed.

Lemma HashMap_entries_lookup k v m : (k, v) ∈ HashMap_entries m <-> m !! k = Some v.
Proof. apply elem_of_map_to_list. Qed.

Lemma HashMap_entries_length m : length (HashMap_entries m) = HashMap_size m.
Proof. apply length_map_to_list. Qed.

Lemma HashMap_entries_NoDup m : NoDup (HashMap_entries m).*1.
Proof. apply NoDup_fst_map_to_list. Qed.

End HashMapLemmas.

(** ** Two handles

    An opacity animation runs the opacity from one value to another, and a
    translation animation moves the layer, both linearly over a duration
    that starts at a given time.  [evaluate] samples the curve; once the
    time has reached the end it sets the final value and reports that the
    animation is over. *)

Local Open Scope Q_scope.

Inductive KeyframeAnimation : Type :=
| OpacityAnimation (nm : string) (from to : Q) (start duration : Q)
| TranslateAnimation (nm : string) (fromX fromY toX toY : Q) (start duration : Q).

(** The fraction of the duration elapsed at [time], within [[0, 1]]. *)
Definition progress (start duration time : Q) : Q :=
  if Qle_bool duration 0 then 1
  else Qmax 0 (Qmin 1 ((time - start) / duration)).

Definition running (start duration time : Q) : bool :=
  Qgtb (start + duration) time.

Definition lerp (a b p : Q) : Q := a + (b - a) * p.

Definition keyframe_name (a : KeyframeAnimation) : string :=
  match a with
  | OpacityAnimation nm _ _ _ _ => nm
  | TranslateAnimation nm _ _ _ _ _ _ => nm
  end.

Definition keyframe_evaluate (a : KeyframeAnimation) (l : SkLayer.t) (time : Q)
    : SkLayer.t * bool :=
  match a with
  | OpacityAnimation _ from to start duration =>
      (SkLayer.setOpacity (lerp from to (progress start duration time)) l,
       running start duration time)
  | TranslateAnimation _ fx fy tx ty start duration =>
      let p := progress start duration time in
      (SkLayer.setTranslation (lerp fx tx p) (lerp fy ty p) l,
       running start duration time)
  end.

#[export] Instance keyframe_animation : AndroidAnimation KeyframeAnimation :=
  {| name := keyframe_name; copy := fun a => a; evaluate := keyframe_evaluate |}.

#[export] Instance keyframe_animation_laws : AndroidAnimationLaws KeyframeAnimation.
Proof. by split. Qed.

Lemma progress_unit_interval start duration time :
  0 <= progress start duration time <= 1.
Proof.
  unfold progress. destruct (Qle_bool duration 0); [lra|].
  split; [apply Q.le_max_l|]. apply Q.max_lub; [lra|apply Q.le_min_l].
Qed.

Lemma lerp_between a b p : 0 <= a <= 1 -> 0 <= b <= 1 -> 0 <= p <= 1 -> 0 <= lerp a b p <= 1.
Proof. unfold lerp. intros. nra. Qed.

Lemma running_iff start duration time :
  running start duration time = true <-> time < start + duration.
Proof. apply Qgtb_true. Qed.

(** An opacity animation between two fractions of one keeps the opacity a
    fraction of one; a translation animation does not touch it. *)
Definition keyframe_bounded (a : KeyframeAnimation) : Prop :=
  match a with
  | OpacityAnimation _ from to _ _ => 0 <= from <= 1 /\ 0 <= to <= 1
  | TranslateAnimation _ _ _ _ _ _ _ => True
  end.

Lemma keyframe_evaluate_opacity_ok a l time :
  keyframe_bounded a -> SkLayer.opacity_ok l ->
  SkLayer.opacity_ok (keyframe_evaluate a l time).1.
Proof.
  destruct a; simpl; [|done]. intros [? ?] _. unfold SkLayer.opacity_ok; simpl.
  apply lerp_between; auto using progress_unit_interval.
Qed.

#[export] Hint Rewrite @HashMap_add_lookup @HashMap_remove_lookup : sk_rw.
#[export] Hint Resolve progress_unit_interval lerp_between : sk.
