(* ===== verification/Canvas.v ===== *)
(** * Canvas: the drawing surface and the opacity filter

    [OpacityDrawFilter] (lines 28-44 of LayerAndroid.cpp) is the layer's own
    draw filter: while installed it forces the alpha of every paint to a
    fixed value and puts the old alpha back afterwards.

    The canvas is the graphics library's.  The painter calls [save],
    [restoreToCount], [clipRect], [translate], [concat] and [setDrawFilter]
    on it and replays pictures onto it.  The model keeps what those calls
    act on: a stack of saved states, each with a matrix, a clip and a draw
    filter.  It also keeps two records of what happened: the calls received,
    in order, and the display list, which holds every drawing command that
    reached the canvas together with the matrix, the clip and the alpha in
    force when it was drawn. *)

From S2P Require Import Prelude Geometry Matrix Picture.

(** ** The opacity filter (lines 28-44) *)

Module OpacityDrawFilter.

Record t : Type := mk { m_opacity : Z; m_previousOpacity : Z }.

(** The constructor sets [m_opacity]; [m_previousOpacity] is assigned by the
    first [filter]. *)
Definition new (opacity : Z) : t := mk opacity 0.

(** [filter(canvas, paint, type)]: remember the paint's alpha, force ours. *)
Definition filter (p : SkPaint) : State t (bool * SkPaint) :=
  fun f => ((true, setAlpha p (m_opacity f)), mk (m_opacity f) (getAlpha p)).

(** [restore(canvas, paint, type)]: put the remembered alpha back. *)
Definition restore (p : SkPaint) : State t SkPaint :=
  fun f => (setAlpha p (m_previousOpacity f), f).

End OpacityDrawFilter.

(** ** The canvas *)

(** One clip request: the rectangle and the matrix in force when it was
    made. *)
Definition ClipEntry : Type := SkMatrix.t * SkRect.t.

(** One saved state of the canvas. *)
Record MCRec : Type := mkMCRec {
  fMatrix : SkMatrix.t;
  fClip : list ClipEntry;
  fFilter : option OpacityDrawFilter.t }.

(** A call received by the canvas. *)
Inductive CanvasCall : Type :=
| CallSave
| CallRestoreToCount (count : nat)
| CallClipRect (r : SkRect.t)
| CallTranslate (dx dy : Q)
| CallConcat (m : SkMatrix.t)
| CallSetDrawFilter (opacity : Z)
| CallDraw (c : DrawCmd).

(** A command as it reached the surface: with the paint it was drawn with,
    the matrix and the clip. *)
Record Drawn : Type := mkDrawn {
  drawn_cmd : DrawCmd;
  drawn_matrix : SkMatrix.t;
  drawn_clip : list ClipEntry }.

Definition drawn_alpha (d : Drawn) : Z := getAlpha (cmd_paint (drawn_cmd d)).

Record SkCanvas : Type := mkCanvas {
  top : MCRec;
  saved : list MCRec;
  calls : list CanvasCall;
  display : list Drawn }.

(** A canvas with the given matrix, no clip, no filter and nothing drawn. *)
Definition new_canvas (m : SkMatrix.t) : SkCanvas :=
  mkCanvas (mkMCRec m [] None) [] [] [].

Definition with_top (r : MCRec) (c : SkCanvas) : SkCanvas :=
  mkCanvas r (saved c) (calls c) (display c).

Definition log (k : CanvasCall) (c : SkCanvas) : SkCanvas :=
  mkCanvas (top c) (saved c) (calls c ++ [k]) (display c).

(** [getSaveCount()]: the number of states on the stack. *)
Definition getSaveCount (c : SkCanvas) : nat := S (length (saved c)).

(** [save()]: push a copy of the current state; the result is the count
    before the push. *)
Definition save : State SkCanvas nat :=
  fun c => (getSaveCount c,
            mkCanvas (top c) (top c :: saved c) (calls c ++ [CallSave]) (display c)).

(** One [restore()]: pop, unless only the initial state is left. *)
Definition pop (c : SkCanvas) : SkCanvas :=
  match saved c with
  | r :: rs => mkCanvas r rs (calls c) (display c)
  | [] => c
  end.

(** [restoreToCount(count)]: pop until [count] states are left, and never
    the initial one. *)
Definition restoreToCount (count : nat) : State SkCanvas unit :=
  modify (fun c =>
    Nat.iter (getSaveCount c - Nat.max count 1) pop (log (CallRestoreToCount count) c)).

(** [translate(dx, dy)]. *)
Definition translate (dx dy : Q) : State SkCanvas unit :=
  modify (fun c =>
    with_top (mkMCRec (SkMatrix.preTranslate (fMatrix (top c)) dx dy)
                      (fClip (top c)) (fFilter (top c)))
             (log (CallTranslate dx dy) c)).

(** [concat(matrix)]. *)
Definition concat (m : SkMatrix.t) : State SkCanvas unit :=
  modify (fun c =>
    with_top (mkMCRec (SkMatrix.concat (fMatrix (top c)) m)
                      (fClip (top c)) (fFilter (top c)))
             (log (CallConcat m) c)).

(** [clipRect(rect)]: narrow the clip by the rectangle as the current
    matrix places it. *)
Definition clipRect (r : SkRect.t) : State SkCanvas unit :=
  modify (fun c =>
    with_top (mkMCRec (fMatrix (top c)) ((fMatrix (top c), r) :: fClip (top c))
                      (fFilter (top c)))
             (log (CallClipRect r) c)).

(** [setDrawFilter(new OpacityDrawFilter(opacity))]. *)
Definition setDrawFilter (f : OpacityDrawFilter.t) : State SkCanvas unit :=
  modify (fun c =>
    with_top (mkMCRec (fMatrix (top c)) (fClip (top c)) (Some f))
             (log (CallSetDrawFilter (OpacityDrawFilter.m_opacity f)) c)).

(** The paint a command is drawn with under a filter, and the filter
    afterwards: [filter] before the draw, [restore] after it. *)
Definition filtered (f : option OpacityDrawFilter.t) (p : SkPaint)
    : SkPaint * option OpacityDrawFilter.t :=
  match f with
  | Some f0 =>
      let '((_, p1), f1) := OpacityDrawFilter.filter p f0 in
      let '(_, f2) := OpacityDrawFilter.restore p1 f1 in
      (p1, Some f2)
  | None => (p, None)
  end.

(** Drawing one command: it reaches the surface with the filtered paint,
    under the current matrix and clip. *)
Definition drawCmd (cmd : DrawCmd) : State SkCanvas unit :=
  modify (fun c =>
    let '(p1, f') := filtered (fFilter (top c)) (cmd_paint cmd) in
    mkCanvas (mkMCRec (fMatrix (top c)) (fClip (top c)) f')
             (saved c)
             (calls c ++ [CallDraw cmd])
             (display c ++ [mkDrawn (cmd_with_paint cmd p1)
                                    (fMatrix (top c)) (fClip (top c))])).

(** Replaying a picture: its commands, in order. *)
Fixpoint playback (cmds : list DrawCmd) : State SkCanvas unit :=
  match cmds with
  | [] => ret tt
  | cmd :: rest => drawCmd cmd ;; playback rest
  end.

(** ** Observations *)

(** The whole stack, current state first. *)
Definition frames (c : SkCanvas) : list MCRec := top c :: saved c.

(** The opacity forced by the installed filter, if one is installed. *)
Definition filter_opacity (c : SkCanvas) : option Z :=
  OpacityDrawFilter.m_opacity <$> fFilter (top c).

(** The alpha a paint is drawn with on this canvas. *)
Definition effective_alpha (c : SkCanvas) (p : SkPaint) : Z :=
  default (getAlpha p) (filter_opacity c).

(** What a replay adds to the display list: each command under the matrix
    and clip of the canvas, its alpha replaced by the filter's. *)
Definition drawn_under (c : SkCanvas) (cmd : DrawCmd) : Drawn :=
  mkDrawn (cmd_with_paint cmd (mkPaint (paint_color (cmd_paint cmd))
                                       (effective_alpha c (cmd_paint cmd))))
          (fMatrix (top c)) (fClip (top c)).

(** [c'] extends the records of [c]. *)
Definition extends (c c' : SkCanvas) : Prop :=
  calls c `prefix_of` calls c' /\ display c `prefix_of` display c'.

(** ** The filter *)

Section FilterLemmas.
Import OpacityDrawFilter.

Lemma filter_alpha p f : getAlpha (filter p f).1.2 = m_opacity f.
Proof. reflexivity. Qed.

Lemma filter_keeps_opacity p f : m_opacity (filter p f).2 = m_opacity f.
Proof. reflexivity. Qed.

Lemma filter_restore p f :
  (restore (filter p f).1.2 (filter p f).2).1 = p.
Proof. by destruct p. Qed.

Lemma filter_color p f : paint_color (filter p f).1.2 = paint_color p.
Proof. reflexivity. Qed.

End FilterLemmas.

Lemma filtered_alpha f p :
  getAlpha (filtered f p).1 = default (getAlpha p) (OpacityDrawFilter.m_opacity <$> f).
Proof. by destruct f. Qed.

Lemma filtered_opacity f p :
  OpacityDrawFilter.m_opacity <$> (filtered f p).2 = OpacityDrawFilter.m_opacity <$> f.
Proof. by destruct f. Qed.

Lemma filtered_color f p : paint_color (filtered f p).1 = paint_color p.
Proof. by destruct f. Qed.

(** ** The stack *)

Lemma frames_inj c c' : frames c = frames c' <-> top c = top c' /\ saved c = saved c'.
Proof. unfold frames. split; [by intros [= -> ->]|by intros [-> ->]]. Qed.

Lemma getSaveCount_frames c : getSaveCount c = length (frames c).
Proof. reflexivity. Qed.

Lemma iter_pop_frames n c :
  frames (Nat.iter n pop c) = drop (Nat.min n (length (saved c))) (frames c).
Proof.
  revert c. induction n as [|n IH]; intros c; [done|].
  rewrite Nat.iter_succ_r, IH. unfold pop, frames.
  destruct (saved c) as [|r rs] eqn:E; simpl; [|done].
  by rewrite E, Nat.min_0_r.
Qed.

Lemma iter_pop_calls n c : calls (Nat.iter n pop c) = calls c.
Proof.
  revert c. induction n as [|n IH]; intros c; [done|].
  rewrite Nat.iter_succ_r, IH. unfold pop. by destruct (saved c).
Qed.

Lemma iter_pop_display n c : display (Nat.iter n pop c) = display c.
Proof.
  revert c. induction n as [|n IH]; intros c; [done|].
  rewrite Nat.iter_succ_r, IH. unfold pop. by destruct (saved c).
Qed.

Lemma restoreToCount_frames count c :
  frames (restoreToCount count c).2 =
  drop (getSaveCount c - Nat.max count 1) (frames c).
Proof.
  unfold restoreToCount, modify; simpl. rewrite iter_pop_frames. simpl.
  f_equal. unfold getSaveCount. lia.
Qed.

Lemma restoreToCount_calls count c :
  calls (restoreToCount count c).2 = calls c ++ [CallRestoreToCount count].
Proof. unfold restoreToCount, modify; simpl. by rewrite iter_pop_calls. Qed.

Lemma restoreToCount_display count c :
  display (restoreToCount count c).2 = display c.
Proof. unfold restoreToCount, modify; simpl. by rewrite iter_pop_display. Qed.

(** The count never goes below one and never grows. *)
Lemma restoreToCount_count count c :
  getSaveCount (restoreToCount count c).2 =
  Nat.min (getSaveCount c) (Nat.max count 1).
Proof.
  rewrite !getSaveCount_frames, restoreToCount_frames, length_drop.
  rewrite <- getSaveCount_frames. unfold getSaveCount. lia.
Qed.

(** Restoring to the count a [save] returned undoes that [save] and what
    was done to the current state since. *)
Lemma restoreToCount_after_save c c' :
  saved c' = top c :: saved c ->
  frames (restoreToCount (save c).1 c').2 = frames c.
Proof.
  intros E. rewrite restoreToCount_frames. unfold getSaveCount, frames, save.
  cbn [fst]. rewrite E. unfold getSaveCount. cbn [length].
  replace (S (S (length (saved c))) - Nat.max (S (length (saved c))) 1) with 1 by lia.
  reflexivity.
Qed.

Lemma save_saved c : saved (save c).2 = top c :: saved c.
Proof. reflexivity. Qed.

(** ** Drawing *)

Lemma drawCmd_top cmd c :
  saved (drawCmd cmd c).2 = saved c /\
  fMatrix (top (drawCmd cmd c).2) = fMatrix (top c) /\
  fClip (top (drawCmd cmd c).2) = fClip (top c) /\
  filter_opacity (drawCmd cmd c).2 = filter_opacity c.
Proof.
  unfold drawCmd, modify, filter_opacity. simpl.
  pose proof (filtered_opacity (fFilter (top c)) (cmd_paint cmd)) as E.
  by destruct (filtered _ _).
Qed.

Lemma playback_top cmds c :
  saved (playback cmds c).2 = saved c /\
  fMatrix (top (playback cmds c).2) = fMatrix (top c) /\
  fClip (top (playback cmds c).2) = fClip (top c) /\
  filter_opacity (playback cmds c).2 = filter_opacity c.
Proof.
  revert c. induction cmds as [|cmd cmds IH]; intros c; [done|].
  cbn [playback]. unfold bind. destruct (drawCmd cmd c) as [[] c1] eqn:E1.
  destruct (IH c1) as (-> & -> & -> & ->).
  pose proof (drawCmd_top cmd c) as D. by rewrite E1 in D.
Qed.

Lemma playback_saved cmds c : saved (playback cmds c).2 = saved c.
Proof. apply playback_top. Qed.

Lemma playback_calls cmds c :
  calls (playback cmds c).2 = calls c ++ (CallDraw <$> cmds).
Proof.
  revert c. induction cmds as [|cmd cmds IH]; intros c; simpl.
  - by rewrite app_nil_r.
  - unfold bind, drawCmd, modify. rewrite IH.
    destruct (filtered _ _); simpl. by rewrite <- app_assoc.
Qed.

Lemma filtered_paint f p :
  (filtered f p).1 =
  mkPaint (paint_color p) (default (getAlpha p) (OpacityDrawFilter.m_opacity <$> f)).
Proof. destruct f, p; reflexivity. Qed.

Lemma drawn_under_ext c c' cmd :
  fMatrix (top c) = fMatrix (top c') -> fClip (top c) = fClip (top c') ->
  filter_opacity c = filter_opacity c' -> drawn_under c cmd = drawn_under c' cmd.
Proof. unfold drawn_under, effective_alpha. by intros -> -> ->. Qed.

Lemma drawCmd_display cmd c :
  display (drawCmd cmd c).2 = display c ++ [drawn_under c cmd].
Proof.
  unfold drawCmd, modify, drawn_under, effective_alpha, filter_opacity. simpl.
  pose proof (filtered_paint (fFilter (top c)) (cmd_paint cmd)) as E.
  destruct (filtered _ _); simpl in *. by rewrite E.
Qed.

Lemma playback_display cmds c :
  display (playback cmds c).2 = display c ++ (drawn_under c <$> cmds).
Proof.
  revert c. induction cmds as [|cmd cmds IH]; intros c; simpl.
  - by rewrite app_nil_r.
  - unfold bind. destruct (drawCmd cmd c) as [[] c1] eqn:E1.
    rewrite IH. pose proof (drawCmd_display cmd c) as D. rewrite E1 in D; simpl in D.
    rewrite D, <- app_assoc. simpl. do 2 f_equal.
    apply list_fmap_ext. intros _ cmd' _.
    pose proof (drawCmd_top cmd c) as T. rewrite E1 in T.
    destruct T as (_ & ? & ? & ?). by apply drawn_under_ext.
Qed.

(** ** Extension of the records *)

#[global] Instance extends_preorder : PreOrder extends.
Proof.
  split; [by split|].
  intros a b c [? ?] [? ?]. split; by etrans.
Qed.

Lemma extends_app c c' ks ds :
  calls c' = calls c ++ ks -> display c' = display c ++ ds -> extends c c'.
Proof. intros E1 E2. split; [by exists ks|by exists ds]. Qed.

Lemma save_extends c : extends c (save c).2.
Proof. by eapply extends_app; [|symmetry; apply app_nil_r]. Qed.

Lemma restoreToCount_extends count c : extends c (restoreToCount count c).2.
Proof.
  eapply extends_app; [apply restoreToCount_calls|].
  rewrite restoreToCount_display. symmetry. apply app_nil_r.
Qed.

Lemma translate_extends dx dy c : extends c (translate dx dy c).2.
Proof. by eapply extends_app; [|symmetry; apply app_nil_r]. Qed.

Lemma clipRect_extends r c : extends c (clipRect r c).2.
Proof. by eapply extends_app; [|symmetry; apply app_nil_r]. Qed.

Lemma concat_extends m c : extends c (concat m c).2.
Proof. by eapply extends_app; [|symmetry; apply app_nil_r]. Qed.

Lemma setDrawFilter_extends f c : extends c (setDrawFilter f c).2.
Proof. by eapply extends_app; [|symmetry; apply app_nil_r]. Qed.

Lemma playback_extends cmds c : extends c (playback cmds c).2.
Proof. eapply extends_app; [apply playback_calls|apply playback_display]. Qed.

#[export] Hint Resolve extends_app save_extends restoreToCount_extends
  translate_extends clipRect_extends concat_extends setDrawFilter_extends
  playback_extends : sk.

(** The operations that act on the current state leave the saved ones. *)
Lemma translate_saved dx dy c : saved (translate dx dy c).2 = saved c.
Proof. reflexivity. Qed.

Lemma clipRect_saved r c : saved (clipRect r c).2 = saved c.
Proof. reflexivity. Qed.

Lemma translate_top dx dy c :
  top (translate dx dy c).2 =
  mkMCRec (SkMatrix.preTranslate (fMatrix (top c)) dx dy) (fClip (top c)) (fFilter (top c)).
Proof. reflexivity. Qed.

Lemma clipRect_top r c :
  top (clipRect r c).2 =
  mkMCRec (fMatrix (top c)) ((fMatrix (top c), r) :: fClip (top c)) (fFilter (top c)).
Proof. reflexivity. Qed.
