(* ===== verification/Layer.v ===== *)
(** * Layer: the node of the scene tree

    A [LayerAndroid] node is the properties of its base class ([base]), the
    flags and the picture pointer the class adds (the member initialisers at
    lines 46-52 of LayerAndroid.cpp), its animation map and its children.
    This file holds the tree with its induction principle, the constructor,
    and the methods of lines 94-160 that touch only the tree:
    [hasAnimations], [addAnimation], [removeAnimation], [setDrawsContent],
    [setMaskLayer], [setMasksToBounds] and [setBackgroundColor], together
    with the child-array methods and setters inherited from the base class.

    The theorems give each method's effect on the node it is called on and
    on the rest of the tree: which fields change, which nodes are reached,
    and that the shape of the tree is kept. *)

From S2P Require Import Prelude Geometry SkLayer Picture Animation.

(** ** The process-wide debug counters (lines 22, 85 and 162) *)

Record Globals : Type := mkGlobals {
  gDebugLayerAndroidInstances : Z;
  gDebugNbAnims : Z;
  gDebugChildLevel : Z }.

Definition init_globals : Globals := mkGlobals 0 0 0.

Definition with_instances (n : Z) (g : Globals) : Globals :=
  mkGlobals n (gDebugNbAnims g) (gDebugChildLevel g).

Definition with_nbAnims (n : Z) (g : Globals) : Globals :=
  mkGlobals (gDebugLayerAndroidInstances g) n (gDebugChildLevel g).

Definition with_childLevel (n : Z) (g : Globals) : Globals :=
  mkGlobals (gDebugLayerAndroidInstances g) (gDebugNbAnims g) n.

(** [gDebugNbAnims] advanced by [n]. *)
Definition bumpNbAnims (n : nat) (g : Globals) : Globals :=
  with_nbAnims (gDebugNbAnims g + Z.of_nat n) g.

(** [gDebugLayerAndroidInstances] moved by [n]. *)
Definition bumpInstances (n : Z) (g : Globals) : Globals :=
  with_instances (gDebugLayerAndroidInstances g + n) g.

(** [LayerAndroid::instancesCount()]. *)
Definition instancesCount (g : Globals) : Z := gDebugLayerAndroidInstances g.

(** ** The tree *)

#[warnings="-register-all"]
Inductive LayerAndroid (A : Type) : Type := mkLayer {
  base : SkLayer.t;
  children : list (LayerAndroid A);
  m_isRootLayer : bool;
  m_haveContents : bool;
  m_drawsContent : bool;
  m_haveImage : bool;
  m_haveClip : bool;
  m_recordingPicture : option PicRef;
  m_animations : gmap string A }.

Arguments mkLayer {A}.
Arguments base {A}.
Arguments children {A}.
Arguments m_isRootLayer {A}.
Arguments m_haveContents {A}.
Arguments m_drawsContent {A}.
Arguments m_haveImage {A}.
Arguments m_haveClip {A}.
Arguments m_recordingPicture {A}.
Arguments m_animations {A}.

Section Tree.
Context {A : Type}.
Implicit Types (l : LayerAndroid A) (ls : list (LayerAndroid A)).

(** *** Field updates *)

Definition with_base (b : SkLayer.t) l : LayerAndroid A :=
  mkLayer b (children l) (m_isRootLayer l) (m_haveContents l) (m_drawsContent l)
    (m_haveImage l) (m_haveClip l) (m_recordingPicture l) (m_animations l).

Definition with_children ls l : LayerAndroid A :=
  mkLayer (base l) ls (m_isRootLayer l) (m_haveContents l) (m_drawsContent l)
    (m_haveImage l) (m_haveClip l) (m_recordingPicture l) (m_animations l).

Definition with_haveContents (b : bool) l : LayerAndroid A :=
  mkLayer (base l) (children l) (m_isRootLayer l) b (m_drawsContent l)
    (m_haveImage l) (m_haveClip l) (m_recordingPicture l) (m_animations l).

Definition with_drawsContent (b : bool) l : LayerAndroid A :=
  mkLayer (base l) (children l) (m_isRootLayer l) (m_haveContents l) b
    (m_haveImage l) (m_haveClip l) (m_recordingPicture l) (m_animations l).

Definition with_haveImage (b : bool) l : LayerAndroid A :=
  mkLayer (base l) (children l) (m_isRootLayer l) (m_haveContents l) (m_drawsContent l)
    b (m_haveClip l) (m_recordingPicture l) (m_animations l).

Definition with_haveClip (b : bool) l : LayerAndroid A :=
  mkLayer (base l) (children l) (m_isRootLayer l) (m_haveContents l) (m_drawsContent l)
    (m_haveImage l) b (m_recordingPicture l) (m_animations l).

Definition with_recordingPicture (p : option PicRef) l : LayerAndroid A :=
  mkLayer (base l) (children l) (m_isRootLayer l) (m_haveContents l) (m_drawsContent l)
    (m_haveImage l) (m_haveClip l) p (m_animations l).

Definition with_animations (m : gmap string A) l : LayerAndroid A :=
  mkLayer (base l) (children l) (m_isRootLayer l) (m_haveContents l) (m_drawsContent l)
    (m_haveImage l) (m_haveClip l) (m_recordingPicture l) m.

(** *** Induction on the tree *)

Section Induction.
Variable P : LayerAndroid A -> Prop.
Hypothesis step : forall l, Forall P (children l) -> P l.

Fixpoint layer_ind (l : LayerAndroid A) : P l :=
  step l
    ((fix go ls : Forall P ls :=
        match ls with
        | [] => @List.Forall_nil _ P
        | c :: cs => @List.Forall_cons _ P c cs (layer_ind c) (go cs)
        end) (children l)).

End Induction.

(** The nodes of a subtree, the root first, then each child's in order. *)
Fixpoint nodes l : list (LayerAndroid A) :=
  l :: mjoin (nodes <$> children l).

(** The number of nodes of a subtree. *)
Fixpoint countNodes l : nat :=
  S (sum_list (countNodes <$> children l)).

(** The tree with its flags and maps forgotten: what a method that "keeps
    the shape" keeps. *)
#[warnings="-register-all"]
Inductive Shape : Type := ShapeNode (cs : list Shape).

Fixpoint shape l : Shape := ShapeNode (shape <$> children l).

(** The node a path leads to: the indices of the children to follow. *)
Fixpoint subtreeAt (path : list nat) l : option (LayerAndroid A) :=
  match path with
  | [] => Some l
  | i :: path' => children l !! i ≫= subtreeAt path'
  end.

(** The nodes on the way to it: the root of the tree first, the node the
    path leads to last. *)
Fixpoint nodesAlong (path : list nat) l : list (LayerAndroid A) :=
  l :: match path with
       | [] => []
       | i :: path' => from_option (nodesAlong path') [] (children l !! i)
       end.

(** *** The constructor (lines 46-55) *)

Definition LayerAndroid_new (isRootLayer : bool) : State Globals (LayerAndroid A) :=
  modify (fun g => with_instances (gDebugLayerAndroidInstances g + 1) g) ;;
  ret {| base := SkLayer.init; children := [];
         m_isRootLayer := isRootLayer; m_haveContents := false;
         m_drawsContent := true; m_haveImage := false; m_haveClip := false;
         m_recordingPicture := None; m_animations := ∅ |}.

(** *** The child array of the base class *)

Definition countChildren l : nat := length (children l).

Definition getChild l (i : nat) : option (LayerAndroid A) := children l !! i.

(** [addChild(child)] appends; the parent now owns the child. *)
Definition addChild (child : LayerAndroid A) l : LayerAndroid A :=
  with_children (children l ++ [child]) l.

(** *** Setters inherited from the base class *)

Definition setSize (w h : Q) l := with_base (SkLayer.setSize w h (base l)) l.
Definition setOpacity (a : Q) l := with_base (SkLayer.setOpacity a (base l)) l.
Definition setPosition (x y : Q) l := with_base (SkLayer.setPosition x y (base l)) l.
Definition setTranslation (x y : Q) l := with_base (SkLayer.setTranslation x y (base l)) l.
Definition setAnchorPoint (x y : Q) l := with_base (SkLayer.setAnchorPoint x y (base l)) l.
Definition setScale (x y : Q) l := with_base (SkLayer.setScale x y (base l)) l.
Definition setRotation (a : Q) l := with_base (SkLayer.setRotation a (base l)) l.
Definition setFixedPosition (left top right bottom : SkLength.t) l :=
  with_base (SkLayer.setFixedPosition left top right bottom (base l)) l.

(** [setHaveContents] and [setHaveImage], inline in the class declaration. *)
Definition setHaveContents (b : bool) l := with_haveContents b l.
Definition setHaveImage (b : bool) l := with_haveImage b l.

(** *** [hasAnimations] (lines 94-101) *)

Fixpoint hasAnimations l : bool :=
  if existsb hasAnimations (children l) then true
  else negb (HashMap_size (m_animations l) =? 0)%nat.

(** *** [removeAnimation] (lines 127-130) *)

Definition removeAnimation (nm : string) l : LayerAndroid A :=
  with_animations (HashMap_remove nm (m_animations l)) l.

(** *** [setDrawsContent] (lines 132-139) *)

Fixpoint setDrawsContent (drawsContent : bool) l : LayerAndroid A :=
  with_children (setDrawsContent drawsContent <$> children l)
    (with_drawsContent drawsContent l).

(** *** [setMaskLayer] (lines 143-147): only whether a mask is given counts *)

Definition setMaskLayer (layer : option (LayerAndroid A)) l : LayerAndroid A :=
  match layer with
  | Some _ => with_haveClip true l
  | None => l
  end.

(** *** [setMasksToBounds] (lines 149-152) *)

Definition setMasksToBounds (masksToBounds : bool) l : LayerAndroid A :=
  with_haveClip masksToBounds l.

(** *** [setBackgroundColor] (lines 154-160) *)

Definition setBackgroundColor (color : SkColor) l : LayerAndroid A :=
  setDrawsContent true
    (setHaveContents true
       (with_base (SkLayer.assignBackgroundColor color (base l)) l)).

End Tree.

(** *** [addAnimation] (lines 122-125) *)

Definition addAnimation {A} `{AndroidAnimation A} {policy : AddPolicy} (anim : A)
    (l : LayerAndroid A) : LayerAndroid A :=
  with_animations (HashMap_add (name anim) anim (m_animations l)) l.

(** Reduce projections of updated nodes and of pairs, and nothing else. *)
Ltac simpl_layer :=
  cbn [fst snd base children m_isRootLayer m_haveContents m_drawsContent
       m_haveImage m_haveClip m_recordingPicture m_animations
       with_base with_children with_haveContents with_drawsContent with_haveImage
       with_haveClip with_recordingPicture with_animations] in *.

(** ** Theorems *)

Lemma bumpNbAnims_bumpNbAnims a b g :
  bumpNbAnims a (bumpNbAnims b g) = bumpNbAnims (b + a) g.
Proof. unfold bumpNbAnims, with_nbAnims. simpl. f_equal. lia. Qed.

Lemma bumpNbAnims_0 g : bumpNbAnims 0 g = g.
Proof. destruct g. unfold bumpNbAnims, with_nbAnims. simpl. f_equal. lia. Qed.

Lemma bumpNbAnims_iter n g : Nat.iter n (bumpNbAnims 1) g = bumpNbAnims n g.
Proof.
  induction n as [|n IH]; [by rewrite bumpNbAnims_0|].
  rewrite Nat.iter_succ, IH, bumpNbAnims_bumpNbAnims. f_equal. lia.
Qed.

Lemma bumpNbAnims_foldl {X} (f : X -> nat) (l : list X) g :
  foldl (fun g0 x => bumpNbAnims (f x) g0) g l = bumpNbAnims (sum_list (f <$> l)) g.
Proof.
  revert g. induction l as [|x l IH]; intros g; [by rewrite bumpNbAnims_0|].
  cbn [foldl]. by rewrite IH, bumpNbAnims_bumpNbAnims.
Qed.

Lemma bumpInstances_bumpInstances a b g :
  bumpInstances a (bumpInstances b g) = bumpInstances (b + a) g.
Proof. unfold bumpInstances, with_instances. simpl. f_equal. lia. Qed.

Lemma bumpInstances_0 g : bumpInstances 0 g = g.
Proof. destruct g. unfold bumpInstances, with_instances. simpl. f_equal. lia. Qed.

Lemma bumpInstances_foldl {X} (f : X -> nat) (sgn : Z) (l : list X) g :
  foldl (fun g0 x => bumpInstances (sgn * Z.of_nat (f x)) g0) g l =
  bumpInstances (sgn * Z.of_nat (sum_list (f <$> l))) g.
Proof.
  revert g. induction l as [|x l IH]; intros g.
  - cbn. by rewrite Z.mul_0_r, bumpInstances_0.
  - cbn [foldl]. rewrite IH, bumpInstances_bumpInstances. f_equal. cbn. lia.
Qed.

Section TreeLemmas.
Context {A : Type}.
Implicit Types (l c d : LayerAndroid A) (ls : list (LayerAndroid A)).

(** *** The nodes of a tree *)

Lemma nodes_unfold l : nodes l = l :: mjoin (nodes <$> children l).
Proof. by destruct l. Qed.

Lemma nodes_self l : l ∈ nodes l.
Proof. rewrite nodes_unfold. by left. Qed.

Lemma elem_of_nodes l d :
  d ∈ nodes l <-> d = l \/ exists c, c ∈ children l /\ d ∈ nodes c.
Proof.
  rewrite nodes_unfold, elem_of_cons, list_elem_of_join.
  setoid_rewrite list_elem_of_fmap.
  split; (intros [->|H]; [by left|right]).
  - destruct H as (ns & Hd & c & -> & Hc). eauto.
  - destruct H as (c & Hc & Hd). eauto.
Qed.

Lemma nodes_child l c d : c ∈ children l -> d ∈ nodes c -> d ∈ nodes l.
Proof. intros. apply elem_of_nodes. eauto. Qed.

Lemma nodes_children l c : c ∈ children l -> c ∈ nodes l.
Proof. intros. eapply nodes_child; [done|apply nodes_self]. Qed.

Lemma countNodes_unfold l :
  countNodes l = S (sum_list (countNodes <$> children l)).
Proof. by destruct l. Qed.

Lemma countNodes_with_children ls l :
  countNodes (with_children ls l) = S (sum_list (countNodes <$> ls)).
Proof. by rewrite countNodes_unfold. Qed.

Lemma nodes_length l : length (nodes l) = countNodes l.
Proof.
  induction l as [l IH] using layer_ind. rewrite nodes_unfold. destruct l; simpl in *.
  rewrite length_join, <- list_fmap_compose. f_equal. by apply sum_list_fmap_ext.
Qed.

(** A property of every node follows from the property of the root and of
    every node below each child. *)
Lemma Forall_nodes (P : LayerAndroid A -> Prop) l :
  Forall P (nodes l) <-> P l /\ Forall (fun c => Forall P (nodes c)) (children l).
Proof. by rewrite nodes_unfold, Forall_cons, Forall_join_iff, Forall_fmap. Qed.

(** A map over the tree that commutes with [children] maps the nodes. *)
Lemma nodes_map (f : LayerAndroid A -> LayerAndroid A) l :
  (forall d, children (f d) = f <$> children d) ->
  nodes (f l) = f <$> nodes l.
Proof.
  intros Hf. induction l as [l IH] using layer_ind.
  rewrite (nodes_unfold (f l)), (nodes_unfold l), Hf, fmap_cons. f_equal.
  rewrite list_fmap_join, <- !list_fmap_compose. f_equal. by apply Forall_fmap_ext_1.
Qed.

Lemma shape_unfold l : shape l = ShapeNode (shape <$> children l).
Proof. by destruct l. Qed.

Lemma shape_map (f : LayerAndroid A -> LayerAndroid A) l :
  (forall d, children (f d) = f <$> children d) -> shape (f l) = shape l.
Proof.
  intros Hf. induction l as [l IH] using layer_ind.
  rewrite (shape_unfold (f l)), (shape_unfold l), Hf, <- list_fmap_compose.
  f_equal. by apply Forall_fmap_ext_1.
Qed.

(** Trees of the same shape have as many nodes. *)
Lemma shape_countNodes l l' : shape l = shape l' -> countNodes l = countNodes l'.
Proof.
  revert l'. induction l as [l IH] using layer_ind. intros l'.
  rewrite !shape_unfold. intros [= Hs]. destruct l, l'; simpl in *. f_equal.
  clear -IH Hs. revert children1 Hs.
  induction IH as [|c cs Hc _ IHcs]; intros [|c' cs'] [=]; simpl; [done|].
  f_equal; eauto.
Qed.

(** *** The constructor *)

Lemma LayerAndroid_new_fields isRoot g :
  let l : LayerAndroid A := (LayerAndroid_new isRoot g).1 in
  m_isRootLayer l = isRoot /\ m_haveContents l = false /\ m_drawsContent l = true /\
  m_haveImage l = false /\ m_haveClip l = false /\ m_recordingPicture l = None /\
  m_animations l = ∅ /\ children l = [] /\ base l = SkLayer.init.
Proof. by repeat split. Qed.

Lemma LayerAndroid_new_count isRoot g :
  instancesCount (LayerAndroid_new (A:=A) isRoot g).2 = (instancesCount g + 1)%Z.
Proof. reflexivity. Qed.

(** *** [setDrawsContent] *)

Lemma setDrawsContent_unfold b l :
  setDrawsContent b l =
  with_children (setDrawsContent b <$> children l) (with_drawsContent b l).
Proof. by destruct l. Qed.

Lemma setDrawsContent_children b l :
  children (setDrawsContent b l) = setDrawsContent b <$> children l.
Proof. by destruct l. Qed.

Lemma setDrawsContent_root b l : m_drawsContent (setDrawsContent b l) = b.
Proof. by destruct l. Qed.

Lemma setDrawsContent_nodes b l :
  nodes (setDrawsContent b l) = setDrawsContent b <$> nodes l.
Proof. apply nodes_map, setDrawsContent_children. Qed.

Lemma setDrawsContent_shape b l : shape (setDrawsContent b l) = shape l.
Proof. apply shape_map, setDrawsContent_children. Qed.

(** Apart from the flag and the children, a node is as it was. *)
Lemma setDrawsContent_frame b l :
  base (setDrawsContent b l) = base l /\
  m_isRootLayer (setDrawsContent b l) = m_isRootLayer l /\
  m_haveContents (setDrawsContent b l) = m_haveContents l /\
  m_haveImage (setDrawsContent b l) = m_haveImage l /\
  m_haveClip (setDrawsContent b l) = m_haveClip l /\
  m_recordingPicture (setDrawsContent b l) = m_recordingPicture l /\
  m_animations (setDrawsContent b l) = m_animations l.
Proof. by destruct l. Qed.

Lemma setDrawsContent_twice b b' l :
  setDrawsContent b (setDrawsContent b' l) = setDrawsContent b l.
Proof.
  induction l as [l IH] using layer_ind. rewrite !(setDrawsContent_unfold _ l).
  rewrite setDrawsContent_unfold. unfold with_children, with_drawsContent; simpl.
  f_equal. rewrite <- list_fmap_compose. by apply Forall_fmap_ext_1.
Qed.

(** *** [hasAnimations] *)

Lemma hasAnimations_unfold l :
  hasAnimations l =
  existsb hasAnimations (children l) || negb (HashMap_size (m_animations l) =? 0)%nat.
Proof. destruct l; simpl. by destruct (existsb _ _). Qed.

Lemma hasAnimations_own l :
  negb (HashMap_size (m_animations l) =? 0)%nat = true <-> m_animations l <> ∅.
Proof.
  rewrite negb_true_iff, Nat.eqb_neq. by rewrite HashMap_size_zero.
Qed.

(** *** [addAnimation] and [removeAnimation] *)

Lemma removeAnimation_lookup nm l : m_animations (removeAnimation nm l) !! nm = None.
Proof. apply HashMap_remove_lookup. Qed.

Lemma removeAnimation_lookup_ne nm nm' l :
  nm <> nm' -> m_animations (removeAnimation nm l) !! nm' = m_animations l !! nm'.
Proof. apply HashMap_remove_lookup_ne. Qed.

Lemma with_animations_id l : with_animations (m_animations l) l = l.
Proof. by destruct l. Qed.

Lemma with_animations_same (m : gmap string A) l :
  m = m_animations l -> with_animations m l = l.
Proof. intros ->. by destruct l. Qed.

(** *** Properties of the tree methods *)

Lemma setDrawsContent_flags b l :
  Forall (fun d => m_drawsContent d = b) (nodes (setDrawsContent b l)).
Proof.
  rewrite setDrawsContent_nodes, Forall_fmap. apply Forall_forall.
  intros d _. apply setDrawsContent_root.
Qed.

(** C12: after [setDrawsContent b] every node of the subtree, the node itself
    and all its descendants, has [m_drawsContent = b]; and nothing but the
    flag is written: the tree keeps its shape, and node by node the result
    is the old node with the flag set. *)
Theorem setDrawsContent_all b l :
  Forall (fun d => m_drawsContent d = b) (nodes (setDrawsContent b l)) /\
  shape (setDrawsContent b l) = shape l /\
  Forall2 (fun d d' => with_children (children d) d' = with_drawsContent b d)
    (nodes l) (nodes (setDrawsContent b l)).
Proof.
  split_and!; [apply setDrawsContent_flags|apply setDrawsContent_shape|].
  rewrite setDrawsContent_nodes. apply Forall2_fmap_r, Forall2_same_length_lookup.
  split; [done|]. intros i d d' Hd Hd'. simplify_eq. by destruct d.
Qed.

Lemma hasAnimations_exists l :
  hasAnimations l = true <-> exists d, d ∈ nodes l /\ m_animations d <> ∅.
Proof.
  induction l as [l IH] using layer_ind.
  rewrite hasAnimations_unfold, orb_true_iff, existsb_elem_of, hasAnimations_own.
  rewrite Forall_forall in IH. setoid_rewrite elem_of_nodes. split.
  - intros [(c & Hc & Hh)|Hown]; [|by eauto].
    apply IH in Hh as (d & Hd & Hm); eauto 7.
  - intros (d & [->|(c & Hc & Hd)] & Hm); [by right|left].
    exists c. split; [done|]. apply IH; eauto.
Qed.

(** C13: [hasAnimations] holds exactly when some node of the subtree has a
    non-empty animation map, and fails exactly when every node's map is
    empty. *)
Theorem hasAnimations_iff l :
  (hasAnimations l = true <-> exists d, d ∈ nodes l /\ m_animations d <> ∅) /\
  (hasAnimations l = false <-> Forall (fun d => m_animations d = ∅) (nodes l)).
Proof.
  split; [apply hasAnimations_exists|].
  rewrite <- not_true_iff_false, hasAnimations_exists, Forall_forall. split.
  - intros Hn d Hd. destruct (decide (m_animations d = ∅)); [done|].
    destruct Hn; eauto.
  - intros Hall (d & Hd & Hm). by apply Hm, Hall.
Qed.

Lemma hasAnimations_none l :
  hasAnimations l = false ->
  m_animations l = ∅ /\ Forall (fun c => hasAnimations c = false) (children l).
Proof.
  rewrite hasAnimations_unfold, orb_false_iff.
  rewrite <- !not_true_iff_false, existsb_elem_of, hasAnimations_own.
  intros [Hc Hown]. split.
  - by destruct (decide (m_animations l = ∅)).
  - apply Forall_forall. intros c Hin. apply not_true_iff_false. eauto.
Qed.

(** [removeAnimation] of a name that is not in the map changes nothing. *)
Theorem removeAnimation_absent nm l :
  m_animations l !! nm = None -> removeAnimation nm l = l.
Proof.
  intros Hnm. unfold removeAnimation. apply with_animations_same.
  by apply HashMap_remove_absent.
Qed.

(** [setMaskLayer] can set the clip flag and never clears it: with a
    mask the flag is set, with the null pointer it is left as it was. *)
Theorem setMaskLayer_haveClip (mask : option (LayerAndroid A)) l :
  m_haveClip (setMaskLayer mask l) = bool_decide (is_Some mask) || m_haveClip l.
Proof. destruct mask; [by destruct l|done]. Qed.

(** [setMasksToBounds] assigns the clip flag and nothing else. *)
Theorem setMasksToBounds_spec b l :
  setMasksToBounds b l = with_haveClip b l /\ m_haveClip (setMasksToBounds b l) = b.
Proof. by destruct l. Qed.

(** C40: [setBackgroundColor] stores the colour, marks the layer as having
    contents, and, through [setDrawsContent(true)], switches drawing on for
    the layer and for every descendant. *)
Theorem setBackgroundColor_spec color l :
  let l' := setBackgroundColor color l in
  SkLayer.m_backgroundColor (base l') = color /\
  SkLayer.m_backgroundColorSet (base l') = true /\
  m_haveContents l' = true /\
  Forall (fun d => m_drawsContent d = true) (nodes l') /\
  shape l' = shape l.
Proof.
  unfold setBackgroundColor. repeat split; try (by destruct l).
  - apply setDrawsContent_flags.
  - rewrite setDrawsContent_shape. by destruct l.
Qed.

End TreeLemmas.

Section AnimationLemmas.
Context {A : Type} `{AndroidAnimation A} {policy : AddPolicy}.
Implicit Types (l : LayerAndroid A) (a : A).

Lemma addAnimation_lookup a l :
  m_animations (addAnimation a l) !! name a
  = Some (if add_replaces then a else default a (m_animations l !! name a)).
Proof. apply HashMap_add_lookup. Qed.

Lemma addAnimation_lookup_ne a nm l :
  name a <> nm -> m_animations (addAnimation a l) !! nm = m_animations l !! nm.
Proof. apply HashMap_add_lookup_ne. Qed.

(** [addAnimation] inserts the handle under its name when the name is
    free. *)
Theorem addAnimation_fresh a l :
  m_animations l !! name a = None ->
  m_animations (addAnimation a l) = <[name a := a]> (m_animations l).
Proof. intros Hfree. by apply HashMap_add_fresh. Qed.

(** When the name is taken the policy of the map decides: the handle
    replaces the one stored, or the layer stays as it was and the new
    handle is dropped. *)
Theorem addAnimation_taken a l :
  is_Some (m_animations l !! name a) ->
  addAnimation a l =
    if add_replaces then with_animations (<[name a := a]> (m_animations l)) l else l.
Proof.
  intros Htaken. unfold addAnimation. rewrite HashMap_add_taken by done.
  destruct add_replaces; [done|]. by apply with_animations_same.
Qed.

(** Adding two handles of the same name leaves the second one in the map
    exactly when the map replaces; otherwise the first one stays, or the
    one that was there before. *)
Theorem addAnimation_same_name a a' l :
  name a' = name a ->
  m_animations (addAnimation a' (addAnimation a l)) !! name a =
    Some (if add_replaces then a' else default a (m_animations l !! name a)).
Proof.
  intros Hname. rewrite <- Hname, addAnimation_lookup, Hname, addAnimation_lookup.
  by destruct add_replaces.
Qed.

(** Removing a name after adding a handle under it restores a map in
    which the name was free. *)
Theorem removeAnimation_addAnimation a l :
  m_animations l !! name a = None -> removeAnimation (name a) (addAnimation a l) = l.
Proof.
  intros Hfree. unfold removeAnimation, addAnimation.
  destruct l; simpl in *. unfold with_animations; simpl. f_equal.
  rewrite HashMap_add_fresh by done. by apply delete_insert_id.
Qed.

End AnimationLemmas.


#[export] Hint Resolve nodes_self nodes_children : sk.
#[export] Hint Rewrite @setDrawsContent_children @setDrawsContent_root
  @setDrawsContent_nodes @setDrawsContent_shape : sk_rw.

(** ** Witnesses

    A fresh non-root layer and two animations that share a name.  The
    examples that add animations run under WTF's policy. *)

#[local] Existing Instance add_keeps_policy.

Definition demo_leaf : LayerAndroid KeyframeAnimation :=
  (LayerAndroid_new false init_globals).1.

Definition demo_fade : KeyframeAnimation := OpacityAnimation "fade" 1 0 0 10.

Definition demo_fade_in : KeyframeAnimation := OpacityAnimation "fade" 0 1 5 10.

Lemma removeAnimation_absent_witness : removeAnimation "fade" demo_leaf = demo_leaf.
Proof. exact (removeAnimation_absent "fade" demo_leaf eq_refl). Defined.

Lemma addAnimation_fresh_witness :
  m_animations (addAnimation demo_fade demo_leaf) =
    <[name demo_fade := demo_fade]> (m_animations demo_leaf).
Proof. exact (addAnimation_fresh demo_fade demo_leaf eq_refl). Defined.

(** Two handles of one name, under each policy. *)
Lemma addAnimation_same_name_keeps :
  m_animations (addAnimation (policy:=add_keeps_policy) demo_fade_in
                  (addAnimation (policy:=add_keeps_policy) demo_fade demo_leaf))
    !! "fade" = Some demo_fade.
Proof.
  exact (addAnimation_same_name (policy:=add_keeps_policy) demo_fade demo_fade_in demo_leaf
           eq_refl).
Defined.

Lemma addAnimation_same_name_replaces :
  m_animations (addAnimation (policy:=add_replaces_policy) demo_fade_in
                  (addAnimation (policy:=add_replaces_policy) demo_fade demo_leaf))
    !! "fade" = Some demo_fade_in.
Proof.
  exact (addAnimation_same_name (policy:=add_replaces_policy) demo_fade demo_fade_in demo_leaf
           eq_refl).
Defined.

Lemma removeAnimation_addAnimation_witness :
  removeAnimation (name demo_fade) (addAnimation demo_fade demo_leaf) = demo_leaf.
Proof. exact (removeAnimation_addAnimation demo_fade demo_leaf eq_refl). Defined.
