(* ===== verification/Animate.v ===== *)
(** * Animate: the animation traversal

    [evaluateAnimations()] (lines 87-92) and [evaluateAnimations(double)]
    (lines 103-120) of LayerAndroid.cpp.

    The traversal evaluates the children first, all of them, then the
    node's own animations in the iteration order of the map.  An animation
    acts on the properties of the layer it is evaluated on; the traversal
    counts the evaluations in [gDebugNbAnims] and reports whether any
    animation is still running.

    [animated] is the traversal without the counter: the result and the new
    tree as a function of the tree and the time.  [evaluateAnimations] is
    shown to compute it and to count every animation of the tree once. *)

From S2P Require Import Prelude Geometry SkLayer Animation Layer.

Section Animate.
Context {A : Type} `{AndroidAnimation A}.
Implicit Types (l : LayerAndroid A) (time : Q) (g : Globals).

(** Lines 112-116, without the counter: one animation evaluated on the
    layer, the flag raised if it is running. *)
Definition applyEntry time (r : bool * LayerAndroid A) (e : string * A)
    : bool * LayerAndroid A :=
  let '(b', running) := evaluate e.2 (base r.2) time in
  (if running then true else r.1, with_base b' r.2).

(** Lines 111-117: one turn of the loop over the map. *)
Definition evaluateEntry time (r : bool * LayerAndroid A) (e : string * A)
    : State Globals (bool * LayerAndroid A) :=
  modify (bumpNbAnims 1) ;;
  ret (applyEntry time r e).

(** [evaluateAnimations(double time)] (lines 103-120): the result and the
    node as the animations left it. *)
Fixpoint evaluateAnimations_at time l {struct l}
    : State Globals (bool * LayerAndroid A) :=
  rs <- mapS (evaluateAnimations_at time) (children l) ;;
  foldS (evaluateEntry time) (HashMap_entries (m_animations l))
        (existsb fst rs, with_children (snd <$> rs) l).

(** [evaluateAnimations()] (lines 87-92); [now] is the reading of
    [WTF::currentTime()]. *)
Definition evaluateAnimations (now : Q) l : State Globals (bool * LayerAndroid A) :=
  modify (with_nbAnims 0) ;;
  evaluateAnimations_at now l.

(** ** The specification *)

(** The traversal as a function: children first, then the node's own
    animations in the order of the map. *)
Fixpoint animated time l {struct l} : bool * LayerAndroid A :=
  let rs := animated time <$> children l in
  foldl (applyEntry time) (existsb fst rs, with_children (snd <$> rs) l)
        (HashMap_entries (m_animations l)).

(** The number of animations of the subtree. *)
Fixpoint countAnimations l : nat :=
  HashMap_size (m_animations l) + sum_list (countAnimations <$> children l).

(** The animations of a node, in the order of the map. *)
Definition animationsOf l : list A := (HashMap_entries (m_animations l)).*2.

(** The animation is running at [time] whatever the layer. *)
Definition runs_at (a : A) time : Prop :=
  forall b, (evaluate a b time).2 = true.

Definition stopped_at (a : A) time : Prop :=
  forall b, (evaluate a b time).2 = false.

End Animate.

(** ** The traversal computes [animated] *)

Section AnimateLemmas.
Context {A : Type} `{AndroidAnimation A}.
Implicit Types (l d : LayerAndroid A) (time : Q) (g : Globals) (a : A)
  (r : bool * LayerAndroid A) (es : list (string * A)).

Lemma evaluateAnimations_at_unfold time l :
  evaluateAnimations_at time l =
  (rs <- mapS (evaluateAnimations_at time) (children l) ;;
   foldS (evaluateEntry time) (HashMap_entries (m_animations l))
         (existsb fst rs, with_children (snd <$> rs) l)).
Proof. by destruct l. Qed.

Lemma animated_unfold time l :
  animated time l =
  foldl (applyEntry time)
        (existsb fst (animated time <$> children l),
         with_children (snd <$> (animated time <$> children l)) l)
        (HashMap_entries (m_animations l)).
Proof. by destruct l. Qed.

Lemma countAnimations_unfold l :
  countAnimations l =
  HashMap_size (m_animations l) + sum_list (countAnimations <$> children l).
Proof. by destruct l. Qed.

Lemma evaluateAnimations_at_run l :
  forall time g,
    evaluateAnimations_at time l g =
    (animated time l, bumpNbAnims (countAnimations l) g).
Proof.
  induction l as [l IH] using layer_ind. intros time g.
  rewrite evaluateAnimations_at_unfold, animated_unfold, countAnimations_unfold.
  rewrite bind_fst_snd.
  rewrite (mapS_split (animated time) (fun c => bumpNbAnims (countAnimations c))).
  2: { intros c g0 Hc. rewrite Forall_forall in IH. by apply IH. }
  cbn [fst snd].
  rewrite (foldS_split (applyEntry time) (bumpNbAnims 1)) by done.
  rewrite bumpNbAnims_foldl, bumpNbAnims_iter, bumpNbAnims_bumpNbAnims.
  rewrite HashMap_entries_length. do 2 f_equal. lia.
Qed.

(** *** What the own animations do to a node *)

Lemma applyEntry_layer time r e :
  (applyEntry time r e).2 = with_base (base (applyEntry time r e).2) r.2.
Proof.
  unfold applyEntry. destruct (evaluate e.2 (base r.2) time).
  destruct r as [b0 l0]. by destruct l0.
Qed.

Lemma foldl_applyEntry_layer time es r :
  (foldl (applyEntry time) r es).2 =
  with_base (base (foldl (applyEntry time) r es).2) r.2.
Proof.
  revert r. induction es as [|e es IH]; intros r; [by destruct r as [b0 [] ]|].
  cbn [foldl]. rewrite IH at 1. rewrite (applyEntry_layer time r e).
  by destruct r as [b0 [] ].
Qed.

(** The flag after the loop: it was raised before, or some animation of
    the map reported that it is running. *)
Lemma foldl_applyEntry_flag time es r :
  Forall (fun e => runs_at e.2 time \/ stopped_at e.2 time) es ->
  (foldl (applyEntry time) r es).1 = true <->
  r.1 = true \/ exists e, e ∈ es /\ runs_at e.2 time.
Proof.
  revert r. induction es as [|e es IH]; intros r Hes; cbn [foldl].
  - split; [by left|]. by intros [?|(e & ?%elem_of_nil & _)].
  - apply Forall_cons in Hes as [He Hes]. rewrite (IH _ Hes).
    unfold applyEntry. destruct (evaluate e.2 (base r.2) time) as [b' run] eqn:E.
    cbn [fst]. setoid_rewrite elem_of_cons. split.
    + intros [Hr|(e' & ? & ?)]; [|by eauto].
      destruct run; [|by left]. right. exists e. split; [by left|].
      destruct He as [He|He]; [done|]. specialize (He (base r.2)).
      rewrite E in He. done.
    + intros [Hr|(e' & [->|?] & Hrun)]; [left; by destruct run| |by eauto].
      left. specialize (Hrun (base r.2)). rewrite E in Hrun. simpl in Hrun. by subst.
Qed.

(** *** The tree *)

Lemma animated_children time l :
  children (animated time l).2 = (fun d => (animated time d).2) <$> children l.
Proof.
  rewrite animated_unfold, foldl_applyEntry_layer. cbn [snd].
  destruct l; cbn. by rewrite <- list_fmap_compose.
Qed.

Lemma animated_base_frame time l :
  with_children (children l) (animated time l).2 =
  with_base (base (animated time l).2) l.
Proof.
  rewrite animated_unfold, foldl_applyEntry_layer. cbn [snd]. by destruct l.
Qed.

End AnimateLemmas.

(** ** Theorems *)

Section AnimateTheorems.
Context {A : Type} `{AndroidAnimation A}.
Implicit Types (l d : LayerAndroid A) (time : Q) (g : Globals) (a : A).

(** C8: both overloads of [evaluateAnimations] compute [animated]: the
    result and the new tree are those of the traversal written as a
    function of the tree and the time, and the only effect on the globals
    is on [gDebugNbAnims], which the overload with a time advances by the
    number of animations of the tree and the overload without sets to that
    number. *)
Theorem evaluateAnimations_refines time l g :
  evaluateAnimations_at time l g =
    (animated time l, with_nbAnims (gDebugNbAnims g + Z.of_nat (countAnimations l)) g) /\
  evaluateAnimations time l g =
    (animated time l, with_nbAnims (Z.of_nat (countAnimations l)) g).
Proof.
  split; [apply evaluateAnimations_at_run|].
  unfold evaluateAnimations. rewrite bind_fst_snd, evaluateAnimations_at_run.
  by destruct g.
Qed.

(** C31: when each animation of the tree either runs or has stopped at the
    given time, whatever the layer, the traversal returns true exactly when
    some node of the subtree holds an animation that runs. *)
Theorem animated_running_iff time l :
  Forall (fun d => Forall (fun e => runs_at e.2 time \/ stopped_at e.2 time)
                          (HashMap_entries (m_animations d))) (nodes l) ->
  (animated time l).1 = true <->
  exists d e, d ∈ nodes l /\ e ∈ HashMap_entries (m_animations d) /\ runs_at e.2 time.
Proof.
  induction l as [l IH] using layer_ind. intros [Hl Hcs]%Forall_nodes.
  rewrite animated_unfold, (foldl_applyEntry_flag _ _ _ Hl). cbn [fst].
  rewrite existsb_elem_of. setoid_rewrite elem_of_nodes.
  rewrite Forall_forall in IH, Hcs. split.
  - intros [(r & (c & -> & Hc)%list_elem_of_fmap & Hr)|(e & He & Hrun)]; [|by eauto 8].
    apply (IH c Hc (Hcs c Hc)) in Hr as (d & e & ? & ? & ?). eauto 10.
  - intros (d & e & [->|(c & Hc & Hd)] & He & Hrun); [by eauto|left].
    exists (animated time c). split; [apply list_elem_of_fmap; by eauto|].
    apply (IH c Hc (Hcs c Hc)). eauto.
Qed.

(** A tree without animations is left as it is and reported as not
    running: [hasAnimations] false makes [evaluateAnimations] the
    identity. *)
Theorem animated_no_animations time l :
  hasAnimations l = false -> animated time l = (false, l).
Proof.
  induction l as [l IH] using layer_ind. intros [Hm Hcs]%hasAnimations_none.
  assert (animated time <$> children l = (fun c => (false, c)) <$> children l) as E.
  { apply Forall_fmap_ext_1. rewrite Forall_forall in *. intros c Hc. by apply IH, Hcs. }
  rewrite animated_unfold, E, Hm. unfold HashMap_entries. rewrite map_to_list_empty.
  cbn [foldl]. rewrite <- list_fmap_compose. f_equal.
  - clear. by induction (children l).
  - destruct l; cbn. f_equal. by rewrite list_fmap_id.
Qed.

(** The animations of the subtree, node by node. *)
Lemma countAnimations_nodes l :
  countAnimations l = sum_list ((fun d => HashMap_size (m_animations d)) <$> nodes l).
Proof.
  induction l as [l IH] using layer_ind.
  rewrite countAnimations_unfold, nodes_unfold, fmap_cons. cbn [sum_list_with id].
  rewrite sum_list_fmap_join, <- list_fmap_compose. f_equal.
  by apply sum_list_fmap_ext.
Qed.

(** C18: [hasAnimations], which stops at the first child that has an
    animation, agrees with counting: it is true exactly when the number of
    animations of the subtree is not zero, the number by which
    [evaluateAnimations] advances [gDebugNbAnims]. *)
Theorem hasAnimations_countAnimations l :
  hasAnimations l = negb (countAnimations l =? 0)%nat.
Proof.
  apply eq_true_iff_eq. rewrite hasAnimations_exists, negb_true_iff, Nat.eqb_neq.
  rewrite countAnimations_nodes.
  trans (0 < sum_list ((fun d => HashMap_size (m_animations d)) <$> nodes l))%nat; [|lia].
  rewrite sum_list_fmap_pos. apply exist_proper. intros d. apply and_iff_compat_l.
  rewrite <- HashMap_size_zero. lia.
Qed.

End AnimateTheorems.

(** ** The keyframe animations *)

Lemma keyframe_runs_or_stopped (a : KeyframeAnimation) time :
  runs_at a time \/ stopped_at a time.
Proof.
  destruct a as [nm from to start duration|nm fx fy tx ty start duration];
    (destruct (running start duration time) eqn:E; [left|right]; by intros b).
Qed.

(** ** Witnesses

    A layer with one animation, a fade from 1 to 0 that starts at 0 and
    lasts 10. *)

#[local] Existing Instance add_keeps_policy.

Definition demo_animated : LayerAndroid KeyframeAnimation :=
  addAnimation demo_fade demo_leaf.

Lemma demo_animated_verdicts time :
  Forall (fun d => Forall (fun e => runs_at e.2 time \/ stopped_at e.2 time)
                          (HashMap_entries (m_animations d))) (nodes demo_animated).
Proof.
  apply Forall_forall. intros d _. apply Forall_forall. intros e _.
  apply keyframe_runs_or_stopped.
Qed.

Lemma demo_animated_entries :
  HashMap_entries (m_animations demo_animated) = [("fade"%string, demo_fade)].
Proof. by vm_compute. Qed.

Lemma animated_running_iff_witness :
  (animated 0%Q demo_animated).1 = true <->
  exists d e, d ∈ nodes demo_animated /\ e ∈ HashMap_entries (m_animations d) /\
              runs_at e.2 0%Q.
Proof. exact (animated_running_iff 0%Q demo_animated (demo_animated_verdicts 0%Q)). Defined.

Lemma animated_no_animations_witness : animated 5%Q demo_leaf = (false, demo_leaf).
Proof. exact (animated_no_animations 5%Q demo_leaf eq_refl). Defined.
