(* ===== verification/Frames.v ===== *)
(** * Frames: the loop that drives the animations

    [evaluateAnimations] reports whether an animation of the tree is still
    running, and its callers evaluate and repaint, frame after frame,
    while it does.  The loop is the caller's; it is modelled here from the
    description of the traversal, with fuel, to state what the verdict is
    for: when every animation of the tree has a time after which it has
    stopped, and the clock advances by a positive step, the loop comes to
    an end, within the number of frames that fit between the first
    evaluation and the last deadline.

    The class [AnimationEnds] is what the loop needs of a handle: a
    deadline before which it runs and from which it has stopped.  The
    keyframe animations of [Animation.v] have one. *)

From S2P Require Import Prelude Geometry SkLayer Animation Layer Animate.

Local Open Scope Q_scope.

(** A handle with a deadline. *)
Class AnimationEnds (A : Type) `{AndroidAnimation A} : Type := {
  deadline : A -> Q;
  runs_before : forall a t, t < deadline a -> runs_at a t;
  stopped_from : forall a t, deadline a <= t -> stopped_at a t }.

Definition keyframe_deadline (a : KeyframeAnimation) : Q :=
  match a with
  | OpacityAnimation _ _ _ start duration => start + duration
  | TranslateAnimation _ _ _ _ _ start duration => start + duration
  end.

#[export] Program Instance keyframe_ends : AnimationEnds KeyframeAnimation :=
  {| deadline := keyframe_deadline |}.
Next Obligation.
  intros [] t Ht b; cbn; by apply running_iff.
Qed.
Next Obligation.
  intros [] t Ht b; cbn; apply not_true_iff_false; rewrite running_iff; cbn in Ht; lra.
Qed.

Section Frames.
Context {A : Type} `{AnimationEnds A}.
Implicit Types (l d : LayerAndroid A) (now dt time D : Q) (g : Globals) (fuel : nat).

(** The loop of the caller: evaluate the animations at the reading of the
    clock; while the verdict is that one is running, come back a frame
    later.  The result is the number of evaluations and the tree they
    leave, or nothing when the fuel is used up first. *)
Fixpoint frameLoop fuel now dt l : State Globals (option (nat * LayerAndroid A)) :=
  match fuel with
  | O => ret None
  | S fuel' =>
      r <- evaluateAnimations now l ;;
      if r.1
      then o <- frameLoop fuel' (now + dt) dt r.2 ;;
           ret ((fun nl => (S nl.1, nl.2)) <$> o)
      else ret (Some (1%nat, r.2))
  end.

(** Every animation of the tree has stopped by [D]. *)
Definition ends_by D l : Prop :=
  Forall (fun d => Forall (fun e => deadline e.2 <= D) (HashMap_entries (m_animations d)))
         (nodes l).

(** The traversal leaves the animations where they are. *)
Lemma animated_animations time l :
  (fun d => m_animations d) <$> nodes (animated time l).2 = (fun d => m_animations d) <$> nodes l.
Proof.
  rewrite (nodes_map (fun d => (animated time d).2)) by apply animated_children.
  rewrite <- list_fmap_compose. apply list_fmap_ext. intros _ d _. cbn.
  by rewrite <- (f_equal m_animations (animated_base_frame time d)).
Qed.

Lemma ends_by_animated D time l : ends_by D l -> ends_by D (animated time l).2.
Proof.
  unfold ends_by. intros Hl.
  apply (Forall_fmap (fun d => m_animations d)
           (fun m => Forall (fun e => deadline e.2 <= D) (HashMap_entries m))).
  rewrite animated_animations. by apply Forall_fmap.
Qed.

(** From the last deadline on the verdict is that nothing runs. *)
Lemma animated_stopped D time l : ends_by D l -> D <= time -> (animated time l).1 = false.
Proof.
  intros Hl Ht. revert Hl. induction l as [l IH] using layer_ind.
  unfold ends_by in *. intros [Hl Hcs]%Forall_nodes. cbv beta in Hl.
  apply not_true_iff_false.
  rewrite animated_unfold, foldl_applyEntry_flag; cbn [fst].
  - rewrite existsb_elem_of. rewrite Forall_forall in IH. rewrite Forall_forall in Hcs.
    rewrite Forall_forall in Hl.
    intros [(r & (c & -> & Hc)%list_elem_of_fmap & Hr)|(e & He & Hrun)].
    + rewrite (IH c Hc (Hcs c Hc)) in Hr. done.
    + pose proof (stopped_from e.2 time) as Hs. specialize (Hrun SkLayer.init).
      rewrite Hs in Hrun; [done|]. eapply Qle_trans; [by apply Hl|done].
  - eapply Forall_impl; [exact Hl|]. intros e He. right. apply stopped_from.
    eapply Qle_trans; [exact He|exact Ht].
Qed.

Lemma frameLoop_unfold fuel now dt l g :
  frameLoop (S fuel) now dt l g =
    let r := animated now l in
    let g' := with_nbAnims (Z.of_nat (countAnimations l)) g in
    if r.1
    then ((fun nl => (S nl.1, nl.2)) <$> (frameLoop fuel (now + dt) dt r.2 g').1,
          (frameLoop fuel (now + dt) dt r.2 g').2)
    else (Some (1%nat, r.2), g').
Proof.
  cbn [frameLoop]. unfold evaluateAnimations.
  rewrite !bind_fst_snd, evaluateAnimations_at_run. cbn [fst snd modify].
  replace (bumpNbAnims _ _) with (with_nbAnims (Z.of_nat (countAnimations l)) g)
    by (by destruct g).
  cbn zeta. destruct (animated now l).1; [|done]. by rewrite bind_fst_snd.
Qed.

(** Fuel for the frames up to the deadline, and one more, is enough. *)
Lemma frameLoop_enough D dt fuel :
  forall now l g, ends_by D l -> D - now <= inject_Z (Z.of_nat fuel) * dt ->
    exists n l', (frameLoop (S fuel) now dt l g).1 = Some (n, l') /\
                 (n <= S fuel)%nat /\ ends_by D l' /\ shape l' = shape l.
Proof.
  induction fuel as [|fuel IH]; intros now l g Hl Hd; rewrite frameLoop_unfold; cbn zeta.
  - rewrite (animated_stopped D now l Hl) by (change (inject_Z (Z.of_nat 0)) with 0 in Hd; lra).
    exists 1%nat, (animated now l).2. split_and!; [done|lia|by apply ends_by_animated|].
    apply (shape_map (fun d => (animated now d).2)), animated_children.
  - destruct (animated now l).1 eqn:E.
    + destruct (IH (now + dt) (animated now l).2
                  (with_nbAnims (Z.of_nat (countAnimations l)) g))
        as (n & l' & -> & Hn & Hl' & Hs); [by apply ends_by_animated| |].
      { rewrite Nat2Z.inj_succ, <- Z.add_1_r, inject_Z_plus in Hd.
        change (inject_Z 1) with 1 in Hd. lra. }
      exists (S n), l'. split_and!; [done|lia|done|]. rewrite Hs.
      apply (shape_map (fun d => (animated now d).2)), animated_children.
    + exists 1%nat, (animated now l).2. split_and!; [done|lia|by apply ends_by_animated|].
      apply (shape_map (fun d => (animated now d).2)), animated_children.
Qed.

(** The number of frames of length [dt] that fit between [now] and [D]. *)
Definition framesLeft now dt D : nat := Z.to_nat (Qceiling ((D - now) / dt)).

Lemma framesLeft_covers now dt D fuel :
  0 < dt -> (framesLeft now dt D <= fuel)%nat -> D - now <= inject_Z (Z.of_nat fuel) * dt.
Proof.
  intros Hdt Hf. unfold framesLeft in Hf.
  assert ((D - now) / dt <= inject_Z (Z.of_nat fuel)) as Hq.
  { eapply Qle_trans; [apply Qle_ceiling|]. rewrite <- Zle_Qle. lia. }
  apply (Qmult_le_r _ _ dt Hdt) in Hq. eapply Qle_trans; [|exact Hq].
  apply Qle_lteq. right. field. lra.
Qed.

End Frames.

(** ** Theorems *)

Section FramesTheorems.
Context {A : Type} `{AnimationEnds A}.
Implicit Types (l d : LayerAndroid A) (now dt time D : Q) (g : Globals) (fuel : nat).

(** The time of the [k]-th frame after [now], and the tree the first [k]
    evaluations leave. *)
Fixpoint frameAt (k : nat) now dt l : Q * LayerAndroid A :=
  match k with
  | O => (now, l)
  | S k' => frameAt k' (now + dt) dt (animated now l).2
  end.

(** A loop that has come to an end does the same with more fuel. *)
Lemma frameLoop_more_fuel fuel :
  forall fuel' now dt l g r,
    (frameLoop fuel now dt l g).1 = Some r -> (fuel <= fuel')%nat ->
    (frameLoop fuel' now dt l g).1 = Some r.
Proof.
  induction fuel as [|fuel IH]; intros fuel' now dt l g r; [done|].
  destruct fuel' as [|fuel']; [lia|]. rewrite !frameLoop_unfold. cbn zeta.
  destruct (animated now l).1; [|done]. cbn [fst].
  destruct (frameLoop fuel _ _ _ _).1 as [r0|] eqn:E; [|done].
  intros [= <-] Hf. by rewrite (IH fuel' _ _ _ _ r0 E) by lia.
Qed.

(** C15: the loop of the frames comes to an end: when every animation of the
    tree has stopped by [D] and the clock advances by a positive step,
    the loop returns for every amount of fuel above the number of frames
    that fit between the first evaluation and [D], after at most that
    many evaluations and one, with a tree of the same shape. *)
Theorem frameLoop_terminates now dt D l fuel g :
  0 < dt -> ends_by D l -> (framesLeft now dt D < fuel)%nat ->
  exists n l', (frameLoop fuel now dt l g).1 = Some (n, l') /\
               (n <= S (framesLeft now dt D))%nat /\ shape l' = shape l.
Proof.
  intros Hdt Hl Hf.
  destruct (frameLoop_enough D dt (framesLeft now dt D) now l g Hl)
    as (n & l' & E & Hn & _ & Hs); [by apply framesLeft_covers|].
  exists n, l'. split_and!; [|done..].
  apply (frameLoop_more_fuel (S (framesLeft now dt D))); [done|lia].
Qed.

(** What the loop returns: the number [n] of evaluations is at least
    one, the tree is the one [n] evaluations leave, the verdict of the
    last evaluation was that nothing runs, and the verdict of every
    evaluation before it was that something does. *)
Theorem frameLoop_result fuel :
  forall now dt l g n l',
    (frameLoop fuel now dt l g).1 = Some (n, l') ->
    exists k, n = S k /\ l' = (frameAt n now dt l).2 /\
      (animated (frameAt k now dt l).1 (frameAt k now dt l).2).1 = false /\
      forall j, (j < k)%nat ->
        (animated (frameAt j now dt l).1 (frameAt j now dt l).2).1 = true.
Proof.
  induction fuel as [|fuel IH]; intros now dt l g n l'; [done|].
  rewrite frameLoop_unfold. cbn zeta. destruct (animated now l).1 eqn:E; cbn [fst].
  - destruct (frameLoop fuel _ _ _ _).1 as [[n0 l0]|] eqn:E0; [|done].
    intros [= <- <-]. apply IH in E0 as (k & -> & -> & Hlast & Hrun).
    exists (S k). split_and!; [done..|]. intros [|j] Hj; [done|]. apply Hrun. lia.
  - intros [= <- <-]. exists 0%nat. split_and!; [done..|]. intros j Hj. lia.
Qed.

End FramesTheorems.

(** ** Witnesses *)

Lemma demo_animated_ends : ends_by 10 demo_animated.
Proof.
  apply Forall_nodes. split; [|by apply Forall_nil]. rewrite demo_animated_entries.
  apply Forall_cons. split; [by vm_compute|by apply Forall_nil].
Qed.

Lemma frameLoop_terminates_witness :
  exists n l', (frameLoop 12 0 1 demo_animated init_globals).1 = Some (n, l') /\
               (n <= S (framesLeft 0 1 10))%nat /\ shape l' = shape demo_animated.
Proof.
  apply (frameLoop_terminates 0 1 10 demo_animated 12 init_globals);
    [done|exact demo_animated_ends|vm_compute; lia].
Defined.

Lemma demo_frames :
  (frameLoop 12 0 1 demo_animated init_globals).1
  = Some (11%nat, (frameAt 11 0 1 demo_animated).2).
Proof. by vm_compute. Qed.

Lemma frameLoop_result_witness :
  exists k, 11%nat = S k /\
    (frameAt 11 0 1 demo_animated).2 = (frameAt 11 0 1 demo_animated).2 /\
    (animated (frameAt k 0 1 demo_animated).1 (frameAt k 0 1 demo_animated).2).1 = false /\
    forall j, (j < k)%nat ->
      (animated (frameAt j 0 1 demo_animated).1 (frameAt j 0 1 demo_animated).2).1 = true.
Proof. exact (frameLoop_result 12 0 1 demo_animated init_globals 11%nat _ demo_frames). Defined.
