(* ===== verification/Context.v ===== *)
(** * Context: preparing a layer's recording

    [prepareContext] (lines 308-327) decides whether a layer needs a
    recording and whether the one it holds is still good; [recordContext]
    (lines 301-306) forces a fresh one and hands it to the caller.  Both act
    on one node and on the picture store: the node's [m_recordingPicture] is
    replaced, the old picture loses an owner, a new picture is allocated.

    The theorems give the result and the effect of [prepareContext] on each
    of its four paths, the closed form of its result, the dimensions of the
    picture it installs, what it keeps of the node, and the accounting of
    owners in the store. *)

From S2P Require Import Prelude Geometry SkLayer Picture Animation Layer.

Section Context.
Context {A : Type}.
Implicit Types (l : LayerAndroid A) (st : PictureStore) (p q : PicRef).

(** The width and height of the layer as the comparison casts them:
    [(int) m_size.width()] and [(int) m_size.height()]. *)
Definition intWidth l : Z := Qtrunc (SkSize.width (SkLayer.m_size (base l))).

Definition intHeight l : Z := Qtrunc (SkSize.height (SkLayer.m_size (base l))).

(** The condition of lines 314-317: the caller forces a new picture, or the
    layer has none, or the one it has was recorded at another size. *)
Definition needsPicture (force : bool) l st : bool :=
  force
  || negb (bool_decide (is_Some (m_recordingPicture l)))
  || match m_recordingPicture l with
     | Some p => negb (pic_width st p =? intWidth l)%Z
                 || negb (pic_height st p =? intHeight l)%Z
     | None => false
     end.

(** [prepareContext(force)]: the result and the updated node. *)
Definition prepareContext (force : bool) l : State PictureStore (bool * LayerAndroid A) :=
  if negb (m_haveContents l) then ret (false, l)
  else
    l' <- (if negb (m_isRootLayer l) then
             st <- get ;;
             if needsPicture force l st then
               safeUnref (m_recordingPicture l) ;;
               p <- newPicture ;;
               ret (with_recordingPicture (Some p) l)
             else ret l
           else if bool_decide (is_Some (m_recordingPicture l)) then
             safeUnref (m_recordingPicture l) ;;
             ret (with_recordingPicture None l)
           else ret l) ;;
    ret (bool_decide (is_Some (m_recordingPicture l')), l').

(** [recordContext()]. *)
Definition recordContext l : State PictureStore (option PicRef * LayerAndroid A) :=
  r <- prepareContext true l ;;
  if r.1 then ret (m_recordingPicture r.2, r.2) else ret (None, r.2).

(** ** Ownership *)

(** How many times the node itself owns [q]: once or not at all. *)
Definition owns l q : nat := if decide (m_recordingPicture l = Some q) then 1 else 0.

(** The picture a node holds is live in the store. *)
Definition holds_live st l : Prop :=
  forall p, m_recordingPicture l = Some p -> live st p.

(** The recording of a node matches the node's size as the code compares
    them. *)
Definition recording_matches st l : Prop :=
  forall p, m_recordingPicture l = Some p ->
    pic_width st p = intWidth l /\ pic_height st p = intHeight l.

#[global] Instance holds_live_dec st l : Decision (holds_live st l).
Proof.
  unfold holds_live. destruct (m_recordingPicture l) as [p|].
  - destruct (decide (live st p)); [left; by intros ? [= <-]|right; eauto].
  - left. done.
Defined.

#[global] Instance recording_matches_dec st l : Decision (recording_matches st l).
Proof.
  unfold recording_matches. destruct (m_recordingPicture l) as [p|]; [|left; done].
  destruct (decide (pic_width st p = intWidth l /\ pic_height st p = intHeight l)).
  - left. by intros ? [= <-].
  - right. eauto.
Defined.

End Context.

(** ** Theorems *)

Section ContextLemmas.
Context {A : Type}.
Implicit Types (l : LayerAndroid A) (st : PictureStore) (p q : PicRef).

Lemma intWidth_with_recordingPicture o l : intWidth (with_recordingPicture o l) = intWidth l.
Proof. reflexivity. Qed.

Lemma intHeight_with_recordingPicture o l :
  intHeight (with_recordingPicture o l) = intHeight l.
Proof. reflexivity. Qed.

(** *** The condition *)

Lemma needsPicture_force l st : needsPicture true l st = true.
Proof. reflexivity. Qed.

Lemma needsPicture_null force l st :
  m_recordingPicture l = None -> needsPicture force l st = true.
Proof. unfold needsPicture. intros ->. by destruct force. Qed.

Lemma needsPicture_false_iff l st :
  needsPicture false l st = false <->
  is_Some (m_recordingPicture l) /\ recording_matches st l.
Proof.
  unfold needsPicture, recording_matches. destruct (m_recordingPicture l) as [p|]; simpl.
  - rewrite orb_false_iff, !negb_false_iff, !Z.eqb_eq. split.
    + intros [? ?]. split; [eauto|]. by intros ? [= <-].
    + intros [_ Hm]. by apply Hm.
  - split; [done|]. by intros [[] _].
Qed.

(** *** The four paths *)

Lemma prepareContext_no_contents force l st :
  m_haveContents l = false -> prepareContext force l st = ((false, l), st).
Proof. unfold prepareContext. by intros ->. Qed.

Lemma prepareContext_root force l st :
  m_haveContents l = true -> m_isRootLayer l = true ->
  prepareContext force l st =
    ((false, with_recordingPicture None l), (safeUnref (m_recordingPicture l) st).2).
Proof.
  unfold prepareContext. intros -> ->. simpl.
  destruct (m_recordingPicture l) as [p|] eqn:E; simpl; [done|].
  unfold_state. simpl. rewrite E. f_equal. f_equal. destruct l; simpl in *. by subst.
Qed.

Lemma prepareContext_fresh force l st :
  m_haveContents l = true -> m_isRootLayer l = false ->
  needsPicture force l st = true ->
  let st1 := (safeUnref (m_recordingPicture l) st).2 in
  prepareContext force l st =
    ((true, with_recordingPicture (Some (next st1)) l), (newPicture st1).2).
Proof.
  unfold prepareContext. intros -> -> Hn. simpl. unfold bind at 1, get.
  unfold bind at 1. rewrite Hn. unfold bind at 1.
  destruct (safeUnref (m_recordingPicture l) st) as [[] st1]. by simpl.
Qed.

Lemma prepareContext_keep l st :
  m_haveContents l = true -> m_isRootLayer l = false ->
  needsPicture false l st = false ->
  prepareContext false l st = ((true, l), st).
Proof.
  unfold prepareContext. intros -> -> Hn. simpl. unfold bind at 1, get.
  unfold bind at 1. rewrite Hn. simpl.
  apply needsPicture_false_iff in Hn as [[p ->] _]. done.
Qed.

(** Case analysis on the path taken, for the proofs below. *)
Lemma prepareContext_cases force l st :
  (m_haveContents l = false /\ prepareContext force l st = ((false, l), st)) \/
  (m_haveContents l = true /\ m_isRootLayer l = true /\
   prepareContext force l st =
     ((false, with_recordingPicture None l), (safeUnref (m_recordingPicture l) st).2)) \/
  (m_haveContents l = true /\ m_isRootLayer l = false /\
   needsPicture force l st = true /\
   prepareContext force l st =
     ((true, with_recordingPicture (Some (next (safeUnref (m_recordingPicture l) st).2)) l),
      (newPicture (safeUnref (m_recordingPicture l) st).2).2)) \/
  (m_haveContents l = true /\ m_isRootLayer l = false /\ force = false /\
   needsPicture false l st = false /\ prepareContext force l st = ((true, l), st)).
Proof.
  destruct (m_haveContents l) eqn:Hc;
    [|left; split_and!; auto using prepareContext_no_contents].
  destruct (m_isRootLayer l) eqn:Hr;
    [right; left; split_and!; auto using prepareContext_root|].
  destruct (needsPicture force l st) eqn:Hn.
  - right; right; left. split_and!; auto using prepareContext_fresh.
  - right; right; right. destruct force; [by rewrite needsPicture_force in Hn|].
    split_and!; auto using prepareContext_keep.
Qed.

(** Names for the three components of a run. *)
Definition pc_result {B} (r : (bool * B) * PictureStore) : bool := r.1.1.
Definition pc_layer {B} (r : (bool * B) * PictureStore) : B := r.1.2.
Definition pc_store {B} (r : (bool * B) * PictureStore) : PictureStore := r.2.

(** Split a goal about [prepareContext force l st] into its four paths,
    rewriting the run with the path's closed form. *)
Ltac prepare_cases force l st :=
  let Hc := fresh "Hc" in let Hr := fresh "Hr" in
  let Hn := fresh "Hn" in let Hf := fresh "Hf" in let E := fresh "E" in
  destruct (prepareContext_cases force l st)
    as [(Hc & E)|[(Hc & Hr & E)|[(Hc & Hr & Hn & E)|(Hc & Hr & Hf & Hn & E)]]];
  rewrite E; try (is_var force; subst force);
  unfold pc_result, pc_layer, pc_store; simpl_layer.

(** *** Result *)

(** [prepareContext] returns true exactly for a non-root layer that has
    contents, whatever [force] and the store are. *)
Lemma prepareContext_returns force l st :
  pc_result (prepareContext force l st) = m_haveContents l && negb (m_isRootLayer l).
Proof. prepare_cases force l st; by rewrite Hc, ?Hr. Qed.

(** When [prepareContext] returns true the layer holds a recording. *)
Lemma prepareContext_true_holds force l st :
  pc_result (prepareContext force l st) = true ->
  is_Some (m_recordingPicture (pc_layer (prepareContext force l st))).
Proof.
  prepare_cases force l st; intros ?;
    first [done | by eauto | by apply needsPicture_false_iff in Hn as [? _]].
Qed.

(** [prepareContext] changes nothing of the node but its recording. *)
Lemma prepareContext_layer force l st :
  let l' := pc_layer (prepareContext force l st) in
  l' = with_recordingPicture (m_recordingPicture l') l.
Proof. prepare_cases force l st; by destruct l. Qed.

(** C10: the contract of [prepareContext]: it returns true exactly for a
    non-root layer that has contents, whatever [force] and the store are;
    when it returns true the layer holds a recording; and it changes
    nothing of the node but its recording. *)
Theorem prepareContext_contract force l st :
  let r := prepareContext force l st in
  pc_result r = m_haveContents l && negb (m_isRootLayer l) /\
  (pc_result r = true -> is_Some (m_recordingPicture (pc_layer r))) /\
  pc_layer r = with_recordingPicture (m_recordingPicture (pc_layer r)) l.
Proof.
  intros r. split_and!.
  - apply prepareContext_returns.
  - apply prepareContext_true_holds.
  - apply prepareContext_layer.
Qed.

(** After [prepareContext] a root layer that has contents holds no
    recording. *)
Theorem prepareContext_root_null force l st :
  m_isRootLayer l = true -> m_haveContents l = true ->
  m_recordingPicture (pc_layer (prepareContext force l st)) = None.
Proof. intros Hroot Hcont. prepare_cases force l st; congruence. Qed.

(** *** The picture installed *)

(** The picture [prepareContext] installs on the allocating path is new
    to the store, has one owner, no commands, and is zero by zero: its
    dimensions are those of [new SkPicture()], not the layer's size. *)
Theorem prepareContext_fresh_picture force l st :
  store_wf st -> m_haveContents l = true -> m_isRootLayer l = false ->
  needsPicture force l st = true ->
  exists p, m_recordingPicture (pc_layer (prepareContext force l st)) = Some p /\
    ~ live st p /\
    heap (pc_store (prepareContext force l st)) !! p = Some SkPicture.empty.
Proof.
  intros Hwf Hc Hr Hn. rewrite prepareContext_fresh by done.
  unfold pc_layer, pc_store; simpl_layer. eexists; split_and!; [done| |].
  - rewrite safeUnref_next. by apply next_not_live.
  - apply newPicture_lookup.
Qed.

(** C37: a successful [prepareContext(false)] leaves a recording that matches
    the layer's size, as the code compares sizes, exactly when the old
    recording already matched or the size truncates to zero by zero. *)
Theorem prepareContext_matches_iff l st :
  store_wf st -> m_haveContents l = true -> m_isRootLayer l = false ->
  recording_matches (pc_store (prepareContext false l st))
                    (pc_layer (prepareContext false l st)) <->
  needsPicture false l st = false \/ (intWidth l = 0 /\ intHeight l = 0)%Z.
Proof.
  intros Hwf Hcont Hroot. prepare_cases false l st; try congruence.
  - unfold recording_matches; simpl_layer.
    rewrite intWidth_with_recordingPicture, intHeight_with_recordingPicture. split.
    + intros Hm. right. destruct (Hm _ eq_refl) as [Hw Hh].
      by rewrite newPicture_width in Hw; rewrite newPicture_height in Hh.
    + intros [?|[Hw Hh]] ? [= <-]; [congruence|].
      by rewrite newPicture_width, newPicture_height.
  - split; [auto|]. intros _. by apply needsPicture_false_iff in Hn as [_ ?].
Qed.

(** *** Stability *)

(** A layer whose recording matches its size keeps it. *)
Lemma prepareContext_stable l st :
  m_haveContents l = true -> m_isRootLayer l = false ->
  is_Some (m_recordingPicture l) -> recording_matches st l ->
  prepareContext false l st = ((true, l), st).
Proof.
  intros Hc Hr Hs Hm. apply prepareContext_keep; try done.
  by apply needsPicture_false_iff.
Qed.

(** *** The store *)

Lemma prepareContext_wf force l st :
  store_wf st -> store_wf (pc_store (prepareContext force l st)).
Proof. intros Hwf. prepare_cases force l st; auto with sk. Qed.

(** The allocator only moves forward. *)
Lemma prepareContext_next force l st :
  (next st <= next (pc_store (prepareContext force l st)))%positive.
Proof.
  prepare_cases force l st; rewrite ?newPicture_next, ?safeUnref_next; lia.
Qed.

Lemma prepareContext_holds_live force l st :
  store_wf st -> holds_live st l ->
  holds_live (pc_store (prepareContext force l st)) (pc_layer (prepareContext force l st)).
Proof.
  intros Hwf Hl. prepare_cases force l st; try done.
  intros p [= <-]. apply newPicture_live.
Qed.

Lemma prepareContext_refcnt force l st q :
  store_wf st -> holds_live st l ->
  (refcnt (pc_store (prepareContext force l st)) q + owns l q =
   refcnt st q + owns (pc_layer (prepareContext force l st)) q)%nat.
Proof.
  intros Hwf Hl. unfold owns.
  pose proof (safeUnref_release st (m_recordingPicture l) q Hwf (Hl q)) as Hrel.
  prepare_cases force l st; try done.
  - destruct (decide (None = Some q)); [done|lia].
  - rewrite newPicture_refcnt, safeUnref_next in * by auto with sk.
    pose proof (next_not_live st Hwf) as Hfresh.
    destruct (decide (q = next st)) as [->|Hq].
    + rewrite (decide_True (P:=Some _ = Some _)) by done.
      rewrite (decide_False (P:=m_recordingPicture l = _)) by (intros ?; eauto).
      rewrite refcnt_not_live by done. lia.
    + rewrite (decide_False (P:=Some _ = Some _)) by congruence. lia.
Qed.

(** C5: [prepareContext] keeps the store's accounting: the store stays
    well-formed, the recording the node holds afterwards is live, and for
    every picture the owners the store counts, less the node's own share,
    are the same before and after. *)
Theorem prepareContext_ownership force l st q :
  store_wf st -> holds_live st l ->
  let r := prepareContext force l st in
  store_wf (pc_store r) /\ holds_live (pc_store r) (pc_layer r) /\
  (refcnt (pc_store r) q + owns l q = refcnt st q + owns (pc_layer r) q)%nat.
Proof.
  intros Hwf Hl r. subst r.
  auto using prepareContext_wf, prepareContext_holds_live, prepareContext_refcnt.
Qed.

(** [prepareContext] never edits a picture in place: a picture that is
    live before and after has the same size and the same commands. *)
Theorem prepareContext_pictures_immutable force l st q pic pic' :
  store_wf st ->
  heap st !! q = Some pic ->
  heap (pc_store (prepareContext force l st)) !! q = Some pic' ->
  same_content pic' pic.
Proof.
  intros Hwf Hq. assert (Hne : q <> next st)
    by (intros ->; eapply next_not_live; [done|by eexists]).
  prepare_cases force l st; eauto using safeUnref_same_content.
  - rewrite Hq. by intros [= <-].
  - rewrite newPicture_lookup_ne by (by rewrite safeUnref_next).
    eauto using safeUnref_same_content.
  - rewrite Hq. by intros [= <-].
Qed.

(** *** Resizing *)

Lemma needsPicture_setSize force w h l st :
  needsPicture force (setSize w h l) st =
  force || negb (bool_decide (is_Some (m_recordingPicture l)))
  || match m_recordingPicture l with
     | Some p => negb (pic_width st p =? Qtrunc w)%Z || negb (pic_height st p =? Qtrunc h)%Z
     | None => false
     end.
Proof. reflexivity. Qed.

(** C35: after [setSize(w, h)], [prepareContext(false)] keeps the recording
    exactly when the recording's dimensions equal the new size cast to
    [int]; a change of size within the same integer cell keeps it. *)
Theorem prepareContext_after_setSize w h l st p :
  store_wf st -> m_haveContents l = true -> m_isRootLayer l = false ->
  m_recordingPicture l = Some p -> live st p ->
  m_recordingPicture (pc_layer (prepareContext false (setSize w h l) st)) = Some p <->
  pic_width st p = Qtrunc w /\ pic_height st p = Qtrunc h.
Proof.
  intros Hwf Hcont Hroot Hp Hlive. pose proof (next_not_live st Hwf) as Hfresh.
  prepare_cases false (setSize w h l) st; try (simpl in *; congruence).
  - rewrite safeUnref_next. split.
    + by intros [= <-].
    + intros [Hw Hh]. rewrite needsPicture_setSize, Hp in Hn. simpl in Hn.
      rewrite Hw, Hh, !Z.eqb_refl in Hn. done.
  - rewrite needsPicture_setSize, Hp in Hn. simpl in Hn.
    rewrite orb_false_iff, !negb_false_iff, !Z.eqb_eq in Hn. by split.
Qed.

(** *** Repeated calls *)

(** C36: [prepareContext(false)] is not idempotent on the allocating path:
    the picture it installs is zero by zero, so unless the layer's size
    truncates to zero by zero a second call replaces it again, and the
    picture of the first call, which had no other owner, is freed. *)
Theorem prepareContext_twice_allocates l st :
  store_wf st -> m_haveContents l = true -> m_isRootLayer l = false ->
  needsPicture false l st = true -> (intWidth l <> 0 \/ intHeight l <> 0)%Z ->
  let r1 := prepareContext false l st in
  let r2 := prepareContext false (pc_layer r1) (pc_store r1) in
  m_recordingPicture (pc_layer r1) = Some (next st) /\
  m_recordingPicture (pc_layer r2) = Some (Pos.succ (next st)) /\
  live (pc_store r1) (next st) /\ ~ live (pc_store r2) (next st).
Proof.
  intros Hwf Hc Hr Hn Hsz r1 r2. subst r1 r2.
  rewrite (prepareContext_fresh false l st) by done.
  unfold pc_layer, pc_store; simpl_layer. rewrite safeUnref_next.
  set (st1 := (safeUnref (m_recordingPicture l) st).2).
  assert (next st1 = next st) as N1 by apply safeUnref_next.
  split; [done|]. rewrite prepareContext_fresh; try done.
  - simpl_layer. rewrite safeUnref_next, newPicture_next, N1. split_and!; [done| |].
    + rewrite <- N1. apply newPicture_live.
    + intros [pic E]. rewrite newPicture_lookup_ne in E
        by (rewrite safeUnref_next, newPicture_next, N1; lia).
      cbn [safeUnref] in E. rewrite <- N1 in E.
      by rewrite (unref_last _ _ _ (newPicture_lookup st1) eq_refl) in E.
  - unfold needsPicture; simpl_layer. fold st1.
    rewrite intWidth_with_recordingPicture, intHeight_with_recordingPicture,
      <- N1, newPicture_width, newPicture_height.
    apply orb_true_iff; right. rewrite orb_true_iff, !negb_true_iff, !Z.eqb_neq.
    destruct Hsz; [left|right]; congruence.
Qed.

(** C34: [prepareContext(false)] at a stable size is idempotent: when the
    recording matches the layer's size the call changes nothing, and so does
    every further call. *)
Theorem prepareContext_idempotent l st :
  m_haveContents l = true -> m_isRootLayer l = false ->
  is_Some (m_recordingPicture l) -> recording_matches st l ->
  let r := prepareContext false l st in
  r = ((true, l), st) /\ prepareContext false (pc_layer r) (pc_store r) = r.
Proof.
  intros Hc Hr Hs Hm r. subst r. rewrite prepareContext_stable by done.
  split; [done|]. by apply prepareContext_stable.
Qed.

(** Once the layout engine has recorded into the installed picture at
    the layer's size, [prepareContext(false)] keeps it. *)
Theorem prepareContext_after_record l st p cmds :
  m_haveContents l = true -> m_isRootLayer l = false ->
  m_recordingPicture l = Some p -> live st p ->
  let st' := (record p (intWidth l) (intHeight l) cmds st).2 in
  prepareContext false l st' = ((true, l), st').
Proof.
  intros Hc Hr Hp Hlive st'. apply prepareContext_stable; try done.
  intros q Hq. assert (q = p) as -> by congruence. subst st'.
  split; [by apply record_width|by apply record_height].
Qed.

(** *** [recordContext] *)

Lemma recordContext_run l st :
  recordContext l st =
  ((if pc_result (prepareContext true l st)
    then m_recordingPicture (pc_layer (prepareContext true l st)) else None,
    pc_layer (prepareContext true l st)),
   pc_store (prepareContext true l st)).
Proof.
  unfold recordContext, bind, pc_result, pc_layer, pc_store.
  destruct (prepareContext true l st) as [[[] l'] st']; done.
Qed.

(** [recordContext] on a non-root layer that has contents drops the old
    recording and returns a new picture, which the layer now holds. *)
Lemma recordContext_some l st :
  m_haveContents l = true -> m_isRootLayer l = false ->
  recordContext l st =
    ((Some (next st), with_recordingPicture (Some (next st)) l),
     (newPicture (safeUnref (m_recordingPicture l) st).2).2).
Proof.
  intros Hc Hr. rewrite recordContext_run, prepareContext_fresh by done.
  unfold pc_result, pc_layer, pc_store; simpl_layer. by rewrite safeUnref_next.
Qed.

(** C17: [recordContext] fails, returning the null pointer, exactly for a
    layer without contents and for a root.  Then no picture is allocated:
    a layer without contents and the store are left as they are, and a
    root with contents has lost the recording it held, if it held one.
    Otherwise the pointer returned is a picture the store had not handed
    out: the layer holds it, it is empty and zero by zero, and the old
    recording of the layer has been released. *)
Theorem recordContext_null_iff l st :
  let r := recordContext l st in
  (r.1.1 = None <-> m_haveContents l = false \/ m_isRootLayer l = true) /\
  (r.1.1 = None ->
     next r.2 = next st /\
     (m_haveContents l = false -> r = ((None, l), st)) /\
     (m_haveContents l = true ->
        r.1.2 = with_recordingPicture None l /\
        r.2 = (safeUnref (m_recordingPicture l) st).2)) /\
  (forall p, r.1.1 = Some p ->
     p = next st /\ (store_wf st -> ~ live st p) /\
     m_recordingPicture r.1.2 = Some p /\
     heap r.2 !! p = Some SkPicture.empty /\
     r.2 = (newPicture (safeUnref (m_recordingPicture l) st).2).2).
Proof.
  cbn zeta. rewrite recordContext_run. cbn [fst snd].
  prepare_cases true l st; (split_and!; [split| |]); try done; try tauto;
    try (intros [|]; congruence).
  - intros _. split_and!; [done..|congruence].
  - intros _. rewrite safeUnref_next. split_and!; [done|congruence|done].
  - intros p [= <-]. split_and!; try done; [apply safeUnref_next| |apply newPicture_lookup].
    rewrite safeUnref_next. intros Hwf. by apply next_not_live.
Qed.

(** Two calls of [recordContext], with any resize between them, return
    different pictures, and the second is zero by zero until something is
    recorded into it. *)
Theorem recordContext_distinct w h l st :
  store_wf st -> m_haveContents l = true -> m_isRootLayer l = false ->
  let r1 := recordContext l st in
  let r2 := recordContext (setSize w h r1.1.2) r1.2 in
  r1.1.1 = Some (next st) /\ r2.1.1 = Some (Pos.succ (next st)) /\
  pic_width r2.2 (Pos.succ (next st)) = 0%Z /\
  pic_height r2.2 (Pos.succ (next st)) = 0%Z.
Proof.
  intros Hwf Hc Hr r1 r2. subst r1 r2. rewrite (recordContext_some l st) by done.
  simpl_layer. rewrite recordContext_some by done. simpl_layer.
  rewrite !newPicture_next, !safeUnref_next.
  set (st2 := (safeUnref _ (newPicture _).2).2).
  assert (Hnext : next st2 = Pos.succ (next st))
    by (subst st2; by rewrite safeUnref_next, newPicture_next, safeUnref_next).
  rewrite <- Hnext. by rewrite newPicture_width, newPicture_height.
Qed.

End ContextLemmas.

#[export] Hint Resolve prepareContext_wf prepareContext_holds_live : sk.

(** ** Witnesses

    A non-root layer of 100 by 50 with contents, the same layer once
    prepared and recorded, and a root layer with contents. *)

Definition demo_content : LayerAndroid KeyframeAnimation :=
  setSize 100%Q 50%Q (setHaveContents true demo_leaf).

Definition demo_root : LayerAndroid KeyframeAnimation :=
  setHaveContents true (LayerAndroid_new true init_globals).1.

Definition demo_rect : DrawCmd :=
  DrawRect (SkRect.of_xywh 0%Q 0%Q 100%Q 50%Q) (mkPaint 4294901760%Z 255%Z).

Definition demo_recorded : LayerAndroid KeyframeAnimation :=
  pc_layer (prepareContext false demo_content empty_store).

Definition demo_store : PictureStore :=
  (record 1%positive 100%Z 50%Z [demo_rect] (pc_store (prepareContext false demo_content empty_store))).2.

Lemma demo_store_wf : store_wf demo_store.
Proof. unfold demo_store. auto with sk. Qed.

Lemma demo_recorded_matches : recording_matches demo_store demo_recorded.
Proof. by intros p [= <-]. Qed.

Lemma demo_recorded_live : holds_live demo_store demo_recorded.
Proof. intros p [= <-]. by eexists. Qed.

Lemma prepareContext_true_holds_witness :
  is_Some (m_recordingPicture (pc_layer (prepareContext false demo_content empty_store))).
Proof. exact (prepareContext_true_holds false demo_content empty_store eq_refl). Defined.

Lemma prepareContext_root_null_witness :
  m_recordingPicture (pc_layer (prepareContext false demo_root demo_store)) = None.
Proof. exact (prepareContext_root_null false demo_root demo_store eq_refl eq_refl). Defined.

Lemma prepareContext_fresh_picture_witness :
  exists p, m_recordingPicture (pc_layer (prepareContext false demo_content demo_store)) = Some p /\
    ~ live demo_store p /\
    heap (pc_store (prepareContext false demo_content demo_store)) !! p = Some SkPicture.empty.
Proof.
  exact (prepareContext_fresh_picture false demo_content demo_store
           demo_store_wf eq_refl eq_refl eq_refl).
Defined.

Lemma prepareContext_matches_iff_witness :
  recording_matches (pc_store (prepareContext false demo_content empty_store))
                    (pc_layer (prepareContext false demo_content empty_store)) <->
  needsPicture false demo_content empty_store = false \/
  (intWidth demo_content = 0 /\ intHeight demo_content = 0)%Z.
Proof.
  exact (prepareContext_matches_iff demo_content empty_store
           store_wf_empty eq_refl eq_refl).
Defined.

Lemma prepareContext_ownership_witness :
  let r := prepareContext true demo_recorded demo_store in
  store_wf (pc_store r) /\ holds_live (pc_store r) (pc_layer r) /\
  (refcnt (pc_store r) 1%positive + owns demo_recorded 1%positive =
   refcnt demo_store 1%positive + owns (pc_layer r) 1%positive)%nat.
Proof.
  exact (prepareContext_ownership true demo_recorded demo_store 1%positive
           demo_store_wf demo_recorded_live).
Defined.

Lemma prepareContext_pictures_immutable_witness :
  same_content (SkPicture.mk 100%Z 50%Z [demo_rect] 1%nat) (SkPicture.mk 100%Z 50%Z [demo_rect] 1%nat).
Proof.
  exact (prepareContext_pictures_immutable false demo_content demo_store 1%positive _ _
           demo_store_wf eq_refl eq_refl).
Defined.

Lemma prepareContext_after_setSize_witness :
  m_recordingPicture
    (pc_layer (prepareContext false (setSize (201 # 2)%Q (509 # 10)%Q demo_recorded)
                 demo_store)) = Some 1%positive <->
  pic_width demo_store 1%positive = Qtrunc (201 # 2)%Q /\
  pic_height demo_store 1%positive = Qtrunc (509 # 10)%Q.
Proof.
  exact (prepareContext_after_setSize (201 # 2)%Q (509 # 10)%Q demo_recorded demo_store 1%positive
           demo_store_wf eq_refl eq_refl eq_refl (demo_recorded_live 1%positive eq_refl)).
Defined.

Lemma prepareContext_twice_allocates_witness :
  let r1 := prepareContext false demo_content empty_store in
  let r2 := prepareContext false (pc_layer r1) (pc_store r1) in
  m_recordingPicture (pc_layer r1) = Some (next empty_store) /\
  m_recordingPicture (pc_layer r2) = Some (Pos.succ (next empty_store)) /\
  live (pc_store r1) (next empty_store) /\ ~ live (pc_store r2) (next empty_store).
Proof.
  refine (prepareContext_twice_allocates demo_content empty_store
            store_wf_empty eq_refl eq_refl eq_refl _).
  left. by vm_compute.
Defined.

Lemma prepareContext_idempotent_witness :
  let r := prepareContext false demo_recorded demo_store in
  r = ((true, demo_recorded), demo_store) /\
  prepareContext false (pc_layer r) (pc_store r) = r.
Proof.
  refine (prepareContext_idempotent demo_recorded demo_store eq_refl eq_refl _
            demo_recorded_matches).
  by eexists.
Defined.

Lemma prepareContext_after_record_witness :
  let st' := (record 1%positive (intWidth demo_recorded) (intHeight demo_recorded) [demo_rect]
                demo_store).2 in
  prepareContext false demo_recorded st' = ((true, demo_recorded), st').
Proof.
  exact (prepareContext_after_record demo_recorded demo_store 1%positive [demo_rect]
           eq_refl eq_refl eq_refl (demo_recorded_live 1%positive eq_refl)).
Defined.

Lemma recordContext_distinct_witness :
  let r1 := recordContext demo_content empty_store in
  let r2 := recordContext (setSize 200%Q 100%Q r1.1.2) r1.2 in
  r1.1.1 = Some (next empty_store) /\ r2.1.1 = Some (Pos.succ (next empty_store)) /\
  pic_width r2.2 (Pos.succ (next empty_store)) = 0%Z /\
  pic_height r2.2 (Pos.succ (next empty_store)) = 0%Z.
Proof.
  exact (recordContext_distinct 200%Q 100%Q demo_content empty_store
           store_wf_empty eq_refl eq_refl).
Defined.
