(* ===== verification/Lifecycle.v ===== *)
(** * Lifecycle: copying and destroying layers

    The copy constructor (lines 57-75) and the destructor (lines 77-83) of
    LayerAndroid.cpp, on the picture store and the instance counter.

    A copy is deep on the tree and on the animations and shallow on the
    recording: every node of the copy shares the picture of the node it
    was copied from and takes a reference to it.  The destructor gives the
    references back, children first.

    [tree_refs q l] counts the nodes of [l] that hold the picture [q].  The
    theorems relate it to the reference counts of the store: a copy adds
    it, a destruction removes it, and the two cancel. *)

From S2P Require Import Prelude Geometry Picture SkLayer Animation Layer Context.

(** The state the constructors and the destructor act on: the pictures and
    the debug counters. *)
Definition Runtime : Type := PictureStore * Globals.

Definition onStore {X} (m : State PictureStore X) : State Runtime X :=
  zoom fst (fun st r => (st, r.2)) m.

Definition onCounters {X} (m : State Globals X) : State Runtime X :=
  zoom snd (fun g r => (r.1, g)) m.

Section Lifecycle.
Context {A : Type} `{AndroidAnimation A} {policy : AddPolicy}.
Implicit Types (l layer : LayerAndroid A) (q : PicRef).

(** Lines 70-72: every animation of the source, copied, added under its
    name to the map of the new layer. *)
Definition copyAnimations (m : gmap string A) : gmap string A :=
  foldl (fun acc e => HashMap_add (name e.2) (copy e.2) acc) ∅ (HashMap_entries m).

(** The copy constructor [LayerAndroid(const LayerAndroid& layer)]
    (lines 57-75). *)
Fixpoint LayerAndroid_copy layer {struct layer} : State Runtime (LayerAndroid A) :=
  onStore (SkSafeRef (m_recordingPicture layer)) ;;
  cs <- mapS LayerAndroid_copy (children layer) ;;
  onCounters (modify (bumpInstances 1)) ;;
  ret (mkLayer (base layer) cs (m_isRootLayer layer) (m_haveContents layer)
               (m_drawsContent layer) (m_haveImage layer) (m_haveClip layer)
               (m_recordingPicture layer) (copyAnimations (m_animations layer))).

(** The destructor [~LayerAndroid()] (lines 77-83); the loop is
    [removeChildren()], which destroys each child the node owns. *)
Fixpoint LayerAndroid_delete l {struct l} : State Runtime unit :=
  mapS LayerAndroid_delete (children l) ;;
  onStore (safeUnref (m_recordingPicture l)) ;;
  onCounters (modify (bumpInstances (-1))).

(** [removeChildren()]. *)
Definition removeChildren l : State Runtime (LayerAndroid A) :=
  mapS LayerAndroid_delete (children l) ;;
  ret (with_children [] l).

(** ** The specification *)

(** The copy as a function of the source. *)
Fixpoint cloned l : LayerAndroid A :=
  mkLayer (base l) (cloned <$> children l) (m_isRootLayer l) (m_haveContents l)
          (m_drawsContent l) (m_haveImage l) (m_haveClip l)
          (m_recordingPicture l) (copyAnimations (m_animations l)).

(** What a copy does to the store: one reference more for the picture of
    every node, the node before its children. *)
Fixpoint refTree l (st : PictureStore) : PictureStore :=
  foldl (fun s c => refTree c s) (SkSafeRef (m_recordingPicture l) st).2 (children l).

(** What a destruction does to the store: one reference less for the
    picture of every node, the children before the node. *)
Fixpoint unrefTree l (st : PictureStore) : PictureStore :=
  (safeUnref (m_recordingPicture l) (foldl (fun s c => unrefTree c s) st (children l))).2.

(** The instance counter moved by [sgn] for each of [n] nodes. *)
Definition countEffect (sgn : Z) (n : nat) (g : Globals) : Globals :=
  bumpInstances (sgn * Z.of_nat n) g.

(** The number of nodes of the tree that hold the picture [q]. *)
Definition tree_refs q l : nat := sum_list ((fun d => owns d q) <$> nodes l).

(** The store counts every reference the tree holds. *)
Definition owned (st : PictureStore) l : Prop :=
  forall q, (tree_refs q l <= refcnt st q)%nat.

(** Every animation is stored under its own name. *)
Definition names_ok (m : gmap string A) : Prop :=
  forall k a, m !! k = Some a -> name a = k.

End Lifecycle.

(** ** The constructors and the destructor as functions *)

Section LifecycleRun.
Context {A : Type} `{AndroidAnimation A} {policy : AddPolicy}.
Implicit Types (l layer : LayerAndroid A) (q : PicRef) (st : PictureStore)
  (g : Globals) (r : Runtime).

Lemma onStore_run {X} (m : State PictureStore X) r :
  onStore m r = ((m r.1).1, ((m r.1).2, r.2)).
Proof. unfold onStore, zoom. by destruct (m r.1). Qed.

Lemma onCounters_run {X} (m : State Globals X) r :
  onCounters m r = ((m r.2).1, (r.1, (m r.2).2)).
Proof. unfold onCounters, zoom. by destruct (m r.2). Qed.

Lemma countEffect_countEffect sgn a b g :
  countEffect sgn a (countEffect sgn b g) = countEffect sgn (b + a) g.
Proof. unfold countEffect. rewrite bumpInstances_bumpInstances. f_equal. lia. Qed.

Lemma countEffect_foldl {X} (f : X -> nat) sgn (ls : list X) g :
  foldl (fun g0 x => countEffect sgn (f x) g0) g ls =
  countEffect sgn (sum_list (f <$> ls)) g.
Proof. apply bumpInstances_foldl. Qed.

Lemma refTree_unfold l st :
  refTree l st =
  foldl (fun s c => refTree c s) (SkSafeRef (m_recordingPicture l) st).2 (children l).
Proof. by destruct l. Qed.

Lemma unrefTree_unfold l st :
  unrefTree l st =
  (safeUnref (m_recordingPicture l) (foldl (fun s c => unrefTree c s) st (children l))).2.
Proof. by destruct l. Qed.

Lemma cloned_unfold l :
  cloned l =
  mkLayer (base l) (cloned <$> children l) (m_isRootLayer l) (m_haveContents l)
          (m_drawsContent l) (m_haveImage l) (m_haveClip l)
          (m_recordingPicture l) (copyAnimations (m_animations l)).
Proof. by destruct l. Qed.

Lemma LayerAndroid_copy_unfold layer :
  LayerAndroid_copy layer =
  (onStore (SkSafeRef (m_recordingPicture layer)) ;;
   cs <- mapS LayerAndroid_copy (children layer) ;;
   onCounters (modify (bumpInstances 1)) ;;
   ret (mkLayer (base layer) cs (m_isRootLayer layer) (m_haveContents layer)
                (m_drawsContent layer) (m_haveImage layer) (m_haveClip layer)
                (m_recordingPicture layer) (copyAnimations (m_animations layer)))).
Proof. by destruct layer. Qed.

Lemma LayerAndroid_delete_unfold l :
  LayerAndroid_delete l =
  (mapS LayerAndroid_delete (children l) ;;
   onStore (safeUnref (m_recordingPicture l)) ;;
   onCounters (modify (bumpInstances (-1)))).
Proof. by destruct l. Qed.

(** The copy constructor returns [cloned], references the pictures of the
    tree and counts its nodes. *)
Lemma LayerAndroid_copy_run l :
  forall r, LayerAndroid_copy l r =
            (cloned l, (refTree l r.1, countEffect 1 (countNodes l) r.2)).
Proof.
  induction l as [l IH] using layer_ind. intros r.
  rewrite LayerAndroid_copy_unfold, cloned_unfold, refTree_unfold, countNodes_unfold.
  rewrite !bind_fst_snd, onStore_run. cbn [fst snd].
  rewrite (mapS_split cloned
             (fun c r0 => (refTree c r0.1, countEffect 1 (countNodes c) r0.2))).
  2: { intros c r0 Hc. rewrite Forall_forall in IH. by apply IH. }
  cbn [fst snd].
  rewrite (foldl_pair refTree (fun c g0 => countEffect 1 (countNodes c) g0)).
  rewrite countEffect_foldl, onCounters_run.
  cbn [fst snd modify ret]. do 3 f_equal.
  unfold countEffect. rewrite bumpInstances_bumpInstances. f_equal. lia.
Qed.

(** The destructor releases the pictures of the tree and counts its nodes
    down. *)
Lemma LayerAndroid_delete_run l :
  forall r, LayerAndroid_delete l r =
            (tt, (unrefTree l r.1, countEffect (-1) (countNodes l) r.2)).
Proof.
  induction l as [l IH] using layer_ind. intros [st g].
  rewrite LayerAndroid_delete_unfold, unrefTree_unfold, countNodes_unfold.
  rewrite !bind_fst_snd.
  rewrite (mapS_split (fun _ => tt)
             (fun c r0 => (unrefTree c r0.1, countEffect (-1) (countNodes c) r0.2))).
  2: { intros c r0 Hc. rewrite Forall_forall in IH. by apply IH. }
  cbn [fst snd].
  rewrite (foldl_pair unrefTree (fun c g0 => countEffect (-1) (countNodes c) g0)).
  rewrite countEffect_foldl, onStore_run, onCounters_run.
  cbn [fst snd modify]. do 3 f_equal.
  unfold countEffect. rewrite bumpInstances_bumpInstances. f_equal. lia.
Qed.

End LifecycleRun.

(** ** Counting references *)

Section Counting.
Context {A : Type} `{AndroidAnimation A} {policy : AddPolicy}.
Implicit Types (l c : LayerAndroid A) (q : PicRef) (st : PictureStore)
  (g : Globals) (r : Runtime).

Lemma tree_refs_unfold q l :
  tree_refs q l = owns l q + sum_list (tree_refs q <$> children l).
Proof.
  unfold tree_refs. rewrite nodes_unfold, fmap_cons. cbn [sum_list_with id].
  by rewrite sum_list_fmap_join, <- list_fmap_compose.
Qed.

Lemma owned_node st l q :
  store_wf st -> owned st l -> m_recordingPicture l = Some q -> live st q.
Proof.
  intros Hwf Ho Hq. apply refcnt_live; [done|]. specialize (Ho q).
  rewrite tree_refs_unfold in Ho. unfold owns in Ho. rewrite decide_True in Ho by done. lia.
Qed.

Lemma owned_child st l c : owned st l -> c ∈ children l -> owned st c.
Proof.
  intros Ho Hc q. specialize (Ho q). rewrite tree_refs_unfold in Ho.
  assert (tree_refs q c ∈ tree_refs q <$> children l) as Hin
    by (apply list_elem_of_fmap; eauto).
  pose proof (sum_list_with_in _ id _ Hin). unfold id at 1 in H0. lia.
Qed.

(** A copy adds the references of the tree to the counts of the store. *)
Lemma refTree_refcnt l :
  forall st, store_wf st -> owned st l ->
    store_wf (refTree l st) /\
    forall q, refcnt (refTree l st) q = refcnt st q + tree_refs q l.
Proof.
  induction l as [l IH] using layer_ind. intros st Hwf Ho.
  rewrite refTree_unfold.
  assert (forall q, refcnt (SkSafeRef (m_recordingPicture l) st).2 q
                    = refcnt st q + owns l q) as E0.
  { intros q. apply SkSafeRef_refcnt. by apply owned_node. }
  destruct (foldl_produce refTree store_wf refcnt (fun c q => tree_refs q c) (children l))
    with (s := (SkSafeRef (m_recordingPicture l) st).2) as [Hwf' E].
  - eapply Forall_impl; [exact IH|]. cbn. intros c Hc s Hs Hn. by apply Hc.
  - by apply SkSafeRef_wf.
  - intros q. apply Forall_forall. intros c Hc. rewrite E0.
    pose proof (owned_child st l c Ho Hc q). lia.
  - split; [done|]. intros q. rewrite E, E0, (tree_refs_unfold q l).
    symmetry. apply Nat.add_assoc.
Qed.

(** A destruction takes the references of the tree from the counts of the
    store. *)
Lemma unrefTree_refcnt l :
  forall st, store_wf st -> owned st l ->
    store_wf (unrefTree l st) /\
    forall q, refcnt (unrefTree l st) q + tree_refs q l = refcnt st q.
Proof.
  induction l as [l IH] using layer_ind. intros st Hwf Ho.
  rewrite unrefTree_unfold.
  destruct (foldl_consume unrefTree store_wf refcnt (fun c q => tree_refs q c) (children l))
    with (s := st) as [Hwf' E].
  - eapply Forall_impl; [exact IH|]. cbn. intros c Hc s Hs Hn. by apply Hc.
  - done.
  - intros q. specialize (Ho q). rewrite tree_refs_unfold in Ho.
    change (fun x : LayerAndroid A => tree_refs q x) with (@tree_refs A q). lia.
  - split; [by apply safeUnref_wf|]. intros q.
    pose proof (safeUnref_release _ (m_recordingPicture l) q Hwf') as R.
    rewrite (tree_refs_unfold q l). specialize (E q). specialize (Ho q).
    change (fun x : LayerAndroid A => tree_refs q x) with (@tree_refs A q) in E.
    rewrite tree_refs_unfold in Ho. unfold owns in *.
    rewrite <- E in Ho |- *. rewrite <- R; [lia|].
    intros Hq. apply refcnt_live; [done|]. rewrite decide_True in Ho by done. lia.
Qed.

(** [removeChildren] destroys the children, in order, and leaves the node
    without any. *)
Lemma removeChildren_run l r :
  removeChildren l r =
    (with_children [] l,
     (foldl (fun s c => unrefTree c s) r.1 (children l),
      countEffect (-1) (sum_list (countNodes <$> children l)) r.2)).
Proof.
  destruct r as [st g]. unfold removeChildren. rewrite bind_fst_snd.
  rewrite (mapS_split (fun _ => tt)
             (fun c r0 => (unrefTree c r0.1, countEffect (-1) (countNodes c) r0.2)))
    by (intros; apply LayerAndroid_delete_run).
  cbn [fst snd ret].
  by rewrite (foldl_pair unrefTree (fun c g0 => countEffect (-1) (countNodes c) g0)),
    countEffect_foldl.
Qed.

Lemma unrefTrees_refcnt (cs : list (LayerAndroid A)) st :
  store_wf st -> (forall q, sum_list (tree_refs q <$> cs) <= refcnt st q) ->
  store_wf (foldl (fun s c => unrefTree c s) st cs) /\
  forall q, refcnt (foldl (fun s c => unrefTree c s) st cs) q
            + sum_list (tree_refs q <$> cs) = refcnt st q.
Proof.
  intros Hwf Hn.
  apply (foldl_consume unrefTree store_wf refcnt (fun c q => tree_refs q c)); [|done..].
  apply Forall_forall. intros c _ s Hs Hc. by apply unrefTree_refcnt.
Qed.

(** The copy holds the pictures of the source. *)
Lemma cloned_children l : children (cloned l) = cloned <$> children l.
Proof. by rewrite cloned_unfold. Qed.

Lemma cloned_tree_refs q l : tree_refs q (cloned l) = tree_refs q l.
Proof.
  unfold tree_refs. rewrite (nodes_map cloned) by apply cloned_children.
  rewrite <- list_fmap_compose. apply sum_list_fmap_ext, Forall_forall.
  intros d _. cbn. by rewrite cloned_unfold.
Qed.

Lemma cloned_shape l : shape (cloned l) = shape l.
Proof. apply shape_map, cloned_children. Qed.

End Counting.

(** ** The animations of a copy *)

Section CopyAnimations.
Context {A : Type} `{AndroidAnimationLaws A} {policy : AddPolicy}.
Implicit Types (m acc : gmap string A) (es : list (string * A)).

(** The loop of lines 70-72 over entries with distinct keys, each stored
    under its name, into a map that holds none of the keys: every [add]
    meets a free key, so the policy of the map does not show. *)
Lemma foldl_add_lookup es acc k :
  (forall e, e ∈ es -> name e.2 = e.1) -> NoDup es.*1 ->
  (forall e, e ∈ es -> acc !! e.1 = None) ->
  foldl (fun acc0 e => HashMap_add (name e.2) (copy e.2) acc0) acc es !! k =
  match acc !! k with
  | Some v => Some v
  | None => copy <$> (list_to_map es : gmap string A) !! k
  end.
Proof.
  revert acc. induction es as [|e es IH]; intros acc Hn Hd Hfree; cbn [foldl].
  { cbn. rewrite lookup_empty. by destruct (acc !! k). }
  rewrite fmap_cons in Hd. apply NoDup_cons in Hd as [He Hd].
  rewrite (Hn e) by left. rewrite HashMap_add_fresh by (apply Hfree; left).
  rewrite IH; [|intros; apply Hn; by right|done|].
  - cbn [list_to_map foldr]. destruct (decide (e.1 = k)) as [<-|Hne].
    + rewrite !lookup_insert_eq, (Hfree e) by left. done.
    + by rewrite !lookup_insert_ne.
  - intros e' He'. rewrite lookup_insert_ne; [apply Hfree; by right|].
    intros E. apply He. rewrite E. by apply list_elem_of_fmap_2.
Qed.

Lemma copyAnimations_fmap m : names_ok m -> copyAnimations m = copy <$> m.
Proof.
  intros Hn. apply map_eq. intros k. unfold copyAnimations.
  rewrite foldl_add_lookup, lookup_empty.
  - unfold HashMap_entries. by rewrite list_to_map_to_list, lookup_fmap.
  - intros [k' a] He. apply HashMap_entries_lookup in He. by apply Hn.
  - apply HashMap_entries_NoDup.
  - intros. apply lookup_empty.
Qed.

Lemma copyAnimations_names_ok m : names_ok m -> names_ok (copyAnimations m).
Proof.
  intros Hn k a. rewrite (copyAnimations_fmap m Hn), lookup_fmap.
  destruct (m !! k) as [a0|] eqn:E; [|done]. intros [= <-].
  rewrite copy_name. by apply Hn.
Qed.

End CopyAnimations.

(** ** Theorems *)

Section LifecycleTheorems.
Context {A : Type} `{AndroidAnimation A} {policy : AddPolicy}.
Implicit Types (l c : LayerAndroid A) (q : PicRef) (st : PictureStore) (g : Globals).

(** C6: the copy constructor returns the deep copy [cloned]; in a
    well-formed store that counts the references of the source it adds
    one reference per node to the picture the node holds, so that source
    and copy are both counted; it changes no other count, keeps the store
    well-formed, and raises the instance counter by the number of nodes. *)
Theorem LayerAndroid_copy_spec l st g :
  store_wf st -> owned st l ->
  let r := LayerAndroid_copy l (st, g) in
  r.1 = cloned l /\
  store_wf r.2.1 /\
  (forall q, refcnt r.2.1 q = refcnt st q + tree_refs q l) /\
  (forall q, tree_refs q l + tree_refs q r.1 <= refcnt r.2.1 q) /\
  instancesCount r.2.2 = (instancesCount g + Z.of_nat (countNodes l))%Z.
Proof.
  intros Hwf Ho. cbn zeta. rewrite LayerAndroid_copy_run. cbn [fst snd].
  destruct (refTree_refcnt l st Hwf Ho) as [Hwf' E].
  split_and!; [done|done|done| |unfold instancesCount; cbn; lia].
  intros q. rewrite E, cloned_tree_refs. specialize (Ho q). lia.
Qed.

(** C7: the destructor, in a well-formed store that counts the references
    of the tree, gives back one reference per node, children before the
    node, keeps the store well-formed, and lowers the instance counter by
    the number of nodes. *)
Theorem LayerAndroid_delete_spec l st g :
  store_wf st -> owned st l ->
  let r := LayerAndroid_delete l (st, g) in
  store_wf r.2.1 /\
  (forall q, refcnt r.2.1 q + tree_refs q l = refcnt st q) /\
  instancesCount r.2.2 = (instancesCount g - Z.of_nat (countNodes l))%Z.
Proof.
  intros Hwf Ho. cbn zeta. rewrite LayerAndroid_delete_run. cbn [fst snd].
  destruct (unrefTree_refcnt l st Hwf Ho) as [Hwf' E].
  split_and!; [done|done|unfold instancesCount; cbn; lia].
Qed.

(** C28: copying a tree and destroying the copy leaves every reference count
    and the instance counter as they were: a copy that is dropped leaks
    nothing and frees nothing the source holds. *)
Theorem copy_delete_roundtrip l st g :
  store_wf st -> owned st l ->
  let r1 := LayerAndroid_copy l (st, g) in
  let r2 := LayerAndroid_delete r1.1 r1.2 in
  store_wf r2.2.1 /\ owned r2.2.1 l /\
  (forall q, refcnt r2.2.1 q = refcnt st q) /\
  instancesCount r2.2.2 = instancesCount g.
Proof.
  intros Hwf Ho. cbn zeta. rewrite LayerAndroid_copy_run, LayerAndroid_delete_run.
  cbn [fst snd].
  destruct (refTree_refcnt l st Hwf Ho) as [Hwf1 E1].
  destruct (unrefTree_refcnt (cloned l) (refTree l st) Hwf1) as [Hwf2 E2].
  { intros q. rewrite E1, cloned_tree_refs. lia. }
  assert (forall q, refcnt (unrefTree (cloned l) (refTree l st)) q = refcnt st q) as E.
  { intros q. specialize (E2 q). rewrite E1, cloned_tree_refs in E2. lia. }
  split_and!; [done| |done|].
  - intros q. rewrite E. apply Ho.
  - rewrite (shape_countNodes _ _ (cloned_shape l)). unfold instancesCount. cbn. lia.
Qed.

End LifecycleTheorems.

Section CopyTheorems.
Context {A : Type} `{AndroidAnimationLaws A} {policy : AddPolicy}.
Implicit Types (l d : LayerAndroid A).

(** C29: the copy is deep on the tree and on the animations and shallow on
    the recording: it has the shape of the source and, node by node, the
    same properties, flags and picture, and, when the animations of the
    source are stored under their names, the copy of each animation under
    the same name. *)
Theorem cloned_deep l :
  shape (cloned l) = shape l /\
  Forall2 (fun d d' =>
             base d' = base d /\ m_recordingPicture d' = m_recordingPicture d /\
             m_isRootLayer d' = m_isRootLayer d /\ m_haveContents d' = m_haveContents d /\
             m_drawsContent d' = m_drawsContent d /\ m_haveImage d' = m_haveImage d /\
             m_haveClip d' = m_haveClip d /\
             (names_ok (m_animations d) ->
              m_animations d' = copy <$> m_animations d /\ names_ok (m_animations d')))
          (nodes l) (nodes (cloned l)).
Proof.
  split; [apply cloned_shape|].
  rewrite (nodes_map cloned) by apply cloned_children.
  apply Forall2_fmap_r, Forall2_same_length_lookup. split; [done|].
  intros i d d' Hd Hd'. simplify_eq. unfold compose. rewrite cloned_unfold. cbn.
  split_and!; try done. intros Hn.
  split; [by apply copyAnimations_fmap|by apply copyAnimations_names_ok].
Qed.

End CopyTheorems.

(** ** Witnesses

    A root with one child that holds the picture of [demo_store]. *)

#[local] Existing Instance add_keeps_policy.

Definition demo_family : LayerAndroid KeyframeAnimation :=
  addChild demo_recorded demo_root.

Lemma demo_family_owned : owned demo_store demo_family.
Proof.
  intros q. destruct (decide (q = 1%positive)) as [->|Hne]; [by vm_compute|].
  replace (tree_refs q demo_family) with 0; [lia|]. unfold tree_refs.
  change (nodes demo_family) with [demo_family; demo_recorded]. cbn. unfold owns.
  change (m_recordingPicture demo_family) with (@None PicRef).
  change (m_recordingPicture demo_recorded) with (Some 1%positive).
  rewrite decide_False by done. rewrite decide_False by congruence. done.
Qed.

Lemma LayerAndroid_copy_spec_witness :
  let r := LayerAndroid_copy demo_family (demo_store, init_globals) in
  r.1 = cloned demo_family /\
  store_wf r.2.1 /\
  (forall q, refcnt r.2.1 q = refcnt demo_store q + tree_refs q demo_family) /\
  (forall q, tree_refs q demo_family + tree_refs q r.1 <= refcnt r.2.1 q) /\
  instancesCount r.2.2 = (instancesCount init_globals + Z.of_nat (countNodes demo_family))%Z.
Proof.
  exact (LayerAndroid_copy_spec demo_family demo_store init_globals
           demo_store_wf demo_family_owned).
Defined.

Lemma LayerAndroid_delete_spec_witness :
  let r := LayerAndroid_delete demo_family (demo_store, init_globals) in
  store_wf r.2.1 /\
  (forall q, refcnt r.2.1 q + tree_refs q demo_family = refcnt demo_store q) /\
  instancesCount r.2.2 = (instancesCount init_globals - Z.of_nat (countNodes demo_family))%Z.
Proof.
  exact (LayerAndroid_delete_spec demo_family demo_store init_globals
           demo_store_wf demo_family_owned).
Defined.

Lemma copy_delete_roundtrip_witness :
  let r1 := LayerAndroid_copy demo_family (demo_store, init_globals) in
  let r2 := LayerAndroid_delete r1.1 r1.2 in
  store_wf r2.2.1 /\ owned r2.2.1 demo_family /\
  (forall q, refcnt r2.2.1 q = refcnt demo_store q) /\
  instancesCount r2.2.2 = instancesCount init_globals.
Proof.
  exact (copy_delete_roundtrip demo_family demo_store init_globals
           demo_store_wf demo_family_owned).
Defined.

Lemma cloned_deep_witness :
  shape (cloned demo_family) = shape demo_family /\
  Forall2 (fun d d' =>
             base d' = base d /\ m_recordingPicture d' = m_recordingPicture d /\
             m_isRootLayer d' = m_isRootLayer d /\ m_haveContents d' = m_haveContents d /\
             m_drawsContent d' = m_drawsContent d /\ m_haveImage d' = m_haveImage d /\
             m_haveClip d' = m_haveClip d /\
             (names_ok (m_animations d) ->
              m_animations d' = copy <$> m_animations d /\ names_ok (m_animations d')))
          (nodes demo_family) (nodes (cloned demo_family)).
Proof. exact (cloned_deep demo_family). Defined.
