(* ===== verification/Ownership.v ===== *)
(** * Ownership: the pictures of a tree across a paint

    [paintMe] calls [prepareContext(false)] on every node it visits, node
    before children, children in order.  [prepareTree] is that traversal
    with the canvas left out: what a paint does to the tree and to the
    picture store.

    The theorem shows that the traversal keeps the accounts of the store:
    in a well-formed store that counts every reference the tree holds, the
    count of each picture moves by exactly the references the tree gained
    or gave up, so that the store again counts every reference of the
    tree and the references of other owners are untouched. *)

From S2P Require Import Prelude Geometry Picture SkLayer Animation Layer Context Lifecycle.

Section Ownership.
Context {A : Type}.
Implicit Types (l c : LayerAndroid A) (q : PicRef) (st : PictureStore).

(** [prepareContext(false)] on every node, as [paintChildren] makes the
    calls. *)
Fixpoint prepareTree l {struct l} : State PictureStore (LayerAndroid A) :=
  r <- prepareContext false l ;;
  cs <- mapS prepareTree (children l) ;;
  ret (with_children cs r.2).

Lemma prepareTree_unfold l :
  prepareTree l =
  (r <- prepareContext false l ;;
   cs <- mapS prepareTree (children l) ;;
   ret (with_children cs r.2)).
Proof. by destruct l. Qed.

Lemma prepareContext_children force l st :
  children (pc_layer (prepareContext force l st)) = children l.
Proof. by rewrite (prepareContext_layer force l st). Qed.

Lemma owns_with_children (cs : list (LayerAndroid A)) l q :
  owns (with_children cs l) q = owns l q.
Proof. by destruct l. Qed.

Lemma tree_refs_with_children (cs : list (LayerAndroid A)) l q :
  tree_refs q (with_children cs l) = owns l q + sum_list (tree_refs q <$> cs).
Proof. rewrite tree_refs_unfold, owns_with_children. by destruct l. Qed.

Lemma prepareTree_refcnt l :
  forall st, store_wf st -> owned st l ->
    store_wf (prepareTree l st).2 /\
    forall q, refcnt (prepareTree l st).2 q + tree_refs q l
              = refcnt st q + tree_refs q (prepareTree l st).1.
Proof.
  induction l as [l IH] using layer_ind. intros st Hwf Ho.
  rewrite prepareTree_unfold, !bind_fst_snd. cbn [ret fst snd].
  assert (holds_live st l) as Hl by (intros q; by apply owned_node).
  pose proof (prepareContext_wf false l st Hwf) as Hwf1.
  pose proof (prepareContext_refcnt false l st) as E1.
  unfold pc_store, pc_layer in *.
  destruct (prepareContext false l st) as [[b l1] st1]. cbn [fst snd] in *.
  destruct (mapS_exchange store_wf refcnt (fun c q => tree_refs q c)
              (fun c q => tree_refs q c) prepareTree (children l)) with (s := st1)
    as [Hwf2 E2].
  - eapply Forall_impl; [exact IH|]. cbn. intros c Hc s Hs Hn. by apply Hc.
  - done.
  - intros q. specialize (Ho q). specialize (E1 q Hwf Hl).
    rewrite tree_refs_unfold in Ho.
    change (fun x : LayerAndroid A => tree_refs q x) with (@tree_refs A q). lia.
  - split; [done|]. intros q. specialize (E1 q Hwf Hl). specialize (E2 q).
    change (fun x : LayerAndroid A => tree_refs q x) with (@tree_refs A q) in E2.
    rewrite tree_refs_with_children, (tree_refs_unfold q l). lia.
Qed.

(** The traversal keeps the shape: the tree has as many nodes as before. *)
Lemma prepareTree_countNodes l : forall st, countNodes (prepareTree l st).1 = countNodes l.
Proof.
  induction l as [l IH] using layer_ind. intros st.
  rewrite prepareTree_unfold, !bind_fst_snd. cbn [ret fst snd].
  rewrite countNodes_with_children, (countNodes_unfold l). f_equal. symmetry.
  apply sum_list_fmap_Forall2.
  apply (mapS_invariant (fun _ => True) (fun c c' => countNodes c = countNodes c'));
    [|done].
  intros c s Hc _. split; [done|]. rewrite Forall_forall in IH. symmetry. by apply IH.
Qed.

(** [prepareContext] on the root of a tree moves the counts by what the
    root gained or gave up, and keeps the nodes. *)
Lemma prepareContext_tree force l st q :
  store_wf st -> owned st l ->
  refcnt (pc_store (prepareContext force l st)) q + tree_refs q l
  = refcnt st q + tree_refs q (pc_layer (prepareContext force l st)) /\
  countNodes (pc_layer (prepareContext force l st)) = countNodes l.
Proof.
  intros Hwf Ho.
  assert (holds_live st l) as Hl by (intros p; by apply owned_node).
  pose proof (prepareContext_refcnt force l st q Hwf Hl) as E.
  rewrite !tree_refs_unfold, !countNodes_unfold, prepareContext_children. lia.
Qed.

End Ownership.
