(* ===== verification/Text.v ===== *)
(** * Text: what the C library writes for the dumper

    The debug dumper of [LayerAndroid.cpp] writes through [fwrite] and
    [fprintf]; neither is under [src/].  This file models the text those
    calls produce, on [string]: a file as the characters written so far,
    the conversions [%d], [%.Nf] and [%*s] of [fprintf] as the functions
    [fmt_d], [fmt_f] and [fmt_pad], and the structure the dump format is
    judged by: the characters of a class kept in order ([keep]), and the
    proper nesting of braces and brackets ([nested], decided by
    [nestedb]).

    The class [Numberless] is the interface between the conversions and
    their clients: a class of characters that contains no digit, sign,
    point or blank is untouched by whatever number is printed, which is
    all the dumper's theorems need to know of the conversions. *)

From Stdlib Require Import Ascii Qabs.
From stdpp Require Import pretty.
From S2P Require Import Prelude.

(** ** Strings *)

Lemma string_app_cons c (s t : string) : String c s +:+ t = String c (s +:+ t).
Proof. reflexivity. Qed.

Lemma string_app_nil_r (s : string) : s +:+ "" = s.
Proof. induction s; [done|]. rewrite string_app_cons. by f_equal. Qed.

Lemma string_app_assoc (s t u : string) : s +:+ t +:+ u = (s +:+ t) +:+ u.
Proof. induction s; [done|]. rewrite !string_app_cons. by f_equal. Qed.

Lemma string_app_length (s t : string) :
  String.length (s +:+ t) = String.length s + String.length t.
Proof. induction s; [done|]. rewrite string_app_cons. cbn. by f_equal. Qed.

#[export] Instance string_app_assoc' : Assoc (=) String.append.
Proof. intros s t u. apply string_app_assoc. Qed.

#[export] Instance string_app_right_id : RightId (=) "" String.append.
Proof. intros s. apply string_app_nil_r. Qed.

#[export] Instance string_app_left_id : LeftId (=) "" String.append.
Proof. by intros s. Qed.

(** The concatenation of a list of strings. *)
Definition string_concat (ss : list string) : string := foldr String.append "" ss.

Lemma string_concat_app (ss ts : list string) :
  string_concat (ss ++ ts) = string_concat ss +:+ string_concat ts.
Proof.
  induction ss as [|s ss IH]; [done|]. cbn [app foldr string_concat].
  fold (string_concat (ss ++ ts)) (string_concat ss).
  by rewrite IH, string_app_assoc.
Qed.

(** The characters of a class, in the order of the string. *)
Fixpoint keep (p : ascii -> bool) (s : string) : list ascii :=
  match s with
  | EmptyString => []
  | String c s' => if p c then c :: keep p s' else keep p s'
  end.

Lemma keep_app p (s t : string) : keep p (s +:+ t) = keep p s ++ keep p t.
Proof.
  induction s as [|c s IH]; [done|]. rewrite string_app_cons. cbn [keep].
  rewrite IH. by destruct (p c).
Qed.

Lemma keep_concat p (ss : list string) :
  keep p (string_concat ss) = mjoin (keep p <$> ss).
Proof.
  induction ss as [|s ss IH]; [done|].
  change (string_concat (s :: ss)) with (s +:+ string_concat ss).
  by rewrite keep_app, IH.
Qed.

(** ** The file *)

(** A [FILE*] opened for writing: the characters written so far. *)
Definition File : Type := string.

(** The line feed the C source writes as a backslash and an n. *)
Definition nl : string := String "010"%char "".

Fixpoint spaces (n : nat) : string :=
  match n with
  | O => ""
  | S n' => String " "%char (spaces n')
  end.

Lemma spaces_length n : String.length (spaces n) = n.
Proof. induction n; [done|]. cbn. by f_equal. Qed.

Lemma spaces_add n m : spaces (n + m) = spaces n +:+ spaces m.
Proof. induction n; [done|]. cbn [spaces Nat.add]. rewrite string_app_cons. by f_equal. Qed.

(** ** The conversions of [fprintf] *)

(** [%*s] with the width [w] taken from the arguments: the string in a field
    of [|w|] characters, flush right, or flush left when [w] is negative;
    a string longer than the field is written whole. *)
Definition fmt_pad (w : Z) (s : string) : string :=
  let fill := spaces (Z.abs_nat w - String.length s) in
  if (w <? 0)%Z then s +:+ fill else fill +:+ s.

(** [%d]. *)
Definition fmt_d (z : Z) : string := pretty z.

(** Rounding to the nearest integer, a tie to the even one. *)
Definition Qround_even (q : Q) : Z :=
  let n := Qfloor q in
  match (q - inject_Z n ?= 1 # 2)%Q with
  | Lt => n
  | Gt => (n + 1)%Z
  | Eq => if Z.even n then n else (n + 1)%Z
  end.

(** The last [k] decimal digits of [n], most significant first. *)
Fixpoint digits (k : nat) (n : N) (acc : string) : string :=
  match k with
  | O => acc
  | S k' => digits k' (n / 10)%N (String (pretty_N_char (n mod 10)%N) acc)
  end.

(** The number of units of the last place that [%.precf] prints for [q]. *)
Definition fixed_units (prec : nat) (q : Q) : N :=
  Z.to_N (Qround_even (Qabs q * inject_Z (10 ^ Z.of_nat prec))%Q).

(** [%.precf]: sign, integer part, and [prec] digits after the point. *)
Definition fmt_f (prec : nat) (q : Q) : string :=
  let m := fixed_units prec q in
  let unit := (10 ^ N.of_nat prec)%N in
  (if Qgtb 0 q then "-" else "") +:+ pretty (m / unit)%N +:+
  match prec with
  | O => ""
  | S _ => "." +:+ digits prec (m mod unit)%N ""
  end.

(** ** Classes of characters the numbers do not contain *)

Class Numberless (p : ascii -> bool) : Prop := {
  numberless_digit d : p (pretty_N_char d) = false;
  numberless_minus : p "-"%char = false;
  numberless_point : p "."%char = false;
  numberless_space : p " "%char = false }.

Definition is_bracket (c : ascii) : bool :=
  match c with
  | "{" | "}" | "[" | "]" => true
  | _ => false
  end%char.

Definition is_nl (c : ascii) : bool :=
  match c with
  | "010" => true
  | _ => false
  end%char.

#[export] Instance is_bracket_numberless : Numberless is_bracket.
Proof. split; [|done..]. intros d. unfold pretty_N_char. by repeat case_match. Qed.

#[export] Instance is_nl_numberless : Numberless is_nl.
Proof. split; [|done..]. intros d. unfold pretty_N_char. by repeat case_match. Qed.

(** ** Nesting of braces and brackets *)

Definition closer (c : ascii) : ascii :=
  match c with
  | "{" => "}"
  | _ => "]"
  end%char.

Definition is_opener (c : ascii) : bool :=
  match c with
  | "{" | "[" => true
  | _ => false
  end%char.

(** Properly nested sequences of openers and closers. *)
Inductive nested : list ascii -> Prop :=
  | nested_nil : nested []
  | nested_app k1 k2 : nested k1 -> nested k2 -> nested (k1 ++ k2)
  | nested_wrap o k : is_opener o = true -> nested k -> nested (o :: k ++ [closer o]).

(** The decision by a stack of the openers not closed yet. *)
Fixpoint nestedb_go (stack : list ascii) (k : list ascii) : bool :=
  match k with
  | [] => bool_decide (stack = [])
  | c :: k' =>
      if is_opener c then nestedb_go (c :: stack) k'
      else match stack with
           | o :: stack' => bool_decide (c = closer o) && nestedb_go stack' k'
           | [] => false
           end
  end.

Definition nestedb (k : list ascii) : bool := nestedb_go [] k.

(** [closes stack k]: [k] closes the openers of [stack], innermost first,
    with properly nested text in between and after. *)
Fixpoint closes (stack : list ascii) (k : list ascii) : Prop :=
  match stack with
  | [] => nested k
  | o :: stack' =>
      is_opener o = true /\
      exists w k', k = w ++ closer o :: k' /\ nested w /\ closes stack' k'
  end.

#[export] Hint Constructors nested : sk.

(** ** What the conversions write *)

Lemma fmt_pad_length w s :
  String.length (fmt_pad w s) = Z.abs_nat w `max` String.length s.
Proof.
  unfold fmt_pad. destruct (w <? 0)%Z;
    rewrite string_app_length, spaces_length; lia.
Qed.

(** A blank in a field that is not empty: as many blanks as the field has
    characters. *)
Lemma fmt_pad_blank w : w <> 0%Z -> fmt_pad w " " = spaces (Z.abs_nat w).
Proof.
  intros Hw. unfold fmt_pad. change (String.length " ") with 1.
  destruct (Z.abs_nat w) as [|n] eqn:E; [lia|]. rewrite Nat.sub_succ, Nat.sub_0_r.
  destruct (w <? 0)%Z; [done|]. change " " with (spaces 1).
  rewrite <- spaces_add. f_equal. lia.
Qed.

Lemma digits_length k n acc :
  String.length (digits k n acc) = k + String.length acc.
Proof.
  revert n acc. induction k as [|k IH]; intros n acc; [done|].
  cbn [digits]. rewrite IH. cbn. lia.
Qed.

Lemma Qround_even_close q :
  (Qabs (inject_Z (Qround_even q) - q) <= 1 # 2)%Q.
Proof.
  unfold Qround_even.
  pose proof (Qfloor_le q) as Hlo. pose proof (Qlt_floor q) as Hhi.
  rewrite inject_Z_plus in Hhi. apply Qabs_Qle_condition.
  destruct (_ ?= _)%Q eqn:E; [apply Qeq_alt in E|apply Qlt_alt in E|apply Qgt_alt in E];
    try destruct (Z.even _); rewrite ?inject_Z_plus;
    change (inject_Z 1) with 1%Q in *; split; lra.
Qed.

(** [%.precf] shows a number to within half a unit of the last place. *)
Lemma fixed_units_close prec q :
  (Qabs (inject_Z (Z.of_N (fixed_units prec q)) - Qabs q * inject_Z (10 ^ Z.of_nat prec))
   <= 1 # 2)%Q.
Proof.
  unfold fixed_units. set (x := (Qabs q * _)%Q).
  assert (0 <= x)%Q as Hx.
  { subst x. apply Qmult_le_0_compat; [apply Qabs_nonneg|].
    change 0%Q with (inject_Z 0). rewrite <- Zle_Qle. lia. }
  assert (0 <= Qround_even x)%Z as Hr.
  { unfold Qround_even. assert (0 <= Qfloor x)%Z.
    { change 0%Z with (Qfloor 0). by apply Qfloor_resp_le. }
    destruct (_ ?= _)%Q; try destruct (Z.even _); lia. }
  rewrite Z2N.id by done. apply Qround_even_close.
Qed.

Section Numberless.
Context (p : ascii -> bool) `{!Numberless p}.

Lemma keep_spaces n : keep p (spaces n) = [].
Proof. induction n; [done|]. cbn. by rewrite numberless_space. Qed.

Lemma keep_pretty_N_go x s : keep p (pretty_N_go x s) = keep p s.
Proof.
  revert s. induction (N.lt_wf_0 x) as [x _ IH]; intros s.
  destruct (decide (x = 0%N)) as [->|]; [by rewrite pretty_N_go_0|].
  rewrite pretty_N_go_step, IH by (try apply N.div_lt; lia).
  cbn. by rewrite numberless_digit.
Qed.

Lemma keep_pretty_N (x : N) : keep p (pretty x) = [].
Proof.
  unfold pretty, pretty_N. case_decide; [|by rewrite keep_pretty_N_go].
  cbn. by rewrite (numberless_digit 0).
Qed.

Lemma keep_fmt_d z : keep p (fmt_d z) = [].
Proof.
  destruct z as [|x|x].
  - cbn. by rewrite (numberless_digit 0).
  - apply (keep_pretty_N (N.pos x)).
  - change (keep p ("-" +:+ pretty (N.pos x)) = []).
    rewrite keep_app, keep_pretty_N. cbn. by rewrite numberless_minus.
Qed.

Lemma keep_digits k n acc : keep p (digits k n acc) = keep p acc.
Proof.
  revert n acc. induction k as [|k IH]; intros n acc; [done|].
  cbn [digits]. rewrite IH. cbn. by rewrite numberless_digit.
Qed.

Lemma keep_fmt_f prec q : keep p (fmt_f prec q) = [].
Proof.
  unfold fmt_f. rewrite !keep_app, keep_pretty_N.
  assert (keep p (if Qgtb 0 q then "-" else "") = []) as ->.
  { destruct (Qgtb 0 q); cbn; by rewrite ?numberless_minus. }
  destruct prec; [done|]. rewrite keep_app, keep_digits. cbn.
  by rewrite numberless_point.
Qed.

Lemma keep_fmt_pad w s : keep p (fmt_pad w s) = keep p s.
Proof.
  unfold fmt_pad. destruct (w <? 0)%Z; rewrite keep_app, keep_spaces;
    by rewrite ?app_nil_r.
Qed.

End Numberless.

#[export] Hint Rewrite keep_app keep_spaces keep_fmt_d keep_fmt_f keep_fmt_pad
  using (try apply _) : sk_rw.

(** ** The stack decides the nesting *)

Lemma is_opener_cases o : is_opener o = true -> o = "{"%char \/ o = "["%char.
Proof. destruct o as [[] [] [] [] [] [] [] []]; try discriminate; auto. Qed.

Lemma nestedb_go_nested k :
  nested k -> forall stack rest, nestedb_go stack (k ++ rest) = nestedb_go stack rest.
Proof.
  induction 1 as [|k1 k2 _ IH1 _ IH2|o k Ho _ IH]; intros stack rest; [done|..].
  - by rewrite <- app_assoc, IH1, IH2.
  - cbn [app nestedb_go]. rewrite Ho, <- app_assoc, IH. cbn.
    destruct (is_opener_cases o Ho) as [-> | ->]; by rewrite bool_decide_eq_true_2.
Qed.

Lemma closes_prepend stack u k : nested u -> closes stack k -> closes stack (u ++ k).
Proof.
  destruct stack as [|o stack]; cbn; [by constructor|].
  intros Hu (Ho & w & k' & -> & Hw & Hk). split; [done|].
  exists (u ++ w), k'. rewrite <- app_assoc. auto with sk.
Qed.

Lemma nestedb_go_closes k :
  forall stack, Forall (fun o => is_opener o = true) stack ->
    nestedb_go stack k = true -> closes stack k.
Proof.
  induction k as [|c k IH]; intros stack Hs; cbn [nestedb_go].
  - intros ->%bool_decide_eq_true. constructor.
  - destruct (is_opener c) eqn:Hc.
    + intros (_ & w & k' & -> & Hw & Hk)%IH; [|by constructor].
      replace (c :: w ++ closer c :: k') with ((c :: w ++ [closer c]) ++ k')
        by (by rewrite <- app_comm_cons, <- app_assoc).
      apply closes_prepend; auto with sk.
    + destruct stack as [|o stack]; [done|]. apply Forall_cons in Hs as [Ho Hs].
      intros [->%bool_decide_eq_true Hk%IH]%andb_true_iff; [|done].
      split; [done|]. exists [], k. auto with sk.
Qed.

Lemma nestedb_iff k : nestedb k = true <-> nested k.
Proof.
  split; [by apply (nestedb_go_closes k [])|].
  intros Hk. unfold nestedb. by rewrite <- (app_nil_r k), (nestedb_go_nested k Hk).
Qed.

#[export] Instance nested_dec k : Decision (nested k).
Proof.
  refine (cast_if (decide (nestedb k = true))); abstract (by rewrite <- nestedb_iff).
Defined.
