(* ===== verification/Dump.v ===== *)
(** * Dump: the debug dumper

    The write helpers of lines 354-401 of [LayerAndroid.cpp] and
    [LayerAndroid::dumpLayers] (lines 403-439), as computations on the file
    they write to ([Text.File], the characters written so far).  The text of
    [fprintf]'s conversions is the one [Text.v] defines.  The numeric code
    [%d] prints for the type of an [SkLength] is the value of a C++ enum
    that is declared outside the source file; the dumper is modelled for
    any coding [typeCode].

    The specification of the dumper is the function [dumpLines]: the lines
    of the dump, each with its level of indentation and its text.  The
    theorems show that [dumpLayers] appends exactly these lines to the
    file, that every line is indented by two blanks per level, that the
    braces and brackets of a dump are properly nested, that a dump has one
    block per node, and that lengths that are not defined and angles of
    layers that do not rotate are left out. *)

From Stdlib Require Import Ascii.
From S2P Require Import Prelude Geometry SkLayer Picture Animation Layer Text.

(** ** The write helpers *)

Section Writers.
Context (typeCode : SkLength.SkLengthType -> Z).
Implicit Types (file : File) (indentLevel : Z) (str : string).

(** [lwrite]: [fwrite] of the [strlen(str)] characters of [str]. *)
Definition lwrite str : State File unit := modify (fun file => file +:+ str).

(** [writeIndent]: nothing at level 0, else a blank in a field of
    [indentLevel * 2] characters. *)
Definition writeIndent indentLevel : State File unit :=
  when (negb (indentLevel =? 0)%Z) (lwrite (fmt_pad (indentLevel * 2) " ")).

Definition writeln indentLevel str : State File unit :=
  writeIndent indentLevel ;;
  lwrite str ;;
  lwrite nl.

Definition writeIntVal indentLevel str (value : Z) : State File unit :=
  writeIndent indentLevel ;;
  lwrite (str +:+ " = " +:+ fmt_d value +:+ ";" +:+ nl).

Definition writeFloatVal indentLevel str (value : SkScalar) : State File unit :=
  writeIndent indentLevel ;;
  lwrite (str +:+ " = " +:+ fmt_f 3 value +:+ ";" +:+ nl).

Definition writePoint indentLevel str (point : SkPoint.t) : State File unit :=
  writeIndent indentLevel ;;
  lwrite (str +:+ " = { x = " +:+ fmt_f 3 (SkPoint.fX point) +:+ "; y = "
              +:+ fmt_f 3 (SkPoint.fY point) +:+ "; };" +:+ nl).

Definition writeSize indentLevel str (size : SkSize.t) : State File unit :=
  writeIndent indentLevel ;;
  lwrite (str +:+ " = { w = " +:+ fmt_f 3 (SkSize.width size) +:+ "; h = "
              +:+ fmt_f 3 (SkSize.height size) +:+ "; };" +:+ nl).

(** [writeLength] returns before it writes when the length is not defined. *)
Definition writeLength indentLevel str (length : SkLength.t) : State File unit :=
  if negb (SkLength.defined length) then ret tt
  else
    writeIndent indentLevel ;;
    lwrite (str +:+ " = { type = " +:+ fmt_d (typeCode (SkLength.type length))
                +:+ "; value = " +:+ fmt_f 2 (SkLength.value length) +:+ "; };" +:+ nl).

(** ** [dumpLayers] *)

Context {A : Type}.
Implicit Types (l layer : LayerAndroid A).

(** Lines 406-424: the properties of the node. *)
Definition dumpProperties l indentLevel : State File unit :=
  writeIntVal indentLevel "haveContents" (Z.b2z (m_haveContents l)) ;;
  writeIntVal indentLevel "drawsContent" (Z.b2z (m_drawsContent l)) ;;
  writeIntVal indentLevel "haveImage" (Z.b2z (m_haveImage l)) ;;
  writeIntVal indentLevel "clipRect" (Z.b2z (m_haveClip l)) ;;
  writeFloatVal indentLevel "opacity" (SkLayer.m_opacity (base l)) ;;
  writeSize indentLevel "size" (SkLayer.m_size (base l)) ;;
  writePoint indentLevel "position" (SkLayer.m_position (base l)) ;;
  writePoint indentLevel "translation" (SkLayer.m_translation (base l)) ;;
  writePoint indentLevel "anchor" (SkLayer.m_anchorPoint (base l)) ;;
  writePoint indentLevel "scale" (SkLayer.m_scale (base l)) ;;
  when (SkLayer.m_doRotation (base l))
       (writeFloatVal indentLevel "angle" (SkLayer.m_angleTransform (base l))) ;;
  writeLength indentLevel "fixedLeft" (SkLayer.m_fixedLeft (base l)) ;;
  writeLength indentLevel "fixedTop" (SkLayer.m_fixedTop (base l)) ;;
  writeLength indentLevel "fixedRight" (SkLayer.m_fixedRight (base l)) ;;
  writeLength indentLevel "fixedBottom" (SkLayer.m_fixedBottom (base l)).

(** Lines 429-435: the body of the loop over the children, given the dump
    of a child. *)
Definition dumpChild (dump : LayerAndroid A -> Z -> State File unit) indentLevel
    (i : nat) layer : State File unit :=
  when (0 <? i) (writeln (indentLevel + 1) ", ") ;;
  dump layer (indentLevel + 1)%Z.

Fixpoint dumpLayers l indentLevel {struct l} : State File unit :=
  writeln indentLevel "{" ;;
  dumpProperties l (indentLevel + 1) ;;
  when (negb (countChildren l =? 0))
       (writeln (indentLevel + 1) "children = [" ;;
        forS (dumpChild dumpLayers indentLevel) 0 (children l) ;;
        writeln (indentLevel + 1) "];") ;;
  writeln indentLevel "}".

(** ** The lines of a dump *)

(** A line: its level of indentation and its text. *)
Definition Line : Type := Z * string.

Definition intLine indentLevel str (value : Z) : Line :=
  (indentLevel, str +:+ " = " +:+ fmt_d value +:+ ";").

Definition floatLine indentLevel str (value : SkScalar) : Line :=
  (indentLevel, str +:+ " = " +:+ fmt_f 3 value +:+ ";").

Definition pairLine indentLevel str (a b : string) (x y : SkScalar) : Line :=
  (indentLevel, str +:+ " = { " +:+ a +:+ " = " +:+ fmt_f 3 x +:+ "; " +:+ b +:+ " = "
                    +:+ fmt_f 3 y +:+ "; };").

Definition lengthLines indentLevel str (length : SkLength.t) : list Line :=
  if SkLength.defined length
  then [(indentLevel, str +:+ " = { type = " +:+ fmt_d (typeCode (SkLength.type length))
                          +:+ "; value = " +:+ fmt_f 2 (SkLength.value length) +:+ "; };")]
  else [].

Definition propertyLines l indentLevel : list Line :=
  let b := base l in
  [ intLine indentLevel "haveContents" (Z.b2z (m_haveContents l));
    intLine indentLevel "drawsContent" (Z.b2z (m_drawsContent l));
    intLine indentLevel "haveImage" (Z.b2z (m_haveImage l));
    intLine indentLevel "clipRect" (Z.b2z (m_haveClip l));
    floatLine indentLevel "opacity" (SkLayer.m_opacity b);
    pairLine indentLevel "size" "w" "h" (SkSize.width (SkLayer.m_size b))
             (SkSize.height (SkLayer.m_size b));
    pairLine indentLevel "position" "x" "y" (SkPoint.fX (SkLayer.m_position b))
             (SkPoint.fY (SkLayer.m_position b));
    pairLine indentLevel "translation" "x" "y" (SkPoint.fX (SkLayer.m_translation b))
             (SkPoint.fY (SkLayer.m_translation b));
    pairLine indentLevel "anchor" "x" "y" (SkPoint.fX (SkLayer.m_anchorPoint b))
             (SkPoint.fY (SkLayer.m_anchorPoint b));
    pairLine indentLevel "scale" "x" "y" (SkPoint.fX (SkLayer.m_scale b))
             (SkPoint.fY (SkLayer.m_scale b)) ]
  ++ (if SkLayer.m_doRotation b
      then [floatLine indentLevel "angle" (SkLayer.m_angleTransform b)] else [])
  ++ lengthLines indentLevel "fixedLeft" (SkLayer.m_fixedLeft b)
  ++ lengthLines indentLevel "fixedTop" (SkLayer.m_fixedTop b)
  ++ lengthLines indentLevel "fixedRight" (SkLayer.m_fixedRight b)
  ++ lengthLines indentLevel "fixedBottom" (SkLayer.m_fixedBottom b).

(** Blocks of lines with a separator line between each two. *)
Definition separated (sep : Line) (blocks : list (list Line)) : list Line :=
  match blocks with
  | [] => []
  | b :: bs => b ++ mjoin ((fun b' => sep :: b') <$> bs)
  end.

Definition childrenLines indentLevel (blocks : list (list Line)) : list Line :=
  match blocks with
  | [] => []
  | _ => (indentLevel, "children = [") :: separated (indentLevel, ", ") blocks
         ++ [(indentLevel, "];")]
  end.

Fixpoint dumpLines l indentLevel {struct l} : list Line :=
  (indentLevel, "{") :: propertyLines l (indentLevel + 1)
  ++ childrenLines (indentLevel + 1)
       ((fun layer => dumpLines layer (indentLevel + 1)) <$> children l)
  ++ [(indentLevel, "}")].

(** The characters of a line: two blanks per level, the text, a line feed. *)
Definition lineText (ln : Line) : string :=
  spaces (Z.abs_nat (ln.1 * 2)) +:+ ln.2 +:+ nl.

Definition linesText (lines : list Line) : string :=
  string_concat (lineText <$> lines).

(** The braces and brackets of a list of lines, in order. *)
Definition skeleton (lines : list Line) : list ascii :=
  mjoin ((fun ln => keep is_bracket ln.2) <$> lines).

(** A line that opens a block. *)
Definition opensBlock (ln : Line) : bool := String.eqb ln.2 "{".

(** The height of a tree: the number of levels below its root. *)
Fixpoint height l : nat :=
  foldr Nat.max 0 ((fun layer => S (height layer)) <$> children l).

End Writers.

Arguments lwrite str /.
Arguments dumpChild {A} dump indentLevel i layer /.

(** ** Appending to the file *)

(** [writes m w]: all [m] does is append [w]; [emits m lines]: all it does
    is append the lines. *)
Definition writes (m : State File unit) (w : string) : Prop :=
  forall file, m file = (tt, file +:+ w).

Definition emits (m : State File unit) (lines : list Line) : Prop :=
  writes m (linesText lines).

Section Emits.
Context (typeCode : SkLength.SkLengthType -> Z) {A : Type}.
Implicit Types (m k : State File unit) (w : string) (ln : Line) (lines : list Line).
Implicit Types (l : LayerAndroid A) (lvl : Z) (str : string).

Lemma writes_ret : writes (ret tt) "".
Proof. intros file. unfold ret. by rewrite string_app_nil_r. Qed.

Lemma writes_lwrite str : writes (lwrite str) str.
Proof. done. Qed.

Lemma writes_bind m k w1 w2 : writes m w1 -> writes k w2 -> writes (m ;; k) (w1 +:+ w2).
Proof. intros Hm Hk file. unfold bind. by rewrite Hm, Hk, string_app_assoc. Qed.

Lemma writes_eq m w w' : writes m w -> w = w' -> writes m w'.
Proof. by intros ? <-. Qed.

Lemma writes_writeIndent lvl : writes (writeIndent lvl) (spaces (Z.abs_nat (lvl * 2))).
Proof.
  unfold writeIndent. destruct (Z.eqb_spec lvl 0) as [->|Hl]; [apply writes_ret|].
  rewrite <- fmt_pad_blank by lia. apply writes_lwrite.
Qed.

Lemma linesText_cons ln lines : linesText (ln :: lines) = lineText ln +:+ linesText lines.
Proof. done. Qed.

Lemma linesText_app lines1 lines2 :
  linesText (lines1 ++ lines2) = linesText lines1 +:+ linesText lines2.
Proof. unfold linesText. by rewrite fmap_app, string_concat_app. Qed.

Lemma emits_nil : emits (ret tt) [].
Proof. apply writes_ret. Qed.

Lemma emits_app m k lines1 lines2 :
  emits m lines1 -> emits k lines2 -> emits (m ;; k) (lines1 ++ lines2).
Proof. unfold emits. rewrite linesText_app. apply writes_bind. Qed.

Lemma emits_cons m k ln lines :
  emits m [ln] -> emits k lines -> emits (m ;; k) (ln :: lines).
Proof. apply (emits_app m k [ln]). Qed.

Lemma emits_when (b : bool) m lines :
  emits m lines -> emits (when b m) (if b then lines else []).
Proof. destruct b; [done|]. intros _. apply emits_nil. Qed.

(** An indentation followed by a text that ends the line is a line. *)
Lemma emits_line lvl text w m :
  writes m w -> w = text +:+ nl -> emits (writeIndent lvl ;; m) [(lvl, text)].
Proof.
  intros Hm ->. eapply writes_eq; [apply writes_bind, Hm; apply writes_writeIndent|].
  unfold linesText, lineText. cbn. by rewrite string_app_nil_r.
Qed.

Lemma emits_writeln lvl str : emits (writeln lvl str) [(lvl, str)].
Proof.
  eapply emits_line; [apply writes_bind; apply writes_lwrite|done].
Qed.

Lemma emits_writeIntVal lvl str v : emits (writeIntVal lvl str v) [intLine lvl str v].
Proof. eapply emits_line; [apply writes_lwrite|by rewrite <- !string_app_assoc]. Qed.

Lemma emits_writeFloatVal lvl str v :
  emits (writeFloatVal lvl str v) [floatLine lvl str v].
Proof. eapply emits_line; [apply writes_lwrite|by rewrite <- !string_app_assoc]. Qed.

Lemma emits_writePoint lvl str pt :
  emits (writePoint lvl str pt)
        [pairLine lvl str "x" "y" (SkPoint.fX pt) (SkPoint.fY pt)].
Proof. eapply emits_line; [apply writes_lwrite|by rewrite <- !string_app_assoc]. Qed.

Lemma emits_writeSize lvl str sz :
  emits (writeSize lvl str sz)
        [pairLine lvl str "w" "h" (SkSize.width sz) (SkSize.height sz)].
Proof. eapply emits_line; [apply writes_lwrite|by rewrite <- !string_app_assoc]. Qed.

Lemma emits_writeLength lvl str len :
  emits (writeLength typeCode lvl str len) (lengthLines typeCode lvl str len).
Proof.
  unfold writeLength, lengthLines. destruct (SkLength.defined len); [|apply emits_nil].
  eapply emits_line; [apply writes_lwrite|by rewrite <- !string_app_assoc].
Qed.

Lemma emits_dumpProperties l lvl :
  emits (dumpProperties typeCode l lvl) (propertyLines typeCode l lvl).
Proof.
  unfold dumpProperties, propertyLines. cbn zeta. cbn [app].
  repeat (apply emits_cons;
          [first [apply emits_writeIntVal | apply emits_writeFloatVal
                 | apply emits_writeSize | apply emits_writePoint]|]).
  apply emits_app; [apply emits_when, emits_writeFloatVal|].
  repeat (apply emits_app; [apply emits_writeLength|]). apply emits_writeLength.
Qed.

End Emits.

(** ** [dumpLayers] writes the lines of [dumpLines] *)

Section DumpLayers.
Context (typeCode : SkLength.SkLengthType -> Z) {A : Type}.
Implicit Types (l c : LayerAndroid A) (lvl : Z) (ln : Line) (lines : list Line).

Lemma dumpLayers_unfold l lvl :
  dumpLayers typeCode l lvl =
    (writeln lvl "{" ;;
     dumpProperties typeCode l (lvl + 1) ;;
     when (negb (countChildren l =? 0))
          (writeln (lvl + 1) "children = [" ;;
           forS (dumpChild (dumpLayers typeCode) lvl) 0 (children l) ;;
           writeln (lvl + 1) "];") ;;
     writeln lvl "}").
Proof. by destruct l. Qed.

Lemma dumpLines_unfold l lvl :
  dumpLines typeCode l lvl =
    (lvl, "{") :: propertyLines typeCode l (lvl + 1)
    ++ childrenLines (lvl + 1)
         ((fun c => dumpLines typeCode c (lvl + 1)) <$> children l)
    ++ [(lvl, "}")].
Proof. by destruct l. Qed.

Lemma height_unfold l :
  height l = foldr Nat.max 0 ((fun c => S (height c)) <$> children l).
Proof. by destruct l. Qed.

(** The loop over the children: the first block as it is, a separator line
    before every other. *)
Lemma emits_forS (dump : LayerAndroid A -> Z -> State File unit)
    (pure : LayerAndroid A -> Z -> list Line) lvl (cs : list (LayerAndroid A)) :
  Forall (fun c => forall lvl', emits (dump c lvl') (pure c lvl')) cs ->
  forall i,
    emits (forS (dumpChild dump lvl) i cs)
          (match i with
           | O => separated ((lvl + 1)%Z, ", ")
           | S _ => fun blocks => mjoin ((fun b => ((lvl + 1)%Z, ", ") :: b) <$> blocks)
           end ((fun c => pure c (lvl + 1)%Z) <$> cs)).
Proof.
  induction 1 as [|c cs Hc _ IH]; intros i; [destruct i; apply emits_nil|].
  cbn [forS dumpChild fmap list_fmap]. specialize (IH (S i)). cbv beta in IH.
  destruct i; cbn [Nat.ltb Nat.leb when separated mjoin list_join].
  - apply emits_app; [|done]. apply (emits_app _ _ []); [apply emits_nil|apply Hc].
  - apply emits_app; [|done]. apply emits_cons; [apply emits_writeln|apply Hc].
Qed.

Lemma emits_dumpLayers l : forall lvl, emits (dumpLayers typeCode l lvl) (dumpLines typeCode l lvl).
Proof.
  induction l as [l IH] using layer_ind. intros lvl.
  rewrite dumpLayers_unfold, dumpLines_unfold.
  apply emits_cons; [apply emits_writeln|].
  apply emits_app; [apply emits_dumpProperties|].
  apply emits_app; [|apply emits_writeln].
  pose proof (emits_forS _ _ lvl _ IH 0) as Hloop. unfold countChildren.
  destruct (children l) as [|c cs]; [apply emits_nil|]. cbn [length Nat.eqb negb when].
  apply emits_cons; [apply emits_writeln|].
  apply emits_app; [exact Hloop|apply emits_writeln].
Qed.

(** C9: [dumpLayers] appends to the file, and what it appends is the text of
    the lines of [dumpLines]: the opening brace, the properties of the node
    one level deeper, the block of the children when there are any, with a
    separator line between each two, and the closing brace.  What the file
    held before is kept. *)
Theorem dumpLayers_appends l indentLevel file :
  dumpLayers typeCode l indentLevel file =
    (tt, file +:+ linesText (dumpLines typeCode l indentLevel)).
Proof. apply emits_dumpLayers. Qed.

(** [writeLength] returns without writing when the length is not
    defined, and writes one line with the type's code and the value with
    two decimals when it is. *)
Theorem writeLength_cases indentLevel str (length : SkLength.t) file :
  writeLength typeCode indentLevel str length file =
    (tt, if SkLength.defined length
         then file +:+ spaces (Z.abs_nat (indentLevel * 2)) +:+ str
                   +:+ " = { type = " +:+ fmt_d (typeCode (SkLength.type length))
                   +:+ "; value = " +:+ fmt_f 2 (SkLength.value length) +:+ "; };" +:+ nl
         else file).
Proof.
  rewrite (emits_writeLength typeCode indentLevel str length file).
  unfold lengthLines. destruct (SkLength.defined length); [|by rewrite string_app_nil_r].
  unfold linesText, lineText. cbn. by rewrite string_app_nil_r, <- !string_app_assoc.
Qed.

(** [writeIndent] writes two blanks per level, for a level below zero
    as many as for its absolute value, and nothing at level 0. *)
Theorem writeIndent_blanks indentLevel file :
  writeIndent indentLevel file = (tt, file +:+ spaces (2 * Z.abs_nat indentLevel)).
Proof.
  rewrite (writes_writeIndent indentLevel file). do 2 f_equal. f_equal. lia.
Qed.

End DumpLayers.

(** ** The structure of a dump *)

Section Structure.
Context (typeCode : SkLength.SkLengthType -> Z) {A : Type}.
Implicit Types (l c : LayerAndroid A) (lvl : Z) (ln sep : Line).
Implicit Types (lines : list Line) (blocks : list (list Line)).

(** The number of lines of a list that open a block. *)
Definition blockCount lines : nat :=
  sum_list ((fun ln => if opensBlock ln then 1 else 0) <$> lines).

(** The levels of the lines whose text is selected, in order. *)
Definition levelsOf (sel : string -> bool) lines : list Z :=
  mjoin ((fun ln => if sel ln.2 then [ln.1] else []) <$> lines).

(** The level of each node of a tree that is dumped at a level, the root
    first: a child is one level below its parent. *)
Fixpoint nodeLevels l lvl {struct l} : list Z :=
  lvl :: mjoin ((fun c => nodeLevels c (lvl + 1)%Z) <$> children l).

(** The level of the list of the children of each node that has children:
    one level below the node. *)
Fixpoint listLevels l lvl {struct l} : list Z :=
  (if children l is [] then [] else [(lvl + 1)%Z])
  ++ mjoin ((fun c => listLevels c (lvl + 1)%Z) <$> children l).

Lemma skeleton_app lines1 lines2 :
  skeleton (lines1 ++ lines2) = skeleton lines1 ++ skeleton lines2.
Proof. unfold skeleton. by rewrite fmap_app, join_app. Qed.

Lemma skeleton_cons ln lines :
  skeleton (ln :: lines) = keep is_bracket ln.2 ++ skeleton lines.
Proof. done. Qed.

Lemma blockCount_app lines1 lines2 :
  blockCount (lines1 ++ lines2) = blockCount lines1 + blockCount lines2.
Proof. unfold blockCount. by rewrite fmap_app, sum_list_with_app. Qed.

Lemma keep_bracket_linesText lines :
  keep is_bracket (linesText lines) = skeleton lines.
Proof.
  unfold linesText, skeleton. rewrite keep_concat, <- list_fmap_compose.
  f_equal. apply list_fmap_ext. intros _ ln _. unfold compose, lineText.
  rewrite !keep_app, keep_spaces by apply _. cbn. by rewrite app_nil_r.
Qed.

Lemma nested_join (ks : list (list ascii)) : Forall nested ks -> nested (mjoin ks).
Proof. induction 1; cbn; auto with sk. Qed.

Lemma nested_skeleton lines :
  Forall (fun ln => nested (keep is_bracket ln.2)) lines -> nested (skeleton lines).
Proof. intros H. apply nested_join. by rewrite Forall_fmap. Qed.

Lemma nested_braces : nested ["{"; "}"]%char.
Proof. apply (nested_wrap "{" []); [done|constructor]. Qed.

(** The three facts of a list of lines that the theorems need: what a
    property [P] of lines, the skeleton and the count of blocks become on
    blocks with separators and on the block of the children. *)
Lemma Forall_separated (P : Line -> Prop) sep blocks :
  P sep -> Forall (Forall P) blocks -> Forall P (separated sep blocks).
Proof.
  intros Hs [|b bs Hb Hbs]; [done|]. cbn. apply Forall_app. split; [done|].
  apply Forall_join, Forall_fmap. eapply Forall_impl; [exact Hbs|]. by constructor.
Qed.

Lemma Forall_childrenLines (P : Line -> Prop) lvl blocks :
  P (lvl, "children = [") -> P (lvl, ", ") -> P (lvl, "];") ->
  Forall (Forall P) blocks -> Forall P (childrenLines lvl blocks).
Proof.
  intros H1 H2 H3 Hb. destruct blocks as [|b bs]; [done|]. unfold childrenLines.
  apply Forall_cons. split; [done|]. apply Forall_app. split; [|by constructor].
  by apply Forall_separated.
Qed.

Lemma skeleton_join_sep sep blocks :
  keep is_bracket sep.2 = [] ->
  skeleton (mjoin ((fun b => sep :: b) <$> blocks)) = mjoin (skeleton <$> blocks).
Proof.
  intros Hs. induction blocks as [|b bs IH]; [done|]. rewrite !fmap_cons.
  change (skeleton ((sep :: b) ++ mjoin ((fun b => sep :: b) <$> bs))
          = skeleton b ++ mjoin (skeleton <$> bs)).
  by rewrite skeleton_app, skeleton_cons, Hs, IH.
Qed.

Lemma skeleton_childrenLines lvl blocks :
  skeleton (childrenLines lvl blocks) =
    match blocks with
    | [] => []
    | _ => "["%char :: mjoin (skeleton <$> blocks) ++ ["]"%char]
    end.
Proof.
  destruct blocks as [|b bs]; [done|]. unfold childrenLines, separated.
  by rewrite skeleton_cons, !skeleton_app, skeleton_join_sep.
Qed.

Lemma blockCount_join_sep sep blocks :
  opensBlock sep = false ->
  blockCount (mjoin ((fun b => sep :: b) <$> blocks)) = sum_list (blockCount <$> blocks).
Proof.
  intros Hs. induction blocks as [|b bs IH]; [done|]. rewrite !fmap_cons.
  change (blockCount ([sep] ++ b ++ mjoin ((fun b => sep :: b) <$> bs))
          = blockCount b + sum_list (blockCount <$> bs)).
  rewrite !blockCount_app, IH. unfold blockCount at 1. cbn. by rewrite Hs.
Qed.

Lemma blockCount_childrenLines lvl blocks :
  blockCount (childrenLines lvl blocks) = sum_list (blockCount <$> blocks).
Proof.
  destruct blocks as [|b bs]; [done|]. unfold childrenLines, separated.
  change (?x :: ?k ++ ?k') with ([x] ++ k ++ k').
  rewrite !blockCount_app, blockCount_join_sep by done. cbn. lia.
Qed.

Lemma levelsOf_app sel lines1 lines2 :
  levelsOf sel (lines1 ++ lines2) = levelsOf sel lines1 ++ levelsOf sel lines2.
Proof. unfold levelsOf. by rewrite fmap_app, join_app. Qed.

Lemma levelsOf_cons sel ln lines :
  levelsOf sel (ln :: lines) = (if sel ln.2 then [ln.1] else []) ++ levelsOf sel lines.
Proof. done. Qed.

Lemma levelsOf_none sel lines :
  Forall (fun ln => sel ln.2 = false) lines -> levelsOf sel lines = [].
Proof. induction 1 as [|ln lines Hln _ IH]; [done|]. by rewrite levelsOf_cons, Hln, IH. Qed.

Lemma levelsOf_join_sep sel sep blocks :
  sel sep.2 = false ->
  levelsOf sel (mjoin ((fun b => sep :: b) <$> blocks)) = mjoin (levelsOf sel <$> blocks).
Proof.
  intros Hs. induction blocks as [|b bs IH]; [done|]. rewrite !fmap_cons.
  change (levelsOf sel ((sep :: b) ++ mjoin ((fun b => sep :: b) <$> bs))
          = levelsOf sel b ++ mjoin (levelsOf sel <$> bs)).
  by rewrite levelsOf_app, levelsOf_cons, Hs, IH.
Qed.

Lemma levelsOf_childrenLines sel lvl blocks :
  sel ", " = false -> sel "];" = false ->
  levelsOf sel (childrenLines lvl blocks) =
    match blocks with
    | [] => []
    | _ => (if sel "children = [" then [lvl] else []) ++ mjoin (levelsOf sel <$> blocks)
    end.
Proof.
  intros H1 H2. destruct blocks as [|b bs]; [done|]. unfold childrenLines, separated.
  rewrite levelsOf_cons, !levelsOf_app, levelsOf_join_sep, levelsOf_cons by done.
  cbn [fst snd fmap list_fmap mjoin list_join]. rewrite H2. cbn. by rewrite app_nil_r.
Qed.

End Structure.

(** Split a property of the lines of [propertyLines] into one goal per
    line. *)
Ltac each_property_line :=
  unfold propertyLines, lengthLines; cbn zeta;
  repeat match goal with
         | |- Forall _ (_ ++ _) => apply Forall_app; split
         | |- Forall _ (_ :: _) => apply Forall_cons; split
         | |- Forall _ [] => by constructor
         | |- Forall _ (if ?b then _ else _) => destruct b
         end;
  unfold intLine, floatLine, pairLine; cbn [fst snd].

Section DumpLines.
Context (typeCode : SkLength.SkLengthType -> Z) {A : Type}.
Implicit Types (l c : LayerAndroid A) (lvl : Z) (ln : Line) (lines : list Line).

Lemma propertyLines_level l lvl :
  Forall (fun ln => ln.1 = lvl) (propertyLines typeCode l lvl).
Proof. by each_property_line. Qed.

Lemma propertyLines_nested l lvl : nested (skeleton (propertyLines typeCode l lvl)).
Proof.
  apply nested_skeleton. each_property_line;
    rewrite !keep_app, ?keep_fmt_d, ?keep_fmt_f by apply _; cbn;
    first [apply nested_nil | apply nested_braces].
Qed.

Lemma propertyLines_blockCount l lvl : blockCount (propertyLines typeCode l lvl) = 0.
Proof.
  assert (Forall (fun ln => opensBlock ln = false) (propertyLines typeCode l lvl)) as H.
  { by each_property_line. }
  unfold blockCount. induction H as [|ln lines Hln _ IH]; [done|]. cbn. by rewrite Hln.
Qed.

Lemma height_child l c : c ∈ children l -> S (height c) <= height l.
Proof.
  rewrite (height_unfold l). generalize (children l). intros cs.
  induction cs as [|c' cs IH]; [by intros ?%elem_of_nil|].
  intros [->|Hc]%elem_of_cons; rewrite fmap_cons; cbn [foldr]; [lia|].
  etrans; [exact (IH Hc)|apply Nat.le_max_r].
Qed.

Lemma dumpLines_skeleton l : forall lvl, nested (skeleton (dumpLines typeCode l lvl)).
Proof.
  induction l as [l IH] using layer_ind. intros lvl.
  rewrite dumpLines_unfold, skeleton_cons, !skeleton_app, skeleton_childrenLines.
  cbn [snd keep is_bracket app]. change (skeleton [(lvl, "}")]) with ["}"%char].
  rewrite app_assoc.
  apply (nested_wrap "{"); [done|]. apply nested_app; [apply propertyLines_nested|].
  destruct (children l) as [|c cs] eqn:E; [constructor|rewrite <- E in *].
  destruct (_ <$> children l) eqn:E'; [constructor|rewrite <- E'].
  apply (nested_wrap "["); [done|]. apply nested_join.
  rewrite <- list_fmap_compose, Forall_fmap. eapply Forall_impl; [exact IH|].
  intros d Hd. apply Hd.
Qed.

(** C19: the braces and brackets of a dump are properly nested, whatever the
    tree, the level and the numbers it prints: every block and every list
    that is opened is closed, in the right order. *)
Theorem dumpLines_nested l indentLevel :
  nested (keep is_bracket (linesText (dumpLines typeCode l indentLevel))).
Proof. rewrite keep_bracket_linesText. apply dumpLines_skeleton. Qed.

Lemma dumpLines_range l :
  forall lvl, Forall (fun ln => (lvl <= ln.1 <= lvl + Z.of_nat (height l) + 1)%Z)
                     (dumpLines typeCode l lvl).
Proof.
  induction l as [l IH] using layer_ind. intros lvl. rewrite dumpLines_unfold.
  apply Forall_cons. split; [cbn; lia|].
  apply Forall_app; split; [|apply Forall_app; split].
  - eapply Forall_impl; [apply propertyLines_level|]. cbv beta. lia.
  - apply Forall_childrenLines; [cbn; lia..|].
    rewrite Forall_fmap. rewrite Forall_forall in IH. apply Forall_forall. intros c Hc.
    eapply Forall_impl; [apply (IH c Hc)|]. cbv beta.
    pose proof (height_child l c Hc). lia.
  - apply Forall_cons. split; [cbn; lia|done].
Qed.

(** A dump starts with the opening brace and ends with the closing
    brace of its root, both at the level asked for, and every line is
    indented at least to that level and at most to the level of the
    properties of the deepest node. *)
Theorem dumpLines_levels l indentLevel :
  head (dumpLines typeCode l indentLevel) = Some (indentLevel, "{") /\
  last (dumpLines typeCode l indentLevel) = Some (indentLevel, "}") /\
  Forall (fun ln => (indentLevel <= ln.1 <= indentLevel + Z.of_nat (height l) + 1)%Z)
         (dumpLines typeCode l indentLevel).
Proof.
  split_and!; [by rewrite dumpLines_unfold| |apply dumpLines_range].
  rewrite dumpLines_unfold, app_assoc, app_comm_cons. apply last_snoc.
Qed.

(** A dump has one block per node of the tree: the lines that consist
    of an opening brace are as many as the nodes. *)
Theorem dumpLines_blocks l indentLevel :
  blockCount (dumpLines typeCode l indentLevel) = countNodes l.
Proof.
  revert indentLevel. induction l as [l IH] using layer_ind. intros lvl.
  rewrite dumpLines_unfold, countNodes_unfold.
  change (?x :: ?k) with ([x] ++ k) at 1.
  rewrite !blockCount_app, propertyLines_blockCount, blockCount_childrenLines.
  rewrite <- list_fmap_compose. cbn. rewrite Nat.add_0_r. f_equal.
  apply sum_list_fmap_ext. eapply Forall_impl; [exact IH|]. intros d Hd. apply Hd.
Qed.

Lemma nodeLevels_unfold l lvl :
  nodeLevels l lvl = lvl :: mjoin ((fun c => nodeLevels c (lvl + 1)%Z) <$> children l).
Proof. by destruct l. Qed.

Lemma listLevels_unfold l lvl :
  listLevels l lvl =
  (if children l is [] then [] else [(lvl + 1)%Z])
  ++ mjoin ((fun c => listLevels c (lvl + 1)%Z) <$> children l).
Proof. by destruct l. Qed.

Lemma propertyLines_levelsOf l lvl (text : string) :
  text = "{" \/ text = "children = [" ->
  levelsOf (String.eqb text) (propertyLines typeCode l lvl) = [].
Proof. intros [-> | ->]; apply levelsOf_none; by each_property_line. Qed.

(** The levels selected in the dump of a tree, from what they are in the
    dumps of the children. *)
Lemma dumpLines_levelsOf (text : string) l lvl :
  text = "{" \/ text = "children = [" ->
  levelsOf (String.eqb text) (dumpLines typeCode l lvl) =
  (if String.eqb text "{" then [lvl] else [])
  ++ (if children l is [] then []
      else if String.eqb text "children = [" then [(lvl + 1)%Z] else [])
  ++ mjoin ((fun c => levelsOf (String.eqb text) (dumpLines typeCode c (lvl + 1)))
            <$> children l).
Proof.
  intros Ht. rewrite dumpLines_unfold, levelsOf_cons, !levelsOf_app.
  rewrite (propertyLines_levelsOf _ _ _ Ht), levelsOf_childrenLines
    by (by destruct Ht as [-> | ->]).
  rewrite <- list_fmap_compose. cbn [fst snd app].
  destruct Ht as [-> | ->];
    (change (levelsOf _ [(lvl, "}"%string)]) with (@nil Z); rewrite app_nil_r;
     by destruct (children l)).
Qed.

(** C38: a dump has one block per node of the tree, in the order of the
    traversal, and the block of a node opens one level below the block of
    its parent: at the level of the line [children = [] that opens the
    list it stands in, which is a line among the properties of the
    parent, and not one level deeper than that line. *)
Theorem dumpLines_block_levels l indentLevel :
  levelsOf (String.eqb "{") (dumpLines typeCode l indentLevel) = nodeLevels l indentLevel /\
  levelsOf (String.eqb "children = [") (dumpLines typeCode l indentLevel)
  = listLevels l indentLevel.
Proof.
  revert indentLevel. induction l as [l IH] using layer_ind. intros lvl.
  rewrite !dumpLines_levelsOf, nodeLevels_unfold, listLevels_unfold by auto.
  cbn [String.eqb Ascii.eqb Bool.eqb app]. split.
  - f_equal. destruct (children l) eqn:E; [done|rewrite <- E in *]. cbn [app]. f_equal.
    apply Forall_fmap_ext_1. eapply Forall_impl; [exact IH|]. intros c Hc. apply Hc.
  - destruct (children l) eqn:E; [done|rewrite <- E in *]. f_equal. f_equal.
    apply Forall_fmap_ext_1. eapply Forall_impl; [exact IH|]. intros c Hc. apply Hc.
Qed.

End DumpLines.

(** ** A dump, evaluated *)

(** A coding of the types of a length, for the examples. *)
Definition demo_typeCode (t : SkLength.SkLengthType) : Z :=
  match t with
  | SkLength.Undefined => 0
  | SkLength.Fixed => 1
  | SkLength.Percent => 2
  end.

(** A rotated, translucent layer pinned to the left and bottom of the
    viewport, below a layer with contents. *)
Definition demo_pinned : LayerAndroid KeyframeAnimation :=
  setFixedPosition (SkLength.fixed 10%Q) SkLength.undefined SkLength.undefined
                   (SkLength.percent (1 # 8)%Q)
    (setRotation 45%Q (setOpacity (1 # 3)%Q (setSize 100%Q (101 # 2)%Q demo_leaf))).

Definition demo_dumped : LayerAndroid KeyframeAnimation :=
  addChild demo_pinned (setHaveContents true demo_leaf).

Lemma demo_dumped_lines :
  dumpLines demo_typeCode demo_dumped 0 =
    [ (0, "{"); (1, "haveContents = 1;"); (1, "drawsContent = 1;");
      (1, "haveImage = 0;"); (1, "clipRect = 0;"); (1, "opacity = 1.000;");
      (1, "size = { w = 0.000; h = 0.000; };");
      (1, "position = { x = 0.000; y = 0.000; };");
      (1, "translation = { x = 0.000; y = 0.000; };");
      (1, "anchor = { x = 0.500; y = 0.500; };");
      (1, "scale = { x = 1.000; y = 1.000; };");
      (1, "children = ["); (1, "{"); (2, "haveContents = 0;");
      (2, "drawsContent = 1;"); (2, "haveImage = 0;"); (2, "clipRect = 0;");
      (2, "opacity = 0.333;"); (2, "size = { w = 100.000; h = 50.500; };");
      (2, "position = { x = 0.000; y = 0.000; };");
      (2, "translation = { x = 0.000; y = 0.000; };");
      (2, "anchor = { x = 0.500; y = 0.500; };");
      (2, "scale = { x = 1.000; y = 1.000; };"); (2, "angle = 45.000;");
      (2, "fixedLeft = { type = 1; value = 10.00; };");
      (2, "fixedBottom = { type = 2; value = 0.12; };");
      (1, "}"); (1, "];"); (0, "}") ]%Z.
Proof. by vm_compute. Qed.

(** The blocks of the example open at the levels 0 and 1, and the list of
    the children at the level 1. *)
Lemma demo_dumped_levels :
  levelsOf (String.eqb "{") (dumpLines demo_typeCode demo_dumped 0) = [0; 1]%Z /\
  levelsOf (String.eqb "children = [") (dumpLines demo_typeCode demo_dumped 0) = [1]%Z.
Proof. by vm_compute. Qed.
