(* ===== verification/Paint.v ===== *)
(** * Paint: the paint traversal

    [draw] (lines 164-168), [setClip] (170-178), [paintChildren] (180-203),
    [calcPosition] (205-229) and [paintMe] (231-299) of LayerAndroid.cpp.

    Painting reads the tree, writes the canvas, and, through
    [prepareContext], may replace a node's picture: the painter's state is
    the picture store, the canvas and the debug counters together, and each
    operation returns the node as painting left it.

    The theorems show that painting is balanced (the canvas stack and the
    child level are the same before and after), which nodes draw and with
    which alpha and matrix, and that on a tree whose pictures are up to date
    the display list is the one [render], a function of the tree alone,
    computes. *)

From S2P Require Import Prelude Geometry Matrix Picture SkLayer Animation.
From S2P Require Import Canvas Layer Context Lifecycle Ownership.

(** ** The painter's state *)

Record Painter : Type := mkPainter {
  pictures : PictureStore;
  canvas : SkCanvas;
  globals : Globals }.

Definition onPictures {X} (m : State PictureStore X) : State Painter X :=
  zoom pictures (fun st p => mkPainter st (canvas p) (globals p)) m.

Definition onCanvas {X} (m : State SkCanvas X) : State Painter X :=
  zoom canvas (fun c p => mkPainter (pictures p) c (globals p)) m.

Definition onGlobals {X} (m : State Globals X) : State Painter X :=
  zoom globals (fun g p => mkPainter (pictures p) (canvas p) g) m.

Section Paint.
Context {A : Type} `{Trig}.
Implicit Types (l : LayerAndroid A) (viewPort : option SkRect.t) (opacity : Q).

Local Open Scope Q_scope.

(** ** [setClip] (lines 170-178) *)

Definition clipOf l : SkRect.t :=
  let b := base l in
  let fLeft := SkPoint.fX (SkLayer.m_position b) + SkPoint.fX (SkLayer.m_translation b) in
  let fTop := SkPoint.fY (SkLayer.m_position b) + SkPoint.fY (SkLayer.m_translation b) in
  SkRect.mk fLeft fTop
            (fLeft + SkSize.width (SkLayer.m_size b))
            (fTop + SkSize.height (SkLayer.m_size b)).

Definition setClip l : State SkCanvas unit := clipRect (clipOf l).

(** ** [calcPosition] (lines 205-229)

    The matrix is the caller's: the state of the computation.  It is
    written only when the result is [true]. *)

Definition fixedX (vp : SkRect.t) l : Q :=
  let b := base l in
  let w := SkRect.width vp in
  let dx := SkRect.fLeft vp in
  if SkLength.defined (SkLayer.m_fixedLeft b) then
    dx + SkLength.calcFloatValue (SkLayer.m_fixedLeft b) w
  else if SkLength.defined (SkLayer.m_fixedRight b) then
    dx + w - SkLength.calcFloatValue (SkLayer.m_fixedRight b) w
       - SkSize.width (SkLayer.m_size b)
  else 0.

Definition fixedY (vp : SkRect.t) l : Q :=
  let b := base l in
  let h := SkRect.height vp in
  let dy := SkRect.fTop vp in
  if SkLength.defined (SkLayer.m_fixedTop b) then
    dy + SkLength.calcFloatValue (SkLayer.m_fixedTop b) h
  else if SkLength.defined (SkLayer.m_fixedBottom b) then
    dy + h - SkLength.calcFloatValue (SkLayer.m_fixedBottom b) h
       - SkSize.height (SkLayer.m_size b)
  else 0.

Definition calcPosition viewPort l : State SkMatrix.t bool :=
  match viewPort with
  | Some vp =>
      if SkLayer.m_isFixed (base l) then
        put (SkMatrix.setTranslate (fixedX vp l) (fixedY vp l)) ;;
        ret true
      else ret false
  | None => ret false
  end.

(** ** [paintMe] (lines 231-299) *)

(** Line 243: [int canvasOpacity = opacity * m_opacity * 255]. *)
Definition canvasOpacity opacity l : Z :=
  Qtrunc (opacity * SkLayer.m_opacity (base l) * 255).

(** Lines 263-269: the rotation about the anchor. *)
Definition rotateAboutAnchor l : State SkMatrix.t unit :=
  let b := base l in
  let anchorX := SkPoint.fX (SkLayer.m_anchorPoint b) * SkSize.width (SkLayer.m_size b) in
  let anchorY := SkPoint.fY (SkLayer.m_anchorPoint b) * SkSize.height (SkLayer.m_size b) in
  modify (fun m => SkMatrix.preTranslate m anchorX anchorY) ;;
  modify (fun m => SkMatrix.preRotate m (SkLayer.m_angleTransform b)) ;;
  modify (fun m => SkMatrix.preTranslate m (- anchorX) (- anchorY)).

(** Lines 271-278: the scale, applied only when it enlarges. *)
Definition scaleAboutCentre l : State SkMatrix.t unit :=
  let b := base l in
  let sx := SkPoint.fX (SkLayer.m_scale b) in
  let sy := SkPoint.fY (SkLayer.m_scale b) in
  when (Qgtb sx 1 || Qgtb sy 1) (
    let dx := sx * SkSize.width (SkLayer.m_size b) - SkSize.width (SkLayer.m_size b) in
    let dy := sy * SkSize.height (SkLayer.m_size b) - SkSize.height (SkLayer.m_size b) in
    modify (fun m => SkMatrix.preTranslate m (- dx / 2) (- dy / 2)) ;;
    modify (fun m => SkMatrix.preScale m sx sy)).

(** Lines 257-281: the matrix of the node. *)
Definition buildMatrix viewPort l : State SkMatrix.t unit :=
  fixed <- calcPosition viewPort l ;;
  when (negb fixed) (
    let b := base l in
    put SkMatrix.reset ;;
    when (SkLayer.m_doRotation b) (rotateAboutAnchor l) ;;
    scaleAboutCentre l ;;
    modify (fun m =>
      SkMatrix.postTranslate m
        (SkPoint.fX (SkLayer.m_translation b) + SkPoint.fX (SkLayer.m_position b))
        (SkPoint.fY (SkLayer.m_translation b) + SkPoint.fY (SkLayer.m_position b)))).

(** The declaration [SkMatrix matrix] leaves the matrix unset; both branches
    overwrite it, so the start value does not show. *)
Definition layerMatrix viewPort l : SkMatrix.t :=
  (buildMatrix viewPort l SkMatrix.reset).2.

(** Line 284: [m_recordingPicture->draw(canvas)]. *)
Definition drawPicture (r : option PicRef) : State Painter unit :=
  match r with
  | Some p =>
      cmds <- onPictures (gets (fun st => pic_commands st p)) ;;
      onCanvas (playback cmds)
  | None => ret tt
  end.

(** Line 238: the node has nothing of its own to draw. *)
Definition nothingToDraw l : bool :=
  negb (m_haveImage l) && negb (m_drawsContent l) && negb (m_isRootLayer l).

Definition paintMe viewPort opacity l : State Painter (LayerAndroid A) :=
  r <- onPictures (prepareContext false l) ;;
  let l' := r.2 in
  if negb r.1 then ret l'
  else if nothingToDraw l' then ret l'
  else
    saveCount <- onCanvas (gets getSaveCount) ;;
    onCanvas save ;;
    when (negb (canvasOpacity opacity l' =? 255)%Z)
      (onCanvas (setDrawFilter (OpacityDrawFilter.new (canvasOpacity opacity l')))) ;;
    onCanvas (concat (layerMatrix viewPort l')) ;;
    drawPicture (m_recordingPicture l') ;;
    onCanvas (restoreToCount saveCount) ;;
    ret l'.

(** ** [paintChildren] (lines 180-203)

    [paintMe] leaves the list of children as it is ([paintMe_children]
    below), so the loop runs over the children of the node as it came in. *)

Definition childLevelUp : State Painter unit :=
  onGlobals (modify (fun g => with_childLevel (gDebugChildLevel g + 1)%Z g)).

Definition childLevelDown : State Painter unit :=
  onGlobals (modify (fun g => with_childLevel (gDebugChildLevel g - 1)%Z g)).

Fixpoint paintChildren viewPort opacity l {struct l}
    : State Painter (LayerAndroid A) :=
  count <- onCanvas save ;;
  when (m_haveClip l) (onCanvas (setClip l)) ;;
  l' <- paintMe viewPort opacity l ;;
  onCanvas (translate
    (SkPoint.fX (SkLayer.m_position (base l')) + SkPoint.fX (SkLayer.m_translation (base l')))
    (SkPoint.fY (SkLayer.m_position (base l')) + SkPoint.fY (SkLayer.m_translation (base l')))) ;;
  cs <- mapS (fun layer =>
                childLevelUp ;;
                layer' <- paintChildren viewPort
                            (opacity * SkLayer.m_opacity (base l')) layer ;;
                childLevelDown ;;
                ret layer')
             (children l) ;;
  onCanvas (restoreToCount count) ;;
  ret (with_children cs l').

(** One turn of the loop of lines 192-200. *)
Definition paintChild viewPort opacity layer : State Painter (LayerAndroid A) :=
  childLevelUp ;;
  layer' <- paintChildren viewPort opacity layer ;;
  childLevelDown ;;
  ret layer'.

(** ** [draw] (lines 164-168) *)

Definition draw viewPort l : State Painter (LayerAndroid A) :=
  onGlobals (modify (with_childLevel 0)) ;;
  paintChildren viewPort 1 l.

(** ** The specification of painting

    What the canvas sees of one [paintMe] that draws: lines 241-284 as a
    computation on the canvas alone, given the commands of the picture. *)

Definition selfPaint viewPort opacity l (cmds : list DrawCmd) : State SkCanvas unit :=
  saveCount <- gets getSaveCount ;;
  save ;;
  when (negb (canvasOpacity opacity l =? 255)%Z)
    (setDrawFilter (OpacityDrawFilter.new (canvasOpacity opacity l))) ;;
  concat (layerMatrix viewPort l) ;;
  playback cmds ;;
  restoreToCount saveCount.

(** The node draws itself: [prepareContext] returns true and line 238 does
    not return. *)
Definition paints l : bool :=
  m_haveContents l && negb (m_isRootLayer l) && negb (nothingToDraw l).

(** The picture of the node is up to date: [prepareContext(false)] has
    nothing to do. *)
Definition settled (st : PictureStore) l : Prop :=
  m_haveContents l = false \/
  (m_isRootLayer l = true /\ m_recordingPicture l = None) \/
  (m_isRootLayer l = false /\ is_Some (m_recordingPicture l) /\ recording_matches st l).

(** Painting between [p] and [p'] was balanced: the canvas has its stack
    back, the counters their values, and the records only grew. *)
Definition balanced (p p' : Painter) : Prop :=
  frames (canvas p') = frames (canvas p) /\
  globals p' = globals p /\
  extends (canvas p) (canvas p').

(** Every picture of the tree is up to date. *)
Definition up_to_date (st : PictureStore) l : Prop := Forall (settled st) (nodes l).

(** The alpha the node's commands are drawn with: its own filter's when it
    installs one, else the filter's in force, else the paint's own. *)
Definition paintAlpha (inherited : option Z) opacity l (p : SkPaint) : Z :=
  if (canvasOpacity opacity l =? 255)%Z then default (getAlpha p) inherited
  else canvasOpacity opacity l.

(** The product of the opacities of the nodes on the way to a node, the
    node included. *)
Definition chainOpacity (path : list nat) l : Q :=
  foldr Qmult 1 ((fun d => SkLayer.m_opacity (base d)) <$> nodesAlong path l).

(** The alpha a command is drawn with when the filter of its node would
    have the opacity [n]: no filter is installed for 255, and then the
    filter in force decides, or the paint of the command. *)
Definition alphaUnder (inherited : option Z) (n : Z) (p : SkPaint) : Z :=
  if (n =? 255)%Z then default (getAlpha p) inherited else n.

(** What the node itself adds to the display list under the given matrix,
    clip and inherited filter. *)
Definition renderSelf_under viewPort (ctm : SkMatrix.t) (clip : list ClipEntry)
    (inherited : option Z) opacity l (cmds : list DrawCmd) : list Drawn :=
  (fun cmd =>
     mkDrawn (cmd_with_paint cmd
                (mkPaint (paint_color (cmd_paint cmd))
                         (paintAlpha inherited opacity l (cmd_paint cmd))))
             (SkMatrix.concat ctm (layerMatrix viewPort l)) clip)
  <$> cmds.

Definition renderSelf viewPort (st : PictureStore) (ctm : SkMatrix.t)
    (clip : list ClipEntry) (inherited : option Z) opacity l : list Drawn :=
  if paints l then
    renderSelf_under viewPort ctm clip inherited opacity l
      (from_option (pic_commands st) [] (m_recordingPicture l))
  else [].

(** The calls one [selfPaint] makes when the stack holds [n] states. *)
Definition selfPaintCalls viewPort opacity l (cmds : list DrawCmd) (n : nat)
    : list CanvasCall :=
  [CallSave] ++
  (if (canvasOpacity opacity l =? 255)%Z then []
   else [CallSetDrawFilter (canvasOpacity opacity l)]) ++
  [CallConcat (layerMatrix viewPort l)] ++
  (CallDraw <$> cmds) ++
  [CallRestoreToCount n].

(** The display list of a tree: the node, then its children in order, each
    under the node's clip and the matrix moved to the node's origin. *)
Fixpoint render viewPort (st : PictureStore) (ctm : SkMatrix.t)
    (clip : list ClipEntry) (inherited : option Z) opacity l {struct l}
    : list Drawn :=
  let clip' := if m_haveClip l then (ctm, clipOf l) :: clip else clip in
  renderSelf viewPort st ctm clip' inherited opacity l ++
  mjoin (render viewPort st
           (SkMatrix.preTranslate ctm
              (SkPoint.fX (SkLayer.m_position (base l))
               + SkPoint.fX (SkLayer.m_translation (base l)))
              (SkPoint.fY (SkLayer.m_position (base l))
               + SkPoint.fY (SkLayer.m_translation (base l))))
           clip' inherited (opacity * SkLayer.m_opacity (base l))
         <$> children l).

End Paint.

(** ** The painter's state *)

Section PainterLemmas.

Lemma onCanvas_run {X} (m : State SkCanvas X) p :
  onCanvas m p = ((m (canvas p)).1, mkPainter (pictures p) (m (canvas p)).2 (globals p)).
Proof. unfold onCanvas, zoom. by destruct (m (canvas p)). Qed.

Lemma onCanvas_pictures {X} (m : State SkCanvas X) p :
  pictures (onCanvas m p).2 = pictures p.
Proof. by rewrite onCanvas_run. Qed.

Lemma onPictures_run {X} (m : State PictureStore X) p :
  onPictures m p =
  ((m (pictures p)).1, mkPainter (m (pictures p)).2 (canvas p) (globals p)).
Proof. unfold onPictures, zoom. by destruct (m (pictures p)). Qed.

Lemma onGlobals_run {X} (m : State Globals X) p :
  onGlobals m p = ((m (globals p)).1, mkPainter (pictures p) (canvas p) (m (globals p)).2).
Proof. unfold onGlobals, zoom. by destruct (m (globals p)). Qed.

End PainterLemmas.

#[export] Hint Rewrite @onCanvas_run @onPictures_run @onGlobals_run : sk_rw.

(** Run a painter computation one step at a time. *)
Ltac run_painter :=
  repeat first
    [ rewrite bind_fst_snd
    | rewrite onCanvas_run
    | rewrite onPictures_run
    | rewrite onGlobals_run ];
  cbn [fst snd pictures canvas globals].

(** ** Self-paint *)

Section SelfPaint.
Context {A : Type} `{Trig}.
Implicit Types (l : LayerAndroid A) (viewPort : option SkRect.t) (opacity : Q)
  (c : SkCanvas) (p : Painter).

Lemma selfPaint_frames viewPort opacity l cmds c :
  frames (selfPaint viewPort opacity l cmds c).2 = frames c.
Proof.
  unfold selfPaint. rewrite !bind_fst_snd. cbn [gets fst snd].
  apply restoreToCount_after_save.
  rewrite playback_saved.
  by destruct (negb _).
Qed.

(** The canvas just before the replay: saved, filtered, moved. *)
Lemma selfPaint_setup viewPort opacity l c :
  let c2 := (concat (layerMatrix viewPort l)
               (when (negb (canvasOpacity opacity l =? 255)%Z)
                  (setDrawFilter (OpacityDrawFilter.new (canvasOpacity opacity l)))
                  (save c).2).2).2 in
  display c2 = display c /\
  fMatrix (top c2) = SkMatrix.concat (fMatrix (top c)) (layerMatrix viewPort l) /\
  fClip (top c2) = fClip (top c) /\
  filter_opacity c2 =
    (if (canvasOpacity opacity l =? 255)%Z then filter_opacity c
     else Some (canvasOpacity opacity l)).
Proof. by destruct (canvasOpacity opacity l =? 255)%Z. Qed.

Lemma selfPaint_display viewPort opacity l cmds c :
  display (selfPaint viewPort opacity l cmds c).2 =
  display c ++
  renderSelf_under viewPort (fMatrix (top c)) (fClip (top c)) (filter_opacity c)
                   opacity l cmds.
Proof.
  unfold selfPaint. rewrite !bind_fst_snd. cbn [gets fst snd].
  rewrite restoreToCount_display, playback_display.
  destruct (selfPaint_setup viewPort opacity l c) as (-> & Em & Ec & Ef).
  f_equal. apply list_fmap_ext. intros _ cmd _.
  unfold drawn_under, effective_alpha, paintAlpha. rewrite Em, Ec, Ef.
  by destruct (canvasOpacity opacity l =? 255)%Z.
Qed.

Lemma selfPaint_calls viewPort opacity l cmds c :
  calls (selfPaint viewPort opacity l cmds c).2 =
  calls c ++ selfPaintCalls viewPort opacity l cmds (getSaveCount c).
Proof.
  unfold selfPaint, selfPaintCalls. rewrite !bind_fst_snd. cbn [gets fst snd].
  rewrite restoreToCount_calls, playback_calls.
  destruct (canvasOpacity opacity l =? 255)%Z; simpl;
    by rewrite <- ?app_assoc.
Qed.

(** [paintMe] is [prepareContext] on the store and, when the node draws,
    [selfPaint] on the canvas. *)
Lemma paintMe_run viewPort opacity l p :
  paintMe viewPort opacity l p =
  let r := prepareContext false l (pictures p) in
  (pc_layer r,
   mkPainter (pc_store r)
     (if pc_result r && negb (nothingToDraw (pc_layer r))
      then (selfPaint viewPort opacity (pc_layer r)
              (from_option (pic_commands (pc_store r)) [] (m_recordingPicture (pc_layer r)))
              (canvas p)).2
      else canvas p)
     (globals p)).
Proof.
  unfold paintMe, pc_layer, pc_result, pc_store. run_painter.
  destruct (prepareContext false l (pictures p)) as [[b l'] st']; cbn [fst snd].
  destruct b; [|done]. destruct (nothingToDraw l'); [done|].
  cbn [negb andb]. run_painter.
  unfold selfPaint, drawPicture. rewrite !bind_fst_snd. cbn [gets fst snd].
  destruct (negb (canvasOpacity opacity l' =? 255)%Z);
    destruct (m_recordingPicture l'); cbn [when from_option]; run_painter; done.
Qed.

(** The two tests of lines 235-239 together are [paints]. *)
Lemma paintMe_draws l st :
  pc_result (prepareContext false l st)
  && negb (nothingToDraw (pc_layer (prepareContext false l st))) = paints l.
Proof.
  rewrite prepareContext_returns, (prepareContext_layer false l st).
  unfold paints, nothingToDraw. by destruct l.
Qed.

Lemma selfPaint_changes viewPort opacity l cmds c :
  (selfPaint viewPort opacity l cmds c).2 <> c.
Proof.
  intros E. pose proof (selfPaint_calls viewPort opacity l cmds c) as E'.
  rewrite E in E'. apply (f_equal length) in E'.
  unfold selfPaintCalls in E'. rewrite !length_app in E'. simpl in E'. lia.
Qed.

End SelfPaint.

(** ** The traversal *)

Section Traversal.
Context {A : Type} `{Trig}.
Implicit Types (l : LayerAndroid A) (viewPort : option SkRect.t) (opacity : Q)
  (c : SkCanvas) (p : Painter).

Local Open Scope Q_scope.

#[global] Instance balanced_preorder : PreOrder balanced.
Proof.
  split; [intros p; by split; [|split]|].
  intros p1 p2 p3 (F1 & G1 & E1) (F2 & G2 & E2).
  split; [|split]; [congruence|congruence|by etrans].
Qed.

Lemma paintMe_balanced viewPort opacity l p :
  balanced p (paintMe viewPort opacity l p).2.
Proof.
  rewrite paintMe_run. cbn [snd]. unfold balanced. cbn [canvas globals].
  destruct (_ && _); [|by split_and!].
  split_and!; [apply selfPaint_frames|done|].
  eapply extends_app; [apply selfPaint_calls|apply selfPaint_display].
Qed.

Lemma paintMe_layer viewPort opacity l p :
  (paintMe viewPort opacity l p).1 =
  with_recordingPicture (m_recordingPicture (paintMe viewPort opacity l p).1) l.
Proof. rewrite paintMe_run. cbn [fst]. apply prepareContext_layer. Qed.

Lemma paintMe_base viewPort opacity l p :
  base (paintMe viewPort opacity l p).1 = base l.
Proof. by rewrite paintMe_layer. Qed.

Lemma paintMe_children viewPort opacity l p :
  children (paintMe viewPort opacity l p).1 = children l.
Proof. by rewrite paintMe_layer. Qed.

(** The body of [paintChildren], step by step. *)
Lemma paintChildren_run viewPort opacity l p :
  paintChildren viewPort opacity l p =
  let p1 := (onCanvas save p).2 in
  let p2 := (when (m_haveClip l) (onCanvas (setClip l)) p1).2 in
  let r3 := paintMe viewPort opacity l p2 in
  let p4 := (onCanvas (translate (SkLayer.offsetX (base l)) (SkLayer.offsetY (base l)))
               r3.2).2 in
  let r5 := mapS (paintChild viewPort (opacity * SkLayer.m_opacity (base l)))
                 (children l) p4 in
  (with_children r5.1 r3.1,
   (onCanvas (restoreToCount (getSaveCount (canvas p))) r5.2).2).
Proof.
  destruct l. cbn [paintChildren]. rewrite !bind_fst_snd.
  cbn zeta. rewrite !paintMe_base. reflexivity.
Qed.

Lemma paintChild_run viewPort opacity l p :
  paintChild viewPort opacity l p =
  let r := paintChildren viewPort opacity l (childLevelUp p).2 in
  (r.1, (childLevelDown r.2).2).
Proof. unfold paintChild. by rewrite !bind_fst_snd. Qed.

Lemma childLevel_up_down g :
  with_childLevel (gDebugChildLevel (with_childLevel (gDebugChildLevel g + 1) g) - 1)
                  (with_childLevel (gDebugChildLevel g + 1) g) = g.
Proof. destruct g. unfold with_childLevel. simpl. f_equal. lia. Qed.

Lemma paintChild_balanced viewPort opacity l p :
  (forall p0, balanced p0 (paintChildren viewPort opacity l p0).2) ->
  balanced p (paintChild viewPort opacity l p).2.
Proof.
  intros IH. rewrite paintChild_run. cbn zeta.
  destruct (IH (childLevelUp p).2) as (F & G & E).
  unfold childLevelDown, childLevelUp in *. rewrite !onGlobals_run in *.
  cbn [fst snd modify canvas globals] in *.
  split; [|split]; [done| |done].
  rewrite G. apply childLevel_up_down.
Qed.

(** The loop over the children is balanced when each turn is. *)
Lemma paintChild_loop_balanced viewPort opacity ls p :
  Forall (fun l => forall o p0, balanced p0 (paintChildren viewPort o l p0).2) ls ->
  balanced p (mapS (paintChild viewPort opacity) ls p).2.
Proof.
  intros IH.
  apply (mapS_invariant (balanced p) (fun _ _ => True)); [|reflexivity].
  intros l p0 Hl Hp0. split; [|done].
  etrans; [exact Hp0|]. apply paintChild_balanced.
  rewrite Forall_forall in IH. by apply IH.
Qed.

(** What a balanced loop between the [save] and the [restoreToCount] of
    [paintChildren] leaves. *)
Lemma paintChildren_frames viewPort opacity l p :
  let p4 := (onCanvas (translate (SkLayer.offsetX (base l)) (SkLayer.offsetY (base l)))
               (paintMe viewPort opacity l
                  (when (m_haveClip l) (onCanvas (setClip l)) (onCanvas save p).2).2).2).2 in
  saved (canvas p4) = top (canvas p) :: saved (canvas p) /\
  globals p4 = globals p /\
  extends (canvas p) (canvas p4).
Proof.
  cbn zeta. rewrite !onCanvas_run. cbn [snd canvas globals].
  set (p2 := (when _ _ _).2).
  assert (saved (canvas p2) = top (canvas p) :: saved (canvas p) /\
          globals p2 = globals p /\ extends (canvas p) (canvas p2)) as (S2 & G2 & E2).
  { subst p2. destruct (m_haveClip l); cbn [when ret snd]; rewrite ?onCanvas_run;
      cbn [snd canvas globals]; split_and!; try done;
      repeat (etrans; [|first [apply clipRect_extends|apply save_extends]]);
      reflexivity. }
  destruct (paintMe_balanced viewPort opacity l p2) as (F3 & G3 & E3).
  apply frames_inj in F3 as [_ S3].
  split_and!; [by rewrite translate_saved, S3|congruence|].
  etrans; [exact E2|]. etrans; [exact E3|]. apply translate_extends.
Qed.

Lemma paintChildren_balanced_all l :
  forall viewPort opacity p, balanced p (paintChildren viewPort opacity l p).2.
Proof.
  induction l as [l IH] using layer_ind. intros viewPort opacity p.
  rewrite paintChildren_run. cbn zeta.
  destruct (paintChildren_frames viewPort opacity l p) as (S4 & G4 & E4).
  cbn zeta in S4, G4, E4. set (p4 := (onCanvas (translate _ _) _).2) in *.
  destruct (paintChild_loop_balanced viewPort
              (opacity * SkLayer.m_opacity (base l)) (children l) p4) as (F5 & G5 & E5).
  { eapply Forall_impl; [exact IH|]. intros c Hc o p0. apply Hc. }
  apply frames_inj in F5 as [_ S5].
  unfold balanced. rewrite !onCanvas_run. cbn [snd canvas globals].
  split_and!; [|congruence|].
  - apply restoreToCount_after_save. by rewrite S5.
  - etrans; [exact E4|]. etrans; [exact E5|]. apply restoreToCount_extends.
Qed.

(** *** What painting does to the tree and the store *)

Lemma paintMe_prepares viewPort opacity l p :
  (paintMe viewPort opacity l p).1 = pc_layer (prepareContext false l (pictures p)) /\
  pictures (paintMe viewPort opacity l p).2
  = pc_store (prepareContext false l (pictures p)).
Proof. by rewrite paintMe_run. Qed.

Lemma paintChildren_prepares l :
  forall viewPort opacity p,
    (paintChildren viewPort opacity l p).1 = (prepareTree l (pictures p)).1 /\
    pictures (paintChildren viewPort opacity l p).2 = (prepareTree l (pictures p)).2.
Proof.
  induction l as [l IH] using layer_ind. intros viewPort opacity p.
  rewrite paintChildren_run, prepareTree_unfold, !bind_fst_snd. cbn zeta.
  set (p2 := (when _ _ _).2).
  assert (pictures p2 = pictures p) as P2.
  { subst p2. destruct (m_haveClip l); cbn [when ret snd];
      by rewrite !onCanvas_pictures. }
  destruct (paintMe_prepares viewPort opacity l p2) as [E3 P3]. rewrite P2 in E3, P3.
  unfold pc_layer, pc_store in *.
  destruct (mapS_sim (fun p0 st => pictures p0 = st)
              (paintChild viewPort (opacity * SkLayer.m_opacity (base l))) prepareTree
              (children l)) with
    (s := (onCanvas (translate (SkLayer.offsetX (base l)) (SkLayer.offsetY (base l)))
             (paintMe viewPort opacity l p2).2).2)
    (t := (prepareContext false l (pictures p)).2) as [E5 P5].
  - eapply Forall_impl; [exact IH|]. cbv beta. intros c Hc p0 st <-.
    rewrite paintChild_run. cbn zeta. unfold childLevelUp, childLevelDown.
    rewrite !onGlobals_run. cbn [fst snd pictures].
    match goal with |- context [paintChildren ?v ?o c ?p'] => apply (Hc v o p') end.
  - by rewrite onCanvas_pictures.
  - cbn [fst snd ret]. by rewrite onCanvas_pictures, E3, E5, P5.
Qed.

(** *** Painting a tree whose pictures are up to date *)

Lemma settled_prepareContext st l :
  settled st l ->
  prepareContext false l st = ((m_haveContents l && negb (m_isRootLayer l), l), st).
Proof.
  intros [Hc|[[Hr Hn]|(Hr & Hs & Hm)]].
  - by rewrite prepareContext_no_contents, Hc.
  - destruct (m_haveContents l) eqn:Hc; [|by rewrite prepareContext_no_contents].
    rewrite prepareContext_root, Hr, Hn by done. by destruct l; simplify_eq/=.
  - destruct (m_haveContents l) eqn:Hc; [|by rewrite prepareContext_no_contents].
    by rewrite prepareContext_stable, Hr.
Qed.

Lemma paintMe_settled viewPort opacity l p :
  settled (pictures p) l ->
  paintMe viewPort opacity l p =
  (l, mkPainter (pictures p)
        (if paints l
         then (selfPaint viewPort opacity l
                 (from_option (pic_commands (pictures p)) [] (m_recordingPicture l))
                 (canvas p)).2
         else canvas p)
        (globals p)).
Proof.
  intros Hs. rewrite paintMe_run, (settled_prepareContext _ _ Hs). reflexivity.
Qed.

Lemma render_unfold viewPort st ctm clip inherited opacity l :
  render viewPort st ctm clip inherited opacity l =
  let clip' := if m_haveClip l then (ctm, clipOf l) :: clip else clip in
  renderSelf viewPort st ctm clip' inherited opacity l ++
  mjoin (render viewPort st
           (SkMatrix.preTranslate ctm (SkLayer.offsetX (base l)) (SkLayer.offsetY (base l)))
           clip' inherited (opacity * SkLayer.m_opacity (base l))
         <$> children l).
Proof. by destruct l. Qed.

(** What painting an up-to-date tree does: nothing to the tree or the
    store, and the display list grows by [render]. *)
Definition paints_as_rendered viewPort opacity l p : Prop :=
  let r := paintChildren viewPort opacity l p in
  r.1 = l /\ pictures r.2 = pictures p /\
  display (canvas r.2) =
  display (canvas p) ++
  render viewPort (pictures p) (fMatrix (top (canvas p))) (fClip (top (canvas p)))
         (filter_opacity (canvas p)) opacity l.

Lemma paintChild_loop_rendered viewPort opacity ls p :
  Forall (fun l => forall o p0, up_to_date (pictures p0) l ->
                                paints_as_rendered viewPort o l p0) ls ->
  Forall (up_to_date (pictures p)) ls ->
  let r := mapS (paintChild viewPort opacity) ls p in
  r.1 = ls /\ pictures r.2 = pictures p /\
  display (canvas r.2) =
  display (canvas p) ++
  mjoin (render viewPort (pictures p) (fMatrix (top (canvas p))) (fClip (top (canvas p)))
           (filter_opacity (canvas p)) opacity <$> ls).
Proof.
  revert p. induction ls as [|l ls IHls]; intros p IH Hup; cbn zeta.
  { rewrite mapS_nil. simpl. by rewrite app_nil_r. }
  apply Forall_cons in IH as [IHl IH]. apply Forall_cons in Hup as [Hl Hup].
  rewrite mapS_cons.
  pose proof (paintChild_balanced viewPort opacity l p
                (paintChildren_balanced_all l viewPort opacity)) as (F & _ & _).
  rewrite paintChild_run in *. cbn zeta in *.
  destruct (IHl opacity (childLevelUp p).2 Hl) as (E1 & E2 & E3).
  destruct (paintChildren _ _ l _) as [l1 p1]. cbn [fst snd] in *. subst l1.
  unfold childLevelDown, childLevelUp in *. rewrite !onGlobals_run in *.
  cbn [fst snd modify canvas pictures] in *.
  rewrite <- E2 in Hup.
  match goal with |- context [mapS _ ls ?p2] =>
    destruct (IHls p2 IH Hup) as (R1 & R2 & R3) end.
  destruct (mapS _ ls _) as [ls1 p3]. cbn [fst snd pictures canvas] in *. subst ls1.
  apply frames_inj in F as [Ft _]. unfold filter_opacity in *.
  split_and!; [done|congruence|].
  rewrite R3, E3, Ft, E2, <- app_assoc. done.
Qed.

Lemma paintMe_rendered viewPort opacity l p :
  settled (pictures p) l ->
  let r := paintMe viewPort opacity l p in
  r.1 = l /\ pictures r.2 = pictures p /\ top (canvas r.2) = top (canvas p) /\
  display (canvas r.2) =
  display (canvas p) ++
  renderSelf viewPort (pictures p) (fMatrix (top (canvas p))) (fClip (top (canvas p)))
             (filter_opacity (canvas p)) opacity l.
Proof.
  intros Hs. cbn zeta. rewrite (paintMe_settled _ _ _ _ Hs). cbn [fst snd pictures canvas].
  unfold renderSelf. destruct (paints l).
  - split_and!; [done|done| |apply selfPaint_display].
    by destruct (proj1 (frames_inj _ _) (selfPaint_frames viewPort opacity l
         (from_option (pic_commands (pictures p)) [] (m_recordingPicture l)) (canvas p))).
  - by rewrite app_nil_r.
Qed.

(** The canvas and the store when the loop of [paintChildren] starts. *)
Lemma paintChildren_prologue viewPort opacity l p :
  settled (pictures p) l ->
  let clip' := if m_haveClip l
               then (fMatrix (top (canvas p)), clipOf l) :: fClip (top (canvas p))
               else fClip (top (canvas p)) in
  let r3 := paintMe viewPort opacity l
              (when (m_haveClip l) (onCanvas (setClip l)) (onCanvas save p).2).2 in
  let p4 := (onCanvas (translate (SkLayer.offsetX (base l)) (SkLayer.offsetY (base l)))
               r3.2).2 in
  r3.1 = l /\ pictures p4 = pictures p /\
  top (canvas p4) =
    mkMCRec (SkMatrix.preTranslate (fMatrix (top (canvas p)))
               (SkLayer.offsetX (base l)) (SkLayer.offsetY (base l)))
            clip' (fFilter (top (canvas p))) /\
  display (canvas p4) =
  display (canvas p) ++
  renderSelf viewPort (pictures p) (fMatrix (top (canvas p))) clip'
             (filter_opacity (canvas p)) opacity l.
Proof.
  intros Hs. cbn zeta. set (p2 := (when _ _ _).2).
  assert (pictures p2 = pictures p /\ display (canvas p2) = display (canvas p) /\
          top (canvas p2) =
            mkMCRec (fMatrix (top (canvas p)))
              (if m_haveClip l
               then (fMatrix (top (canvas p)), clipOf l) :: fClip (top (canvas p))
               else fClip (top (canvas p)))
              (fFilter (top (canvas p)))) as (P2 & D2 & T2).
  { subst p2. destruct (m_haveClip l); cbn [when ret snd]; rewrite ?onCanvas_run;
      cbn [snd canvas pictures]; split_and!; try done;
      unfold setClip, clipRect, save, modify, with_top; cbn [snd top];
      by destruct (top (canvas p)). }
  rewrite <- P2 in Hs.
  destruct (paintMe_rendered viewPort opacity l p2 Hs) as (E1 & E2 & E3 & E4).
  rewrite onCanvas_run. cbn [snd canvas pictures].
  rewrite translate_top, E3, T2. unfold translate, modify. cbn [snd display log with_top].
  split_and!; [done|congruence|done|].
  rewrite E4, D2, P2. unfold filter_opacity. by rewrite T2.
Qed.

Lemma paintChildren_rendered l :
  forall viewPort opacity p,
    up_to_date (pictures p) l -> paints_as_rendered viewPort opacity l p.
Proof.
  induction l as [l IH] using layer_ind. intros viewPort opacity p Hup.
  apply Forall_nodes in Hup as [Hs Hcs].
  unfold paints_as_rendered. rewrite paintChildren_run, render_unfold. cbn zeta.
  destruct (paintChildren_prologue viewPort opacity l p Hs) as (E3 & P4 & T4 & D4).
  cbn zeta in E3, P4, T4, D4. set (p4 := (onCanvas (translate _ _) _).2) in *.
  rewrite <- P4 in Hcs.
  destruct (paintChild_loop_rendered viewPort (opacity * SkLayer.m_opacity (base l))
              (children l) p4) as (R1 & R2 & R3); [|done|].
  { eapply Forall_impl; [exact IH|]. intros c Hc o p0. apply Hc. }
  rewrite E3, onCanvas_run. cbn [fst snd canvas pictures].
  rewrite restoreToCount_display, R1, R2, R3, D4, P4.
  unfold filter_opacity. rewrite T4. cbn [fMatrix fClip fFilter].
  split_and!; [by destruct l|done|by rewrite <- app_assoc].
Qed.

End Traversal.

(** ** Theorems *)

Section PaintTheorems.
Context {A : Type} `{Trig}.
Implicit Types (l c : LayerAndroid A) (viewPort : option SkRect.t) (opacity : Q)
  (p : Painter).

Local Open Scope Q_scope.

(** C14: [paintMe] leaves the canvas as it found it exactly when the node has
    no contents, is the root, or has neither an image nor content to draw;
    in every case the debug counters are untouched and the store is the one
    [prepareContext(false)] leaves. *)
Theorem paintMe_skips_iff viewPort opacity l p :
  let p' := (paintMe viewPort opacity l p).2 in
  (canvas p' = canvas p <-> paints l = false) /\
  globals p' = globals p /\
  pictures p' = pc_store (prepareContext false l (pictures p)).
Proof.
  cbn zeta. rewrite paintMe_run. cbn [snd canvas globals pictures].
  rewrite paintMe_draws. split; [|done].
  destruct (paints l); [|done].
  split; [|done]. intros E. by apply selfPaint_changes in E.
Qed.

(** C3: [paintChildren] is balanced on every tree and in every state: the
    canvas has the same stack of saved states afterwards, the same count
    and the same current matrix, clip and filter; [gDebugChildLevel] is
    back at its value; and the calls and the display list only grew. *)
Theorem paintChildren_balanced viewPort opacity l p :
  let p' := (paintChildren viewPort opacity l p).2 in
  top (canvas p') = top (canvas p) /\
  saved (canvas p') = saved (canvas p) /\
  getSaveCount (canvas p') = getSaveCount (canvas p) /\
  gDebugChildLevel (globals p') = gDebugChildLevel (globals p) /\
  extends (canvas p) (canvas p').
Proof.
  destruct (paintChildren_balanced_all l viewPort opacity p) as (F & G & E).
  apply frames_inj in F as [Ft Fs]. cbn zeta. unfold getSaveCount.
  by rewrite Ft, Fs, G.
Qed.

(** C11: painting keeps the accounts of the picture store on every tree: in
    a well-formed store that counts every reference the tree holds, after
    [paintChildren] the store is well-formed, it counts every reference
    the painted tree holds, and the count of each picture has moved by
    exactly the references the tree gained or gave up, so no picture
    leaks and none that another owner holds is freed. *)
Theorem paintChildren_ownership viewPort opacity l p :
  store_wf (pictures p) -> owned (pictures p) l ->
  let r := paintChildren viewPort opacity l p in
  store_wf (pictures r.2) /\ owned (pictures r.2) r.1 /\
  forall q, (refcnt (pictures r.2) q + tree_refs q l
             = refcnt (pictures p) q + tree_refs q r.1)%nat.
Proof.
  intros Hwf Ho. cbn zeta.
  destruct (paintChildren_prepares l viewPort opacity p) as [-> ->].
  destruct (prepareTree_refcnt l (pictures p) Hwf Ho) as [Hwf' E].
  split_and!; [done| |done].
  intros q. specialize (E q). specialize (Ho q). lia.
Qed.

(** C1: on a tree whose pictures are up to date [draw] is the function
    [render]: it returns the tree unchanged, leaves the store, adds to the
    display list what [render] computes from the tree, the current matrix,
    clip and filter, and the opacity 1, and sets [gDebugChildLevel] to 0. *)
Theorem draw_renders viewPort l p :
  up_to_date (pictures p) l ->
  let r := draw viewPort l p in
  r.1 = l /\ pictures r.2 = pictures p /\
  display (canvas r.2) =
    display (canvas p) ++
    render viewPort (pictures p) (fMatrix (top (canvas p))) (fClip (top (canvas p)))
           (filter_opacity (canvas p)) 1 l /\
  gDebugChildLevel (globals r.2) = 0%Z.
Proof.
  intros Hup. cbn zeta. unfold draw. rewrite bind_fst_snd, onGlobals_run.
  cbn [fst snd modify].
  set (p0 := mkPainter _ _ _).
  destruct (paintChildren_rendered l viewPort 1 p0 Hup) as (E1 & E2 & E3).
  destruct (paintChildren_balanced_all l viewPort 1 p0) as (_ & G & _).
  by rewrite G.
Qed.

(** *** The alpha *)

Lemma canvasOpacity_bounds opacity l :
  0 <= opacity <= 1 -> SkLayer.opacity_ok (base l) ->
  (0 <= canvasOpacity opacity l <= 255)%Z.
Proof.
  intros Ho Hl. unfold SkLayer.opacity_ok in Hl. unfold canvasOpacity.
  pose proof (Qmult_unit_interval _ _ Ho Hl).
  apply Qtrunc_range; change (inject_Z 255) with 255; lra.
Qed.

(** C20: under a cumulative opacity and a layer opacity between 0 and 1 the
    alpha of line 243 lies between 0 and 255, and it is 255, so that no
    filter is installed, exactly when both opacities are 1. *)
Theorem canvasOpacity_range opacity l :
  0 <= opacity <= 1 -> SkLayer.opacity_ok (base l) ->
  (0 <= canvasOpacity opacity l <= 255)%Z /\
  (canvasOpacity opacity l = 255%Z <->
   opacity == 1 /\ SkLayer.m_opacity (base l) == 1).
Proof.
  intros Ho Hl. split; [by apply canvasOpacity_bounds|].
  unfold SkLayer.opacity_ok in Hl. unfold canvasOpacity.
  set (m := SkLayer.m_opacity (base l)) in *. clearbody m.
  assert (0 <= opacity * m <= 1) as Hp by by apply Qmult_unit_interval.
  rewrite Qtrunc_eq_iff by lra.
  change (inject_Z 255) with 255. change (inject_Z (255 + 1)) with 256. split.
  - intros [H1 _]. assert (opacity * m == 1) as E by lra. split; nra.
  - intros [-> ->]. lra.
Qed.

(** *** The matrix *)

(** [calcPosition] fails: no viewport is given or the layer is not fixed. *)
Definition not_fixed viewPort l : Prop :=
  viewPort = None \/ SkLayer.m_isFixed (base l) = false.

Lemma calcPosition_not_fixed viewPort l m :
  not_fixed viewPort l -> calcPosition viewPort l m = (false, m).
Proof. unfold calcPosition. by intros [->| ->]; [|destruct viewPort]. Qed.

Lemma layerMatrix_fixed_eq vp l :
  SkLayer.m_isFixed (base l) = true ->
  layerMatrix (Some vp) l = SkMatrix.setTranslate (fixedX vp l) (fixedY vp l).
Proof. intros Hf. unfold layerMatrix, buildMatrix, calcPosition. by rewrite Hf. Qed.

(** C26: with a viewport a fixed layer is placed by a pure translation that
    depends on the viewport, the four lengths and the size only: position,
    translation, rotation and scale are not applied.  A length from the
    right or the bottom puts that edge of the layer at that distance from
    the viewport's edge. *)
Theorem layerMatrix_fixed vp l :
  SkLayer.m_isFixed (base l) = true ->
  layerMatrix (Some vp) l = SkMatrix.setTranslate (fixedX vp l) (fixedY vp l) /\
  (SkLength.defined (SkLayer.m_fixedLeft (base l)) = false ->
   SkLength.defined (SkLayer.m_fixedRight (base l)) = true ->
   fixedX vp l + SkSize.width (SkLayer.m_size (base l))
   == SkRect.fRight vp
      - SkLength.calcFloatValue (SkLayer.m_fixedRight (base l)) (SkRect.width vp)) /\
  (SkLength.defined (SkLayer.m_fixedTop (base l)) = false ->
   SkLength.defined (SkLayer.m_fixedBottom (base l)) = true ->
   fixedY vp l + SkSize.height (SkLayer.m_size (base l))
   == SkRect.fBottom vp
      - SkLength.calcFloatValue (SkLayer.m_fixedBottom (base l)) (SkRect.height vp)).
Proof.
  intros Hf. split_and!.
  - by apply layerMatrix_fixed_eq.
  - intros Hl Hr. unfold fixedX. rewrite Hl, Hr. unfold SkRect.width. ring.
  - intros Ht Hb. unfold fixedY. rewrite Ht, Hb. unfold SkRect.height. ring.
Qed.

(** A layer that is not fixed, not rotated and not enlarged is placed by
    the translation by its position plus its translation; a scale of at
    most 1 is not applied at all. *)
Theorem layerMatrix_plain viewPort l :
  not_fixed viewPort l -> SkLayer.m_doRotation (base l) = false ->
  SkPoint.fX (SkLayer.m_scale (base l)) <= 1 ->
  SkPoint.fY (SkLayer.m_scale (base l)) <= 1 ->
  layerMatrix viewPort l
  ≡ SkMatrix.setTranslate (SkLayer.offsetX (base l)) (SkLayer.offsetY (base l)).
Proof.
  intros Hn Hr Hx Hy. apply Qgtb_false in Hx, Hy.
  unfold layerMatrix, buildMatrix, scaleAboutCentre.
  rewrite bind_fst_snd, (calcPosition_not_fixed _ _ _ Hn), Hr, Hx, Hy.
  unfold SkLayer.offsetX, SkLayer.offsetY. simpl.
  SkMatrix.mat_crush; ring.
Qed.

Lemma Qgtb_either a b : 1 < a \/ 1 < b -> Qgtb a 1 || Qgtb b 1 = true.
Proof.
  intros [Ha|Hb]; apply orb_true_iff; [left|right]; by apply Qgtb_true.
Qed.

(** C33: A layer that is not fixed and not rotated, with a scale above 1 in
    one direction, is scaled by its scale in both directions about the
    centre of its box, which lands at the layer's offset plus the centre. *)
Theorem layerMatrix_scaled viewPort l :
  not_fixed viewPort l -> SkLayer.m_doRotation (base l) = false ->
  1 < SkPoint.fX (SkLayer.m_scale (base l)) \/ 1 < SkPoint.fY (SkLayer.m_scale (base l)) ->
  let w := SkSize.width (SkLayer.m_size (base l)) in
  let h := SkSize.height (SkLayer.m_size (base l)) in
  let m := layerMatrix viewPort l in
  SkMatrix.scaleX m == SkPoint.fX (SkLayer.m_scale (base l)) /\
  SkMatrix.scaleY m == SkPoint.fY (SkLayer.m_scale (base l)) /\
  SkMatrix.skewX m == 0 /\ SkMatrix.skewY m == 0 /\
  SkMatrix.mapXY m (SkPoint.mk (w / 2) (h / 2))
  ≡ SkPoint.mk (SkLayer.offsetX (base l) + w / 2) (SkLayer.offsetY (base l) + h / 2).
Proof.
  intros Hn Hr Hs. apply Qgtb_either in Hs. cbn zeta.
  unfold layerMatrix, buildMatrix, scaleAboutCentre.
  rewrite bind_fst_snd, (calcPosition_not_fixed _ _ _ Hn), Hr, Hs.
  unfold SkLayer.offsetX, SkLayer.offsetY. simpl.
  SkMatrix.mat_crush; field.
Qed.

Lemma layerMatrix_rotated_eq viewPort l :
  not_fixed viewPort l -> SkLayer.m_doRotation (base l) = true ->
  SkPoint.fX (SkLayer.m_scale (base l)) <= 1 ->
  SkPoint.fY (SkLayer.m_scale (base l)) <= 1 ->
  let b := base l in
  let ax := SkPoint.fX (SkLayer.m_anchorPoint b) * SkSize.width (SkLayer.m_size b) in
  let ay := SkPoint.fY (SkLayer.m_anchorPoint b) * SkSize.height (SkLayer.m_size b) in
  layerMatrix viewPort l =
  SkMatrix.postTranslate
    (SkMatrix.preTranslate
       (SkMatrix.preRotate (SkMatrix.preTranslate SkMatrix.reset ax ay)
                           (SkLayer.m_angleTransform b))
       (- ax) (- ay))
    (SkPoint.fX (SkLayer.m_translation b) + SkPoint.fX (SkLayer.m_position b))
    (SkPoint.fY (SkLayer.m_translation b) + SkPoint.fY (SkLayer.m_position b)).
Proof.
  intros Hn Hr Hx Hy. apply Qgtb_false in Hx, Hy.
  unfold layerMatrix, buildMatrix, scaleAboutCentre, rotateAboutAnchor.
  by rewrite bind_fst_snd, (calcPosition_not_fixed _ _ _ Hn), Hr, Hx, Hy.
Qed.

(** C32: A layer that is not fixed and not enlarged, with a rotation, is
    rotated about its anchor: the linear part of its matrix is the
    rotation by its angle, and the anchor lands at the layer's offset plus
    the anchor. *)
Theorem layerMatrix_rotated viewPort l :
  not_fixed viewPort l -> SkLayer.m_doRotation (base l) = true ->
  SkPoint.fX (SkLayer.m_scale (base l)) <= 1 ->
  SkPoint.fY (SkLayer.m_scale (base l)) <= 1 ->
  let b := base l in
  let ax := SkPoint.fX (SkLayer.m_anchorPoint b) * SkSize.width (SkLayer.m_size b) in
  let ay := SkPoint.fY (SkLayer.m_anchorPoint b) * SkSize.height (SkLayer.m_size b) in
  let m := layerMatrix viewPort l in
  SkMatrix.scaleX m == cos_deg (SkLayer.m_angleTransform b) /\
  SkMatrix.skewY m == sin_deg (SkLayer.m_angleTransform b) /\
  SkMatrix.skewX m == - sin_deg (SkLayer.m_angleTransform b) /\
  SkMatrix.scaleY m == cos_deg (SkLayer.m_angleTransform b) /\
  SkMatrix.mapXY m (SkPoint.mk ax ay)
  ≡ SkPoint.mk (SkLayer.offsetX b + ax) (SkLayer.offsetY b + ay).
Proof.
  intros Hn Hr Hx Hy. cbn zeta.
  rewrite (layerMatrix_rotated_eq _ _ Hn Hr Hx Hy).
  set (ax := _ * SkSize.width _). set (ay := _ * SkSize.height _).
  destruct (SkMatrix.postTranslate_linear
    (SkMatrix.preTranslate (SkMatrix.preRotate (SkMatrix.preTranslate SkMatrix.reset ax ay)
       (SkLayer.m_angleTransform (base l))) (- ax) (- ay))
    (SkPoint.fX (SkLayer.m_translation (base l)) + SkPoint.fX (SkLayer.m_position (base l)))
    (SkPoint.fY (SkLayer.m_translation (base l)) + SkPoint.fY (SkLayer.m_position (base l))))
    as (-> & -> & -> & ->).
  destruct (SkMatrix.rotate_about_linear ax ay (SkLayer.m_angleTransform (base l)))
    as (-> & -> & -> & ->).
  split_and!; try reflexivity.
  rewrite SkMatrix.mapXY_postTranslate, SkMatrix.rotate_about_fixes_pivot.
  unfold SkLayer.offsetX, SkLayer.offsetY. split; simpl; ring.
Qed.

(** *** The display list of a tree *)

Lemma elem_of_render viewPort st ctm clip inherited opacity l d :
  d ∈ render viewPort st ctm clip inherited opacity l <->
  let clip' := if m_haveClip l then (ctm, clipOf l) :: clip else clip in
  d ∈ renderSelf viewPort st ctm clip' inherited opacity l \/
  exists c, c ∈ children l /\
    d ∈ render viewPort st
          (SkMatrix.preTranslate ctm (SkLayer.offsetX (base l)) (SkLayer.offsetY (base l)))
          clip' inherited (opacity * SkLayer.m_opacity (base l)) c.
Proof.
  rewrite render_unfold. cbn zeta. rewrite elem_of_app, list_elem_of_join.
  setoid_rewrite list_elem_of_fmap. split; (intros [?|Hd]; [by left|right]).
  - destruct Hd as (ds & Hd & c & -> & Hc). eauto.
  - destruct Hd as (c & Hc & Hd). eauto.
Qed.

Lemma elem_of_renderSelf viewPort st ctm clip inherited opacity l d :
  d ∈ renderSelf viewPort st ctm clip inherited opacity l ->
  paints l = true /\
  drawn_matrix d = SkMatrix.concat ctm (layerMatrix viewPort l) /\
  drawn_clip d = clip /\
  exists cmd, cmd ∈ from_option (pic_commands st) [] (m_recordingPicture l) /\
    drawn_alpha d = paintAlpha inherited opacity l (cmd_paint cmd).
Proof.
  unfold renderSelf, renderSelf_under. destruct (paints l); [|by intros ?%elem_of_nil].
  intros (cmd & -> & Hcmd)%list_elem_of_fmap. split_and!; try done.
  exists cmd. split; [done|]. unfold drawn_alpha. simpl. by rewrite cmd_paint_with_paint.
Qed.

(** C27: what a fixed child draws is part of what its parent's subtree draws,
    and it is placed by the parent's matrix moved to the parent's offset
    and then by the fixed translation: the origin of the child lands at
    the parent's offset plus the fixed position, not at the fixed position
    itself. *)
Theorem render_fixed_child vp st ctm clip inherited opacity l c d :
  c ∈ children l -> SkLayer.m_isFixed (base c) = true ->
  let ctm' := SkMatrix.preTranslate ctm (SkLayer.offsetX (base l))
                                        (SkLayer.offsetY (base l)) in
  let clip' := if m_haveClip l then (ctm, clipOf l) :: clip else clip in
  let clip'' := if m_haveClip c then (ctm', clipOf c) :: clip' else clip' in
  d ∈ renderSelf (Some vp) st ctm' clip'' inherited
        (opacity * SkLayer.m_opacity (base l)) c ->
  d ∈ render (Some vp) st ctm clip inherited opacity l /\
  SkMatrix.mapXY (drawn_matrix d) (SkPoint.mk 0 0)
  ≡ SkMatrix.mapXY ctm (SkPoint.mk (SkLayer.offsetX (base l) + fixedX vp c)
                                   (SkLayer.offsetY (base l) + fixedY vp c)).
Proof.
  intros Hc Hf ctm' clip' clip'' Hd. split.
  - apply elem_of_render. right. exists c. split; [done|].
    apply elem_of_render. by left.
  - apply elem_of_renderSelf in Hd as (_ & -> & _).
    rewrite (layerMatrix_fixed_eq vp c Hf).
    subst ctm'. unfold SkMatrix.preTranslate.
    rewrite !SkMatrix.mapXY_concat, !SkMatrix.mapXY_setTranslate.
    apply SkMatrix.mapXY_proper; [done|]. split; simpl; ring.
Qed.

(** *** The opacity of what is drawn *)

Lemma chainOpacity_nil l : chainOpacity [] l == SkLayer.m_opacity (base l).
Proof. unfold chainOpacity. cbn. ring. Qed.

Lemma chainOpacity_cons i path l c :
  children l !! i = Some c ->
  chainOpacity (i :: path) l == SkLayer.m_opacity (base l) * chainOpacity path c.
Proof. intros Hc. unfold chainOpacity. cbn. by rewrite Hc. Qed.

Lemma paintAlpha_alphaUnder inherited opacity l (pt : SkPaint) x :
  x == opacity * SkLayer.m_opacity (base l) ->
  paintAlpha inherited opacity l pt = alphaUnder inherited (Qtrunc (x * 255)) pt.
Proof.
  intros E. unfold paintAlpha, alphaUnder, canvasOpacity.
  by replace (Qtrunc (x * 255)) with (Qtrunc (opacity * SkLayer.m_opacity (base l) * 255))
    by (by rewrite E).
Qed.

(** C23: opacities stack down the tree.  Everything a paint of a tree draws
    is a command of the picture of a node that paints, and it is drawn
    with the alpha of that node: the opacity the paint starts with times
    the opacities of the nodes from the root of the tree to the node,
    times 255, converted to [int], which cuts the fraction off; when that
    is 255 no filter is installed and the command keeps the alpha it
    has under the filter in force. *)
Theorem render_opacity_chain viewPort st inherited l :
  forall ctm clip opacity d,
    d ∈ render viewPort st ctm clip inherited opacity l ->
    exists path c cmd,
      subtreeAt path l = Some c /\ paints c = true /\
      cmd ∈ from_option (pic_commands st) [] (m_recordingPicture c) /\
      drawn_alpha d
      = alphaUnder inherited (Qtrunc (opacity * chainOpacity path l * 255)) (cmd_paint cmd).
Proof.
  induction l as [l IH] using layer_ind.
  intros ctm clip opacity d [Hd|(c & Hc & Hd)]%elem_of_render.
  - apply elem_of_renderSelf in Hd as (Hp & _ & _ & cmd & Hcmd & ->).
    exists [], l, cmd. split_and!; [done..|].
    apply paintAlpha_alphaUnder. by rewrite chainOpacity_nil.
  - rewrite Forall_forall in IH. destruct (list_elem_of_lookup_1 _ _ Hc) as [i Hi].
    destruct (IH c Hc _ _ _ d Hd) as (path & c' & cmd & Hs & Hp & Hcmd & ->).
    exists (i :: path), c', cmd. cbn [subtreeAt]. rewrite Hi. split_and!; [done..|].
    f_equal. apply Qtrunc_proper. rewrite (chainOpacity_cons i path l c Hi). ring.
Qed.

(** The paints of a node's picture have their alpha in range. *)
Definition alphas_ok (st : PictureStore) l : Prop :=
  Forall (fun cmd => (0 <= getAlpha (cmd_paint cmd) <= 255)%Z)
         (from_option (pic_commands st) [] (m_recordingPicture l)).

Lemma paintAlpha_range st inherited opacity l cmd :
  0 <= opacity <= 1 -> SkLayer.opacity_ok (base l) -> alphas_ok st l ->
  from_option (fun a => (0 <= a <= 255)%Z) True inherited ->
  cmd ∈ from_option (pic_commands st) [] (m_recordingPicture l) ->
  (0 <= paintAlpha inherited opacity l (cmd_paint cmd) <= 255)%Z.
Proof.
  intros Ho Hl Ha Hi Hcmd. unfold paintAlpha.
  destruct (canvasOpacity opacity l =? 255)%Z; [|by apply canvasOpacity_bounds].
  destruct inherited as [a|]; [done|].
  unfold alphas_ok in Ha. rewrite Forall_forall in Ha. by apply Ha.
Qed.

(** C39: when every opacity of the tree is between 0 and 1 and the paints of
    the pictures and the filter in force have an alpha between 0 and 255,
    everything the tree draws has an alpha between 0 and 255. *)
Theorem render_alpha_range viewPort st inherited l :
  Forall (fun n => SkLayer.opacity_ok (base n) /\ alphas_ok st n) (nodes l) ->
  from_option (fun a => (0 <= a <= 255)%Z) True inherited ->
  forall ctm clip opacity, 0 <= opacity <= 1 ->
    Forall (fun d => (0 <= drawn_alpha d <= 255)%Z)
           (render viewPort st ctm clip inherited opacity l).
Proof.
  induction l as [l IH] using layer_ind.
  intros [[Hl Ha] Hcs]%Forall_nodes Hi ctm clip opacity Ho.
  apply Forall_forall. intros d [Hd|(c & Hc & Hd)]%elem_of_render.
  - apply elem_of_renderSelf in Hd as (_ & _ & _ & cmd & Hcmd & ->).
    by eapply paintAlpha_range.
  - rewrite Forall_forall in IH, Hcs.
    pose proof (fun ctm' clip' =>
      IH c Hc (Hcs c Hc) Hi ctm' clip' _
         (Qmult_unit_interval opacity (SkLayer.m_opacity (base l)) Ho Hl)) as IHc.
    exact (proj1 (Forall_forall _ _) (IHc _ _) d Hd).
Qed.

End PaintTheorems.

(** ** Witnesses

    The scene of a root with one child of 100 by 50 at (10, 20) that draws
    its content, a red rectangle, its picture up to date; and a painter
    with that picture in its store and a canvas with nothing on it. *)

Definition demo_child : LayerAndroid KeyframeAnimation :=
  setDrawsContent true (setPosition 10%Q 20%Q demo_recorded).

Definition demo_scene : LayerAndroid KeyframeAnimation :=
  addChild demo_child (LayerAndroid_new true init_globals).1.

Definition demo_painter : Painter :=
  mkPainter demo_store (new_canvas SkMatrix.reset) init_globals.

(** The same child, fixed at 10 from the left and 20 from the top, under a
    parent at (500, 500). *)
Definition demo_fixed_child : LayerAndroid KeyframeAnimation :=
  setFixedPosition (SkLength.fixed 10%Q) (SkLength.fixed 20%Q)
                   SkLength.undefined SkLength.undefined demo_child.

Definition demo_parent : LayerAndroid KeyframeAnimation :=
  addChild demo_fixed_child (setPosition 500%Q 500%Q demo_leaf).

Definition demo_viewport : SkRect.t := SkRect.of_xywh 0%Q 0%Q 1000%Q 1000%Q.

Lemma demo_scene_up_to_date : up_to_date demo_store demo_scene.
Proof.
  apply Forall_nodes. split; [by left|].
  apply Forall_cons. split; [|constructor].
  apply Forall_nodes. split; [|constructor].
  right. right. split_and!; [done|by eexists|by intros p [= <-]].
Qed.

Definition demo_half : LayerAndroid KeyframeAnimation := setOpacity (1 # 2)%Q demo_child.

(** A root of opacity one half over the child of opacity one half, and
    what a paint of it draws: the rectangle of the child, at the alpha 63
    of 0.5 * 0.5 * 255 = 63.75. *)
Definition demo_stack : LayerAndroid KeyframeAnimation :=
  addChild demo_half (setOpacity (1 # 2)%Q (LayerAndroid_new true init_globals).1).

Definition demo_stack_drawn : Drawn :=
  mkDrawn (DrawRect (SkRect.of_xywh 0%Q 0%Q 100%Q 50%Q) (mkPaint 4294901760%Z 63%Z))
          (SkMatrix.mk 1%Q 0%Q 10%Q 0%Q 1%Q 20%Q) [].

Lemma demo_stack_render :
  render None demo_store SkMatrix.reset [] None 1%Q demo_stack = [demo_stack_drawn].
Proof. by vm_compute. Qed.

(** The child pinned at 10 from the right and 20 from the bottom. *)
Definition demo_fixed_corner : LayerAndroid KeyframeAnimation :=
  setFixedPosition SkLength.undefined SkLength.undefined
                   (SkLength.fixed 10%Q) (SkLength.fixed 20%Q) demo_child.

(** What the fixed child draws under its parent. *)
Definition demo_fixed_drawn : Drawn :=
  mkDrawn demo_rect (SkMatrix.mk 1%Q 0%Q 510%Q 0%Q 1%Q 520%Q) [].

Lemma demo_scene_ok :
  Forall (fun n => SkLayer.opacity_ok (base n) /\ alphas_ok demo_store n)
         (nodes demo_scene).
Proof.
  apply Forall_nodes. split; [split; [by vm_compute|constructor]|].
  apply Forall_cons. split; [|constructor].
  apply Forall_nodes. split; [|constructor].
  split; [by vm_compute|]. by repeat constructor.
Qed.

Lemma demo_fixed_drawn_in :
  demo_fixed_drawn ∈
    renderSelf (Some demo_viewport) demo_store
      (SkMatrix.preTranslate SkMatrix.reset (SkLayer.offsetX (base demo_parent))
                             (SkLayer.offsetY (base demo_parent)))
      [] None (1 * SkLayer.m_opacity (base demo_parent))%Q demo_fixed_child.
Proof. vm_compute. apply list_elem_of_here. Qed.

Lemma paintChildren_ownership_witness :
  let r := paintChildren None 1%Q demo_family demo_painter in
  store_wf (pictures r.2) /\ owned (pictures r.2) r.1 /\
  forall q, (refcnt (pictures r.2) q + tree_refs q demo_family
             = refcnt (pictures demo_painter) q + tree_refs q r.1)%nat.
Proof.
  exact (paintChildren_ownership None 1%Q demo_family demo_painter
           demo_store_wf demo_family_owned).
Defined.

Lemma draw_renders_witness :
  let r := draw None demo_scene demo_painter in
  r.1 = demo_scene /\ pictures r.2 = pictures demo_painter /\
  display (canvas r.2) =
    display (canvas demo_painter) ++
    render None (pictures demo_painter) (fMatrix (top (canvas demo_painter)))
           (fClip (top (canvas demo_painter))) (filter_opacity (canvas demo_painter))
           1%Q demo_scene /\
  gDebugChildLevel (globals r.2) = 0%Z.
Proof. exact (draw_renders None demo_scene demo_painter demo_scene_up_to_date). Defined.

Lemma canvasOpacity_range_witness :
  (0 <= canvasOpacity (1 # 2)%Q demo_half <= 255)%Z /\
  (canvasOpacity (1 # 2)%Q demo_half = 255%Z <->
   ((1 # 2) == 1)%Q /\ (SkLayer.m_opacity (base demo_half) == 1)%Q).
Proof.
  apply (canvasOpacity_range (1 # 2)%Q demo_half); by vm_compute.
Defined.

Lemma layerMatrix_fixed_witness :
  layerMatrix (Some demo_viewport) demo_fixed_corner =
    SkMatrix.setTranslate (fixedX demo_viewport demo_fixed_corner)
                          (fixedY demo_viewport demo_fixed_corner) /\
  (fixedX demo_viewport demo_fixed_corner + 100 == 1000 - 10)%Q /\
  (fixedY demo_viewport demo_fixed_corner + 50 == 1000 - 20)%Q.
Proof.
  destruct (layerMatrix_fixed demo_viewport demo_fixed_corner eq_refl) as (E & X & Y).
  split_and!; [exact E|exact (X eq_refl eq_refl)|exact (Y eq_refl eq_refl)].
Defined.

Lemma render_opacity_chain_witness :
  exists path c cmd,
    subtreeAt path demo_stack = Some c /\ paints c = true /\
    cmd ∈ from_option (pic_commands demo_store) [] (m_recordingPicture c) /\
    drawn_alpha demo_stack_drawn
    = alphaUnder None (Qtrunc (1 * chainOpacity path demo_stack * 255)) (cmd_paint cmd).
Proof.
  apply (render_opacity_chain None demo_store None demo_stack SkMatrix.reset [] 1%Q
           demo_stack_drawn).
  rewrite demo_stack_render. apply list_elem_of_here.
Defined.

Lemma layerMatrix_plain_witness :
  layerMatrix None demo_child
  ≡ SkMatrix.setTranslate (SkLayer.offsetX (base demo_child))
                          (SkLayer.offsetY (base demo_child)).
Proof.
  apply (layerMatrix_plain None demo_child); [by left|done|by vm_compute..].
Defined.

Lemma layerMatrix_scaled_witness :
  let l := setScale 2%Q 2%Q demo_child in
  let m := layerMatrix None l in
  (SkMatrix.scaleX m == 2)%Q /\ (SkMatrix.scaleY m == 2)%Q /\
  (SkMatrix.skewX m == 0)%Q /\ (SkMatrix.skewY m == 0)%Q /\
  SkMatrix.mapXY m (SkPoint.mk (100 / 2)%Q (50 / 2)%Q)
  ≡ SkPoint.mk (10 + 0 + 100 / 2)%Q (20 + 0 + 50 / 2)%Q.
Proof.
  apply (layerMatrix_scaled None (setScale 2%Q 2%Q demo_child));
    [by left|done|left; by vm_compute].
Defined.

Lemma layerMatrix_rotated_witness :
  let l := setRotation 90%Q demo_child in
  let m := layerMatrix None l in
  (SkMatrix.scaleX m == cos_deg 90)%Q /\ (SkMatrix.skewY m == sin_deg 90)%Q /\
  (SkMatrix.skewX m == - sin_deg 90)%Q /\ (SkMatrix.scaleY m == cos_deg 90)%Q /\
  SkMatrix.mapXY m (SkPoint.mk ((1 # 2) * 100)%Q ((1 # 2) * 50)%Q)
  ≡ SkPoint.mk (10 + 0 + (1 # 2) * 100)%Q (20 + 0 + (1 # 2) * 50)%Q.
Proof.
  apply (layerMatrix_rotated None (setRotation 90%Q demo_child));
    [by left|done|by vm_compute..].
Defined.

Lemma render_fixed_child_witness :
  demo_fixed_drawn ∈ render (Some demo_viewport) demo_store SkMatrix.reset [] None 1%Q
                            demo_parent /\
  SkMatrix.mapXY (drawn_matrix demo_fixed_drawn) (SkPoint.mk 0%Q 0%Q)
  ≡ SkMatrix.mapXY SkMatrix.reset
      (SkPoint.mk (SkLayer.offsetX (base demo_parent)
                   + fixedX demo_viewport demo_fixed_child)%Q
                  (SkLayer.offsetY (base demo_parent)
                   + fixedY demo_viewport demo_fixed_child)%Q).
Proof.
  apply (render_fixed_child demo_viewport demo_store SkMatrix.reset [] None 1%Q
           demo_parent demo_fixed_child demo_fixed_drawn);
    [apply list_elem_of_here|done|exact demo_fixed_drawn_in].
Defined.

Lemma render_alpha_range_witness :
  Forall (fun d => (0 <= drawn_alpha d <= 255)%Z)
         (render None demo_store SkMatrix.reset [] None 1%Q demo_scene).
Proof.
  apply (render_alpha_range None demo_store None demo_scene demo_scene_ok);
    [done|by vm_compute].
Defined.
