(* ===== verification/PaintCalls.v ===== *)
(** * PaintCalls: the calls a paint makes on the canvas

    [paintChildren] saves the canvas once for every node it visits (line
    183) and [paintMe] once more for every node that draws (line 241, the
    [SkAutoCanvasRestore]); each save is undone by one [restoreToCount] or
    by the destructor of the guard.  This file counts the calls in the
    log of the canvas and shows that a paint makes as many restores as
    saves, and how many. *)

From S2P Require Import Prelude Geometry Matrix Picture SkLayer Animation.
From S2P Require Import Canvas Layer Context Lifecycle Ownership Paint.

Definition isSave (k : CanvasCall) : bool :=
  match k with
  | CallSave => true
  | _ => false
  end.

Definition isRestore (k : CanvasCall) : bool :=
  match k with
  | CallRestoreToCount _ => true
  | _ => false
  end.

(** The number of calls of a kind in a log. *)
Definition countCalls (kind : CanvasCall -> bool) (ks : list CanvasCall) : nat :=
  sum_list ((fun k => if kind k then 1 else 0) <$> ks).

Section PaintCalls.
Context {A : Type} `{Trig}.
Implicit Types (l d : LayerAndroid A) (viewPort : option SkRect.t) (opacity : Q).
Implicit Types (p : Painter) (c : SkCanvas) (kind : CanvasCall -> bool).

(** The saves of a paint of the tree: one for each node, and one more for
    each node that draws. *)
Definition treeSaves l : nat :=
  sum_list ((fun d => if paints d then 2 else 1) <$> nodes l).

Lemma treeSaves_unfold l :
  treeSaves l = (if paints l then 2 else 1) + sum_list (treeSaves <$> children l).
Proof.
  unfold treeSaves. rewrite nodes_unfold, fmap_cons. cbn [sum_list_with id].
  by rewrite sum_list_fmap_join, <- list_fmap_compose.
Qed.

Lemma onCanvas_canvas {X} (m : State SkCanvas X) p :
  canvas (onCanvas m p).2 = (m (canvas p)).2.
Proof. by rewrite onCanvas_run. Qed.

Lemma countCalls_app kind ks1 ks2 :
  countCalls kind (ks1 ++ ks2) = countCalls kind ks1 + countCalls kind ks2.
Proof. unfold countCalls. by rewrite fmap_app, sum_list_with_app. Qed.

Lemma countCalls_draws kind cmds :
  kind = isSave \/ kind = isRestore -> countCalls kind (CallDraw <$> cmds) = 0.
Proof. intros [-> | ->]; induction cmds; by cbn. Qed.

(** One [selfPaint] saves once and restores once. *)
Lemma selfPaintCalls_count kind viewPort opacity l cmds n :
  kind = isSave \/ kind = isRestore ->
  countCalls kind (selfPaintCalls viewPort opacity l cmds n) = 1.
Proof.
  intros Hk. unfold selfPaintCalls. rewrite !countCalls_app, countCalls_draws by done.
  destruct Hk as [-> | ->]; by destruct (_ =? _)%Z.
Qed.

Lemma paintMe_count kind viewPort opacity l p :
  kind = isSave \/ kind = isRestore ->
  countCalls kind (calls (canvas (paintMe viewPort opacity l p).2))
  = countCalls kind (calls (canvas p)) + (if paints l then 1 else 0).
Proof.
  intros Hk. rewrite paintMe_run. cbn zeta. cbn [snd canvas]. rewrite paintMe_draws.
  destruct (paints l); [|lia].
  by rewrite selfPaint_calls, countCalls_app, selfPaintCalls_count.
Qed.

(** The calls of [paintChildren] other than those of [paintMe] and of the
    children: a save first and a restore last. *)
Lemma paintChildren_count kind l :
  kind = isSave \/ kind = isRestore ->
  forall viewPort opacity p,
    countCalls kind (calls (canvas (paintChildren viewPort opacity l p).2))
    = countCalls kind (calls (canvas p)) + treeSaves l.
Proof.
  intros Hk. induction l as [l IH] using layer_ind. intros viewPort opacity p.
  rewrite paintChildren_run, treeSaves_unfold. cbn zeta.
  cbn [snd]. rewrite onCanvas_canvas, restoreToCount_calls, countCalls_app.
  rewrite (mapS_additive (fun p0 => countCalls kind (calls (canvas p0))) treeSaves).
  2: { intros c p0 Hc. rewrite paintChild_run. cbn zeta. unfold childLevelDown, childLevelUp.
       rewrite !onGlobals_run. cbn [snd canvas]. rewrite Forall_forall in IH.
       by rewrite (IH c Hc). }
  rewrite onCanvas_canvas. cbn [snd translate modify log with_top calls].
  rewrite countCalls_app, paintMe_count by done.
  assert (countCalls kind (calls (canvas (when (m_haveClip l) (onCanvas (setClip l))
                                           (onCanvas save p).2).2))
          = countCalls kind (calls (canvas p)) + countCalls kind [CallSave]) as ->.
  { destruct (m_haveClip l); cbn [when ret snd]; rewrite !onCanvas_canvas;
      cbn [snd setClip clipRect modify log with_top calls save];
      rewrite ?countCalls_app; destruct Hk as [-> | ->]; cbn; lia. }
  destruct Hk as [-> | ->]; cbn; destruct (paints l); lia.
Qed.

(** C24: a paint of a tree saves the canvas once for every node and once
    more for every node that draws, and restores it as many times: the
    log of the canvas gains that many saves and that many restores. *)
Theorem paintChildren_saves viewPort opacity l p :
  let c' := canvas (paintChildren viewPort opacity l p).2 in
  countCalls isSave (calls c') = countCalls isSave (calls (canvas p)) + treeSaves l /\
  countCalls isRestore (calls c')
  = countCalls isRestore (calls (canvas p)) + treeSaves l /\
  countNodes l <= treeSaves l <= 2 * countNodes l.
Proof.
  cbn zeta. rewrite !paintChildren_count by auto. split_and!; [done..| |];
    rewrite <- nodes_length; unfold treeSaves; induction (nodes l) as [|d ds IHd];
    cbn; try lia; destruct (paints d); lia.
Qed.

End PaintCalls.

(** The scene of one layer with contents below a root takes three saves
    and three restores. *)
Lemma demo_scene_saves :
  treeSaves demo_scene = 3 /\
  countCalls isSave (calls (canvas (draw None demo_scene demo_painter).2)) = 3 /\
  countCalls isRestore (calls (canvas (draw None demo_scene demo_painter).2)) = 3.
Proof. by vm_compute. Qed.
