(* ===== verification/World.v ===== *)
(** * World: the layers of a process and what is done to them

    The layout engine, the animation clock and the rasteriser drive the
    layer code: they build trees, set properties on their nodes, record
    and paint them, copy them for the drawing thread and destroy them.
    This file puts the operations of the other files together as one
    transition system.  A [World] holds the picture store, the counters
    of the process and the trees the embedder holds; an [Event] names an
    operation and the node it is called on, by the index of the tree and
    the path from its root; [step] runs the operation with the code's
    definitions ([LayerAndroid_new], [LayerAndroid_copy],
    [LayerAndroid_delete], [removeChildren], the setters,
    [recordContext], [evaluateAnimations], [draw]) and fails on a tree or
    a node that does not exist.

    The theorems show, by induction on the steps, that every world the
    process can reach keeps its accounts: the store is well-formed, the
    reference count of every picture is the number of nodes that hold it,
    so that no picture leaks and none is freed while a node holds it, and
    the instance counter is the number of nodes alive. *)

From S2P Require Import Prelude Geometry Matrix Picture SkLayer Animation.
From S2P Require Import Canvas Layer Animate Context Lifecycle Ownership Paint.

(** ** Operations on a node of a tree *)

Section World.
Context {A : Type} `{AndroidAnimation A} `{Trig} {policy : AddPolicy}.
Implicit Types (l c child : LayerAndroid A) (path : list nat) (q : PicRef).
Implicit Types (st : PictureStore) (g : Globals) (rt : Runtime).

(** A method of a node, as it acts on the node's subtree and the process. *)
Definition Op : Type := LayerAndroid A -> State Runtime (LayerAndroid A).

(** Run a method on the node a path leads to; the ancestors see the child
    it leaves in place of the one it found. *)
Fixpoint modifyAt (op : Op) path l : State Runtime (LayerAndroid A) :=
  match path with
  | [] => op l
  | i :: path' =>
      match children l !! i with
      | Some c =>
          c' <- modifyAt op path' c ;;
          ret (with_children (<[i := c']> (children l)) l)
      | None => ret l
      end
  end.

(** The setters of a layer. *)
Inductive Setter : Type :=
  | SetSize (w h : Q)
  | SetOpacity (a : Q)
  | SetPosition (x y : Q)
  | SetTranslation (x y : Q)
  | SetAnchorPoint (x y : Q)
  | SetScale (x y : Q)
  | SetRotation (a : Q)
  | SetFixedPosition (fixedLeft fixedTop fixedRight fixedBottom : SkLength.t)
  | SetHaveContents (b : bool)
  | SetHaveImage (b : bool)
  | SetDrawsContent (b : bool)
  | SetMasksToBounds (b : bool)
  | SetMaskLayer (mask : bool)
  | SetBackgroundColor (color : SkColor)
  | AddAnimation (anim : A)
  | RemoveAnimation (nm : string).

Definition applySetter (s : Setter) l : LayerAndroid A :=
  match s with
  | SetSize w h => setSize w h l
  | SetOpacity a => setOpacity a l
  | SetPosition x y => setPosition x y l
  | SetTranslation x y => setTranslation x y l
  | SetAnchorPoint x y => setAnchorPoint x y l
  | SetScale x y => setScale x y l
  | SetRotation a => setRotation a l
  | SetFixedPosition fixedLeft fixedTop fixedRight fixedBottom =>
      setFixedPosition fixedLeft fixedTop fixedRight fixedBottom l
  | SetHaveContents b => setHaveContents b l
  | SetHaveImage b => setHaveImage b l
  | SetDrawsContent b => setDrawsContent b l
  | SetMasksToBounds b => setMasksToBounds b l
  | SetMaskLayer mask => setMaskLayer (if mask then Some l else None) l
  | SetBackgroundColor color => setBackgroundColor color l
  | AddAnimation anim => addAnimation anim l
  | RemoveAnimation nm => removeAnimation nm l
  end.

Definition opSet (s : Setter) : Op := fun l => ret (applySetter s l).

(** [addChild]: the node takes over a tree of the embedder. *)
Definition opAdopt child : Op := fun l => ret (addChild child l).

(** The layout engine records the content of a node: [recordContext], and
    the commands into the picture it returns, if it returns one. *)
Definition opRecord (cmds : list DrawCmd) : Op := fun l =>
  onStore (r <- recordContext l ;;
           match r.1 with
           | Some p => record p (intWidth l) (intHeight l) cmds
           | None => ret tt
           end ;;
           ret r.2).

(** The animation clock: [evaluateAnimations]; the verdict is dropped. *)
Definition opAnimate (now : Q) : Op := fun l =>
  r <- onCounters (evaluateAnimations now l) ;;
  ret r.2.

(** The rasteriser: [draw] on a canvas of its own, which it keeps. *)
Definition opDraw (viewPort : option SkRect.t) (cv : SkCanvas) : Op := fun l rt =>
  let r := draw viewPort l (mkPainter rt.1 cv rt.2) in
  (r.1, (pictures r.2, globals r.2)).

(** ** The transition system *)

Record World : Type := mkWorld {
  runtime : Runtime;
  trees : list (LayerAndroid A) }.

Definition init_world : World := mkWorld (empty_store, init_globals) [].

Inductive Event : Type :=
  | EvNew (isRootLayer : bool)
  | EvCopy (i : nat) (path : list nat)
  | EvDelete (i : nat)
  | EvAdopt (i : nat) (path : list nat) (j : nat)
  | EvRemoveChildren (i : nat) (path : list nat)
  | EvSet (i : nat) (path : list nat) (s : Setter)
  | EvRecord (i : nat) (path : list nat) (cmds : list DrawCmd)
  | EvAnimate (i : nat) (path : list nat) (now : Q)
  | EvDraw (i : nat) (path : list nat) (viewPort : option SkRect.t) (cv : SkCanvas).

(** Run a method on a node of a tree of the world; there is no result when
    the tree or the node does not exist. *)
Definition modifyTree (i : nat) path (op : Op) (w : World) : option World :=
  l ← trees w !! i;
  _ ← subtreeAt path l;
  let r := modifyAt op path l (runtime w) in
  Some (mkWorld r.2 (<[i := r.1]> (trees w))).

Definition step (ev : Event) (w : World) : option World :=
  match ev with
  | EvNew isRootLayer =>
      let r := LayerAndroid_new isRootLayer (runtime w).2 in
      Some (mkWorld ((runtime w).1, r.2) (trees w ++ [r.1]))
  | EvCopy i path =>
      l ← trees w !! i ≫= subtreeAt path;
      let r := LayerAndroid_copy l (runtime w) in
      Some (mkWorld r.2 (trees w ++ [r.1]))
  | EvDelete i =>
      l ← trees w !! i;
      Some (mkWorld (LayerAndroid_delete l (runtime w)).2 (delete i (trees w)))
  | EvAdopt i path j =>
      if decide (i = j) then None
      else
        child ← trees w !! j;
        w' ← modifyTree i path (opAdopt child) w;
        Some (mkWorld (runtime w') (delete j (trees w')))
  | EvRemoveChildren i path => modifyTree i path removeChildren w
  | EvSet i path s => modifyTree i path (opSet s) w
  | EvRecord i path cmds => modifyTree i path (opRecord cmds) w
  | EvAnimate i path now => modifyTree i path (opAnimate now) w
  | EvDraw i path viewPort cv => modifyTree i path (opDraw viewPort cv) w
  end.

(** A sequence of events, from the left; it fails where a step fails. *)
Definition run (evs : list Event) (w : World) : option World :=
  foldl (fun o ev => o ≫= step ev) (Some w) evs.

(** The worlds the process can be in. *)
Inductive reachable : World -> Prop :=
  | reachable_init : reachable init_world
  | reachable_step ev w w' : reachable w -> step ev w = Some w' -> reachable w'.

(** ** The accounts *)

(** The references the trees hold to a picture, and their nodes. *)
Definition world_refs q (ts : list (LayerAndroid A)) : nat :=
  sum_list (tree_refs q <$> ts).

Definition world_nodes (ts : list (LayerAndroid A)) : nat :=
  sum_list (countNodes <$> ts).

Record world_ok (w : World) : Prop := mkWorldOk {
  ok_store : store_wf (runtime w).1;
  ok_refs : forall q, refcnt (runtime w).1 q = world_refs q (trees w);
  ok_instances : instancesCount (runtime w).2 = Z.of_nat (world_nodes (trees w)) }.

(** What a run of a method may do to the accounts: the counts of the store
    move by the references the subtree gained or gave up, and the instance
    counter by its nodes; [refs] and [n] are what the subtree gains
    without the store or the counter seeing it, when it takes over a
    tree. *)
Definition moves (refs : PicRef -> nat) (n : nat) l st g
    (r : LayerAndroid A * Runtime) : Prop :=
  store_wf r.2.1 /\
  (forall q, refcnt r.2.1 q + tree_refs q l + refs q = refcnt st q + tree_refs q r.1) /\
  (instancesCount r.2.2 + Z.of_nat (countNodes l) + Z.of_nat n
   = instancesCount g + Z.of_nat (countNodes r.1))%Z.

(** A method keeps the accounts when every run does, from a well-formed
    store that counts the references of the subtree. *)
Definition accounts (refs : PicRef -> nat) (n : nat) (op : Op) : Prop :=
  forall l st g, store_wf st -> owned st l -> moves refs n l st g (op l (st, g)).

(** The recordings of the nodes of a tree, the root first. *)
Definition recordings l : list (option PicRef) := m_recordingPicture <$> nodes l.

End World.

(** ** The methods keep the accounts *)

Section Accounts.
Context {A : Type} `{AndroidAnimation A} `{Trig} {policy : AddPolicy}.
Implicit Types (l c child : LayerAndroid A) (path : list nat) (q : PicRef).
Implicit Types (st : PictureStore) (g : Globals) (rt : Runtime) (op : Op (A:=A)).

Lemma recordings_unfold l :
  recordings l = m_recordingPicture l :: mjoin (recordings <$> children l).
Proof.
  unfold recordings. rewrite nodes_unfold, fmap_cons, list_fmap_join.
  by rewrite <- list_fmap_compose.
Qed.

(** The accounts of a tree are read off the recordings of its nodes. *)
Lemma tree_refs_recordings q l :
  tree_refs q l
  = sum_list ((fun o => if decide (o = Some q) then 1 else 0) <$> recordings l).
Proof. unfold tree_refs, recordings. by rewrite <- list_fmap_compose. Qed.

Lemma countNodes_recordings l : countNodes l = length (recordings l).
Proof. unfold recordings. by rewrite length_fmap, nodes_length. Qed.

(** A method that leaves the recording of its node and the children alone
    keeps the recordings of the tree. *)
Lemma recordings_local (f : LayerAndroid A -> LayerAndroid A) l :
  children (f l) = children l -> m_recordingPicture (f l) = m_recordingPicture l ->
  recordings (f l) = recordings l.
Proof. intros Hc Hr. by rewrite !recordings_unfold, Hc, Hr. Qed.

Lemma recordings_setDrawsContent b l : recordings (setDrawsContent b l) = recordings l.
Proof.
  induction l as [l IH] using layer_ind.
  rewrite setDrawsContent_unfold, (recordings_unfold l), recordings_unfold.
  cbn [children m_recordingPicture with_children with_drawsContent].
  rewrite <- list_fmap_compose. f_equal. f_equal. by apply Forall_fmap_ext_1.
Qed.

Lemma recordings_applySetter s l : recordings (applySetter s l) = recordings l.
Proof.
  destruct s; cbn [applySetter]; try by apply recordings_local.
  - apply recordings_setDrawsContent.
  - unfold setMaskLayer. repeat case_match; by try apply (recordings_local (with_haveClip true)).
  - unfold setBackgroundColor. rewrite recordings_setDrawsContent.
    by apply (recordings_local (fun l => setHaveContents true (with_base _ l))).
Qed.

Lemma recordings_animated time l : recordings (animated time l).2 = recordings l.
Proof.
  induction l as [l IH] using layer_ind.
  rewrite (recordings_unfold l), recordings_unfold, animated_children.
  rewrite <- list_fmap_compose. f_equal.
  - by rewrite <- (f_equal m_recordingPicture (animated_base_frame time l)).
  - f_equal. by apply Forall_fmap_ext_1.
Qed.

(** A run that changes neither store nor instance counter and keeps the
    recordings keeps the accounts. *)
Lemma moves_recordings l l' st g g' :
  store_wf st -> recordings l' = recordings l -> instancesCount g' = instancesCount g ->
  moves (fun _ => 0) 0 l st g (l', (st, g')).
Proof.
  intros Hwf Hr Hg. split_and!; [done|..]; cbn [fst snd].
  - intros q. by rewrite !tree_refs_recordings, Hr.
  - rewrite !countNodes_recordings, Hr, Hg. lia.
Qed.

Lemma accounts_opSet s : accounts (fun _ => 0) 0 (opSet s).
Proof.
  intros l st g Hwf _. apply moves_recordings; [done|apply recordings_applySetter|done].
Qed.

Lemma accounts_opAnimate now : accounts (fun _ => 0) 0 (opAnimate now).
Proof.
  intros l st g Hwf _. unfold opAnimate, evaluateAnimations.
  rewrite !bind_fst_snd, onCounters_run, bind_fst_snd, evaluateAnimations_at_run.
  apply moves_recordings; [done|apply recordings_animated|done].
Qed.

Lemma accounts_opAdopt child :
  accounts (fun q => tree_refs q child) (countNodes child) (opAdopt child).
Proof.
  intros l st g Hwf _. split_and!; [done|..]; cbn [opAdopt ret fst snd]; unfold addChild.
  - intros q. rewrite tree_refs_with_children, sum_list_fmap_snoc, (tree_refs_unfold q l). lia.
  - rewrite countNodes_with_children, sum_list_fmap_snoc, (countNodes_unfold l). lia.
Qed.

Lemma accounts_removeChildren : accounts (fun _ => 0) 0 (removeChildren (A:=A)).
Proof.
  intros l st g Hwf Ho. rewrite removeChildren_run. unfold moves. cbn [fst snd].
  destruct (unrefTrees_refcnt (children l) st Hwf) as [Hwf' E].
  { intros q. specialize (Ho q). rewrite tree_refs_unfold in Ho. lia. }
  split_and!; [done|..].
  - intros q. specialize (E q). rewrite tree_refs_with_children, (tree_refs_unfold q l).
    cbn. lia.
  - rewrite countNodes_with_children, (countNodes_unfold l). unfold instancesCount. cbn. lia.
Qed.

Lemma accounts_opRecord cmds : accounts (fun _ => 0) 0 (opRecord (A:=A) cmds).
Proof.
  intros l st g Hwf Ho. unfold moves, opRecord, recordContext.
  rewrite onStore_run, !bind_fst_snd. cbn [fst snd].
  pose proof (prepareContext_wf true l st Hwf) as Hwf'.
  pose proof (fun q => prepareContext_tree true l st q Hwf Ho) as E.
  unfold pc_store, pc_layer in *.
  destruct (prepareContext true l st) as [[b l'] st']. cbn [fst snd] in *.
  destruct b; cbn [ret fst snd]; [destruct (m_recordingPicture l')|];
    cbn [ret fst snd]; (split_and!; [auto using record_wf| |]);
    try (intros q; rewrite ?record_refcnt; destruct (E q); lia);
    destruct (E 1%positive); lia.
Qed.

Lemma accounts_opDraw viewPort cv : accounts (fun _ => 0) 0 (opDraw (A:=A) viewPort cv).
Proof.
  intros l st g Hwf Ho. unfold moves, opDraw, draw. cbn zeta. cbn [fst snd].
  rewrite bind_fst_snd, onGlobals_run. cbn [fst snd modify pictures canvas globals].
  set (p := mkPainter st cv (with_childLevel 0 g)).
  destruct (paintChildren_prepares l viewPort 1%Q p) as [-> ->].
  destruct (paintChildren_balanced_all l viewPort 1%Q p) as (_ & -> & _).
  destruct (prepareTree_refcnt l st Hwf Ho) as [Hwf' E].
  split_and!; [done|..]; cbn [fst snd pictures globals p].
  - intros q. specialize (E q). lia.
  - rewrite prepareTree_countNodes. unfold instancesCount. cbn. lia.
Qed.

(** A method that keeps the accounts keeps them when it is run on a node
    below the root. *)
Lemma modifyAt_moves refs n op path :
  accounts refs n op ->
  forall l st g, store_wf st -> owned st l -> is_Some (subtreeAt path l) ->
    moves refs n l st g (modifyAt op path l (st, g)).
Proof.
  intros Hop. induction path as [|i path IH]; intros l st g Hwf Ho Hp; [by apply Hop|].
  cbn [subtreeAt modifyAt] in *.
  destruct (children l !! i) as [c|] eqn:Hc; [|by destruct Hp].
  destruct (IH c st g Hwf) as (Hwf' & E & N); [|done|].
  { eapply owned_child; [done|]. by eapply list_elem_of_lookup_2. }
  rewrite bind_fst_snd. unfold moves. cbn [ret fst snd]. split_and!; [done|..].
  - intros q. specialize (E q). rewrite tree_refs_with_children, (tree_refs_unfold q l).
    pose proof (sum_list_fmap_insert (tree_refs q) _ i c
                  (modifyAt op path c (st, g)).1 Hc). lia.
  - rewrite countNodes_with_children, (countNodes_unfold l).
    pose proof (sum_list_fmap_insert countNodes _ i c
                  (modifyAt op path c (st, g)).1 Hc). lia.
Qed.

End Accounts.

(** ** Every step keeps the accounts of the world *)

Section Reachable.
Context {A : Type} `{AndroidAnimation A} `{Trig} {policy : AddPolicy}.
Implicit Types (l c child : LayerAndroid A) (path : list nat) (q : PicRef).
Implicit Types (w : World (A:=A)) (op : Op (A:=A)) (ev : Event (A:=A)).

Lemma world_owned w i l : world_ok w -> trees w !! i = Some l -> owned (runtime w).1 l.
Proof.
  intros [_ Hr _] Hi q. rewrite Hr. by apply (sum_list_fmap_lookup_le (tree_refs q) _ i).
Qed.

Lemma owned_subtree st path : forall l c, owned st l -> subtreeAt path l = Some c -> owned st c.
Proof.
  induction path as [|i path IH]; intros l c Ho Hc; cbn [subtreeAt] in Hc; [by simplify_eq|].
  destruct (children l !! i) as [d|] eqn:Hd; [|done]. apply (IH d); [|done].
  eapply owned_child; [done|]. by eapply list_elem_of_lookup_2.
Qed.

(** A method run on a node of a tree moves the accounts of the world as
    it moves those of the subtree, and leaves the other trees alone. *)
Lemma modifyTree_moves refs n op i path w w' :
  accounts refs n op -> world_ok w -> modifyTree i path op w = Some w' ->
  store_wf (runtime w').1 /\
  (forall q, refcnt (runtime w').1 q + refs q = world_refs q (trees w')) /\
  (instancesCount (runtime w').2 + Z.of_nat n = Z.of_nat (world_nodes (trees w')))%Z /\
  (forall j, i <> j -> trees w' !! j = trees w !! j).
Proof.
  intros Hop Hw. unfold modifyTree. destruct (trees w !! i) as [l|] eqn:Hl; [|done].
  cbn [mbind option_bind]. destruct (subtreeAt path l) as [c|] eqn:Hc; [|done].
  intros [= <-]. cbn [runtime trees]. pose proof (world_owned w i l Hw Hl) as Ho.
  destruct Hw as [Hwf Hr Hn]. destruct (runtime w) as [st g]. cbn [fst snd] in *.
  destruct (modifyAt_moves refs n op path Hop l st g Hwf Ho) as (Hwf' & E & N); [by eexists|].
  split_and!; [done|..].
  - intros q. specialize (E q). unfold world_refs. rewrite Hr in E.
    pose proof (sum_list_fmap_insert (tree_refs q) _ i l
                  (modifyAt op path l (st, g)).1 Hl). unfold world_refs in E. lia.
  - unfold world_nodes in *.
    pose proof (sum_list_fmap_insert countNodes _ i l (modifyAt op path l (st, g)).1 Hl).
    lia.
  - intros j Hj. by apply list_lookup_insert_ne.
Qed.

Lemma modifyTree_ok op i path w w' :
  accounts (fun _ => 0) 0 op -> world_ok w -> modifyTree i path op w = Some w' -> world_ok w'.
Proof.
  intros Hop Hw Hs. destruct (modifyTree_moves _ _ op i path w w' Hop Hw Hs) as (? & E & N & _).
  split; [done| |lia]. intros q. specialize (E q). lia.
Qed.

Lemma init_world_ok : world_ok (A:=A) init_world.
Proof. split; [apply store_wf_empty|done|done]. Qed.

Lemma step_new_ok isRootLayer w w' :
  world_ok w -> step (EvNew isRootLayer) w = Some w' -> world_ok w'.
Proof.
  intros [Hwf Hr Hn] [= <-]. split; cbn [runtime trees fst snd]; [done|..].
  - intros q. unfold world_refs. by rewrite sum_list_fmap_snoc, Hr, Nat.add_0_r.
  - unfold world_nodes, instancesCount in *. rewrite sum_list_fmap_snoc. cbn. lia.
Qed.

Lemma step_copy_ok i path w w' :
  world_ok w -> step (EvCopy i path) w = Some w' -> world_ok w'.
Proof.
  intros Hw. cbn [step]. destruct (trees w !! i) as [t|] eqn:Ht; [|done].
  cbn [mbind option_bind]. destruct (subtreeAt path t) as [l|] eqn:Hl; [|done].
  intros [= <-]. rewrite LayerAndroid_copy_run.
  pose proof (owned_subtree _ path t l (world_owned w i t Hw Ht) Hl) as Ho.
  destruct Hw as [Hwf Hr Hn]. destruct (refTree_refcnt l _ Hwf Ho) as [Hwf' E].
  split; cbn [runtime trees fst snd]; [done|..].
  - intros q. unfold world_refs. by rewrite sum_list_fmap_snoc, E, Hr, cloned_tree_refs.
  - unfold world_nodes in *.
    rewrite sum_list_fmap_snoc, (shape_countNodes _ _ (cloned_shape l)).
    unfold instancesCount in *. cbn. lia.
Qed.

Lemma step_delete_ok i w w' :
  world_ok w -> step (EvDelete i) w = Some w' -> world_ok w'.
Proof.
  intros Hw. cbn [step]. destruct (trees w !! i) as [l|] eqn:Hl; [|done].
  intros [= <-]. rewrite LayerAndroid_delete_run.
  pose proof (world_owned w i l Hw Hl) as Ho. destruct Hw as [Hwf Hr Hn].
  destruct (unrefTree_refcnt l _ Hwf Ho) as [Hwf' E].
  split; cbn [runtime trees fst snd]; [done|..].
  - intros q. specialize (E q). rewrite Hr in E. unfold world_refs in *.
    pose proof (sum_list_fmap_delete (tree_refs q) _ i l Hl). lia.
  - unfold world_nodes in *. pose proof (sum_list_fmap_delete countNodes _ i l Hl).
    unfold instancesCount in *. cbn. lia.
Qed.

Lemma step_adopt_ok i path j w w' :
  world_ok w -> step (EvAdopt i path j) w = Some w' -> world_ok w'.
Proof.
  intros Hw. cbn [step]. case_decide as Hij; [done|].
  destruct (trees w !! j) as [child|] eqn:Hj; [|done]. cbn [mbind option_bind].
  destruct (modifyTree i path (opAdopt child) w) as [w1|] eqn:Hs; [|done].
  intros [= <-].
  destruct (modifyTree_moves _ _ _ i path w w1 (accounts_opAdopt child) Hw Hs)
    as (Hwf & E & N & Hother).
  rewrite <- (Hother j Hij) in Hj. split; cbn [runtime trees]; [done|..].
  - intros q. specialize (E q). unfold world_refs in *.
    pose proof (sum_list_fmap_delete (tree_refs q) _ j child Hj). lia.
  - unfold world_nodes in *. pose proof (sum_list_fmap_delete countNodes _ j child Hj). lia.
Qed.

Lemma step_ok ev w w' : world_ok w -> step ev w = Some w' -> world_ok w'.
Proof.
  destruct ev;
    [ apply step_new_ok | apply step_copy_ok | apply step_delete_ok | apply step_adopt_ok
    | apply modifyTree_ok, accounts_removeChildren | apply modifyTree_ok, accounts_opSet
    | apply modifyTree_ok, accounts_opRecord | apply modifyTree_ok, accounts_opAnimate
    | apply modifyTree_ok, accounts_opDraw ].
Qed.

Lemma reachable_world_ok w : reachable w -> world_ok w.
Proof. induction 1; eauto using init_world_ok, step_ok. Qed.

Lemma run_snoc (evs : list (Event (A:=A))) ev w :
  run (evs ++ [ev]) w = run evs w ≫= step ev.
Proof. unfold run. by rewrite foldl_app. Qed.

(** What [run] reaches is reachable. *)
Lemma run_reachable (evs : list (Event (A:=A))) w w' :
  reachable w -> run evs w = Some w' -> reachable w'.
Proof.
  intros Hw. revert w'. induction evs as [|ev evs IH] using rev_ind; intros w'.
  - by intros [= <-].
  - rewrite run_snoc. destruct (run evs w) as [w1|]; [|done]. cbn.
    intros Hs. eapply reachable_step; [by apply IH|done].
Qed.

End Reachable.

(** ** Theorems *)

Section WorldTheorems.
Context {A : Type} `{AndroidAnimation A} `{Trig} {policy : AddPolicy}.
Implicit Types (l c d : LayerAndroid A) (path : list nat) (q : PicRef).
Implicit Types (w : World (A:=A)) (ev : Event (A:=A)).

Lemma run_cons ev (evs : list (Event (A:=A))) w : run (ev :: evs) w = step ev w ≫= run evs.
Proof.
  unfold run. cbn [foldl mbind option_bind]. destruct (step ev w) as [w1|]; [done|].
  cbn. by induction evs.
Qed.

(** C2: in every world the process can reach the accounts are right: the
    picture store is well-formed, the reference count of every picture is
    the number of nodes of the trees that hold it, and the instance
    counter is the number of nodes alive. *)
Theorem reachable_accounts w :
  reachable w ->
  store_wf (runtime w).1 /\
  (forall q, refcnt (runtime w).1 q = world_refs q (trees w)) /\
  instancesCount (runtime w).2 = Z.of_nat (world_nodes (trees w)).
Proof. intros Hw. by destruct (reachable_world_ok w Hw). Qed.

(** C4: no picture leaks and none is freed while it is held: in every world
    the process can reach, a picture is live in the store exactly when
    some node of some tree holds it. *)
Theorem reachable_no_leak w q :
  reachable w ->
  live (runtime w).1 q <->
  exists l d, l ∈ trees w /\ d ∈ nodes l /\ m_recordingPicture d = Some q.
Proof.
  intros Hw. destruct (reachable_world_ok w Hw) as [Hwf Hr _].
  rewrite (refcnt_live _ _ Hwf), Hr. unfold world_refs.
  change (1 <= ?n) with (0 < n). rewrite sum_list_fmap_pos.
  unfold tree_refs. setoid_rewrite sum_list_fmap_pos. unfold owns.
  split.
  - intros (l & Hl & d & Hd & Hq). exists l, d. split_and!; [done..|].
    destruct (decide (m_recordingPicture d = Some q)); [done|lia].
  - intros (l & d & Hl & Hd & Hq). exists l. split; [done|]. exists d. split; [done|].
    rewrite decide_True by done. lia.
Qed.

(** Destroying the trees one after the other empties the world. *)
Lemma teardown (ts : list (LayerAndroid A)) :
  forall w, world_ok w -> trees w = ts ->
    exists w', run (replicate (length ts) (EvDelete 0)) w = Some w' /\
               world_ok w' /\ trees w' = [].
Proof.
  induction ts as [|l ts IH]; intros w Hw Ht; [by exists w|].
  cbn [length replicate]. rewrite run_cons. cbn [step]. rewrite Ht. cbn.
  apply IH; [|done]. apply (step_delete_ok 0 w); [done|]. cbn [step]. by rewrite Ht.
Qed.

(** C16: everything can be given back: from every world the process can
    reach, destroying the trees the embedder holds leads to a world
    without trees in which no picture is live and the instance counter is
    zero. *)
Theorem reachable_teardown w :
  reachable w ->
  exists evs w', run evs w = Some w' /\ trees w' = [] /\
    instancesCount (runtime w').2 = 0%Z /\ forall q, ~ live (runtime w').1 q.
Proof.
  intros Hw. apply reachable_world_ok in Hw.
  destruct (teardown (trees w) w Hw eq_refl) as (w' & Hrun & [Hwf Hr Hn] & Ht).
  exists (replicate (length (trees w)) (EvDelete 0)), w'.
  rewrite Ht in *. split_and!; [done..|].
  intros q. rewrite (refcnt_live _ _ Hwf), Hr. cbn. lia.
Qed.

End WorldTheorems.

(** ** A session, evaluated

    The embedder builds a root and a layer with contents, gives the layer
    to the root, records and animates it, paints the tree and copies it
    for the drawing thread. *)

#[local] Existing Instance add_keeps_policy.

Definition demo_events : list (Event (A:=KeyframeAnimation)) :=
  [ EvNew true; EvNew false;
    EvSet 1 [] (SetHaveContents true); EvSet 1 [] (SetSize 100 50);
    EvAdopt 0 [] 1;
    EvRecord 0 [0] [demo_rect];
    EvSet 0 [0] (AddAnimation demo_fade);
    EvAnimate 0 [] 5;
    EvDraw 0 [] None (new_canvas SkMatrix.reset);
    EvCopy 0 [] ].

Definition demo_world : World (A:=KeyframeAnimation) :=
  default init_world (run demo_events init_world).

Lemma demo_world_run : run demo_events init_world = Some demo_world.
Proof. vm_compute. reflexivity. Qed.

Lemma demo_world_reachable : reachable demo_world.
Proof. exact (run_reachable demo_events _ _ reachable_init demo_world_run). Qed.

(** The session leaves two trees of two nodes each that share one picture. *)
Lemma demo_world_counts :
  length (trees demo_world) = 2 /\ instancesCount (runtime demo_world).2 = 4%Z /\
  refcnt (runtime demo_world).1 1%positive = 2.
Proof. vm_compute. by split_and!. Qed.

Lemma reachable_accounts_witness :
  store_wf (runtime demo_world).1 /\
  (forall q, refcnt (runtime demo_world).1 q = world_refs q (trees demo_world)) /\
  instancesCount (runtime demo_world).2 = Z.of_nat (world_nodes (trees demo_world)).
Proof. exact (reachable_accounts demo_world demo_world_reachable). Defined.

Lemma reachable_no_leak_witness :
  live (runtime demo_world).1 1%positive <->
  exists l d, l ∈ trees demo_world /\ d ∈ nodes l /\ m_recordingPicture d = Some 1%positive.
Proof. exact (reachable_no_leak demo_world 1%positive demo_world_reachable). Defined.

Lemma reachable_teardown_witness :
  exists evs w', run evs demo_world = Some w' /\ trees w' = [] /\
    instancesCount (runtime w').2 = 0%Z /\ forall q, ~ live (runtime w').1 q.
Proof. exact (reachable_teardown demo_world demo_world_reachable). Defined.
