(* ===== verification/Sharing.v ===== *)
(** * Sharing: recordings are never edited in place

    A recording is shared between a tree and its copies.  What makes the
    sharing safe is that no operation of the layer code writes into a
    picture another owner may hold: a node that needs new content drops its
    reference and gets a fresh picture, and the layout engine records into
    that one.

    [keeps st st'] says that [st'] holds no picture of [st] with other
    content: every picture of [st'] that [st] could have handed out is a
    picture of [st] with the same size and commands.  The relation is a
    preorder, every primitive of the store and every method is in it, and
    so is every sequence of steps of the world. *)

From S2P Require Import Prelude Geometry Matrix Picture SkLayer Animation.
From S2P Require Import Canvas Layer Animate Context Lifecycle Ownership Paint World.

Definition keeps (st st' : PictureStore) : Prop :=
  (next st <= next st')%positive /\
  forall q pic', (q < next st)%positive -> heap st' !! q = Some pic' ->
    exists pic, heap st !! q = Some pic /\ same_content pic' pic.

#[export] Instance same_content_equivalence : Equivalence same_content.
Proof.
  unfold same_content. split.
  - by intros a.
  - intros a b (-> & -> & ->). done.
  - intros a b c (-> & -> & ->) (-> & -> & ->). done.
Qed.

#[export] Instance keeps_preorder : PreOrder keeps.
Proof.
  split.
  - intros st. split; [lia|]. intros q pic _ Hq. by exists pic.
  - intros st1 st2 st3 [N12 K12] [N23 K23]. split; [lia|]. intros q pic3 Hq H3.
    destruct (K23 q pic3) as (pic2 & H2 & E23); [lia|done|].
    destruct (K12 q pic2 Hq H2) as (pic1 & H1 & E12). exists pic1. split; [done|].
    by etrans.
Qed.

(** ** The primitives of the store *)

Section Primitives.
Implicit Types (st : PictureStore) (p q : PicRef) (o : option PicRef).

Lemma keeps_newPicture st : keeps st (newPicture st).2.
Proof.
  split; [rewrite newPicture_next; lia|]. intros q pic' Hq.
  rewrite newPicture_lookup_ne by lia. intros ?. by exists pic'.
Qed.

Lemma keeps_ref st p : keeps st (ref p st).2.
Proof.
  split; [rewrite ref_next; lia|]. intros q pic' _. unfold ref, modify. cbn.
  rewrite lookup_alter.
  case_decide; [subst|intros ?; by exists pic']. destruct (heap st !! q) as [pic|]; [|done].
  intros [= <-]. by exists pic.
Qed.

Lemma keeps_unref st p : keeps st (unref p st).2.
Proof.
  split; [rewrite unref_next; lia|].
  intros q pic' _ Hq. destruct (heap st !! q) as [pic|] eqn:E.
  - exists pic. split; [done|]. by eapply unref_same_content.
  - exfalso. revert Hq. unfold unref, modify. cbn. repeat case_match; cbn;
      rewrite ?lookup_insert, ?lookup_delete; repeat case_decide; subst; congruence.
Qed.

Lemma keeps_safeUnref st o : keeps st (safeUnref o st).2.
Proof. destruct o; [apply keeps_unref|reflexivity]. Qed.

Lemma keeps_SkSafeRef st o : keeps st (SkSafeRef o st).2.
Proof. destruct o; [apply keeps_ref|reflexivity]. Qed.

(** A recording into a picture that an earlier store had not handed out
    yet edits nothing of that store. *)
Lemma keeps_record st0 st p w h cmds :
  keeps st0 st -> (next st0 <= p)%positive -> keeps st0 (record p w h cmds st).2.
Proof.
  intros [N K] Hp. split; [done|]. intros q pic' Hq. unfold record, modify. cbn.
  rewrite lookup_alter_ne by lia. by apply K.
Qed.

End Primitives.

#[export] Hint Resolve keeps_newPicture keeps_ref keeps_unref keeps_safeUnref
  keeps_SkSafeRef : sk.

(** ** Loops *)

Section Loops.
Context {X Y : Type}.

Lemma keeps_foldl (f : X -> PictureStore -> PictureStore) xs :
  (forall x s, x ∈ xs -> keeps s (f x s)) ->
  forall st, keeps st (foldl (fun s x => f x s) st xs).
Proof.
  induction xs as [|x xs IH]; intros Hf st; cbn [foldl]; [reflexivity|].
  etrans; [apply Hf; left|]. apply IH. intros; apply Hf. by right.
Qed.

Lemma keeps_mapS (f : X -> State PictureStore Y) xs st :
  (forall x s, x ∈ xs -> keeps s (f x s).2) -> keeps st (mapS f xs st).2.
Proof.
  intros Hf. apply (mapS_invariant (keeps st) (fun _ _ => True)); [|reflexivity].
  intros x s Hx Hs. split; [|done]. etrans; [done|by apply Hf].
Qed.

End Loops.

(** ** The methods of a layer *)

Section Methods.
Context {A : Type} `{AndroidAnimation A} `{Trig} {policy : AddPolicy}.
Implicit Types (l c child : LayerAndroid A) (path : list nat) (q : PicRef).
Implicit Types (st : PictureStore) (g : Globals) (rt : Runtime) (op : Op (A:=A)).

Lemma keeps_refTree l : forall st, keeps st (refTree l st).
Proof.
  induction l as [l IH] using layer_ind. intros st. rewrite refTree_unfold.
  etrans; [apply keeps_SkSafeRef|]. apply keeps_foldl. intros c s Hc.
  rewrite Forall_forall in IH. by apply IH.
Qed.

Lemma keeps_unrefTree l : forall st, keeps st (unrefTree l st).
Proof.
  induction l as [l IH] using layer_ind. intros st. rewrite unrefTree_unfold.
  etrans; [|apply keeps_safeUnref]. apply keeps_foldl. intros c s Hc.
  rewrite Forall_forall in IH. by apply IH.
Qed.

Lemma keeps_prepareContext force l st : keeps st (pc_store (prepareContext force l st)).
Proof.
  unfold pc_store.
  destruct (prepareContext_cases force l st)
    as [(_ & ->)|[(_ & _ & ->)|[(_ & _ & _ & ->)|(_ & _ & _ & _ & ->)]]];
    cbn [snd]; try reflexivity; [apply keeps_safeUnref|].
  etrans; [apply keeps_safeUnref|apply keeps_newPicture].
Qed.

Lemma keeps_prepareTree l : forall st, keeps st (prepareTree l st).2.
Proof.
  induction l as [l IH] using layer_ind. intros st.
  rewrite prepareTree_unfold, !bind_fst_snd. cbn [ret snd].
  etrans; [apply (keeps_prepareContext false)|]. apply keeps_mapS. intros c s Hc.
  rewrite Forall_forall in IH. by apply IH.
Qed.

(** A method is quiet when no run of it edits a picture of the store it
    starts from. *)
Definition quiet op : Prop := forall l rt, keeps rt.1 (op l rt).2.1.

Lemma quiet_opSet s : quiet (opSet s).
Proof. intros l rt. reflexivity. Qed.

Lemma quiet_opAdopt child : quiet (opAdopt child).
Proof. intros l rt. reflexivity. Qed.

Lemma quiet_opAnimate now : quiet (opAnimate now).
Proof.
  intros l rt. unfold opAnimate. rewrite bind_fst_snd, onCounters_run. reflexivity.
Qed.

Lemma quiet_removeChildren : quiet (removeChildren (A:=A)).
Proof.
  intros l rt. rewrite removeChildren_run. cbn [fst snd].
  apply keeps_foldl. intros; apply keeps_unrefTree.
Qed.

(** The layout engine records into the picture [recordContext] has just
    created, never into one the store held before the call. *)
Lemma quiet_opRecord cmds : quiet (opRecord (A:=A) cmds).
Proof.
  intros l [st g]. unfold opRecord. rewrite onStore_run, !bind_fst_snd. cbn [fst snd].
  rewrite recordContext_run. cbn [fst snd].
  pose proof (keeps_prepareContext true l st) as K. unfold pc_result, pc_layer, pc_store in *.
  destruct (prepareContext_cases true l st)
    as [(_ & E)|[(_ & _ & E)|[(_ & _ & _ & E)|(_ & _ & [=] & _)]]];
    rewrite E in *; cbn [ret fst snd m_recordingPicture with_recordingPicture] in *;
    try done.
  apply keeps_record; [done|]. rewrite safeUnref_next. lia.
Qed.

Lemma quiet_opDraw viewPort cv : quiet (opDraw (A:=A) viewPort cv).
Proof.
  intros l [st g]. unfold opDraw, draw. cbn zeta. cbn [fst snd].
  rewrite bind_fst_snd, onGlobals_run. cbn [fst snd modify pictures canvas globals].
  set (p := mkPainter st cv (with_childLevel 0 g)).
  destruct (paintChildren_prepares l viewPort 1%Q p) as [_ ->]. apply keeps_prepareTree.
Qed.

Lemma modifyAt_keeps op path :
  quiet op -> forall l rt, keeps rt.1 (modifyAt op path l rt).2.1.
Proof.
  intros Hop. induction path as [|i path IH]; intros l rt; [apply Hop|].
  cbn [modifyAt]. destruct (children l !! i) as [c|]; [|reflexivity].
  rewrite bind_fst_snd. apply IH.
Qed.

End Methods.

(** ** The steps of the world *)

Section Steps.
Context {A : Type} `{AndroidAnimation A} `{Trig} {policy : AddPolicy}.
Implicit Types (w : World (A:=A)) (op : Op (A:=A)) (ev : Event (A:=A)).

Lemma modifyTree_keeps i path op w w' :
  quiet op -> modifyTree i path op w = Some w' -> keeps (runtime w).1 (runtime w').1.
Proof.
  intros Hop. unfold modifyTree. destruct (trees w !! i) as [l|]; [|done].
  cbn [mbind option_bind]. destruct (subtreeAt path l); [|done].
  intros [= <-]. by apply modifyAt_keeps.
Qed.

Lemma step_keeps ev w w' : step ev w = Some w' -> keeps (runtime w).1 (runtime w').1.
Proof.
  destruct ev; cbn [step];
    eauto using modifyTree_keeps, quiet_removeChildren, quiet_opSet, quiet_opRecord,
      quiet_opAnimate, quiet_opDraw.
  - intros [= <-]. reflexivity.
  - destruct (trees w !! i ≫= subtreeAt path) as [l|]; [|done]. intros [= <-].
    rewrite LayerAndroid_copy_run. apply keeps_refTree.
  - destruct (trees w !! i) as [l|]; [|done]. intros [= <-].
    rewrite LayerAndroid_delete_run. apply keeps_unrefTree.
  - case_decide; [done|]. destruct (trees w !! j) as [child|]; [|done].
    cbn [mbind option_bind].
    destruct (modifyTree i path (opAdopt child) w) as [w1|] eqn:E; [|done].
    intros [= <-]. cbn [runtime]. eauto using modifyTree_keeps, quiet_opAdopt.
Qed.

Lemma run_keeps evs : forall w w', run evs w = Some w' -> keeps (runtime w).1 (runtime w').1.
Proof.
  induction evs as [|ev evs IH]; intros w w'; [intros [= <-]; reflexivity|].
  rewrite run_cons. destruct (step ev w) as [w1|] eqn:E; [|done]. cbn [mbind option_bind].
  intros Hr. etrans; [by eapply step_keeps|by apply IH].
Qed.

End Steps.

(** ** What a recording holds *)

Section Recorded.
Context {A : Type} `{AndroidAnimation A} `{Trig} {policy : AddPolicy}.
Implicit Types (l c : LayerAndroid A) (path : list nat) (st : PictureStore) (g : Globals).
Implicit Types (w : World (A:=A)) (op : Op (A:=A)) (ev : Event (A:=A)).

(** The process sees of a method run below the root what it would see of
    the method run on the node. *)
Lemma modifyAt_runtime op path :
  forall l c rt, subtreeAt path l = Some c -> (modifyAt op path l rt).2 = (op c rt).2.
Proof.
  induction path as [|i path IH]; intros l c rt Hc; cbn [subtreeAt modifyAt] in *;
    [by simplify_eq|].
  destruct (children l !! i) as [d|]; [|done]. rewrite bind_fst_snd. by apply IH.
Qed.

(** The store after the layout engine has recorded a node that takes a
    picture. *)
Lemma opRecord_store cmds c st g :
  m_haveContents c = true -> m_isRootLayer c = false ->
  (opRecord cmds c (st, g)).2.1
  = (record (next st) (intWidth c) (intHeight c) cmds
       (newPicture (safeUnref (m_recordingPicture c) st).2).2).2.
Proof.
  intros Hc Hr. unfold opRecord. rewrite onStore_run, !bind_fst_snd. cbn [fst snd].
  by rewrite recordContext_some.
Qed.

Lemma opRecord_lookup cmds c st g :
  m_haveContents c = true -> m_isRootLayer c = false ->
  heap (opRecord cmds c (st, g)).2.1 !! next st
  = Some (SkPicture.mk (intWidth c) (intHeight c) cmds 1).
Proof.
  intros Hc Hr. rewrite opRecord_store by done. unfold record, modify. cbn [snd heap].
  rewrite lookup_alter_eq. rewrite <- (safeUnref_next st (m_recordingPicture c)).
  by rewrite newPicture_lookup.
Qed.

Lemma step_record_lookup i path cmds w w1 l c :
  trees w !! i = Some l -> subtreeAt path l = Some c ->
  m_haveContents c = true -> m_isRootLayer c = false ->
  step (EvRecord i path cmds) w = Some w1 ->
  heap (runtime w1).1 !! next (runtime w).1
  = Some (SkPicture.mk (intWidth c) (intHeight c) cmds 1) /\
  next (runtime w1).1 = Pos.succ (next (runtime w).1).
Proof.
  intros Hl Hs Hc Hr. cbn [step]. unfold modifyTree. rewrite Hl. cbn [mbind option_bind].
  rewrite Hs. intros [= <-]. cbn [runtime]. rewrite (modifyAt_runtime _ path l c) by done.
  destruct (runtime w) as [st g]. split; [by apply opRecord_lookup|].
  rewrite opRecord_store by done. unfold record, modify. cbn [snd next fst].
  by rewrite newPicture_next, safeUnref_next.
Qed.

(** C21: the pictures of the process are never edited in place.  Whatever
    the embedder does to its trees (setters, recording, animation,
    painting, copies, destruction), a picture that exists before and
    after has the size and the commands it had: a tree and its copies,
    which share their recordings, never see each other's changes. *)
Theorem run_pictures_immutable evs w w' q pic pic' :
  reachable w -> run evs w = Some w' ->
  heap (runtime w).1 !! q = Some pic -> heap (runtime w').1 !! q = Some pic' ->
  same_content pic' pic.
Proof.
  intros Hw Hr Hq Hq'. destruct (reachable_world_ok w Hw) as [Hwf _ _].
  destruct (run_keeps evs w w' Hr) as [_ K].
  destruct (K q pic') as (pic0 & E & Hs); [by eapply Hwf|done|]. by simplify_eq.
Qed.

(** C25: what the layout engine records for a node stays what the picture
    holds: after [recordContext] on a node that has contents and is not a
    root, and the recording of [cmds] into the picture it returns, that
    picture has the node's size, cast to integers, and the commands
    [cmds], in every later state of the process in which it exists. *)
Theorem recorded_content_stays i path cmds evs w w1 w2 l c pic :
  trees w !! i = Some l -> subtreeAt path l = Some c ->
  m_haveContents c = true -> m_isRootLayer c = false ->
  step (EvRecord i path cmds) w = Some w1 -> run evs w1 = Some w2 ->
  heap (runtime w2).1 !! next (runtime w).1 = Some pic ->
  same_content pic (SkPicture.mk (intWidth c) (intHeight c) cmds 1).
Proof.
  intros Hl Hs Hc Hr H1 H2 Hp.
  destruct (step_record_lookup i path cmds w w1 l c) as [E N]; [done..|].
  destruct (run_keeps evs w1 w2 H2) as [_ K].
  destruct (K (next (runtime w).1) pic) as (pic0 & E0 & Hs0); [lia|done|].
  by simplify_eq.
Qed.

End Recorded.

(** ** A session

    The session of [demo_events] up to the recording of the child, and what
    follows: the animation, the painting and the copy of the tree, and then
    a second recording of the child, which gives it a new picture while the
    copy keeps the first. *)

#[local] Existing Instance add_keeps_policy.

Definition demo_recording : World (A:=KeyframeAnimation) :=
  default init_world (run (take 5 demo_events) init_world).

Definition demo_recorded_world : World (A:=KeyframeAnimation) :=
  default init_world (step (EvRecord 0 [0] [demo_rect]) demo_recording).

Definition demo_later_events : list (Event (A:=KeyframeAnimation)) :=
  drop 6 demo_events ++ [EvRecord 0 [0] []].

Definition demo_later : World (A:=KeyframeAnimation) :=
  default init_world (run demo_later_events demo_recorded_world).

Definition demo_picture (w : World (A:=KeyframeAnimation)) : SkPicture.t :=
  default SkPicture.empty (heap (runtime w).1 !! 1%positive).

Lemma demo_recorded_world_reachable : reachable demo_recorded_world.
Proof.
  apply (run_reachable (take 6 demo_events) init_world); [apply reachable_init|].
  vm_compute. reflexivity.
Qed.

Lemma demo_later_run : run demo_later_events demo_recorded_world = Some demo_later.
Proof. vm_compute. reflexivity. Qed.

(** The first picture has lost the child of the tree and gained the child
    of the copy, and holds what was recorded. *)
Lemma demo_later_picture : demo_picture demo_later = SkPicture.mk 100 50 [demo_rect] 1.
Proof. vm_compute. reflexivity. Qed.

Lemma run_pictures_immutable_witness :
  same_content (demo_picture demo_later) (demo_picture demo_recorded_world).
Proof.
  apply (run_pictures_immutable demo_later_events demo_recorded_world demo_later 1%positive);
    [apply demo_recorded_world_reachable|apply demo_later_run|..]; vm_compute; reflexivity.
Defined.

Lemma recorded_content_stays_witness :
  same_content (demo_picture demo_later) (SkPicture.mk 100 50 [demo_rect] 1).
Proof.
  apply (recorded_content_stays 0 [0] [demo_rect] demo_later_events
           demo_recording demo_recorded_world demo_later
           (default demo_root (trees demo_recording !! 0))
           (setSize 100 50 (setHaveContents true (LayerAndroid_new false init_globals).1)));
    vm_compute; reflexivity.
Defined.
