(* ===== verification/Wellformed.v ===== *)
(** * Wellformed: what holds of every node the process can reach

    Three fields of a node are written by few operations: the root flag by
    the constructors only, the recording by [prepareContext] and the copy
    constructor, the animations by [addAnimation], [removeAnimation] and the
    copy constructor.  A property of these fields that those writes keep
    therefore holds of every node of every tree in every world the process
    can reach.  [NodeInvariant] is that interface: the writes, one law
    each.  The steps of the world are shown to keep any such property, and
    two instances give the invariants of the layer tree: a root never holds
    a recording, and every animation is stored under its own name. *)

From S2P Require Import Prelude Geometry Matrix Picture SkLayer Animation.
From S2P Require Import Canvas Layer Animate Context Lifecycle Ownership Paint World.

(** ** The interface *)

Section Interface.
Context {A : Type} `{AndroidAnimation A} {policy : AddPolicy}.

(** A property of the root flag, the recording and the animations. *)
Definition NodePred : Type := bool -> option PicRef -> gmap string A -> Prop.

Class NodeInvariant (P : NodePred) : Prop := {
  (** the constructor *)
  inv_new isRootLayer : P isRootLayer None ∅;
  (** [addAnimation] and [removeAnimation] *)
  inv_add r o m (anim : A) : P r o m -> P r o (HashMap_add (name anim) anim m);
  inv_remove r o m nm : P r o m -> P r o (HashMap_remove nm m);
  (** the copy constructor *)
  inv_copy r o m : P r o m -> P r o (copyAnimations m);
  (** [prepareContext] on a root: the recording is dropped *)
  inv_drop o m : P true o m -> P true None m;
  (** [prepareContext] on another node: a picture is installed *)
  inv_install o m p : P false o m -> P false (Some p) m }.

Definition holds (P : NodePred) (d : LayerAndroid A) : Prop :=
  P (m_isRootLayer d) (m_recordingPicture d) (m_animations d).

Definition tree_inv (P : NodePred) (l : LayerAndroid A) : Prop :=
  Forall (holds P) (nodes l).

Definition world_inv `{Trig} (P : NodePred) (w : World (A:=A)) : Prop :=
  Forall (tree_inv P) (trees w).

(** A root holds no recording. *)
Definition root_unrecorded : NodePred := fun r o _ => r = true -> o = None.

(** Every animation is stored under its own name. *)
Definition named : NodePred := fun _ _ m => names_ok m.

#[export] Instance root_unrecorded_invariant : NodeInvariant root_unrecorded.
Proof. by split; unfold root_unrecorded. Qed.

Lemma names_ok_add m (anim : A) : names_ok m -> names_ok (HashMap_add (name anim) anim m).
Proof.
  intros Hn k a. destruct (decide (name anim = k)) as [<-|Hne].
  - destruct (HashMap_add_lookup_cases (name anim) anim m) as [->|[-> _]];
      [by intros [= <-]|apply Hn].
  - rewrite HashMap_add_lookup_ne by done. apply Hn.
Qed.

Lemma names_ok_remove m nm : names_ok m -> names_ok (HashMap_remove nm m).
Proof.
  intros Hn k a. destruct (decide (nm = k)) as [<-|Hne].
  - by rewrite HashMap_remove_lookup.
  - rewrite HashMap_remove_lookup_ne by done. apply Hn.
Qed.

#[export] Instance named_invariant `{!AndroidAnimationLaws A} : NodeInvariant named.
Proof.
  split; unfold named; auto using names_ok_add, names_ok_remove, copyAnimations_names_ok.
  intros _ k a. by rewrite lookup_empty.
Qed.

End Interface.

(** ** The methods keep a node invariant *)

Section Methods.
Context {A : Type} `{AndroidAnimation A} `{Trig} {policy : AddPolicy}.
Context (P : NodePred (A:=A)) `{!NodeInvariant P}.
Implicit Types (l c d child : LayerAndroid A) (path : list nat) (st : PictureStore).
Implicit Types (rt : Runtime) (op : Op (A:=A)).

Lemma tree_inv_unfold l : tree_inv P l <-> holds P l /\ Forall (tree_inv P) (children l).
Proof. apply Forall_nodes. Qed.

Lemma tree_inv_with_children cs l :
  tree_inv P (with_children cs l) <-> holds P l /\ Forall (tree_inv P) cs.
Proof. rewrite tree_inv_unfold. by destruct l. Qed.

(** A write to the node that keeps its children. *)
Lemma tree_inv_node l l' :
  children l' = children l -> (holds P l -> holds P l') -> tree_inv P l -> tree_inv P l'.
Proof. rewrite !tree_inv_unfold. intros -> Hh [? ?]. auto. Qed.

Lemma tree_inv_setDrawsContent b l : tree_inv P l -> tree_inv P (setDrawsContent b l).
Proof.
  induction l as [l IH] using layer_ind.
  rewrite setDrawsContent_unfold, tree_inv_with_children, tree_inv_unfold, Forall_fmap.
  intros [Hl Hc]. split; [by destruct l|].
  rewrite Forall_forall in IH, Hc. apply Forall_forall. intros c Hin. by apply IH, Hc.
Qed.

Lemma tree_inv_applySetter s l : tree_inv P l -> tree_inv P (applySetter s l).
Proof.
  destruct s; cbn [applySetter];
    try (apply tree_inv_node; [by destruct l|by destruct l]).
  - apply tree_inv_setDrawsContent.
  - unfold setMaskLayer. repeat case_match; try done; apply tree_inv_node; by destruct l.
  - intros Hl. apply tree_inv_setDrawsContent. revert Hl.
    apply tree_inv_node; by destruct l.
  - apply tree_inv_node; [by destruct l|]. destruct l. unfold holds. cbn. apply inv_add.
  - apply tree_inv_node; [by destruct l|]. destruct l. unfold holds. cbn. apply inv_remove.
Qed.

Lemma tree_inv_animated time l : tree_inv P l -> tree_inv P (animated time l).2.
Proof.
  induction l as [l IH] using layer_ind.
  rewrite (tree_inv_unfold l), tree_inv_unfold, animated_children, Forall_fmap.
  intros [Hl Hc]. split.
  - change (holds P (with_children (children l) (animated time l).2)).
    rewrite animated_base_frame. by destruct l.
  - rewrite Forall_forall in IH, Hc. apply Forall_forall. intros c Hin. by apply IH, Hc.
Qed.

Lemma holds_prepareContext force l st :
  holds P l -> holds P (pc_layer (prepareContext force l st)).
Proof.
  unfold pc_layer, holds.
  destruct (prepareContext_cases force l st)
    as [(_ & ->)|[(_ & Hr & ->)|[(_ & Hr & _ & ->)|(_ & _ & _ & _ & ->)]]];
    try done; destruct l; cbn in *; subst; [apply inv_drop|apply inv_install].
Qed.

Lemma tree_inv_prepareContext force l st :
  tree_inv P l -> tree_inv P (pc_layer (prepareContext force l st)).
Proof.
  apply tree_inv_node; [apply prepareContext_children|apply holds_prepareContext].
Qed.

Lemma tree_inv_prepareTree l : forall st, tree_inv P l -> tree_inv P (prepareTree l st).1.
Proof.
  induction l as [l IH] using layer_ind. intros st.
  rewrite prepareTree_unfold, !bind_fst_snd, tree_inv_unfold. cbn [ret fst].
  intros [Hl Hc]. apply tree_inv_with_children.
  split; [by apply (holds_prepareContext false)|].
  apply (mapS_Forall (tree_inv P)); [|done].
  intros c s Hin. rewrite Forall_forall in IH. by apply IH.
Qed.

Lemma tree_inv_cloned l : tree_inv P l -> tree_inv P (cloned l).
Proof.
  induction l as [l IH] using layer_ind.
  rewrite cloned_unfold, (tree_inv_unfold l), tree_inv_unfold. cbn [children]. rewrite Forall_fmap.
  intros [Hl Hc]. split; [by apply inv_copy|].
  rewrite Forall_forall in IH, Hc. apply Forall_forall. intros c Hin. by apply IH, Hc.
Qed.

Lemma tree_inv_subtreeAt path :
  forall l c, subtreeAt path l = Some c -> tree_inv P l -> tree_inv P c.
Proof.
  induction path as [|i path IH]; intros l c Hc Hl; cbn [subtreeAt] in Hc; [by simplify_eq|].
  destruct (children l !! i) as [d|] eqn:Hd; [|done]. apply (IH d); [done|].
  apply tree_inv_unfold in Hl as [_ Hcs]. by eapply Forall_lookup_1.
Qed.

(** A method keeps the invariant when the tree it leaves has it. *)
Definition sound op : Prop := forall l rt, tree_inv P l -> tree_inv P (op l rt).1.

Lemma sound_opSet s : sound (opSet s).
Proof. intros l rt. apply tree_inv_applySetter. Qed.

Lemma sound_opAdopt child : tree_inv P child -> sound (opAdopt child).
Proof.
  intros Hc l rt. cbn [opAdopt ret fst]. unfold addChild.
  rewrite tree_inv_unfold, tree_inv_with_children, Forall_app, Forall_singleton. tauto.
Qed.

Lemma sound_removeChildren : sound (removeChildren (A:=A)).
Proof.
  intros l rt. rewrite removeChildren_run. cbn [fst].
  rewrite tree_inv_unfold, tree_inv_with_children. intros [? _]. by split.
Qed.

Lemma sound_opRecord cmds : sound (opRecord (A:=A) cmds).
Proof.
  intros l [st g]. unfold opRecord. rewrite onStore_run, !bind_fst_snd, recordContext_run.
  cbn [fst snd ret]. apply (tree_inv_prepareContext true).
Qed.

Lemma sound_opAnimate now : sound (opAnimate now).
Proof.
  intros l rt. unfold opAnimate, evaluateAnimations.
  rewrite !bind_fst_snd, onCounters_run, bind_fst_snd, evaluateAnimations_at_run.
  apply tree_inv_animated.
Qed.

Lemma sound_opDraw viewPort cv : sound (opDraw (A:=A) viewPort cv).
Proof.
  intros l [st g]. unfold opDraw, draw. cbn zeta. cbn [fst snd].
  rewrite bind_fst_snd, onGlobals_run. cbn [fst snd modify pictures canvas globals].
  set (p := mkPainter st cv (with_childLevel 0 g)).
  destruct (paintChildren_prepares l viewPort 1%Q p) as [-> _]. apply tree_inv_prepareTree.
Qed.

Lemma modifyAt_sound op path :
  sound op -> forall l rt, tree_inv P l -> tree_inv P (modifyAt op path l rt).1.
Proof.
  intros Hop. induction path as [|i path IH]; intros l rt Hl; [by apply Hop|].
  cbn [modifyAt]. destruct (children l !! i) as [c|] eqn:Hc; [|done].
  rewrite bind_fst_snd. cbn [ret fst]. apply tree_inv_unfold in Hl as [Hd Hcs].
  apply tree_inv_with_children. split; [done|].
  apply Forall_insert; [done|]. apply IH. by eapply Forall_lookup_1.
Qed.

End Methods.

(** ** The steps of the world keep a node invariant *)

Section Steps.
Context {A : Type} `{AndroidAnimation A} `{Trig} {policy : AddPolicy}.
Context (P : NodePred (A:=A)) `{!NodeInvariant P}.
Implicit Types (l c d : LayerAndroid A) (path : list nat).
Implicit Types (w : World (A:=A)) (op : Op (A:=A)) (ev : Event (A:=A)).

Lemma world_inv_lookup w i l : world_inv P w -> trees w !! i = Some l -> tree_inv P l.
Proof. intros Hw Hl. by eapply Forall_lookup_1. Qed.

Lemma world_inv_snoc w rt l :
  world_inv P w -> tree_inv P l -> world_inv P (mkWorld rt (trees w ++ [l])).
Proof. intros Hw Hl. apply Forall_app. by split; [|apply Forall_singleton]. Qed.

Lemma tree_inv_new isRootLayer g : tree_inv P (LayerAndroid_new (A:=A) isRootLayer g).1.
Proof. apply tree_inv_unfold. split; [apply inv_new|constructor]. Qed.

Lemma modifyTree_inv i path op w w' :
  sound P op -> world_inv P w -> modifyTree i path op w = Some w' -> world_inv P w'.
Proof.
  intros Hop Hw. unfold modifyTree. destruct (trees w !! i) as [l|] eqn:Hl; [|done].
  cbn [mbind option_bind]. destruct (subtreeAt path l); [|done]. intros [= <-].
  apply Forall_insert; [done|]. apply modifyAt_sound; [done..|]. by eapply world_inv_lookup.
Qed.

Lemma step_inv ev w w' : world_inv P w -> step ev w = Some w' -> world_inv P w'.
Proof.
  intros Hw. destruct ev; cbn [step];
    eauto using modifyTree_inv, sound_removeChildren, sound_opSet, sound_opRecord,
      sound_opAnimate, sound_opDraw.
  - intros [= <-]. apply world_inv_snoc; [done|apply (tree_inv_new isRootLayer init_globals)].
  - destruct (trees w !! i) as [l|] eqn:Hl; [|done]. cbn [mbind option_bind].
    destruct (subtreeAt path l) as [c|] eqn:Hc; [|done]. intros [= <-].
    rewrite LayerAndroid_copy_run. apply world_inv_snoc; [done|].
    eauto using tree_inv_cloned, tree_inv_subtreeAt, world_inv_lookup.
  - destruct (trees w !! i) as [l|]; [|done]. intros [= <-]. by apply Forall_delete.
  - case_decide; [done|]. destruct (trees w !! j) as [child|] eqn:Hj; [|done].
    cbn [mbind option_bind].
    destruct (modifyTree i path (opAdopt child) w) as [w1|] eqn:E; [|done].
    intros [= <-]. apply Forall_delete.
    apply (modifyTree_inv i path (opAdopt child) w); [|done..].
    eauto using sound_opAdopt, world_inv_lookup.
Qed.

Lemma reachable_inv w : reachable w -> world_inv P w.
Proof. induction 1; [constructor|by eapply step_inv]. Qed.

(** The invariant at a node of a reachable world. *)
Lemma reachable_holds w i l d :
  reachable w -> trees w !! i = Some l -> d ∈ nodes l -> holds P d.
Proof.
  intros Hw Hl Hd. pose proof (world_inv_lookup w i l (reachable_inv w Hw) Hl) as Ht.
  unfold tree_inv in Ht. rewrite Forall_forall in Ht. by apply Ht.
Qed.

End Steps.

(** ** The invariants of the layer tree *)

Section Invariants.
Context {A : Type} `{AndroidAnimation A} `{Trig} {policy : AddPolicy}.
Implicit Types (l c d : LayerAndroid A) (path : list nat) (w : World (A:=A)).

(** C22: a root never holds a recording: in every world the process can
    reach, a node of any tree whose root flag is set has the null pointer
    as its recording, whether [prepareContext] has run on it or not. *)
Theorem reachable_root_unrecorded w i l d :
  reachable w -> trees w !! i = Some l -> d ∈ nodes l ->
  m_isRootLayer d = true -> m_recordingPicture d = None.
Proof. intros Hw Hl Hd. exact (reachable_holds root_unrecorded w i l d Hw Hl Hd). Qed.

Section Named.
Context `{!AndroidAnimationLaws A}.

(** In every world the process can reach, every animation of every node is
    stored under its own name. *)
Lemma reachable_named w i l d :
  reachable w -> trees w !! i = Some l -> d ∈ nodes l -> names_ok (m_animations d).
Proof. intros Hw Hl Hd. exact (reachable_holds named w i l d Hw Hl Hd). Qed.

Lemma subtreeAt_nodes path : forall l c d, subtreeAt path l = Some c -> d ∈ nodes c -> d ∈ nodes l.
Proof.
  induction path as [|i path IH]; intros l c d Hc Hd; cbn [subtreeAt] in Hc; [by simplify_eq|].
  destruct (children l !! i) as [e|] eqn:He; [|done].
  eapply nodes_child; [by eapply list_elem_of_lookup_2|by eapply IH].
Qed.

(** C30: a copy loses no animation: when a tree of a reachable world is
    copied, the world gains one tree, of the shape of the source, and node
    by node its animations are the copies of the animations of the source
    under the same keys; the loop that adds each copy under its name never
    meets a name twice. *)
Theorem reachable_copy_animations w w' i path l c :
  reachable w -> trees w !! i = Some l -> subtreeAt path l = Some c ->
  step (EvCopy i path) w = Some w' ->
  exists c', trees w' = trees w ++ [c'] /\ shape c' = shape c /\
    Forall2 (fun d d' => m_animations d' = copy <$> m_animations d) (nodes c) (nodes c').
Proof.
  intros Hw Hl Hc. cbn [step]. rewrite Hl. cbn [mbind option_bind]. rewrite Hc.
  intros [= <-]. rewrite LayerAndroid_copy_run. exists (cloned c).
  split_and!; [done|apply cloned_shape|].
  rewrite (nodes_map cloned) by apply cloned_children.
  apply Forall2_fmap_r, Forall_Forall2_diag, Forall_forall. intros d Hd.
  unfold compose. rewrite cloned_unfold. cbn [m_animations]. apply copyAnimations_fmap.
  eauto using reachable_named, subtreeAt_nodes.
Qed.

End Named.
End Invariants.

(** ** The session of [demo_events] *)

#[local] Existing Instance add_keeps_policy.

Definition demo_tree : LayerAndroid KeyframeAnimation :=
  default demo_root (trees demo_world !! 0).

Definition demo_copied : World (A:=KeyframeAnimation) :=
  default init_world (step (EvCopy 0 []) demo_world).

(** The tree of the session is a root over a child that holds the picture
    recorded and the animation added. *)
Lemma demo_tree_nodes :
  m_isRootLayer <$> nodes demo_tree = [true; false] /\
  m_recordingPicture <$> nodes demo_tree = [None; Some 1%positive] /\
  (fun d => HashMap_size (m_animations d)) <$> nodes demo_tree = [0; 1].
Proof. vm_compute. by split_and!. Qed.

Lemma reachable_root_unrecorded_witness : m_recordingPicture demo_tree = None.
Proof.
  apply (reachable_root_unrecorded demo_world 0 demo_tree demo_tree);
    [apply demo_world_reachable|vm_compute; reflexivity|apply nodes_self
    |vm_compute; reflexivity].
Defined.

Lemma reachable_copy_animations_witness :
  exists c', trees demo_copied = trees demo_world ++ [c'] /\ shape c' = shape demo_tree /\
    Forall2 (fun d d' => m_animations d' = copy <$> m_animations d)
      (nodes demo_tree) (nodes c').
Proof.
  apply (reachable_copy_animations demo_world demo_copied 0 [] demo_tree demo_tree);
    [apply demo_world_reachable|vm_compute; reflexivity..].
Defined.
